(* ===== verification/_CoqProject ===== *)
-Q . S2P
Prelude.v
RustStr.v
RustNet.v
Io.v
Procs.v
Script.v
Errors.v
Dns.v
WebLib.v
Wire.v
Base64.v
Cache.v
CacheSpec.v
CachePool.v
Latency.v
Bootstrap.v
Framing.v
Network.v
PlainUdp.v
PlainTcp.v
Dot.v
Doq.v
Doh3.v
Doh.v
TlsClient.v
CryptoLib.v
Crypto.v
Stamp.v
Keygen.v
DnsCrypt.v
Upstream.v
Delivery.v
UpstreamUrl.v
UpstreamConfig.v
WellFormed.v
ListenerIo.v
ListenerDnsCrypt.v
ListenerDoh.v
ListenerTls.v
MainArgs.v
Main.v
Cli.v
Server.v
Startup.v
Program.v
StartupErrors.v
Progress.v
Loopback.v
TestLib.v
UnitTests.v
LoopbackTests.v
