(* ===== verification/Prelude.v ===== *)
(** * dnsproxy: a verification of the DNS forwarding proxy

    The program is a DNS proxy: it listens for queries over plain UDP and TCP,
    DNS over TLS, DNS over QUIC, DNS over HTTPS (HTTP/1.1, HTTP/2 and HTTP/3)
    and DNSCrypt, optionally answers from a cache, and otherwise forwards each
    query to the upstreams that a set of domain rules selects, trying them in
    order until one answers. This library is a shallow embedding of it: the
    functions of [src/src] translated to Rocq, file by file, with the theorems
    that say what they do.

    ** How the program is put together

    [main] turns the command line into options, bootstrap resolvers, rule
    lines and credentials, builds one query handler (the rules, behind the
    cache when there is one) and starts every listener on it. A listener
    decodes a query, calls the handler, and encodes the answer. The handler of
    the rules finds the group of upstreams of the longest matching domain
    suffix and tries them; each upstream is one of six transports, which
    resolve and dial through a bootstrap resolver, exchange one message and
    check the answer's question.

    ** How it is modelled

    - An [async fn] is a value of [io S A] ([Io.v]): a tree of calls to the
      operating system and the protocol libraries and of atomic sections on the
      shared state [S]. [wp] and [safe] are its program logics (for one task
      alone; for a task among others that keep an invariant), [exec] its
      traces, [makes] the calls it can make, [pool_step] the interleaving of
      many tasks, [at_most] a bound on its calls. A value of [io] is finite, so
      every function here returns once its calls do. A loop that spawns tasks
      is a process of [Procs.v]: [sys_exec] runs a store and any number of
      processes, one step of one at a time. [main], which awaits some functions and spawns others, is a
      [script] ([Script.v]), and a process as well.
    - [Result] with unwinding is [res A E]: [Ok], [Err], and [Panic] for an
      index out of range or an [unwrap] that fails.
    - Machine integers are [Z] with their wrap-around or saturation written
      out; bytes are [Byte.byte]; [f64] averages are exact integers times
      powers of two with IEEE rounding ([Latency.v]).
    - A [Mutex], [RwLock] or atomic of an object is a [cell] of the shared
      state, with the lens laws [CellLaws]; a lock held across an [await] is
      modelled by the separate reads and writes under it, which allows more
      interleavings than the lock does.
    - [slice::sort_by_key] reads its keys while it sorts, and in load-balance
      mode they are latencies that other tasks write: [SortPlan] answers with
      any course of comparisons, which sorts when the keys keep still and may
      give any order or unwind when they do not, as the method documents.
    - What is not in [src] is an interface: DNS messages and their codec
      ([DnsLib], [DnsCodec], laws in [DnsLaws]), base64 ([Base64]), the URI
      parser and TLS server names ([WebLib]), the cryptographic primitives
      ([CryptoLib], [CryptoLaws]), the LRU map ([Lru], [LruLaws]), PEM files
      and the TLS and QUIC server configuration ([TlsLib]). Each has an
      executable instance, on which the witnesses run.

    ** The files

    - [Prelude], [RustStr], [RustNet], [Io], [Procs], [Script]: outcomes, bytes
      and integers; the [str] functions and [std::net] parsers and printers the
      program calls; the effect monad; systems of tasks; tasks that spawn others.
    - [Errors]: [error.rs], [options.rs]. [Dns], [WebLib], [CryptoLib]: the
      interfaces.
    - [Wire]: [client/wire.rs]. [Base64]: the encoding of RFC 4648, an instance
      of the interface that [Wire] uses. [Bootstrap]: [client/bootstrap.rs].
      [Framing]: what the stream transports share.
    - [PlainUdp], [PlainTcp], [Dot], [Doq], [Doh3], [Doh]: the transports of
      the same names under [client]. [Crypto], [Stamp], [Keygen], [DnsCrypt]:
      [client/dnscrypt] and [client/dnscrypt.rs]. [TlsClient]: the TLS
      configuration of the clients, in [client/doh.rs].
    - [Latency], [Upstream]: [client/upstream.rs]. [UpstreamUrl]:
      [client/upstream_url.rs]. [UpstreamConfig]: [client/upstream_config.rs].
      [WellFormed]: the types of what the parsers build.
    - [Cache]: [cache.rs]. [CacheSpec]: the map with expiry that the cache
      implements. [CachePool]: any number of queries served through one cache.
    - [ListenerIo], [ListenerDnsCrypt], [ListenerDoh], [ListenerTls]: the
      [listener] directory.
    - [MainArgs], [Main], [Cli]: [main.rs], the last its declarations of the
      command line. [Server]: the loops of all listeners with the tasks they
      spawn, from the state [main] leaves. [Startup]: [main] as the task that
      spawns these loops with the [serve_all] functions of [listener], and the
      system it starts. [Program]: safety and liveness of that system.
      [StartupErrors]: when and how [main] fails.
    - [Network]: what a network with a server on it may answer to the calls of
      a client. [Delivery], [Progress]: on such a network the upstreams and the
      whole program answer.
    - [Loopback]: an executable network of scripted machines and a scheduler.
      [TestLib], [UnitTests], [LoopbackTests]: the tests of the repository (the
      [tests] modules of the sources and [src/tests]), run on the model.

    ** What is proved

    - The whole program ([Program], [Server], [Main], [MainArgs]): from the first
      step of [main] on, whatever arrives, whatever its calls answer and however
      its tasks interleave, every datagram and HTTP response it sends answers the
      question of a query it received from that peer, on a socket bound at an
      address of the command line, with credentials where they are asked for;
      once [main] has nothing left to start, every address asked for has its
      running loop, and no failure or panic ends one; it has bound exactly the
      addresses asked for; private reverse lookups, and only they, go to the
      private upstream; a bootstrap resolver never needs a resolver.
    - Start ([StartupErrors]): [main] fails at the first call that fails, with
      the report of it, or for one of the listed faults of the arguments and
      files, and in no other way; it unwinds only when a crypto provider is
      installed already or standard output cannot be written.
    - Queries are answered ([Network], [Delivery], [Progress]): when an upstream
      is reachable and replies within its deadline, the exchange returns its
      answer, over each transport, and the running program sends it to the peer.
      In load-balance mode the query may instead unwind in the sort, when other
      tasks record latencies meanwhile; a run that answers exists in every mode.
    - The command line ([Cli]): what the declared options accept; every listen
      address given is bound; the checks that [main] repeats after the parser
      never fire; what the log filter lets through.
    - Rules ([UpstreamConfig], [WellFormed]): parsing gives every line's upstreams
      to exactly its domains, in order, or reports every bad line; what it
      builds is well-formed, with ports and addresses in range; a query goes to the
      group of the longest matching suffix; upstreams are tried in order and
      the first success, or else the last error, is the outcome; round robin is
      fair; load balancing orders by measured latency, untested first, when no
      other task records a latency while it sorts.
    - Cache ([Cache], [CacheSpec], [CachePool]): under any interleaving an answer
      is the handler's, or what the handler gave another query for the same
      question, type, class and DNSSEC flags, with the new identifier, at a
      reading of the clock less than the storage time after the one it was
      stored with; lifetimes and remaining times are computed as configured; the
      cache refines an unbounded map.
    - Transports ([Upstream] and the transport files): a response is returned
      only if it answers the question; apart from what its resolver sends to look
      up the host, an exchange sends only the encoded query, over HTTPS in a
      request for its own URL with its own headers; retries are bounded; DNSCrypt sends nothing but sealed queries and certificate
      requests; certificates are the best valid signed ones. With verification
      on, a TLS session is with a server that the roots vouch for; with it off,
      with any server that can sign by one of four schemes ([TlsClient]).
    - Listeners: over each protocol the answer sent is the packed answer of the
      handler to the decoded query, in order and framed; truncation over
      datagrams; credentials decide who is served; a TXT query for the provider's
      name is answered with its certificate; client and listener compose (DoH,
      DoQ, DNSCrypt).
    - Codecs and files: round trips of the DoH encoding, the DNSCrypt boxes,
      stamps and key files; the address parsers.
    - Tests ([UnitTests], [LoopbackTests]): every test is a run of the model that
      is evaluated and passes, and [failures_are_seen] shows a run that does
      not. A test with a server is scheduled by [sched], whose runs are runs of
      the system of tasks ([sched_exec]). A helper that several test files copy
      is one definition.

    ** Fuel and bounds

    The suffix walk of [group_for] has fuel one more than the name's length,
    and each step drops a character. [recv_body] has fuel one more than the size
    limit, and each chunk has a byte. [read_lp_loop], [split_whitespace] and
    the trimming functions have fuel beyond the length of the input they
    consume. [digits] has as much fuel as a 64-bit number can have digits.
    Theorems about these functions show that the fuel is never the reason they
    stop. The query loop of a connection, which only its peer ends, is modelled
    for any number [n] of turns in [ListenerIo] and turn by turn in [Server]
    ([query_turn_loop] relates the two). A test that starts a server has [FUEL]
    steps of the scheduler; running out of them is a failure of the test, so
    that a test that passes has had enough.

    ** Not modelled

    Log lines; [init_log] is the filter it sets up. The parser of [clap]: its
    declarations are modelled, an [Args] is what parsing hands over, with every
    optional feature on; which crypto provider is compiled in makes no
    difference here. The byte forwarding of [TlsStream] and the readiness of the
    connector, which only adapt library traits. The libraries behind TLS, QUIC,
    HTTP and the connection pool of [hyper], which appear as calls. The
    cancelling of the remaining tasks when [main] returns: here they may run on,
    so that what is proved of all runs holds of those that are cut short.
    [Display] of library errors, which are texts. The module lists [lib.rs],
    [client.rs] and [listener.rs]. *)
From Stdlib Require Import ZArith Lia.
From Stdlib Require Export Strings.Byte Sorting.Sorted ZifyBool.
From stdpp Require Export base list strings gmap numbers.

#[global] Set Default Goal Selector "!".

Open Scope Z_scope.

(** ** Outcomes of fallible Rust code

    [res A E] is the outcome of a Rust computation of type [Result<A, E>]:
    the two constructors of [Result], and [Panic] for the code paths (an
    out-of-range index, an [unwrap] of [None]) that unwind instead. *)
Inductive res (A E : Type) : Type :=
| Ok (a : A)
| Err (e : E)
| Panic.
Arguments Ok {A E} a.
Arguments Err {A E} e.
Arguments Panic {A E}.

#[export] Instance res_eq_dec {A E} `{!EqDecision A, !EqDecision E} :
  EqDecision (res A E).
Proof. solve_decision. Defined.

(** The [?] operator, [map_err], [ok_or_else] and friends. *)
Definition res_bind {A B E} (m : res A E) (k : A -> res B E) : res B E :=
  match m with Ok a => k a | Err e => Err e | Panic => Panic end.
Definition map_err {A E F} (f : E -> F) (m : res A E) : res A F :=
  match m with Ok a => Ok a | Err e => Err (f e) | Panic => Panic end.
Definition res_map {A B E} (f : A -> B) (m : res A E) : res B E :=
  match m with Ok a => Ok (f a) | Err e => Err e | Panic => Panic end.
Definition ok_or {A E} (e : E) (o : option A) : res A E :=
  match o with Some a => Ok a | None => Err e end.
Definition res_ok {A E} (m : res A E) : option A :=
  match m with Ok a => Some a | _ => None end.
(** A library call that returns [Result<A, F>] and cannot unwind. *)
Definition from_sum {A E F} (f : F -> E) (m : F + A) : res A E :=
  match m with inr a => Ok a | inl e => Err (f e) end.
Definition is_ok {A E} (m : res A E) : bool :=
  match m with Ok _ => true | _ => false end.

Declare Scope rust_scope.
Delimit Scope rust_scope with rust.
Notation "'let?' x := m 'in' k" := (res_bind m (fun x => k))
  (at level 10, x pattern, m at level 100, k at level 200,
   format "'[v' 'let?'  x  :=  m  'in' '/' k ']'") : rust_scope.
Notation "'let!' x := m 'in' k" := (match m with Some x => k | None => None end)
  (at level 10, x pattern, m at level 100, k at level 200,
   format "'[v' 'let!'  x  :=  m  'in' '/' k ']'") : rust_scope.
#[global] Open Scope rust_scope.

(** [iter.collect::<Result<Vec<_>, _>>()]: the first error wins. *)
Fixpoint collect {A E} (l : list (res A E)) : res (list A) E :=
  match l with
  | [] => Ok []
  | m :: l => let? a := m in let? r := collect l in Ok (a :: r)
  end.

(** A loop whose body may stop with an error. *)
Fixpoint fold_res {A B E} (f : A -> B -> res A E) (a : A) (l : list B) : res A E :=
  match l with
  | [] => Ok a
  | b :: l => match f a b with Ok a => fold_res f a l | Err e => Err e | Panic => Panic end
  end.
Lemma fold_res_pure {A B E} (f : A -> B -> res A E) (g : A -> B -> A) a l :
  (forall a b, f a b = Ok (g a b)) -> fold_res f a l = Ok (fold_left g l a).
Proof. intros H. revert a. induction l as [|b l IH]; intros a; simpl; [done|]. by rewrite H. Qed.

Lemma res_bind_Ok {A B E} (m : res A E) (k : A -> res B E) b :
  res_bind m k = Ok b <-> exists a, m = Ok a /\ k a = Ok b.
Proof. destruct m; simpl; naive_solver. Qed.

Lemma res_bind_Panic {A B E} (m : res A E) (k : A -> res B E) :
  res_bind m k = Panic <-> m = Panic \/ exists a, m = Ok a /\ k a = Panic.
Proof. destruct m; simpl; naive_solver. Qed.

Lemma map_err_Ok {A E F} (f : E -> F) (m : res A E) a :
  map_err f m = Ok a <-> m = Ok a.
Proof. destruct m; simpl; naive_solver. Qed.

Lemma map_err_Panic {A E F} (f : E -> F) (m : res A E) :
  map_err f m = Panic <-> m = Panic.
Proof. destruct m; simpl; naive_solver. Qed.

Lemma ok_or_Ok {A E} (e : E) (o : option A) a : ok_or e o = Ok a <-> o = Some a.
Proof. destruct o; simpl; naive_solver. Qed.

Lemma from_sum_Ok {A E F} (f : F -> E) (m : F + A) a : from_sum f m = Ok a <-> m = inr a.
Proof. destruct m; simpl; naive_solver. Qed.

Lemma from_sum_not_Panic {A E F} (f : F -> E) (m : F + A) : from_sum f m <> Panic.
Proof. by destruct m. Qed.

Lemma ok_or_not_Panic {A E} (e : E) (o : option A) : ok_or e o <> Panic.
Proof. by destruct o. Qed.

Lemma collect_Ok {A E} (l : list (res A E)) r :
  collect l = Ok r <-> Forall2 (fun m a => m = Ok a) l r.
Proof.
  revert r. induction l as [|m l IH]; intros r; simpl.
  - split; [intros [= <-]; constructor | inversion 1; done].
  - rewrite res_bind_Ok. setoid_rewrite res_bind_Ok. setoid_rewrite IH. split.
    + intros (a & -> & r' & ? & [= <-]). by constructor.
    + inversion 1; subst. naive_solver.
Qed.

(** The development's hint database: facts about outcomes, bytes and lists
    that the components' proofs use without naming them. *)
Create HintDb dnsproxy.
Create Rewrite HintDb dnsproxy.
#[export] Hint Resolve ok_or_not_Panic from_sum_not_Panic : dnsproxy.
#[export] Hint Rewrite @res_bind_Ok @map_err_Ok @ok_or_Ok @from_sum_Ok : dnsproxy.

(** Case analysis on the scrutinee of the match in the goal (or in [H]),
    keeping the equation and cleaning up. *)
Ltac case_eq_goal :=
  match goal with
  | |- context [match ?x with _ => _ end] => destruct x eqn:?; simplify_eq/=
  end.
Ltac case_eq_in H :=
  match type of H with
  | context [match ?x with _ => _ end] => destruct x eqn:?; simplify_eq/=
  end.

(** Decide a closed equation by evaluation, without normalising its type. *)
Ltac vm_refl :=
  match goal with |- @eq ?T ?x ?y => vm_cast_no_check (@eq_refl T y) end.

(** Invert a [let?] chain that returned [Ok]. *)
Ltac inv_ok H :=
  repeat first
    [ rewrite res_bind_Ok in H;
      let a := fresh "a" in let E := fresh "E" in destruct H as (a & E & H);
      try rewrite map_err_Ok in E; try rewrite ok_or_Ok in E; try rewrite from_sum_Ok in E
    | rewrite map_err_Ok in H | rewrite ok_or_Ok in H | rewrite from_sum_Ok in H ].

(** ** Bytes and fixed-width integers *)
Abbreviation bytes := (list Byte.byte).

#[export] Instance byte_eq_dec : EqDecision Byte.byte := Byte.byte_eq_dec.

(** A byte as the [u8] it is, and the wrapping cast [as u8] back. *)
Definition u8 (b : Byte.byte) : Z := Z.of_N (Byte.to_N b).
Definition as_u8 (z : Z) : Byte.byte :=
  default x00 (Byte.of_N (Z.to_N (z mod 256))).

Definition u16_max : Z := 65535.
Definition u32_max : Z := 2 ^ 32 - 1.
Definition u64_max : Z := 2 ^ 64 - 1.
Definition as_u16 (z : Z) : Z := z mod 2 ^ 16.
Definition as_u32 (z : Z) : Z := z mod 2 ^ 32.

Lemma u8_range b : 0 <= u8 b < 256.
Proof. unfold u8. pose proof (Byte.to_N_bounded b). lia. Qed.

Lemma u8_inj b1 b2 : u8 b1 = u8 b2 -> b1 = b2.
Proof.
  unfold u8. intros H%N2Z.inj.
  pose proof (Byte.of_to_N b1) as E1. pose proof (Byte.of_to_N b2) as E2.
  rewrite H in E1. congruence.
Qed.

Lemma u8_as_u8 z : u8 (as_u8 z) = z mod 256.
Proof.
  unfold u8, as_u8. assert (0 <= z mod 256 < 256) by (apply Z.mod_pos_bound; lia).
  destruct (Byte.of_N (Z.to_N (z mod 256))) as [b|] eqn:E; simpl.
  - apply Byte.to_of_N in E. rewrite E. lia.
  - apply Byte.of_N_None_iff in E. lia.
Qed.

Lemma as_u8_u8 b : as_u8 (u8 b) = b.
Proof.
  apply u8_inj. rewrite u8_as_u8. apply Z.mod_small, u8_range.
Qed.
#[export] Hint Resolve u8_range : dnsproxy.
#[export] Hint Rewrite u8_as_u8 as_u8_u8 : dnsproxy.

(** [n.to_be_bytes()] on a [k]-byte integer, and [from_be_bytes]. *)
Fixpoint to_be (k : nat) (z : Z) : bytes :=
  match k with
  | O => []
  | S k => as_u8 (z / 256 ^ Z.of_nat k) :: to_be k z
  end.
Definition from_be (l : bytes) : Z :=
  fold_left (fun acc b => acc * 256 + u8 b) l 0.

Lemma length_to_be k z : length (to_be k z) = k.
Proof. induction k; simpl; congruence. Qed.
#[export] Hint Rewrite length_to_be : dnsproxy.

Lemma from_be_acc (l : bytes) acc :
  fold_left (fun acc b => acc * 256 + u8 b) l acc
  = acc * 256 ^ Z.of_nat (length l) + from_be l.
Proof.
  unfold from_be. revert acc. induction l as [|b l IH]; intros acc; simpl.
  - lia.
  - rewrite IH, (IH (0 * 256 + u8 b)).
    replace (Z.of_nat (S (length l))) with (Z.of_nat (length l) + 1) by lia.
    rewrite Z.pow_add_r by lia. lia.
Qed.

Lemma from_be_to_be k z : from_be (to_be k z) = z mod 256 ^ Z.of_nat k.
Proof.
  induction k as [|k IH].
  - simpl. by rewrite Z.mod_1_r.
  - cbn [to_be]. unfold from_be. cbn [fold_left].
    rewrite from_be_acc, IH, length_to_be, u8_as_u8.
    replace (Z.of_nat (S k)) with (Z.of_nat k + 1) by lia.
    rewrite Z.pow_add_r, Z.pow_1_r by lia.
    rewrite Z.rem_mul_r by (try apply Z.pow_nonzero; lia). lia.
Qed.

Lemma from_be_range (l : bytes) : 0 <= from_be l < 256 ^ Z.of_nat (length l).
Proof.
  induction l as [|b l IH].
  - unfold from_be; simpl; lia.
  - unfold from_be. cbn [fold_left]. rewrite from_be_acc.
    pose proof (u8_range b).
    replace (Z.of_nat (length (b :: l))) with (Z.of_nat (length l) + 1)
      by (cbn [length]; lia).
    rewrite Z.pow_add_r, Z.pow_1_r by lia. nia.
Qed.

Lemma to_be_from_be (l : bytes) : to_be (length l) (from_be l) = l.
Proof.
  induction l as [|b l IH] using rev_ind; [done|].
  assert (forall k z, to_be (k + 1) z = to_be k (z / 256) ++ [as_u8 z]) as Hsnoc.
  { clear. induction k as [|k IH]; intros z; [cbn; by rewrite Z.div_1_r|].
    cbn [to_be Nat.add app]. rewrite <- IH. f_equal. f_equal.
    rewrite Z.div_div by (try apply Z.pow_pos_nonneg; lia). f_equal.
    rewrite Nat2Z.inj_add, Z.pow_add_r by lia. lia. }
  rewrite length_app. cbn [length]. rewrite Hsnoc.
  unfold from_be. rewrite fold_left_app. cbn [fold_left]. fold (from_be l).
  pose proof (u8_range b).
  rewrite Z.div_add_l, Z.div_small, Z.add_0_r, IH by lia. f_equal. f_equal.
  apply u8_inj. rewrite u8_as_u8. rewrite Z.add_comm, Z.mod_add by lia. by apply Z.mod_small.
Qed.

(** Rust's checked slice [buf.get(i..j)] and the panicking [&buf[i..j]] where
    the bounds were tested before. *)
Definition slice {A} (i j : nat) (l : list A) : list A := take (j - i) (drop i l).
Definition slice_get {A} (i j : nat) (l : list A) : option (list A) :=
  if decide (i <= j /\ j <= length l)%nat then Some (slice i j l) else None.

Lemma length_slice {A} i j (l : list A) :
  (i <= j)%nat -> (j <= length l)%nat -> length (slice i j l) = (j - i)%nat.
Proof. intros. unfold slice. rewrite length_take, length_drop. lia. Qed.

(** Slicing a concatenation at a known boundary. *)
Lemma slice_skip {A} (l r : list A) i j n :
  length l = n -> (n <= i)%nat -> slice i j (l ++ r) = slice (i - n) (j - n) r.
Proof.
  intros <- Hi. unfold slice. rewrite drop_app_ge by lia. f_equal. lia.
Qed.

Lemma slice_head {A} (l r : list A) n :
  length l = n -> slice 0 n (l ++ r) = l.
Proof.
  intros <-. unfold slice. rewrite drop_0, Nat.sub_0_r. apply take_app_length.
Qed.

Lemma slice_all {A} (l : list A) n : length l = n -> slice 0 n l = l.
Proof. intros <-. unfold slice. rewrite drop_0, Nat.sub_0_r. apply take_ge. lia. Qed.

(** Reading the [i]-th part of a concatenation. *)
Lemma slice_part {A} (l m r : list A) i j :
  length l = i -> length m = (j - i)%nat -> (i <= j)%nat -> slice i j (l ++ m ++ r) = m.
Proof.
  intros Hl Hm Hij. rewrite (slice_skip l _ i j i) by (done || lia).
  rewrite Nat.sub_diag. by apply slice_head.
Qed.
Lemma slice_last {A} (l m : list A) i j :
  length l = i -> length m = (j - i)%nat -> (i <= j)%nat -> slice i j (l ++ m) = m.
Proof. intros. pose proof (slice_part l m [] i j) as Hp. rewrite app_nil_r in Hp. auto. Qed.

Lemma slice_split {A} (l : list A) i j k :
  (i <= j)%nat -> (j <= k)%nat -> slice i k l = slice i j l ++ slice j k l.
Proof.
  intros Hij Hjk. unfold slice.
  replace (k - i)%nat with ((j - i) + (k - j))%nat by lia.
  rewrite <- take_take_drop, drop_drop. do 3 f_equal. lia.
Qed.
(** ** Generic list lemmas *)

(** [iter.find_map]. *)
Fixpoint find_map {A B} (f : A -> option B) (l : list A) : option B :=
  match l with
  | [] => None
  | a :: l => match f a with Some b => Some b | None => find_map f l end
  end.

(** [sort_by_key] is a stable sort; insertion sort on an integer key is the
    executable reference. *)
Fixpoint insert_by {A} (key : A -> Z) (x : A) (l : list A) : list A :=
  match l with
  | [] => [x]
  | y :: l' => if key x <=? key y then x :: l else y :: insert_by key x l'
  end.
Definition sort_by_key {A} (key : A -> Z) (l : list A) : list A :=
  foldr (insert_by key) [] l.

Lemma insert_by_perm {A} (key : A -> Z) x l : insert_by key x l ≡ₚ x :: l.
Proof.
  induction l as [|y l IH]; simpl; [done|].
  case_match; [done|]. rewrite IH. apply Permutation_swap.
Qed.

Lemma sort_by_key_perm {A} (key : A -> Z) l : sort_by_key key l ≡ₚ l.
Proof.
  induction l as [|x l IH]; simpl; [done|]. rewrite insert_by_perm. by rewrite IH.
Qed.

Definition sorted_by {A} (key : A -> Z) : list A -> Prop :=
  StronglySorted (fun a b => key a <= key b).

Lemma insert_by_sorted {A} (key : A -> Z) x l :
  sorted_by key l -> sorted_by key (insert_by key x l).
Proof.
  induction 1 as [|y l Hs IH Hy]; simpl.
  - repeat constructor.
  - destruct (Z.leb_spec (key x) (key y)).
    + constructor; [by constructor|].
      constructor; [done|]. eapply Forall_impl; [|exact Hy]. simpl. lia.
    + constructor; [exact IH|].
      rewrite insert_by_perm. constructor; [lia|done].
Qed.

Lemma sort_by_key_sorted {A} (key : A -> Z) l : sorted_by key (sort_by_key key l).
Proof. induction l; simpl; [constructor | by apply insert_by_sorted]. Qed.

(** Stability: the elements with one key keep their order. *)
Lemma insert_by_filter {A} (key : A -> Z) k x l :
  filter (fun a => key a = k) (insert_by key x l)
  = filter (fun a => key a = k) (x :: l).
Proof.
  induction l as [|y l IH]; [done|]. cbn [insert_by].
  destruct (Z.leb_spec (key x) (key y)) as [|Hlt]; [done|].
  rewrite !filter_cons, IH, filter_cons.
  repeat case_decide; try done. lia.
Qed.

Lemma sort_by_key_stable {A} (key : A -> Z) k l :
  filter (fun a => key a = k) (sort_by_key key l) = filter (fun a => key a = k) l.
Proof.
  induction l as [|x l IH]; [done|]. simpl. rewrite insert_by_filter.
  by rewrite !filter_cons, IH.
Qed.
#[export] Hint Resolve sort_by_key_perm sort_by_key_sorted : dnsproxy.
