(* ===== verification/RustStr.v ===== *)
(** * Rust's [str] operations

    The functions of [core::str], [char] and [core::num] that the program
    calls, on Stdlib strings read as UTF-8 byte sequences: splitting, trimming,
    line and word iteration, ASCII case folding, decimal parsing and printing,
    [Debug] quoting, and the UTF-8 validity test of [String::from_utf8].
    A separator of the program is always ASCII, so byte-wise search finds the
    same boundaries as Rust's [char]-wise search. *)
From S2P Require Import Prelude.
From Stdlib Require Import Lia.
From Stdlib Require Export Ascii.

(** ** Bytes and strings *)
Definition as_bytes (s : string) : bytes := String.list_byte_of_string s.
Definition of_bytes (b : bytes) : string := String.string_of_list_byte b.
Definition code (c : ascii) : Z := Z.of_N (Ascii.N_of_ascii c).
Definition chr (z : Z) : ascii := Ascii.ascii_of_N (Z.to_N z).
Definition str_of_codes (l : list Z) : string :=
  foldr (fun z s => String (chr z) s) "" l.
Definition newline : ascii := chr 10.

Lemma as_bytes_of_bytes b : as_bytes (of_bytes b) = b.
Proof. apply String.list_byte_of_string_of_list_byte. Qed.
Lemma of_bytes_as_bytes s : of_bytes (as_bytes s) = s.
Proof. apply String.string_of_list_byte_of_string. Qed.
#[export] Hint Rewrite as_bytes_of_bytes of_bytes_as_bytes : dnsproxy.

Create Rewrite HintDb str.

Lemma app_assoc_str (a b c : string) : (a +:+ b) +:+ c = a +:+ (b +:+ c).
Proof. induction a; simpl; [done|]. unfold String.append; simpl; fold String.append. by rewrite IHa. Qed.

Lemma app_nil_r_str (a : string) : a +:+ "" = a.
Proof. induction a; simpl; [done|]. unfold String.append; simpl; fold String.append. by rewrite IHa. Qed.

Lemma app_cons_str c (a b : string) : String c a +:+ b = String c (a +:+ b).
Proof. done. Qed.
Lemma app_nil_l_str (b : string) : "" +:+ b = b.
Proof. done. Qed.
Lemma length_app_str (a b : string) :
  String.length (a +:+ b) = (String.length a + String.length b)%nat.
Proof. induction a as [|c a IH]; [done|]. rewrite app_cons_str. simpl. by rewrite IH. Qed.
#[export] Hint Rewrite app_assoc_str app_nil_r_str app_cons_str app_nil_l_str : str.

(** ** Searching and splitting *)
Definition is_empty (s : string) : bool :=
  match s with EmptyString => true | _ => false end.

Fixpoint strip_prefix (p s : string) {struct p} : option string :=
  match p, s with
  | EmptyString, _ => Some s
  | String a p', String b s' => if decide (a = b) then strip_prefix p' s' else None
  | String _ _, EmptyString => None
  end.
Definition starts_with (p s : string) : bool :=
  match strip_prefix p s with Some _ => true | None => false end.

Fixpoint char_in (c : ascii) (s : string) : bool :=
  match s with
  | EmptyString => false
  | String a s => if decide (a = c) then true else char_in c s
  end.

(** [s.split_once(sep)] for a string separator: the first occurrence. *)
Fixpoint split_once (sep s : string) {struct s} : option (string * string) :=
  match strip_prefix sep s with
  | Some rest => Some ("", rest)
  | None =>
      match s with
      | EmptyString => None
      | String a s' => let! (x, y) := split_once sep s' in Some (String a x, y)
      end
  end.

(** [s.split_once(c)] and [s.rsplit_once(c)] for a character. *)
Fixpoint split_once_char (c : ascii) (s : string) : option (string * string) :=
  match s with
  | EmptyString => None
  | String a s' =>
      if decide (a = c) then Some ("", s')
      else let! (x, y) := split_once_char c s' in Some (String a x, y)
  end.
Fixpoint rsplit_once_char (c : ascii) (s : string) : option (string * string) :=
  match s with
  | EmptyString => None
  | String a s' =>
      match rsplit_once_char c s' with
      | Some (x, y) => Some (String a x, y)
      | None => if decide (a = c) then Some ("", s') else None
      end
  end.

(** [s.split(c)]: never empty. *)
Fixpoint split_char (c : ascii) (s : string) : list string :=
  match s with
  | EmptyString => [""]
  | String a s' =>
      if decide (a = c) then "" :: split_char c s'
      else match split_char c s' with
           | h :: t => String a h :: t
           | [] => [String a ""]
           end
  end.
Definition contains (sep s : string) : bool :=
  match split_once sep s with Some _ => true | None => false end.

(** [parts.join(sep)]. *)
Fixpoint join (sep : string) (l : list string) : string :=
  match l with
  | [] => ""
  | [x] => x
  | x :: l => x +:+ sep +:+ join sep l
  end.

(** [str::lines]: split at newlines, dropping a carriage return before each;
    a last line without a newline keeps its carriage return. *)
Fixpoint strip_cr (s : string) : string :=
  match s with
  | EmptyString => ""
  | String a EmptyString => if decide (a = chr 13) then "" else s
  | String a s' => String a (strip_cr s')
  end.
Definition lines (s : string) : list string :=
  let fix go (l : list string) : list string :=
    match l with
    | [] => []
    | [last] => if is_empty last then [] else [last]
    | x :: l => strip_cr x :: go l
    end in
  go (split_char newline s).

(** The [White_Space] characters, each as its UTF-8 encoding. *)
Definition whitespace : list string :=
  map str_of_codes
    ([[9]; [10]; [11]; [12]; [13]; [32]; [194; 133]; [194; 160]; [225; 154; 128]]
     ++ map (fun i => [226; 128; i])
          [128; 129; 130; 131; 132; 133; 134; 135; 136; 137; 138; 168; 169; 175]
     ++ [[226; 129; 159]; [227; 128; 128]]).

(** Strip one leading whitespace character. *)
Definition strip_ws (s : string) : option string :=
  find_map (fun w => strip_prefix w s) whitespace.
Fixpoint trim_start_go (fuel : nat) (strip : string -> option string) (s : string) : string :=
  match fuel with
  | O => s
  | S fuel => match strip s with
              | Some s' => trim_start_go fuel strip s'
              | None => s
              end
  end.
Definition trim_start (s : string) : string := trim_start_go (String.length s) strip_ws s.

Fixpoint rev_str_go (s acc : string) : string :=
  match s with EmptyString => acc | String a s => rev_str_go s (String a acc) end.
Definition rev_str (s : string) : string := rev_str_go s "".
Definition strip_ws_rev (s : string) : option string :=
  find_map (fun w => strip_prefix (rev_str w) s) whitespace.
Definition trim_end (s : string) : string :=
  rev_str (trim_start_go (String.length s) strip_ws_rev (rev_str s)).
Definition trim (s : string) : string := trim_end (trim_start s).

(** [str::split_whitespace]: the maximal non-empty runs of non-whitespace. *)
Definition emit (cur : string) (rest : list string) : list string :=
  if is_empty cur then rest else cur :: rest.
Fixpoint split_whitespace_go (fuel : nat) (cur s : string) : list string :=
  match fuel with
  | O => emit cur []
  | S fuel =>
      match strip_ws s with
      | Some s' => emit cur (split_whitespace_go fuel "" s')
      | None => match s with
                | EmptyString => emit cur []
                | String a s' => split_whitespace_go fuel (cur +:+ String a "") s'
                end
      end
  end.
Definition split_whitespace (s : string) : list string :=
  split_whitespace_go (S (String.length s)) "" s.

Definition to_ascii_lowercase_char (c : ascii) : ascii :=
  if (65 <=? code c) && (code c <=? 90) then chr (code c + 32) else c.
Fixpoint to_ascii_lowercase (s : string) : string :=
  match s with
  | EmptyString => ""
  | String a s => String (to_ascii_lowercase_char a) (to_ascii_lowercase s)
  end.

(** ** Numbers *)
Definition to_digit (radix : Z) (c : ascii) : option Z :=
  let z := code c in
  let d := if (48 <=? z) && (z <=? 57) then z - 48
           else if (97 <=? z) && (z <=? 122) then z - 87
           else if (65 <=? z) && (z <=? 90) then z - 55 else 255 in
  if d <? radix then Some d else None.
Definition digit_char (d : Z) : ascii :=
  if d <? 10 then chr (48 + d) else chr (87 + d).

(** Display of an unsigned integer in base [radix]; 20 digits hold any [u64]. *)
Fixpoint digits (fuel : nat) (radix z : Z) : list Z :=
  match fuel with
  | O => []
  | S fuel => if z <? radix then [z] else digits fuel radix (z / radix) ++ [z mod radix]
  end.
Definition show_digits (l : list Z) : string :=
  foldr (fun d s => String (digit_char d) s) "" l.
Definition dec (z : Z) : string := show_digits (digits 20 10 z).
Definition hex (z : Z) : string := show_digits (digits 20 16 z).

(** [str::parse::<u16>], with [ParseIntError]'s messages. *)
Inductive int_error := IntEmpty | InvalidDigit | PosOverflow.
Definition show_int_error (e : int_error) : string :=
  match e with
  | IntEmpty => "cannot parse integer from empty string"
  | InvalidDigit => "invalid digit found in string"
  | PosOverflow => "number too large to fit in target type"
  end.
Fixpoint parse_digits (maxv : Z) (s : string) (acc : Z) : res Z int_error :=
  match s with
  | EmptyString => Ok acc
  | String c s =>
      match to_digit 10 c with
      | None => Err InvalidDigit
      | Some d => if maxv <? acc * 10 + d then Err PosOverflow
                  else parse_digits maxv s (acc * 10 + d)
      end
  end.
Definition parse_uint (maxv : Z) (s : string) : res Z int_error :=
  match s with
  | EmptyString => Err IntEmpty
  | String "+"%char EmptyString => Err InvalidDigit
  | String "-"%char EmptyString => Err InvalidDigit
  | String "+"%char rest => parse_digits maxv rest 0
  | _ => parse_digits maxv s 0
  end.
Definition parse_u16 : string -> res Z int_error := parse_uint u16_max.

(** ** [{:?}] on [str], exact on ASCII text *)
Definition debug_char (c : ascii) : string :=
  let z := code c in
  if z =? 34 then str_of_codes [92; 34]
  else if z =? 92 then str_of_codes [92; 92]
  else if z =? 9 then str_of_codes [92; 116]
  else if z =? 10 then str_of_codes [92; 110]
  else if z =? 13 then str_of_codes [92; 114]
  else if z =? 0 then str_of_codes [92; 48]
  else if (z <? 32) || (z =? 127)
       then str_of_codes [92; 117; 123] +:+ hex z +:+ "}"
  else String c "".
Fixpoint debug_body (s : string) : string :=
  match s with EmptyString => "" | String c s => debug_char c +:+ debug_body s end.
Definition quote : string := str_of_codes [34].
Definition debug_str (s : string) : string := quote +:+ debug_body s +:+ quote.

(** ** [String::from_utf8] *)
Definition is_cont (b : Byte.byte) : bool := (128 <=? u8 b) && (u8 b <=? 191).
Definition in_range (lo hi : Z) (b : Byte.byte) : bool := (lo <=? u8 b) && (u8 b <=? hi).
(** The first bad sequence, as the index it starts at and the number of bytes
    it takes ([None]: the input ends inside it), following the state machine of
    [core::str::from_utf8]. *)
Fixpoint utf8_error (l : bytes) (i : nat) : option (nat * option nat) :=
  match l with
  | [] => None
  | a :: l1 =>
      if u8 a <? 128 then utf8_error l1 (S i)
      else if negb (in_range 194 244 a) then Some (i, Some 1%nat)
      else
      match l1 with
      | [] => Some (i, None)
      | b :: l2 =>
          if in_range 194 223 a then
            if is_cont b then utf8_error l2 (S (S i)) else Some (i, Some 1%nat)
          else if negb (if u8 a =? 224 then in_range 160 191 b
                        else if u8 a =? 237 then in_range 128 159 b
                        else if u8 a =? 240 then in_range 144 191 b
                        else if u8 a =? 244 then in_range 128 143 b
                        else is_cont b) then Some (i, Some 1%nat)
          else
          match l2 with
          | [] => Some (i, None)
          | c :: l3 =>
              if negb (is_cont c) then Some (i, Some 2%nat)
              else if in_range 224 239 a then utf8_error l3 (S (S (S i)))
              else
              match l3 with
              | [] => Some (i, None)
              | d :: l4 =>
                  if is_cont d then utf8_error l4 (S (S (S (S i)))) else Some (i, Some 3%nat)
              end
          end
      end
  end.
Definition show_utf8_error (e : nat * option nat) : string :=
  match e.2 with
  | Some n => "invalid utf-8 sequence of " +:+ dec (Z.of_nat n) +:+ " bytes from index "
              +:+ dec (Z.of_nat e.1)
  | None => "incomplete utf-8 byte sequence from index " +:+ dec (Z.of_nat e.1)
  end.
Definition from_utf8 (l : bytes) : string + string :=
  match utf8_error l O with Some e => inl (show_utf8_error e) | None => inr (of_bytes l) end.

(** ** Lemmas *)
Lemma as_bytes_cons c a : as_bytes (String c a) = byte_of_ascii c :: as_bytes a.
Proof. done. Qed.
Lemma as_bytes_app a b : as_bytes (a +:+ b) = as_bytes a ++ as_bytes b.
Proof.
  induction a as [|c a IH]; [by rewrite app_nil_l_str|].
  by rewrite app_cons_str, !as_bytes_cons, IH.
Qed.
#[export] Hint Rewrite as_bytes_app : str.

(** ASCII bytes are valid. *)
Lemma utf8_ascii l i : Forall (fun b => u8 b < 128) l -> utf8_error l i = None.
Proof.
  intros Hl. revert i. induction Hl as [|b l Hb _ IH]; intros i; [done|]. cbn [utf8_error].
  destruct (Z.ltb_spec (u8 b) 128); [done|lia].
Qed.

Lemma strip_prefix_Some p s r : strip_prefix p s = Some r <-> s = p +:+ r.
Proof.
  revert s. induction p as [|a p IH]; intros s; simpl.
  - rewrite app_nil_l_str. naive_solver.
  - rewrite app_cons_str. destruct s as [|b s]; [naive_solver|].
    case_decide; [rewrite IH|]; naive_solver.
Qed.
Lemma strip_prefix_app p r : strip_prefix p (p +:+ r) = Some r.
Proof. by apply strip_prefix_Some. Qed.
#[export] Hint Rewrite strip_prefix_app : str.

Lemma char_in_app c a b : char_in c (a +:+ b) = char_in c a || char_in c b.
Proof.
  induction a as [|x a IH]; [done|]. rewrite app_cons_str. simpl. by case_decide.
Qed.

Lemma split_once_char_Some c s a b :
  split_once_char c s = Some (a, b) <-> s = a +:+ String c b /\ char_in c a = false.
Proof.
  revert a. induction s as [|x s IH]; intros a; simpl.
  - split; [done|]. intros [H _]. by destruct a.
  - case_decide as Hx.
    + split; [intros [= <- <-]; by subst|].
      intros [H Hc]. destruct a as [|y a]; rewrite ?app_cons_str, ?app_nil_l_str in H.
      * by simplify_eq.
      * simplify_eq. simpl in Hc. by case_decide.
    + destruct (split_once_char c s) as [[x' y']|] eqn:E.
      * split.
        -- intros [= <- <-]. destruct (proj1 (IH x') eq_refl) as [-> ?].
           rewrite app_cons_str. simpl. by rewrite decide_False.
        -- intros [H Hc]. destruct a as [|z a]; rewrite ?app_cons_str, ?app_nil_l_str in H;
             simplify_eq. simpl in Hc. case_decide; [done|].
           pose proof (proj2 (IH a) (conj eq_refl Hc)). by simplify_eq.
      * split; [done|]. intros [H Hc].
        destruct a as [|z a]; rewrite ?app_cons_str, ?app_nil_l_str in H; simplify_eq.
        simpl in Hc. case_decide; [done|]. by pose proof (proj2 (IH a) (conj eq_refl Hc)).
Qed.

Lemma split_once_char_app c a b :
  char_in c a = false -> split_once_char c (a +:+ String c b) = Some (a, b).
Proof. intros. by apply split_once_char_Some. Qed.

Lemma split_once_char_None c s : split_once_char c s = None <-> char_in c s = false.
Proof.
  induction s as [|x s IH]; [done|]. simpl. case_decide; [done|].
  rewrite <- IH. destruct (split_once_char c s) as [[]|]; naive_solver.
Qed.

Lemma rsplit_once_char_None c s : rsplit_once_char c s = None <-> char_in c s = false.
Proof.
  induction s as [|x s IH]; [done|]. simpl.
  destruct (rsplit_once_char c s) as [[]|]; case_decide; naive_solver.
Qed.

Lemma rsplit_once_char_Some c s a b :
  rsplit_once_char c s = Some (a, b) <-> s = a +:+ String c b /\ char_in c b = false.
Proof.
  revert a b. induction s as [|x s IH]; intros a b; simpl.
  - split; [done|]. intros [H _]. by destruct a.
  - assert (forall a', String x s = a' +:+ String c b ->
      a' = "" /\ x = c /\ s = b \/ exists a'', a' = String x a'' /\ s = a'' +:+ String c b)
      as Hinv.
    { intros [|z a'] H'; rewrite ?app_cons_str, ?app_nil_l_str in H'; naive_solver. }
    destruct (rsplit_once_char c s) as [[x' y']|] eqn:E.
    + destruct (proj1 (IH x' y') eq_refl) as [Hs Hy]. split.
      * intros [= <- <-]. by rewrite app_cons_str, Hs.
      * intros [[(-> & -> & ->)|(a' & -> & H')]%Hinv Hb].
        -- rewrite Hs, char_in_app in Hb. simpl in Hb.
           rewrite decide_True in Hb by done. by destruct (char_in c x').
        -- pose proof (proj2 (IH a' b) (conj H' Hb)). by simplify_eq.
    + apply rsplit_once_char_None in E.
      assert (forall a', s <> a' +:+ String c b) as Hno.
      { intros a' ->. rewrite char_in_app in E. simpl in E.
        rewrite decide_True in E by done. by destruct (char_in c a'). }
      case_decide as Hx; (split; [|intros [[(-> & -> & ->)|(a' & -> & H')]%Hinv Hb]]).
      all: try done; try (by destruct (Hno _ H')).
      intros [= <- <-]. by subst.
Qed.

Lemma split_once_Some sep s a b :
  split_once sep s = Some (a, b) -> s = a +:+ sep +:+ b.
Proof.
  revert a. induction s as [|x s IH]; intros a; simpl;
    (destruct (strip_prefix sep _) as [r|] eqn:E;
     [apply strip_prefix_Some in E; intros [= <- <-]; done|]); [done|].
  destruct (split_once sep s) as [[x' y']|] eqn:E'; [|done].
  intros [= <- <-]. rewrite app_cons_str. f_equal. by apply IH.
Qed.

(** A two-character separator whose second character does not occur before it. *)
Lemma split_once_pair c1 c2 a b :
  c1 <> c2 -> char_in c2 a = false ->
  split_once (String c1 (String c2 "")) (a +:+ String c1 (String c2 b)) = Some (a, b).
Proof.
  intros Hne. induction a as [|x a IH]; intros Ha.
  - rewrite app_nil_l_str. simpl. by rewrite !decide_True.
  - rewrite app_cons_str. simpl in Ha. case_decide; [done|].
    cbn [split_once]. rewrite (IH Ha).
    destruct (strip_prefix _ _) as [r|] eqn:E; [|done].
    apply strip_prefix_Some in E. rewrite !app_cons_str, app_nil_l_str in E.
    destruct a as [|y a]; rewrite ?app_nil_l_str, ?app_cons_str in E; simplify_eq.
    simpl in Ha. by rewrite decide_True in Ha.
Qed.

Lemma to_ascii_lowercase_app a b :
  to_ascii_lowercase (a +:+ b) = to_ascii_lowercase a +:+ to_ascii_lowercase b.
Proof. induction a as [|c a IH]; [done|]. rewrite app_cons_str. simpl. by rewrite IH. Qed.

Lemma code_chr z : 0 <= z < 256 -> code (chr z) = z.
Proof. intros. unfold code, chr. rewrite Ascii.N_ascii_embedding; lia. Qed.
Lemma code_range c : 0 <= code c < 256.
Proof. unfold code. pose proof (Ascii.N_ascii_bounded c). lia. Qed.

Lemma to_ascii_lowercase_idem s :
  to_ascii_lowercase (to_ascii_lowercase s) = to_ascii_lowercase s.
Proof.
  induction s as [|c s IH]; [done|]. simpl. rewrite IH. f_equal.
  unfold to_ascii_lowercase_char.
  destruct ((65 <=? code c) && (code c <=? 90)) eqn:E.
  - rewrite code_chr by lia. destruct ((65 <=? code c + 32) && (code c + 32 <=? 90)) eqn:E2; [lia|done].
  - by rewrite E.
Qed.

Lemma char_in_lowercase c s :
  (code c < 65 \/ 122 < code c) -> char_in c (to_ascii_lowercase s) = char_in c s.
Proof.
  intros Hc. induction s as [|a s IH]; [done|]. simpl. rewrite IH.
  unfold to_ascii_lowercase_char.
  destruct ((65 <=? code a) && (code a <=? 90)) eqn:E; [|done].
  rewrite decide_False, decide_False; [done| |].
  - intros ->. lia.
  - intros <-. rewrite code_chr in Hc by lia. lia.
Qed.

Lemma split_char_no c s : char_in c s = false -> split_char c s = [s].
Proof.
  induction s as [|a s IH]; [done|]. simpl. case_decide; [done|].
  intros H'. by rewrite IH.
Qed.
Lemma split_char_app c a b :
  char_in c a = false -> split_char c (a +:+ String c b) = a :: split_char c b.
Proof.
  induction a as [|x a IH]; intros Ha.
  - rewrite app_nil_l_str. simpl. by rewrite decide_True.
  - rewrite app_cons_str. simpl in *. case_decide; [done|]. by rewrite IH.
Qed.

Lemma join_cons sep x y l : join sep (x :: y :: l) = x +:+ sep +:+ join sep (y :: l).
Proof. done. Qed.

(** [split] undoes [join] on parts that do not contain the separator. *)
Lemma split_char_join c l :
  l <> [] -> Forall (fun s => char_in c s = false) l ->
  split_char c (join (String c "") l) = l.
Proof.
  intros Hne. induction 1 as [|x l Hx Hl IH]; [done|].
  destruct l as [|y l]; [by apply split_char_no|].
  rewrite join_cons, app_cons_str, app_nil_l_str, split_char_app by done.
  by rewrite IH.
Qed.

Lemma char_in_join c sep l :
  char_in c sep = false -> Forall (fun s => char_in c s = false) l ->
  char_in c (join sep l) = false.
Proof.
  intros Hs. induction 1 as [|x l Hx Hl IH]; [done|].
  destruct l as [|y l]; [done|].
  rewrite join_cons, !char_in_app, Hx, Hs. by rewrite IH.
Qed.

(** ** Printing then parsing an integer *)
Lemma digit_char_inj_10 d : 0 <= d < 10 -> to_digit 10 (digit_char d) = Some d.
Proof.
  intros. assert (d = 0 \/ d = 1 \/ d = 2 \/ d = 3 \/ d = 4 \/ d = 5 \/ d = 6
    \/ d = 7 \/ d = 8 \/ d = 9) as Hd by lia.
  destruct_or! Hd; by subst.
Qed.

Lemma show_digits_app l1 l2 : show_digits (l1 ++ l2) = show_digits l1 +:+ show_digits l2.
Proof. induction l1 as [|d l1 IH]; [done|]. simpl. by rewrite IH. Qed.

Lemma digits_spec fuel z :
  0 <= z < 10 ^ Z.of_nat fuel ->
  Forall (fun d => 0 <= d < 10) (digits fuel 10 z)
  /\ (fuel <> O -> digits fuel 10 z <> [])
  /\ fold_left (fun acc d => acc * 10 + d) (digits fuel 10 z) 0 = z.
Proof.
  revert z. induction fuel as [|fuel IH]; intros z Hz.
  - simpl in *. split_and!; [constructor|done|lia].
  - replace (Z.of_nat (S fuel)) with (Z.of_nat fuel + 1) in Hz by lia.
    rewrite Z.pow_add_r, Z.pow_1_r in Hz by lia.
    cbn [digits]. destruct (Z.ltb_spec z 10).
    + split_and!; [repeat constructor; lia|done|simpl; lia].
    + destruct (IH (z / 10)) as (HF & _ & Hv).
      { split; [apply Z.div_pos; lia|]. apply Z.div_lt_upper_bound; lia. }
      pose proof (Z.mod_pos_bound z 10 ltac:(lia)).
      split_and!.
      * apply Forall_app. split; [done|]. by apply Forall_singleton.
      * intros _ E. by apply app_nil in E as [_ ?].
      * rewrite fold_left_app. simpl. rewrite Hv.
        pose proof (Z.div_mod z 10). lia.
Qed.

(** The value a digit list denotes never decreases as digits are read. *)
Lemma fold_digits_ge l acc :
  0 <= acc -> Forall (fun d => 0 <= d < 10) l ->
  acc <= fold_left (fun acc d => acc * 10 + d) l acc.
Proof.
  intros Hacc Hl. revert acc Hacc. induction Hl as [|d l Hd Hl IH]; intros acc Hacc; simpl.
  - lia.
  - etrans; [|apply IH; lia]. lia.
Qed.

Lemma parse_digits_show maxv l acc :
  0 <= acc -> Forall (fun d => 0 <= d < 10) l ->
  fold_left (fun acc d => acc * 10 + d) l acc <= maxv ->
  parse_digits maxv (show_digits l) acc = Ok (fold_left (fun acc d => acc * 10 + d) l acc).
Proof.
  intros Hacc Hl. revert acc Hacc. induction Hl as [|d l Hd Hl IH]; intros acc Hacc Hm.
  - done.
  - cbn [show_digits foldr parse_digits fold_left] in *.
    rewrite digit_char_inj_10 by done.
    pose proof (fold_digits_ge l (acc * 10 + d) ltac:(lia) Hl).
    destruct (Z.ltb_spec maxv (acc * 10 + d)); [lia|].
    apply IH; [lia|done].
Qed.

Lemma show_digits_no_sign l : Forall (fun d => 0 <= d < 10) l ->
  forall c s, show_digits l = String c s -> c <> "+"%char /\ c <> "-"%char.
Proof.
  intros Hl c s E. destruct Hl as [|d l Hd Hl]; [done|].
  simpl in E. injection E as <- <-.
  split; intros E; pose proof (digit_char_inj_10 d Hd) as E'; rewrite E in E'; done.
Qed.

Lemma parse_uint_dec maxv z :
  0 <= z <= maxv -> maxv < 10 ^ 20 -> parse_uint maxv (dec z) = Ok z.
Proof.
  intros Hz Hm. unfold dec.
  destruct (digits_spec 20 z ltac:(lia)) as (HF & Hne & Hv).
  specialize (Hne ltac:(done)).
  assert (parse_digits maxv (show_digits (digits 20 10 z)) 0 = Ok z) as HP.
  { rewrite parse_digits_show; [by rewrite Hv|lia|done|]. rewrite Hv. lia. }
  pose proof (show_digits_no_sign _ HF) as Hs.
  destruct (show_digits (digits 20 10 z)) as [|c s] eqn:E.
  - exfalso. destruct (digits 20 10 z); done.
  - destruct (Hs c s eq_refl) as [H1 H2]. unfold parse_uint. clear -HP H1 H2.
    destruct c as [[][][][][][][][]]; done.
Qed.

Lemma dec_digits z : 0 <= z < 10 ^ 20 ->
  exists l, dec z = show_digits l /\ Forall (fun d => 0 <= d < 10) l /\ l <> []
            /\ fold_left (fun acc d => acc * 10 + d) l 0 = z.
Proof.
  intros Hz. destruct (digits_spec 20 z Hz) as (HF & Hne & Hv).
  exists (digits 20 10 z). by auto.
Qed.

Lemma show_digits_char_in c l :
  Forall (fun d => 0 <= d < 10) l -> to_digit 10 c = None ->
  char_in c (show_digits l) = false.
Proof.
  intros Hl Hc. induction Hl as [|d l Hd Hl IH]; [done|]. simpl.
  case_decide as E; [|done]. subst. by rewrite digit_char_inj_10 in Hc.
Qed.
Lemma dec_char_in c z : 0 <= z < 10 ^ 20 -> to_digit 10 c = None -> char_in c (dec z) = false.
Proof.
  intros Hz Hc. destruct (dec_digits z Hz) as (l & -> & Hl & _).
  by apply show_digits_char_in.
Qed.

(** ** Trimming text between visible ASCII characters *)
Definition visible (c : ascii) : bool := (33 <=? code c) && (code c <=? 126).
Fixpoint all_visible (s : string) : bool :=
  match s with EmptyString => true | String c s => visible c && all_visible s end.

Lemma find_map_None {A B} (f : A -> option B) l :
  Forall (fun a => f a = None) l -> find_map f l = None.
Proof. induction 1 as [|a l Ha _ IH]; simpl; [done|]. by rewrite Ha. Qed.

Lemma strip_prefix_ne w c s :
  match w with String d _ => d <> c | EmptyString => False end ->
  strip_prefix w (String c s) = None.
Proof. destruct w as [|d w]; [done|]. intros Hd. simpl. by rewrite decide_False. Qed.

(** No whitespace character starts or ends with a visible ASCII byte. *)
Lemma whitespace_ends c : visible c = true ->
  Forall (fun w => match w with String d _ => d <> c | EmptyString => False end) whitespace
  /\ Forall (fun w => match rev_str w with String d _ => d <> c | EmptyString => False end) whitespace.
Proof.
  intros Hc. assert (forall d, visible d = false -> d <> c) as Hne by (intros d Hd ->; congruence).
  split; repeat (apply List.Forall_cons; [apply Hne; reflexivity|]); apply List.Forall_nil.
Qed.

Lemma strip_ws_visible c s : visible c = true -> strip_ws (String c s) = None.
Proof.
  intros Hc. apply find_map_None. destruct (whitespace_ends c Hc) as [Hw _].
  eapply Forall_impl; [|exact Hw]. intros w. apply strip_prefix_ne.
Qed.
Lemma strip_ws_rev_visible c s : visible c = true -> strip_ws_rev (String c s) = None.
Proof.
  intros Hc. apply find_map_None. destruct (whitespace_ends c Hc) as [_ Hw].
  eapply Forall_impl; [|exact Hw]. intros w. apply strip_prefix_ne.
Qed.
Lemma strip_ws_space s : strip_ws (String " "%char s) = Some s.
Proof. reflexivity. Qed.

Lemma rev_str_go_app s acc : rev_str_go s acc = rev_str_go s "" +:+ acc.
Proof.
  revert acc. induction s as [|c s IH]; intros acc; simpl; [by rewrite app_nil_l_str|].
  rewrite IH, (IH (String c "")), app_assoc_str. by rewrite app_cons_str, app_nil_l_str.
Qed.
Lemma rev_str_cons c s : rev_str (String c s) = rev_str s +:+ String c "".
Proof. unfold rev_str. simpl. by rewrite rev_str_go_app. Qed.
Lemma rev_str_snoc s c : rev_str (s +:+ String c "") = String c (rev_str s).
Proof.
  induction s as [|d s IH]; [done|]. by rewrite app_cons_str, !rev_str_cons, IH, app_cons_str.
Qed.
Lemma rev_str_rev_str s : rev_str (rev_str s) = s.
Proof. induction s as [|c s IH]; [done|]. by rewrite rev_str_cons, rev_str_snoc, IH. Qed.

Lemma trim_start_go_None fuel strip s : strip s = None -> trim_start_go fuel strip s = s.
Proof. intros Hs. destruct fuel; simpl; [done|]. by rewrite Hs. Qed.

Lemma trim_end_visible s c : visible c = true -> trim_end (s +:+ String c "") = s +:+ String c "".
Proof.
  intros Hc. unfold trim_end. rewrite rev_str_snoc, trim_start_go_None
    by by apply strip_ws_rev_visible. by rewrite <- rev_str_snoc, rev_str_rev_str.
Qed.

(** A string that starts and ends with a visible character is trimmed. *)
Lemma trim_visible c s d : visible c = true -> visible d = true ->
  trim (String c s +:+ String d "") = String c s +:+ String d "".
Proof.
  intros Hc Hd. unfold trim, trim_start. rewrite app_cons_str, trim_start_go_None
    by by apply strip_ws_visible. rewrite <- app_cons_str. by apply trim_end_visible.
Qed.

Lemma all_visible_snoc s : all_visible s = true -> s <> "" ->
  exists s' d, s = s' +:+ String d "" /\ visible d = true.
Proof.
  induction s as [|c s IH]; intros Hs Hne; [done|].
  simpl in Hs. apply andb_true_iff in Hs as [Hc Hs]. destruct s as [|c' s].
  - by exists "", c.
  - destruct IH as (s' & d & E & Hd); [done|done|]. exists (String c s'), d.
    rewrite app_cons_str. split; [by f_equal|done].
Qed.

(** Trimming before and after a visible word. *)
Lemma trim_space_visible s : all_visible s = true -> s <> "" -> trim (String " "%char s) = s.
Proof.
  intros Hs Hne. destruct s as [|c s]; [done|]. pose proof Hs as Hs'.
  simpl in Hs'. apply andb_true_iff in Hs' as [Hc _].
  unfold trim, trim_start. cbn [String.length trim_start_go].
  rewrite strip_ws_space, strip_ws_visible by done.
  destruct (all_visible_snoc (String c s) Hs Hne) as (s' & d & -> & Hd). by apply trim_end_visible.
Qed.
Lemma trim_prefixed c p s : visible c = true -> all_visible s = true -> s <> "" ->
  trim (String c p +:+ s) = String c p +:+ s.
Proof.
  intros Hc Hs Hne. destruct (all_visible_snoc s Hs Hne) as (s' & d & -> & Hd).
  rewrite <- app_assoc_str, app_cons_str. by apply trim_visible.
Qed.

Lemma char_in_visible c s : visible c = false -> all_visible s = true -> char_in c s = false.
Proof.
  intros Hc. induction s as [|d s IH]; [done|]. simpl. intros [Hd Hs]%andb_true_iff.
  case_decide; [by subst; congruence|auto].
Qed.

Lemma strip_cr_visible s c : visible c = true -> strip_cr (s +:+ String c "") = s +:+ String c "".
Proof.
  intros Hc. induction s as [|d s IH].
  - simpl. case_decide as E; [subst; by vm_compute in Hc|done].
  - rewrite app_cons_str. destruct (s +:+ String c "") as [|e r] eqn:E; [by destruct s|].
    cbn [strip_cr]. cbn [strip_cr] in IH. by rewrite IH.
Qed.

(** Whole lines come back from [lines]. *)
Lemma lines_cons l rest :
  char_in newline l = false -> strip_cr l = l -> lines (l +:+ String newline rest) = l :: lines rest.
Proof.
  intros Hl Hcr. unfold lines. rewrite split_char_app by done. destruct (split_char newline rest) eqn:E.
  - exfalso. destruct rest; simpl in E; [done|]. repeat case_match; done.
  - simpl. by rewrite Hcr.
Qed.

(** ** Splitting at a separator that starts with a fresh character *)
Lemma split_once_app c r a b :
  char_in c a = false -> split_once (String c r) (a +:+ String c r +:+ b) = Some (a, b).
Proof.
  intros Ha. induction a as [|x a IH].
  - rewrite app_nil_l_str. rewrite app_cons_str. cbn [split_once strip_prefix].
    rewrite decide_True by done. by rewrite strip_prefix_app.
  - simpl in Ha. case_decide; [done|]. rewrite app_cons_str. cbn [split_once].
    rewrite strip_prefix_ne by done. by rewrite IH.
Qed.

Lemma rsplit_once_char_app c a b :
  char_in c b = false -> rsplit_once_char c (a +:+ String c b) = Some (a, b).
Proof. intros Hb. by apply rsplit_once_char_Some. Qed.

Lemma parse_digits_not_Panic maxv s acc : parse_digits maxv s acc <> Panic.
Proof.
  revert acc. induction s as [|c s IH]; intros acc; simpl; [done|].
  destruct (to_digit 10 c); [|done]. case_match; [done|apply IH].
Qed.
Lemma parse_uint_not_Panic maxv s : parse_uint maxv s <> Panic.
Proof.
  unfold parse_uint. repeat case_match; try done; apply parse_digits_not_Panic.
Qed.
