(* ===== verification/RustNet.v ===== *)
(** * Rust's [std::net] addresses

    [IpAddr] and [SocketAddr] with the recursive-descent parser behind
    [str::parse] and the printers behind [Display], as the standard library
    has them: the program parses upstream, bootstrap and stamp addresses with
    the former and prints stamps and log addresses with the latter. *)
From S2P Require Import Prelude RustStr.

Record Ipv4Addr := Ipv4 { oct1 : Byte.byte; oct2 : Byte.byte; oct3 : Byte.byte; oct4 : Byte.byte }.
(** The eight 16-bit segments. *)
Record Ipv6Addr := Ipv6 { segments : list Z }.
Inductive IpAddr := V4 (a : Ipv4Addr) | V6 (a : Ipv6Addr).
Inductive SocketAddr :=
| SockV4 (a : Ipv4Addr) (port : Z)
| SockV6 (a : Ipv6Addr) (port flowinfo scope_id : Z).

#[export] Instance Ipv4Addr_eq_dec : EqDecision Ipv4Addr.
Proof. solve_decision. Defined.
#[export] Instance Ipv6Addr_eq_dec : EqDecision Ipv6Addr.
Proof. solve_decision. Defined.
#[export] Instance IpAddr_eq_dec : EqDecision IpAddr.
Proof. solve_decision. Defined.
#[export] Instance SocketAddr_eq_dec : EqDecision SocketAddr.
Proof. solve_decision. Defined.

Definition is_ipv6 (ip : IpAddr) : bool := match ip with V6 _ => true | V4 _ => false end.
Definition sock_is_ipv4 (a : SocketAddr) : bool :=
  match a with SockV4 _ _ => true | SockV6 _ _ _ _ => false end.
Definition sock_ip (a : SocketAddr) : IpAddr :=
  match a with SockV4 ip _ => V4 ip | SockV6 ip _ _ _ => V6 ip end.
Definition sock_port (a : SocketAddr) : Z :=
  match a with SockV4 _ p => p | SockV6 _ p _ _ => p end.
(** [SocketAddr::new]. *)
Definition socket_addr_new (ip : IpAddr) (port : Z) : SocketAddr :=
  match ip with V4 a => SockV4 a port | V6 a => SockV6 a port 0 0 end.

Lemma sock_ip_new ip port : sock_ip (socket_addr_new ip port) = ip.
Proof. by destruct ip. Qed.
Lemma sock_port_new ip port : sock_port (socket_addr_new ip port) = port.
Proof. by destruct ip. Qed.
#[export] Hint Rewrite sock_ip_new sock_port_new : dnsproxy.

(** ** The parser ([core::net::parser]) *)
Definition read_given_char (c : ascii) (s : string) : option string :=
  match s with
  | String a s => if decide (a = c) then Some s else None
  | EmptyString => None
  end.

Fixpoint read_digits (radix maxv : Z) (maxd : option nat) (s : string) (acc : Z) (cnt : nat)
  : option (Z * nat * string) :=
  match s with
  | EmptyString => Some (acc, cnt, s)
  | String c s' =>
      match to_digit radix c with
      | None => Some (acc, cnt, s)
      | Some d =>
          if maxv <? acc * radix + d then None
          else if (match maxd with Some m => (m <? S cnt)%nat | None => false end) then None
          else read_digits radix maxv maxd s' (acc * radix + d) (S cnt)
      end
  end.
Definition read_number (radix maxv : Z) (maxd : option nat) (allow_zero_prefix : bool)
    (s : string) : option (Z * string) :=
  let has_leading_zero := starts_with "0" s in
  let! (v, cnt, rest) := read_digits radix maxv maxd s 0 O in
  if (cnt =? 0)%nat then None
  else if negb allow_zero_prefix && has_leading_zero && (1 <? cnt)%nat then None
  else Some (v, rest).
Definition read_separator {A} (sep : ascii) (index : nat)
    (inner : string -> option (A * string)) (s : string) : option (A * string) :=
  match index with
  | O => inner s
  | S _ => let! s := read_given_char sep s in inner s
  end.

Definition read_octet : string -> option (Z * string) := read_number 10 255 (Some 3%nat) false.
Definition read_ipv4_addr (s : string) : option (Ipv4Addr * string) :=
  let! (a, s) := read_separator "."%char 0 read_octet s in
  let! (b, s) := read_separator "."%char 1 read_octet s in
  let! (c, s) := read_separator "."%char 2 read_octet s in
  let! (d, s) := read_separator "."%char 3 read_octet s in
  Some (Ipv4 (as_u8 a) (as_u8 b) (as_u8 c) (as_u8 d), s).

Fixpoint read_groups (n limit : nat) (acc : list Z) (s : string) : list Z * bool * string :=
  match n with
  | O => (acc, false, s)
  | S n' =>
      let i := length acc in
      match (if (i <? limit - 1)%nat
             then read_separator ":"%char i read_ipv4_addr s else None) with
      | Some (ip, s') =>
          (acc ++ [from_be [oct1 ip; oct2 ip]; from_be [oct3 ip; oct4 ip]], true, s')
      | None =>
          match read_separator ":"%char i (read_number 16 65535 (Some 4%nat) true) s with
          | Some (g, s') => read_groups n' limit (acc ++ [g]) s'
          | None => (acc, false, s)
          end
      end
  end.
Definition read_ipv6_addr (s : string) : option (Ipv6Addr * string) :=
  let '(head, head_ipv4, s) := read_groups 8 8 [] s in
  if (length head =? 8)%nat then Some (Ipv6 head, s)
  else if head_ipv4 then None
  else
    let! s := read_given_char ":"%char s in
    let! s := read_given_char ":"%char s in
    let limit := (8 - (length head + 1))%nat in
    let '(tail, _, s) := read_groups limit limit [] s in
    Some (Ipv6 (head ++ replicate (8 - length head - length tail) 0 ++ tail), s).

Definition read_ip_addr (s : string) : option (IpAddr * string) :=
  match read_ipv4_addr s with
  | Some (a, s') => Some (V4 a, s')
  | None => let! (a, s') := read_ipv6_addr s in Some (V6 a, s')
  end.
Definition read_port (s : string) : option (Z * string) :=
  let! s := read_given_char ":"%char s in read_number 10 u16_max None true s.
Definition read_scope_id (s : string) : option (Z * string) :=
  let! s := read_given_char "%"%char s in read_number 10 u32_max None true s.
Definition read_socket_addr_v4 (s : string) : option (SocketAddr * string) :=
  let! (ip, s) := read_ipv4_addr s in
  let! (port, s) := read_port s in
  Some (SockV4 ip port, s).
Definition read_socket_addr_v6 (s : string) : option (SocketAddr * string) :=
  let! s := read_given_char "["%char s in
  let! (ip, s) := read_ipv6_addr s in
  let '(scope_id, s) := default (0, s) (read_scope_id s) in
  let! s := read_given_char "]"%char s in
  let! (port, s) := read_port s in
  Some (SockV6 ip port 0 scope_id, s).

Definition parse_with {A} (inner : string -> option (A * string)) (s : string) : option A :=
  let! (a, rest) := inner s in if is_empty rest then Some a else None.
(** [s.parse::<Ipv6Addr>()], [s.parse::<IpAddr>()], [s.parse::<SocketAddr>()]. *)
Definition parse_ipv6_addr : string -> option Ipv6Addr := parse_with read_ipv6_addr.
Definition parse_ip_addr : string -> option IpAddr := parse_with read_ip_addr.
Definition parse_socket_addr : string -> option SocketAddr :=
  parse_with (fun s => match read_socket_addr_v4 s with
                       | Some r => Some r
                       | None => read_socket_addr_v6 s
                       end).

(** ** [Display] *)
Definition show_ipv4 (a : Ipv4Addr) : string :=
  dec (u8 (oct1 a)) +:+ "." +:+ dec (u8 (oct2 a)) +:+ "."
  +:+ dec (u8 (oct3 a)) +:+ "." +:+ dec (u8 (oct4 a)).

(** The first longest run of zero segments, as (start, length). *)
Fixpoint longest_zeros (l : list Z) (i : nat) (longest current : nat * nat) : nat * nat :=
  match l with
  | [] => longest
  | seg :: l =>
      if seg =? 0 then
        let current := if (current.2 =? 0)%nat then (i, 1%nat) else (current.1, S current.2) in
        longest_zeros l (S i) (if (longest.2 <? current.2)%nat then current else longest) current
      else longest_zeros l (S i) longest (O, O)
  end.
Definition show_segments (l : list Z) : string := join ":" (map hex l).
Definition show_ipv6 (a : Ipv6Addr) : string :=
  match segments a with
  | [0; 0; 0; 0; 0; 65535; hi; lo] =>
      "::ffff:" +:+ show_ipv4 (Ipv4 (as_u8 (hi / 256)) (as_u8 hi) (as_u8 (lo / 256)) (as_u8 lo))
  | segs =>
      let '(start, len) := longest_zeros segs 0 (O, O) (O, O) in
      if (1 <? len)%nat
      then show_segments (take start segs) +:+ "::" +:+ show_segments (drop (start + len) segs)
      else show_segments segs
  end.
Definition show_ip (ip : IpAddr) : string :=
  match ip with V4 a => show_ipv4 a | V6 a => show_ipv6 a end.
Definition show_socket_addr (a : SocketAddr) : string :=
  match a with
  | SockV4 ip port => show_ipv4 ip +:+ ":" +:+ dec port
  | SockV6 ip port _ scope_id =>
      "[" +:+ show_ipv6 ip
      +:+ (if scope_id =? 0 then "" else "%" +:+ dec scope_id) +:+ "]:" +:+ dec port
  end.

(** ** Printing then parsing an IPv4 socket address *)
Lemma read_octet_dec (b : Byte.byte) (c : ascii) (rest : string) :
  c = "."%char \/ c = ":"%char ->
  read_octet (dec (u8 b) +:+ String c rest) = Some (u8 b, String c rest).
Proof. intros [-> | ->]; destruct b; vm_compute; reflexivity. Qed.

Lemma read_octet_dec_end (b : Byte.byte) : read_octet (dec (u8 b)) = Some (u8 b, "").
Proof. destruct b; vm_compute; reflexivity. Qed.

Lemma read_ipv4_show_then (a : Ipv4Addr) (rest : string) :
  read_ipv4_addr (show_ipv4 a +:+ String ":"%char rest) = Some (a, String ":"%char rest).
Proof.
  destruct a as [a b c d]. unfold read_ipv4_addr, show_ipv4. simpl oct1; simpl oct2.
  autorewrite with str. cbn [read_separator].
  rewrite read_octet_dec by auto. cbn [read_given_char]. rewrite decide_True by done.
  rewrite read_octet_dec by auto. cbn [read_given_char]. rewrite decide_True by done.
  rewrite read_octet_dec by auto. cbn [read_given_char]. rewrite decide_True by done.
  rewrite read_octet_dec by auto. by rewrite !as_u8_u8.
Qed.

Lemma read_digits_show maxv l acc cnt :
  0 <= acc -> Forall (fun d => 0 <= d < 10) l ->
  fold_left (fun acc d => acc * 10 + d) l acc <= maxv ->
  read_digits 10 maxv None (show_digits l) acc cnt
  = Some (fold_left (fun acc d => acc * 10 + d) l acc, (cnt + length l)%nat, "").
Proof.
  intros Hacc Hl. revert acc cnt Hacc.
  induction Hl as [|d l Hd Hl IH]; intros acc cnt Hacc Hm.
  - simpl. by rewrite Nat.add_0_r.
  - cbn [show_digits foldr read_digits fold_left] in *. rewrite digit_char_inj_10 by done.
    pose proof (fold_digits_ge l (acc * 10 + d) ltac:(lia) Hl).
    destruct (Z.ltb_spec maxv (acc * 10 + d)); [lia|].
    fold (show_digits l). rewrite IH by (done || lia). cbn [length].
    by rewrite Nat.add_succ_r.
Qed.

Lemma read_port_dec port :
  0 <= port <= u16_max -> read_port (String ":"%char (dec port)) = Some (port, "").
Proof.
  intros Hp. unfold read_port. cbn [read_given_char]. rewrite decide_True by done.
  unfold read_number.
  destruct (dec_digits port ltac:(unfold u16_max in *; lia)) as (l & -> & Hl & Hne & Hv).
  rewrite read_digits_show by (rewrite ?Hv; done || lia).
  rewrite Hv. destruct l; [done|]. by simpl.
Qed.

Lemma parse_show_socket_v4 (a : Ipv4Addr) port :
  0 <= port <= u16_max ->
  parse_socket_addr (show_socket_addr (SockV4 a port)) = Some (SockV4 a port).
Proof.
  intros Hp. unfold parse_socket_addr, parse_with, show_socket_addr, read_socket_addr_v4.
  autorewrite with str. rewrite read_ipv4_show_then. by rewrite read_port_dec.
Qed.
