(* ===== verification/Io.v ===== *)
(** * Asynchronous I/O as a free monad

    An [async fn] of the program is a value of [io S A]: the sequence of its
    calls into the operating system and into the protocol libraries ([eff],
    one constructor per call the program makes), interleaved with atomic
    sections on the state [S] that the object it belongs to shares between
    tasks (a [Mutex] or [RwLock] section without an [await] inside is one
    [IoState] step).

    Nothing about the other side is built in: [eff_ok] states what the
    documentation of each call promises of its answer ([read_exact] returns as
    many bytes as asked for, [fill_bytes] fills the buffer, ...), and programs
    are reasoned about for every answer allowed by it. *)
From S2P Require Import Prelude RustStr RustNet.

(** An I/O error, as its [Display] text. *)
Abbreviation io_err := string.
Definition handle : Type := nat.

(** The client TLS settings [build_tls_config] produces. *)
Record TlsConfig := { alpn_protocols : list bytes; skip_verify : bool }.

(** What the [hyper] client is built from: where it may connect and how. *)
Record HttpsConnector := {
  hc_addrs : list SocketAddr;
  hc_dial_timeout : option Z;
  hc_tls_config : TlsConfig;
  hc_server_name : string;
}.
(** A request; an [HttpSend] error is the [Display] text of the error and of its
    [source] chain. *)
Record HttpRequest := {
  hr_uri : string;
  hr_headers : list (string * string);
}.

(** A request an HTTP server hands to its service, as far as the listeners read
    it: the [Authorization] header when there is one that is text, and the body
    behind a handle. *)
Inductive Method := GET | POST | OtherMethod (name : string).
Record HttpServerRequest := {
  rq_method : Method;
  rq_authorization : option string;
  rq_query : option string;
  rq_body : handle;
}.

(** [slice::sort_by_key] calls the key function while it sorts, and what it
    finds may change in between. A [sorting] is the sort of a slice as a
    decision tree: each comparison takes the keys of two elements, numbered by
    their first positions, and goes on by whether the one is less than the
    other; in the end the elements stand in some order, or the sort unwinds. *)
Inductive sorting :=
| Compare (i j : nat) (next : bool -> sorting)
| Sorted (order : list nat)
| Unwinds.
(** The sort under keys that stay what they are. *)
Fixpoint follow (key : nat -> Z) (t : sorting) : option (list nat) :=
  match t with
  | Compare i j next => follow key (next (key i <? key j))
  | Sorted order => Some order
  | Unwinds => None
  end.
(** Whatever the comparisons say, it compares elements of the slice and keeps
    every element. *)
Fixpoint keeps_elements (n : nat) (t : sorting) : Prop :=
  match t with
  | Compare i j next => (i < n)%nat /\ (j < n)%nat /\ forall b, keeps_elements n (next b)
  | Sorted order => order ≡ₚ seq 0 n
  | Unwinds => True
  end.
(** The documented contract: under keys that stay what they are, the stable
    sort; when comparisons contradict each other, it may unwind, and the order
    is unspecified. *)
Definition sorting_ok (n : nat) (t : sorting) : Prop :=
  keeps_elements n t /\ forall key, follow key t = Some (sort_by_key key (seq 0 n)).

(** A sort within the contract: insertion, from the end of the slice. *)
Fixpoint insert_plan (x : nat) (l : list nat) (next : list nat -> sorting) : sorting :=
  match l with
  | [] => next [x]
  | y :: l' =>
      Compare y x (fun less =>
        if less then insert_plan x l' (fun r => next (y :: r)) else next (x :: l))
  end.
Fixpoint sort_plan (l : list nat) (next : list nat -> sorting) : sorting :=
  match l with
  | [] => next []
  | x :: l => sort_plan l (fun r => insert_plan x r next)
  end.
Lemma follow_insert_plan key x l next :
  follow key (insert_plan x l next) = follow key (next (insert_by key x l)).
Proof.
  revert next. induction l as [|y l IH]; intros next; [done|]. cbn [insert_plan follow insert_by].
  destruct (Z.ltb_spec (key y) (key x)), (Z.leb_spec (key x) (key y)); try lia; [apply IH|done].
Qed.
Lemma follow_sort_plan key l next :
  follow key (sort_plan l next) = follow key (next (sort_by_key key l)).
Proof.
  revert next. induction l as [|x l IH]; intros next; [done|]. cbn [sort_plan].
  by rewrite IH, follow_insert_plan.
Qed.
Lemma insert_plan_keeps n x l next :
  (x < n)%nat -> Forall (fun y => (y < n)%nat) l ->
  (forall r, r ≡ₚ x :: l -> keeps_elements n (next r)) -> keeps_elements n (insert_plan x l next).
Proof.
  intros Hx Hl. revert next. induction Hl as [|y l Hy _ IH]; intros next Hn; [by apply Hn|].
  cbn [insert_plan keeps_elements]. split; [done|]. split; [done|]. intros []; [|by apply Hn].
  apply IH. intros r Hr. apply Hn. rewrite Hr. apply Permutation_swap.
Qed.
Lemma sort_plan_keeps n l next :
  Forall (fun y => (y < n)%nat) l ->
  (forall r, r ≡ₚ l -> keeps_elements n (next r)) -> keeps_elements n (sort_plan l next).
Proof.
  intros Hl. revert next. induction Hl as [|x l Hx Hl IH]; intros next Hn; [by apply Hn|].
  cbn [sort_plan]. apply IH. intros r Hr. apply insert_plan_keeps; [done|by rewrite Hr|].
  intros r' Hr'. apply Hn. by rewrite Hr', Hr.
Qed.
Lemma sort_plan_ok n : sorting_ok n (sort_plan (seq 0 n) Sorted).
Proof.
  split; [|intros key; apply follow_sort_plan].
  apply sort_plan_keeps; [|done]. apply list.Forall_forall. intros y Hy%elem_of_seq. lia.
Qed.

(** [HttpNextRequest] and [HttpReply] are the two sides of [serve_connection]:
    [hyper] hands the service a request of the connection ([None] at its end),
    and takes the response. *)
Inductive eff : Type -> Type :=
| UdpBind (local : string) : eff (res handle io_err)
| UdpConnect (h : handle) (a : SocketAddr) : eff (res unit io_err)
| UdpSend (h : handle) (b : bytes) : eff (res unit io_err)
| UdpRecv (h : handle) (cap : nat) : eff (res bytes io_err)
| UdpSendTo (h : handle) (b : bytes) (peer : SocketAddr) : eff (res unit io_err)
| TcpConnect (a : SocketAddr) : eff (res handle io_err)
| TlsConnect (cfg : TlsConfig) (server_name : string) (tcp : handle) : eff (res handle string)
| TlsAccept (tcp : handle) : eff (res handle io_err)
| WriteAll (h : handle) (b : bytes) : eff (res unit io_err)
| ReadExact (h : handle) (n : nat) : eff (res bytes io_err)
| QuicEndpoint (local : string) : eff (res handle string)
| QuicConnect (ep : handle) (cfg : TlsConfig) (server_name : string) (a : SocketAddr)
    : eff (res handle string)
| QuicOpenBi (conn : handle) : eff (res handle string)
| QuicFinish (h : handle) : eff (res unit string)
| HttpClientBuild (c : HttpsConnector) : eff handle
| HttpSend (client : handle) (req : HttpRequest) : eff (res (Z * handle) (list string))
| HttpBody (resp : handle) : eff (res bytes string)
| H3Client (conn : handle) : eff (res handle string)
| H3Send (sender : handle) (req : HttpRequest) : eff (res handle string)
| H3Finish (stream : handle) : eff (res unit string)
| H3RecvResponse (stream : handle) : eff (res Z string)
| H3RecvData (stream : handle) : eff (res (option bytes) string)
| H3SendResponse (stream : handle) (status : Z) (headers : list (string * string))
    : eff (res unit string)
| H3SendData (stream : handle) (b : bytes) : eff (res unit string)
| QuicStopped (h : handle) : eff unit
| QuicAccept (ep : handle) : eff (option handle)
| QuicHandshake (incoming : handle) : eff (res handle string)
| QuicAcceptBi (conn : handle) : eff (res (handle * handle) string)
| HttpNextRequest (conn : handle) : eff (res (option HttpServerRequest) string)
| HttpReply (conn : handle) (status : Z) (headers : list (string * string)) (body : bytes) : eff unit
| H3ServerNew (conn : handle) : eff (res handle string)
| H3Accept (conn : handle) : eff (res (option handle) string)
| H3ResolveRequest (resolver : handle) : eff (res (HttpServerRequest * handle) string)
| SocketNew (v6 stream : bool) : eff (res handle io_err)
| SetOnlyV6 (h : handle) (b : bool) : eff (res unit io_err)
| SetReuseAddress (h : handle) (b : bool) : eff (res unit io_err)
| SocketBind (h : handle) (a : SocketAddr) : eff (res unit io_err)
| SetNonblocking (h : handle) (b : bool) : eff (res unit io_err)
| Listen (h : handle) (backlog : Z) : eff (res unit io_err)
| FromStd (h : handle) : eff (res unit io_err)
| RecvFrom (h : handle) (cap : nat) : eff (res (bytes * SocketAddr) io_err)
| Accept (h : handle) : eff (res (handle * SocketAddr) io_err)
| LocalAddr (h : handle) : eff (res SocketAddr io_err)
| QuicLocalAddr (ep : handle) : eff (res SocketAddr string)
| Getaddrinfo (host : string) : eff (res (list IpAddr) io_err)
| FsRead (path : string) : eff (res string io_err)
| FsReadBytes (path : string) : eff (res bytes io_err)
| FsWrite (path text : string) : eff (res unit io_err)
| FsIsFile (path : string) : eff bool
| Println (line : string) : eff (res unit io_err)
| InstallProvider : eff (res unit string)
| InstantNow : eff Z
| UnixNow : eff Z
| RandomU16 : eff Z
| FillBytes (n : nat) : eff bytes
| ShuffleOrder (n : nat) : eff (list nat)
| SortPlan (n : nat) : eff sorting
| SelectReady (n : nat) : eff nat.

(** The documented contract of each call's answer. A call reports failure as
    an error value; it does not unwind into its caller. *)
Definition answered {A E} (r : res A E) (Q : A -> Prop) : Prop :=
  match r with Ok a => Q a | Err _ => True | Panic => False end.
Definition eff_ok {X} (e : eff X) : X -> Prop :=
  match e in eff X return X -> Prop with
  | UdpBind _ | TcpConnect _ | TlsAccept _ | QuicEndpoint _ =>
      fun r => answered r (fun _ => True)
  | UdpConnect _ _ | UdpSend _ _ | UdpSendTo _ _ _ | WriteAll _ _ =>
      fun r => answered r (fun _ => True)
  | UdpRecv _ cap => fun r => answered r (fun b => (length b <= cap)%nat)
  | ReadExact _ n => fun r => answered r (fun b => length b = n)
  | TlsConnect _ _ _ | QuicConnect _ _ _ _ | QuicOpenBi _ => fun r => answered r (fun _ => True)
  | QuicFinish _ | H3Finish _ => fun r => answered r (fun _ => True)
  | HttpClientBuild _ => fun _ => True
  | HttpSend _ _ => fun r => answered r (fun _ => True)
  | HttpBody _ => fun r => answered r (fun _ => True)
  | H3Client _ | H3Send _ _ => fun r => answered r (fun _ => True)
  | H3RecvResponse _ => fun r => answered r (fun _ => True)
  | H3RecvData _ =>
      fun r => answered r (fun c => match c with Some b => (0 < length b)%nat | None => True end)
  | H3SendResponse _ _ _ | H3SendData _ _ => fun r => answered r (fun _ => True)
  | QuicStopped _ | QuicAccept _ | HttpReply _ _ _ _ => fun _ => True
  | QuicHandshake _ | H3ServerNew _ => fun r => answered r (fun _ => True)
  | QuicAcceptBi _ => fun r => answered r (fun _ => True)
  | HttpNextRequest _ => fun r => answered r (fun _ => True)
  | H3Accept _ => fun r => answered r (fun _ => True)
  | H3ResolveRequest _ => fun r => answered r (fun _ => True)
  | SocketNew _ _ => fun r => answered r (fun _ => True)
  | SetOnlyV6 _ _ | SetReuseAddress _ _ | SocketBind _ _ | SetNonblocking _ _ | Listen _ _ =>
      fun r => answered r (fun _ => True)
  | FromStd _ => fun r => answered r (fun _ => True)
  | RecvFrom _ cap => fun r => answered r (fun m => (length m.1 <= cap)%nat)
  | Accept _ => fun r => answered r (fun _ => True)
  | LocalAddr _ | QuicLocalAddr _ => fun r => answered r (fun _ => True)
  | Getaddrinfo _ => fun r => answered r (fun _ => True)
  | FsRead _ => fun r => answered r (fun _ => True)
  | FsReadBytes _ => fun r => answered r (fun _ => True)
  | FsWrite _ _ => fun r => answered r (fun _ => True)
  | FsIsFile _ => fun _ => True
  | Println _ => fun r => answered r (fun _ => True)
  | InstallProvider => fun r => answered r (fun _ => True)
  | InstantNow => fun z => 0 <= z
  | UnixNow => fun _ => True
  | RandomU16 => fun z => 0 <= z <= u16_max
  | FillBytes n => fun b => length b = n
  | ShuffleOrder n => fun l => l ≡ₚ seq 0 n
  | SortPlan n => sorting_ok n
  | SelectReady n => fun i => (0 < n)%nat -> (i < n)%nat
  end.

Inductive io (S A : Type) : Type :=
| IoRet (a : A)
| IoDo {X : Type} (e : eff X) (k : X -> io S A)
| IoState {X : Type} (f : S -> X * S) (k : X -> io S A).
Arguments IoRet {S A} a.
Arguments IoDo {S A X} e k.
Arguments IoState {S A X} f k.

Fixpoint io_bind {S A B} (p : io S A) (k : A -> io S B) : io S B :=
  match p with
  | IoRet a => k a
  | IoDo e j => IoDo e (fun x => io_bind (j x) k)
  | IoState f j => IoState f (fun x => io_bind (j x) k)
  end.
Definition call {S X} (e : eff X) : io S X := IoDo e IoRet.
Definition atomically {S X} (f : S -> X * S) : io S X := IoState f IoRet.
Definition get_state {S} : io S S := atomically (fun s => (s, s)).
Definition set_state {S} (s : S) : io S unit := atomically (fun _ => (tt, s)).

(** [p.await?]: stop at the first error. *)
Definition io_try {S A B E} (p : io S (res A E)) (k : A -> io S (res B E)) : io S (res B E) :=
  io_bind p (fun r => match r with
                      | Ok a => k a | Err e => IoRet (Err e) | Panic => IoRet Panic
                      end).
(** [p.await.map_err(f)?]. *)
Definition io_map_err {S A E F} (f : E -> F) (p : io S (res A E)) : io S (res A F) :=
  io_bind p (fun r => IoRet (map_err f r)).

Notation "'let*' x := p 'in' k" := (io_bind p (fun x => k))
  (at level 10, x pattern, p at level 100, k at level 200,
   format "'[v' 'let*'  x  :=  p  'in' '/' k ']'") : rust_scope.
Notation "'try*' x := p 'in' k" := (io_try p (fun x => k))
  (at level 10, x pattern, p at level 100, k at level 200,
   format "'[v' 'try*'  x  :=  p  'in' '/' k ']'") : rust_scope.

(** ** [tokio::time::timeout]

    The wrapped future is cut at the first call that completes after the
    deadline; what it had done before stays done. *)
Fixpoint with_deadline {S A} (deadline : Z) (p : io S A) : io S (option A) :=
  match p with
  | IoRet a => IoRet (Some a)
  | IoDo e k =>
      IoDo e (fun x => IoDo InstantNow (fun t =>
        if deadline <? t then IoRet None else with_deadline deadline (k x)))
  | IoState f k => IoState f (fun x => with_deadline deadline (k x))
  end.
Definition timeout {S A} (d : Z) (p : io S A) : io S (option A) :=
  IoDo InstantNow (fun t0 => with_deadline (t0 + d) p).

(** The idiom [match self.timeout { Some(d) => timeout(d, fut).await
    .map_err(|_| e)?, None => fut.await }]. *)
Definition maybe_timeout {S A E} (t : option Z) (e : Z -> E) (p : io S (res A E)) : io S (res A E) :=
  match t with
  | Some d => let* r := timeout d p in IoRet (match r with Some r => r | None => Err (e d) end)
  | None => p
  end.

(** ** Running against a concrete environment *)
Class Env (W : Type) := perform : forall X, eff X -> W -> X * W.
Arguments perform {W Env X} e w.

Fixpoint run {S A W} `{Env W} (p : io S A) (s : S) (w : W) : A * S * W :=
  match p with
  | IoRet a => (a, s, w)
  | IoDo e k => let '(x, w) := perform e w in run (k x) s w
  | IoState f k => let '(x, s) := f s in run (k x) s w
  end.

(** ** Weakest preconditions, for one task owning its state

    [wp P p Q s]: from state [s], every call [p] makes satisfies [P], and it
    returns with [Q], whatever the calls answer within their contracts. As
    [io] is inductive, it also says that [p] returns. *)
Implicit Type P : forall X, eff X -> Prop.
Implicit Type cnt : forall X, eff X -> nat.

Definition any_call : forall X, eff X -> Prop := fun _ _ => True.

Fixpoint wp {S A} (P : forall X, eff X -> Prop) (p : io S A) (Q : A -> S -> Prop) (s : S) : Prop :=
  match p with
  | IoRet a => Q a s
  | IoDo e k => P _ e /\ forall x, eff_ok e x -> wp P (k x) Q s
  | IoState f k => wp P (k (f s).1) Q (f s).2
  end.

Lemma wp_bind {S A B} P (p : io S A) (k : A -> io S B) Q s :
  wp P (io_bind p k) Q s <-> wp P p (fun a s => wp P (k a) Q s) s.
Proof.
  revert s. induction p as [a|X e j IH|X f j IH]; intros s; simpl; [done| |auto].
  split; (intros [? H]; split; [done|]; intros x Hx; apply IH; auto).
Qed.

Lemma wp_mono {S A} (P P' : forall X, eff X -> Prop) (p : io S A) (Q Q' : A -> S -> Prop) s :
  (forall X e, P X e -> P' X e) -> (forall a s, Q a s -> Q' a s) ->
  wp P p Q s -> wp P' p Q' s.
Proof.
  intros HP HQ. revert s. induction p as [a|X e j IH|X f j IH]; intros s; simpl; auto.
  intros [? H]. split; [auto|]. intros x Hx. apply IH. auto.
Qed.

Lemma wp_with_deadline {S A} P dl (p : io S A) Q s :
  P _ InstantNow ->
  wp P p Q s ->
  wp P (with_deadline dl p) (fun r s => forall a, r = Some a -> Q a s) s.
Proof.
  intros Hnow. revert s. induction p as [a|X e j IH|X f j IH]; intros s; simpl.
  - intros ?? [= <-]. done.
  - intros [He H]. split; [done|]. intros x Hx. split; [done|]. intros t _.
    destruct (dl <? t); simpl; [done|]. apply IH. auto.
  - apply IH.
Qed.

(** A cut future leaves only what its own postcondition allows at any point;
    an error of the timeout arm says nothing about the state. *)
Lemma wp_maybe_timeout {S A E} P t (e : Z -> E) (p : io S (res A E)) (Q : res A E -> Prop) s :
  P _ InstantNow -> (forall d, t = Some d -> Q (Err (e d))) ->
  wp P p (fun r _ => Q r) s -> wp P (maybe_timeout t e p) (fun r _ => Q r) s.
Proof.
  intros Hnow He Hp. destruct t as [d|]; [|done].
  unfold maybe_timeout, timeout. rewrite wp_bind. simpl. split; [done|]. intros t0 _.
  eapply wp_mono; [done| |by apply (wp_with_deadline P (t0 + d))].
  simpl. intros [r|] s' Hr; [by apply Hr|by apply He].
Qed.

Lemma wp_run {S A W} `{Env W} P (p : io S A) Q s w :
  (forall X (e : eff X) w, eff_ok e (perform e w).1) ->
  wp P p Q s -> Q (run p s w).1.1 (run p s w).1.2.
Proof.
  intros Henv. revert s w. induction p as [a|X e j IH|X f j IH]; intros s w; simpl; [done| |].
  - intros [_ Hp]. specialize (Henv _ e w). destruct (perform e w) as [x w']. auto.
  - intros Hp. destruct (f s) as [x s']. auto.
Qed.

(** ** Invariants of state shared by many tasks

    [safe P I p Q]: every atomic section of [p] keeps [I], assuming only [I]
    before it (other tasks run in between), its calls satisfy [P] and its
    result satisfies [Q]. *)
Fixpoint safe {S A} (P : forall X, eff X -> Prop) (I : S -> Prop) (p : io S A) (Q : A -> Prop) : Prop :=
  match p with
  | IoRet a => Q a
  | IoDo e k => P _ e /\ forall x, eff_ok e x -> safe P I (k x) Q
  | IoState f k => forall s, I s -> I (f s).2 /\ safe P I (k (f s).1) Q
  end.

Lemma safe_bind {S A B} P (I : S -> Prop) (p : io S A) (k : A -> io S B) R Q :
  safe P I p R -> (forall a, R a -> safe P I (k a) Q) -> safe P I (io_bind p k) Q.
Proof.
  intros Hp Hk. induction p as [a|X e j IH|X f j IH]; simpl in *; [auto| |].
  - destruct Hp as [? Hp]. split; [done|]. intros x Hx. apply IH. auto.
  - intros s Hs. destruct (Hp s Hs). split; [done|]. by apply IH.
Qed.

Lemma safe_mono {S A} P (I : S -> Prop) (p : io S A) (Q Q' : A -> Prop) :
  (forall a, Q a -> Q' a) -> safe P I p Q -> safe P I p Q'.
Proof.
  intros HQ. induction p as [a|X e j IH|X f j IH]; simpl; [auto| |].
  - intros [? Hp]. split; [done|]. intros x Hx. apply IH. auto.
  - intros Hp s Hs. destruct (Hp s Hs). split; [done|]. by apply IH.
Qed.

Lemma safe_weaken {S A} (P P' : forall X, eff X -> Prop) (I : S -> Prop) (p : io S A) Q :
  (forall X e, P X e -> P' X e) -> safe P I p Q -> safe P' I p Q.
Proof.
  intros HP. induction p as [a|X e j IH|X f j IH]; simpl; [auto| |].
  - intros [? Hp]. split; [auto|]. intros x Hx. apply IH. auto.
  - intros Hp s Hs. destruct (Hp s Hs). split; [done|]. by apply IH.
Qed.

Inductive some_eff := | SomeEff {X : Type} (e : eff X).
(** The calls a computation makes itself, whatever is answered and whatever
    other tasks do to the store in between. *)
Fixpoint makes {S A} (p : io S A) X (e : eff X) : Prop :=
  match p with
  | IoRet _ => False
  | IoDo e' k => SomeEff e' = SomeEff e \/ exists x, eff_ok e' x /\ makes (k x) X e
  | IoState f k => exists s, makes (k (f s).1) X e
  end.
Lemma safe_makes {S A} P (I : S -> Prop) (p : io S A) Q : safe P I p Q -> safe (makes p) I p Q.
Proof.
  induction p as [a|X e k IH|X f k IH]; cbn [safe makes].
  - done.
  - intros [_ Hk]. split; [by left|]. intros x Hx. eapply safe_weaken; [|apply IH, Hk, Hx].
    intros Y e' He. right. by exists x.
  - intros Hk s Hs. destruct (Hk s Hs) as [HI Hp]. split; [done|].
    eapply safe_weaken; [|apply IH, Hp]. intros Y e' He. by exists s.
Qed.

Lemma safe_iff {S A} P (I I' : S -> Prop) (p : io S A) Q :
  (forall s, I s <-> I' s) -> safe P I p Q -> safe P I' p Q.
Proof.
  intros HI. induction p as [a|X e j IH|X f j IH]; simpl; [auto| |].
  - intros [? Hp]. split; [done|]. intros x Hx. apply IH. auto.
  - intros Hp s Hs. destruct (Hp s (proj2 (HI s) Hs)). split; [by apply HI|]. by apply IH.
Qed.

Lemma safe_with_deadline {S A} P (I : S -> Prop) dl (p : io S A) Q :
  P _ InstantNow -> safe P I p Q ->
  safe P I (with_deadline dl p) (fun r => forall a, r = Some a -> Q a).
Proof.
  intros Hnow. induction p as [a|X e j IH|X f j IH]; simpl.
  - intros ?? [= <-]. done.
  - intros [He H]. split; [done|]. intros x Hx. split; [done|]. intros t _.
    destruct (dl <? t); simpl; [done|]. auto.
  - intros Hp s Hs. destruct (Hp s Hs). auto.
Qed.

Lemma safe_timeout {S A} P (I : S -> Prop) d (p : io S A) Q :
  P _ InstantNow -> Q None -> safe P I p (fun a => Q (Some a)) -> safe P I (timeout d p) Q.
Proof.
  intros Hnow HN Hp. split; [done|]. intros t0 _.
  eapply safe_mono; [|by apply (safe_with_deadline P I (t0 + d))].
  intros [a|] Ha; [by apply Ha|done].
Qed.

Lemma safe_maybe_timeout {S A E} P (I : S -> Prop) t (e : Z -> E) (p : io S (res A E)) Q :
  P _ InstantNow -> (forall d, t = Some d -> Q (Err (e d))) ->
  safe P I p Q -> safe P I (maybe_timeout t e p) Q.
Proof.
  intros Hnow He Hp. destruct t as [d|]; [|done].
  unfold maybe_timeout. eapply safe_bind.
  - apply (safe_timeout _ _ _ _ (fun r => match r with Some r => Q r | None => True end)); done.
  - intros [r|] Hr; simpl; [done|by apply He].
Qed.

Lemma safe_wp {S A} P (I : S -> Prop) (p : io S A) Q s :
  I s -> safe P I p Q -> wp P p (fun a s => Q a /\ I s) s.
Proof.
  revert s. induction p as [a|X e j IH|X f j IH]; intros s Hs; simpl; [done| |].
  - intros [? Hp]. split; [done|]. auto.
  - intros Hp. destruct (Hp s Hs). auto.
Qed.

(** ** Many tasks

    A pool of tasks over one shared state. Any task may take its next step,
    and new tasks arrive from [spawnable]. *)
Inductive pool_step {S A} (spawnable : io S A -> Prop)
  : S * list (io S A) -> S * list (io S A) -> Prop :=
| step_call s ps i X (e : eff X) k x :
    ps !! i = Some (IoDo e k) -> eff_ok e x ->
    pool_step spawnable (s, ps) (s, <[i := k x]> ps)
| step_state s ps i X (f : S -> X * S) k :
    ps !! i = Some (IoState f k) ->
    pool_step spawnable (s, ps) ((f s).2, <[i := k (f s).1]> ps)
| step_spawn s ps p :
    spawnable p -> pool_step spawnable (s, ps) (s, ps ++ [p]).

Lemma pool_safe {S A} P (spawnable : io S A -> Prop) (I : S -> Prop) (Q : A -> Prop) c c' :
  (forall p, spawnable p -> safe P I p Q) ->
  rtc (pool_step spawnable) c c' ->
  I c.1 -> Forall (fun p => safe P I p Q) c.2 ->
  I c'.1 /\ Forall (fun p => safe P I p Q) c'.2.
Proof.
  intros Hspawn. induction 1 as [|c1 c2 c3 Hstep _ IH]; [done|].
  intros Hs Hps. assert (I c2.1 /\ Forall (fun p => safe P I p Q) c2.2) as [? ?]; [|auto].
  destruct Hstep as [s ps i X e k x Hi Hx|s ps i X f k Hi|s ps p Hp]; simpl in *.
  - pose proof (Forall_lookup_1 _ _ _ _ Hps Hi) as [_ Hk].
    split; [done|]. apply Forall_insert; auto.
  - pose proof (Forall_lookup_1 _ _ _ _ Hps Hi) as Hk. destruct (Hk s Hs).
    split; [done|]. by apply Forall_insert.
  - split; [done|]. apply Forall_app. split; [done|]. apply Forall_singleton. auto.
Qed.

(** Using one component of a larger state. *)
Fixpoint zoom {S T A} (get : T -> S) (put : S -> T -> T) (p : io S A) : io T A :=
  match p with
  | IoRet a => IoRet a
  | IoDo e k => IoDo e (fun x => zoom get put (k x))
  | IoState f k =>
      IoState (fun t => let '(x, s) := f (get t) in (x, put s t)) (fun x => zoom get put (k x))
  end.

Lemma wp_zoom {S T A} P (get : T -> S) (put : S -> T -> T) (p : io S A) Q t :
  (forall s t, get (put s t) = s) -> (forall s s' t, put s (put s' t) = put s t) ->
  (forall t, put (get t) t = t) ->
  wp P p (fun a s => Q a (put s t)) (get t) -> wp P (zoom get put p) Q t.
Proof.
  intros Hgp Hpp Hpg. revert t. induction p as [a|X e j IH|X f j IH]; intros t; simpl.
  - by rewrite Hpg.
  - intros [? H]. split; [done|]. intros x Hx. apply IH. auto.
  - destruct (f (get t)) as [x s] eqn:E. simpl. intros Hp. apply IH. rewrite Hgp.
    eapply wp_mono; [done| |exact Hp]. simpl. intros. by rewrite Hpp.
Qed.

Lemma safe_zoom {S T A} P (J : S -> Prop) (I : T -> Prop)
    (get : T -> S) (put : S -> T -> T) (p : io S A) Q :
  (forall t, I t -> J (get t)) -> (forall s t, I t -> J s -> I (put s t)) ->
  safe P J p Q -> safe P I (zoom get put p) Q.
Proof.
  intros Hg Hp. induction p as [a|X e j IH|X f j IH]; simpl; [done| |].
  - intros [? H]. split; [done|]. intros x Hx. auto.
  - intros H t Ht. destruct (H (get t) (Hg t Ht)) as [HJ Hk].
    destruct (f (get t)) as [x s]. simpl in *. auto.
Qed.

(** ** Shared cells

    A field behind a lock or an atomic is a cell of the shared store: how to
    read it and how to replace it. An [async] mutex that stays locked across an
    [await] is modelled by its separate reads and writes, so tasks may
    interleave more than the program lets them. *)
Record cell (S T : Type) := Cell { peek : S -> T; poke : T -> S -> S }.
Arguments Cell {S T}.
Arguments peek {S T}.
Arguments poke {S T}.
Class CellLaws {S T} (c : cell S T) := {
  peek_poke v s : peek c (poke c v s) = v;
  poke_poke v w s : poke c v (poke c w s) = poke c v s;
  poke_peek s : poke c (peek c s) s = s;
}.
Definition read_cell {S T} (c : cell S T) : io S T := atomically (fun s => (peek c s, s)).
Definition write_cell {S T} (c : cell S T) (v : T) : io S unit :=
  atomically (fun s => (tt, poke c v s)).
(** The whole store as a cell. *)
Definition whole {S} : cell S S := Cell (fun s => s) (fun v _ => v).
#[export] Instance whole_laws {S} : CellLaws (@whole S).
Proof. by split. Qed.

(** ** Concurrency inside one task

    [tokio::join!]: two futures advance in any order until both are done. The
    scheduler's choice is the answer to [SelectReady]. *)
Definition io_map {S A B} (f : A -> B) (p : io S A) : io S B := io_bind p (fun a => IoRet (f a)).
Definition pick_first {S A} (left right : io S A) : io S A :=
  IoDo (SelectReady 2) (fun i => match i with O => left | _ => right end).
Fixpoint io_join {S A B} (p : io S A) : io S B -> io S (A * B) :=
  fix join_p (q : io S B) : io S (A * B) :=
    match p, q with
    | IoRet a, q => io_map (fun b => (a, b)) q
    | p, IoRet b => io_map (fun a => (a, b)) p
    | p, q =>
        pick_first
          (match p with
           | IoRet a => io_map (fun b => (a, b)) q
           | IoDo e k => IoDo e (fun x => io_join (k x) q)
           | IoState f k => IoState f (fun x => io_join (k x) q)
           end)
          (match q with
           | IoRet b => io_map (fun a => (a, b)) p
           | IoDo e k => IoDo e (fun x => join_p (k x))
           | IoState f k => IoState f (fun x => join_p (k x))
           end)
    end.

(** [tokio::select!]: the first future to finish wins and the other one is
    dropped where it stands. *)
Fixpoint io_race {S A B} (p : io S A) : io S B -> io S (A + B) :=
  fix race_p (q : io S B) : io S (A + B) :=
    pick_first
      (match p with
       | IoRet a => IoRet (inl a)
       | IoDo e k => IoDo e (fun x => io_race (k x) q)
       | IoState f k => IoState f (fun x => io_race (k x) q)
       end)
      (match q with
       | IoRet b => IoRet (inr b)
       | IoDo e k => IoDo e (fun x => race_p (k x))
       | IoState f k => IoState f (fun x => race_p (k x))
       end).

(** The results of many futures in completion order, each folded into an
    accumulator until one of them decides the outcome ([select_all] in a
    loop). The accumulator is local state of the task. *)
Fixpoint with_local {S T A} (t : T) (p : io (S * T) A) : io S (A * T) :=
  match p with
  | IoRet a => IoRet (a, t)
  | IoDo e k => IoDo e (fun x => with_local t (k x))
  | IoState f k =>
      IoState (fun s => let '(x, (s', t')) := f (s, t) in ((x, t'), s'))
              (fun y => with_local y.2 (k y.1))
  end.
Definition lift_fst {S T A} (p : io S A) : io (S * T) A := zoom fst (fun s t => (s, t.2)) p.
(** [Some] decides; [None] waits for the others. *)
Fixpoint io_first {S A} (p : io S (option A)) : io S (option A) -> io S (option A) :=
  fix first_p (q : io S (option A)) : io S (option A) :=
    match p, q with
    | IoRet (Some a), _ => IoRet (Some a)
    | IoRet None, q => q
    | _, IoRet (Some b) => IoRet (Some b)
    | p, IoRet None => p
    | p, q =>
        pick_first
          (match p with
           | IoRet a => IoRet a
           | IoDo e k => IoDo e (fun x => io_first (k x) q)
           | IoState f k => IoState f (fun x => io_first (k x) q)
           end)
          (match q with
           | IoRet b => IoRet b
           | IoDo e k => IoDo e (fun x => first_p (k x))
           | IoState f k => IoState f (fun x => first_p (k x))
           end)
    end.
Definition io_first_of {S A} (ps : list (io S (option A))) : io S (option A) :=
  foldr io_first (IoRet None) ps.


(** ** Rules for the concurrent combinators *)
Lemma safe_pick_first {S A} P (I : S -> Prop) (l r : io S A) Q :
  P _ (SelectReady 2) -> safe P I l Q -> safe P I r Q -> safe P I (pick_first l r) Q.
Proof. intros HP Hl Hr. split; [done|]. by intros [|i] _. Qed.

Lemma safe_map {S A B} P (I : S -> Prop) (f : A -> B) (p : io S A) Q :
  safe P I p (fun a => Q (f a)) -> safe P I (io_map f p) Q.
Proof. intros Hp. by eapply safe_bind; [exact Hp|]. Qed.

(** The steps of one branch, from its hypothesis. *)
Ltac safe_branch Hp :=
  try (pose proof Hp as [? ?]; split; [done|]; by auto);
  try (intros s Hs; destruct (Hp s Hs); by auto).

Lemma safe_join {S A B} P (I : S -> Prop) (p : io S A) (q : io S B) QA QB :
  P _ (SelectReady 2) -> safe P I p QA -> safe P I q QB ->
  safe P I (io_join p q) (fun ab => QA ab.1 /\ QB ab.2).
Proof.
  intros HP. revert q.
  induction p as [a|X e j IHp|X f j IHp]; intros q Hp; induction q as [b|Y e' j' IHq|Y f' j' IHq];
    intros Hq;
    first [ apply safe_pick_first; [done| |]; safe_branch Hp; safe_branch Hq
          | apply safe_map; (eapply safe_mono; [|first [exact Hq|exact Hp]]); auto ].
Qed.

Lemma safe_race {S A B} P (I : S -> Prop) (p : io S A) (q : io S B) Q :
  P _ (SelectReady 2) -> safe P I p (fun a => Q (inl a)) -> safe P I q (fun b => Q (inr b)) ->
  safe P I (io_race p q) Q.
Proof.
  intros HP. revert q.
  induction p as [a|X e j IHp|X f j IHp]; intros q Hp; induction q as [b|Y e' j' IHq|Y f' j' IHq];
    intros Hq; (apply safe_pick_first; [done| |]); try done; safe_branch Hp; safe_branch Hq.
Qed.

(** The outcome is one future's decision, or every future's abstention. *)
Definition first_post {A} (Qp Qq : option A -> Prop) (r : option A) : Prop :=
  match r with Some _ => Qp r \/ Qq r | None => Qp None /\ Qq None end.
Lemma safe_first {S A} P (I : S -> Prop) (p q : io S (option A)) Qp Qq :
  P _ (SelectReady 2) -> safe P I p Qp -> safe P I q Qq ->
  safe P I (io_first p q) (first_post Qp Qq).
Proof.
  assert (forall (q : io S (option A)), Qp None -> safe P I q Qq -> safe P I q (first_post Qp Qq))
    as HL by (intros q' ? ?; eapply safe_mono; [|eassumption]; intros []; simpl; auto).
  assert (forall (p : io S (option A)), Qq None -> safe P I p Qp -> safe P I p (first_post Qp Qq))
    as HR by (intros p' ? ?; eapply safe_mono; [|eassumption]; intros []; simpl; auto).
  intros HP. revert q.
  induction p as [[a|]|X e j IHp|X f j IHp]; intros q Hp;
    induction q as [[b|]|Y e' j' IHq|Y f' j' IHq]; intros Hq;
    first [ by apply HL | by apply HR | by left | by right
          | apply safe_pick_first; [done| |]; safe_branch Hp; safe_branch Hq ].
Qed.

Lemma safe_first_of {S A B} P (I : S -> Prop) (ps : list (io S (option A)))
    (Q : B -> option A -> Prop) (bs : list B) :
  P _ (SelectReady 2) -> Forall2 (fun p b => safe P I p (Q b)) ps bs ->
  safe P I (io_first_of ps)
    (fun r => match r with Some _ => exists b, b ∈ bs /\ Q b r | None => Forall (fun b => Q b None) bs end).
Proof.
  intros HP. induction 1 as [|p b ps bs Hp Hps IH]; [constructor|].
  eapply safe_mono; [|by apply safe_first; [done|exact Hp|exact IH]].
  intros [a|]; simpl.
  - intros [?|(b' & ? & ?)]; [exists b|exists b']; (split; [|done]); [by left|by right].
  - intros [? ?]. by constructor.
Qed.

Lemma safe_with_local {S T A} P (I : S -> Prop) (J : T -> Prop) t (p : io (S * T) A) Q :
  J t -> safe P (fun st => I st.1 /\ J st.2) p Q ->
  safe P I (with_local t p) (fun at' => Q at'.1 /\ J at'.2).
Proof.
  revert t. induction p as [a|X e j IH|X f j IH]; intros t Ht Hp; simpl in *; [done| |].
  - destruct Hp as [? Hk]. split; [done|]. auto.
  - intros s Hs. specialize (Hp (s, t) (conj Hs Ht)).
    destruct (f (s, t)) as [x [s' t']]. simpl in *. destruct Hp as [[? ?] ?]. auto.
Qed.

Lemma safe_lift_fst {S T A} P (I : S -> Prop) (J : T -> Prop) (p : io S A) Q :
  safe P I p Q -> safe P (fun st : S * T => I st.1 /\ J st.2) (lift_fst p) Q.
Proof. apply safe_zoom; naive_solver. Qed.

(** ** Rules for calls and cells *)
Lemma safe_call {S X} P (I : S -> Prop) (e : eff X) Q :
  P _ e -> (forall x, eff_ok e x -> Q x) -> safe P I (call e) Q.
Proof. by split. Qed.

(** [p.await?]: the continuation on success, the error kept otherwise. *)
Lemma safe_try {S A B E} P (I : S -> Prop) (p : io S (res A E)) (k : A -> io S (res B E))
    (R : res A E -> Prop) (Q : res B E -> Prop) :
  safe P I p R -> (forall a, R (Ok a) -> safe P I (k a) Q) ->
  (forall e, R (Err e) -> Q (Err e)) -> (R Panic -> Q Panic) ->
  safe P I (io_try p k) Q.
Proof.
  intros Hp Hk He HP. eapply safe_bind; [exact Hp|]. intros [a|e|] Hr; simpl; auto.
Qed.

(** [op.await.map_err(f)?] for an operation that answers within [R]. *)
Lemma safe_try_call {S A B E F} P (I : S -> Prop) (e : eff (res A F)) (f : F -> E)
    (k : A -> io S (res B E)) (R : A -> Prop) (Q : res B E -> Prop) :
  P _ e -> (forall r, eff_ok e r -> answered r R) ->
  (forall a, R a -> safe P I (k a) Q) -> (forall x, Q (Err (f x))) ->
  safe P I (io_try (io_map_err f (call e)) k) Q.
Proof.
  intros HP Hans Hk He. unfold io_try, io_map_err, call. simpl. split; [done|].
  intros r Hr%Hans. destruct r; simpl in *; [auto|auto|done].
Qed.

Lemma safe_read_cell {S T} P (I : S -> Prop) (c : cell S T) Q :
  (forall s, I s -> Q (peek c s)) -> safe P I (read_cell c) Q.
Proof. intros HQ s Hs. simpl. auto. Qed.
Lemma safe_write_cell {S T} P (I : S -> Prop) (c : cell S T) v (Q : unit -> Prop) :
  (forall s, I s -> I (poke c v s)) -> Q tt -> safe P I (write_cell c v) Q.
Proof. intros HI HQ s Hs. simpl. auto. Qed.

(** Unfold the next call or the next bind of a [wp] or [safe] goal. *)
Ltac io_simpl :=
  cbn [io_bind wp safe call atomically get_state set_state io_try io_map_err fst snd map_err].

(** The calls that put bytes, a request or a name lookup on the wire; a
    [quiet] policy allows every other call. *)
Definition is_payload {X} (e : eff X) : bool :=
  match e with
  | UdpSend _ _ | UdpSendTo _ _ _ | WriteAll _ _ | HttpSend _ _ | H3Send _ _
  | H3SendResponse _ _ _ | H3SendData _ _ | HttpReply _ _ _ _ | Getaddrinfo _ => true
  | _ => false
  end.
Definition quiet P : Prop := forall X (e : eff X), is_payload e = false -> P X e.
Lemma quiet_any : quiet any_call.
Proof. done. Qed.
Lemma quiet_call P X (e : eff X) : quiet P -> is_payload e = false -> P X e.
Proof. auto. Qed.
(** Discharge [P _ e] for a call the policy allows. *)
Ltac call_ok :=
  intros;
  first [ assumption | exact Logic.I
        | match goal with H : quiet ?P |- ?P _ _ => apply H; reflexivity end
        | solve [eauto] ].
(** One [op.await.map_err(f)?] of a [safe] goal, for any call and error. *)
Ltac io_try_call :=
  eapply safe_try_call; [call_ok| |intros ? ?|done]; [intros ? Hok; exact Hok|].

(** ** Traces

    [exec p s tr a s']: from [s], [p] may return [a] in state [s'], having made
    the calls [tr] with their answers. *)
Inductive event := | Event {X : Type} (e : eff X) (x : X).
Fixpoint exec {S A} (p : io S A) (s : S) (tr : list event) (a : A) (s' : S) : Prop :=
  match p with
  | IoRet b => tr = [] /\ a = b /\ s' = s
  | IoDo e k => exists x tr', eff_ok e x /\ tr = Event e x :: tr' /\ exec (k x) s tr' a s'
  | IoState f k => exec (k (f s).1) (f s).2 tr a s'
  end.

Lemma exec_bind {S A B} (p : io S A) (k : A -> io S B) s tr b s'' :
  exec (io_bind p k) s tr b s'' <->
  exists a s' tr1 tr2, tr = tr1 ++ tr2 /\ exec p s tr1 a s' /\ exec (k a) s' tr2 b s''.
Proof.
  revert s tr. induction p as [a|X e j IH|X f j IH]; intros s tr; simpl.
  - split; [intros ?; by eexists a, s, [], tr|]. by intros (? & ? & ? & ? & -> & (-> & -> & ->) & ?).
  - split.
    + intros (x & tr' & ? & -> & (a & s' & tr1 & tr2 & -> & ? & ?)%IH).
      exists a, s', (Event e x :: tr1), tr2. split; [done|]. split; [|done]. by exists x, tr1.
    + intros (a & s' & tr1 & tr2 & -> & (x & tr' & ? & -> & ?) & ?).
      exists x, (tr' ++ tr2). split; [done|]. split; [done|]. apply IH. by exists a, s', tr', tr2.
  - apply IH.
Qed.

(** What [wp] promises holds of every execution. *)
Lemma wp_exec {S A} P (p : io S A) Q s tr a s' :
  wp P p Q s -> exec p s tr a s' -> Q a s'.
Proof.
  revert s tr. induction p as [b|X e j IH|X f j IH]; intros s tr; simpl.
  - by intros ? (_ & -> & ->).
  - intros [_ Hp] (x & tr' & ? & _ & ?). eauto.
  - apply IH.
Qed.

Lemma exec_try {S A B E} (p : io S (res A E)) (k : A -> io S (res B E)) s tr r s'' :
  exec (io_try p k) s tr r s'' <->
  exists r0 s' tr1 tr2, tr = tr1 ++ tr2 /\ exec p s tr1 r0 s'
    /\ match r0 with
       | Ok a => exec (k a) s' tr2 r s''
       | Err e => tr2 = [] /\ r = Err e /\ s'' = s'
       | Panic => tr2 = [] /\ r = Panic /\ s'' = s'
       end.
Proof.
  unfold io_try. rewrite exec_bind.
  split; intros ([a|e|] & s' & tr1 & tr2 & H);
    [exists (Ok a)|exists (Err e)|exists Panic|exists (Ok a)|exists (Err e)|exists Panic];
    exists s', tr1, tr2; simpl in *; naive_solver.
Qed.

(** The two most common steps of a [?] chain: a value at hand, and one call. *)
Lemma exec_try_ret {S A B E} (r0 : res A E) (k : A -> io S (res B E)) s tr r s' :
  exec (io_try (IoRet r0) k) s tr r s' <->
  match r0 with
  | Ok a => exec (k a) s tr r s'
  | Err e => tr = [] /\ r = Err e /\ s' = s
  | Panic => tr = [] /\ r = Panic /\ s' = s
  end.
Proof. by destruct r0. Qed.
Lemma exec_try_call {S A B E F} (f : F -> E) (e : eff (res A F)) (k : A -> io S (res B E)) s tr r s' :
  exec (io_try (io_map_err f (call e)) k) s tr r s' <->
  exists x tr', eff_ok e x /\ tr = Event e x :: tr' /\
    match x with
    | Ok a => exec (k a) s tr' r s'
    | Err e0 => tr' = [] /\ r = Err (f e0) /\ s' = s
    | Panic => tr' = [] /\ r = Panic /\ s' = s
    end.
Proof.
  simpl. split; intros (x & tr' & ? & -> & H); exists x, tr'; (split; [done|]); (split; [done|]);
    by destruct x.
Qed.

(** ** Running a program against fixed answers

    A concrete execution for every answer function; [benign] lets every call
    succeed with a default. *)
Fixpoint run_trace {S A} (ans : forall X, eff X -> X) (p : io S A) (s : S) : A * S * list event :=
  match p with
  | IoRet a => (a, s, [])
  | IoDo e k =>
      let x := ans _ e in
      let '(a, s, tr) := run_trace ans (k x) s in (a, s, Event e x :: tr)
  | IoState f k => let '(x, s) := f s in run_trace ans (k x) s
  end.
Lemma run_trace_exec {S A} (ans : forall X, eff X -> X) (p : io S A) s :
  (forall X (e : eff X), eff_ok e (ans X e)) ->
  exec p s (run_trace ans p s).2 (run_trace ans p s).1.1 (run_trace ans p s).1.2.
Proof.
  intros Hok. revert s. induction p as [a|X e k IH|X f k IH]; intros s; simpl; [done| |].
  - specialize (IH (ans X e) s). destruct (run_trace ans (k (ans X e)) s) as [[a s'] tr].
    exists (ans X e), tr. by split_and!.
  - destruct (f s) as [x s1]. apply IH.
Qed.

Definition benign X (e : eff X) : X :=
  match e in eff X return X with
  | UdpBind _ | TcpConnect _ | TlsConnect _ _ _ | TlsAccept _ | QuicEndpoint _ | QuicConnect _ _ _ _
  | QuicOpenBi _ | H3Client _ | H3Send _ _ | SocketNew _ _ => Ok 1%nat
  | UdpConnect _ _ | UdpSend _ _ | UdpSendTo _ _ _ | WriteAll _ _ | QuicFinish _ | H3Finish _
  | H3SendResponse _ _ _ | H3SendData _ _ | SetOnlyV6 _ _ | SetReuseAddress _ _ | SocketBind _ _
  | SetNonblocking _ _ | Listen _ _ | FsWrite _ _ | InstallProvider | Println _ | FromStd _ => Ok tt
  | UdpRecv _ _ | HttpBody _ | FsReadBytes _ => Ok []
  | ReadExact _ n => Ok (replicate n x00)
  | HttpClientBuild _ => 1%nat
  | HttpSend _ _ => Ok (200, 1%nat)
  | H3RecvResponse _ => Ok 200
  | H3RecvData _ => Ok None
  | QuicStopped _ | HttpReply _ _ _ _ => tt
  | QuicAccept _ => None
  | QuicHandshake _ | H3ServerNew _ => Ok 1%nat
  | QuicAcceptBi _ => Ok (1%nat, 1%nat)
  | HttpNextRequest _ | H3Accept _ => Ok None
  | H3ResolveRequest _ => Err "closed"
  | RecvFrom _ _ => Ok ([], SockV4 (Ipv4 x7f x00 x00 x01) 53)
  | Accept _ => Ok (1%nat, SockV4 (Ipv4 x7f x00 x00 x01) 53)
  | LocalAddr _ | QuicLocalAddr _ => Ok (SockV4 (Ipv4 x7f x00 x00 x01) 53)
  | Getaddrinfo _ => Ok []
  | FsRead _ => Ok ""
  | FsIsFile _ => false
  | InstantNow | UnixNow | RandomU16 => 0
  | FillBytes n => replicate n x00
  | ShuffleOrder n => seq 0 n
  | SortPlan n => sort_plan (seq 0 n) Sorted
  | SelectReady _ => 0%nat
  end.
Lemma benign_ok X (e : eff X) : eff_ok e (benign X e).
Proof.
  destruct e; try apply sort_plan_ok; simpl; try done; rewrite ?length_replicate; unfold u16_max; (lia || done).
Qed.

(** ** Counting calls

    [at_most cnt n p]: on every path of [p] the calls weigh at most [n]. *)
Fixpoint at_most {S A} (cnt : forall X, eff X -> nat) (n : nat) (p : io S A) : Prop :=
  match p with
  | IoRet _ => True
  | IoDo e k => (cnt _ e <= n)%nat /\ forall x, at_most cnt (n - cnt _ e) (k x)
  | IoState f k => forall x, at_most cnt n (k x)
  end.
Definition weight (cnt : forall X, eff X -> nat) (ev : event) : nat :=
  match ev with Event e _ => cnt _ e end.
Definition total (cnt : forall X, eff X -> nat) (tr : list event) : nat :=
  sum_list_with (weight cnt) tr.

Lemma at_most_le {S A} cnt n m (p : io S A) : (n <= m)%nat -> at_most cnt n p -> at_most cnt m p.
Proof.
  revert n m. induction p as [a|X e j IH|X f j IH]; intros n m Hnm; simpl; [done| |].
  - intros [? Hk]. split; [lia|]. intros x. eapply IH; [|apply Hk]. lia.
  - intros Hk x. by eapply IH.
Qed.
Lemma at_most_bind {S A B} cnt n m (p : io S A) (k : A -> io S B) :
  at_most cnt n p -> (forall a, at_most cnt m (k a)) -> at_most cnt (n + m) (io_bind p k).
Proof.
  intros Hp Hk. revert n Hp. induction p as [a|X e j IH|X f j IH]; intros n; simpl.
  - intros _. eapply at_most_le; [|apply Hk]. lia.
  - intros [? Hj]. split; [lia|]. intros x.
    replace (n + m - cnt _ e)%nat with (n - cnt _ e + m)%nat by lia. by apply IH.
  - intros Hj x. by apply IH.
Qed.
Lemma at_most_try {S A B E} cnt n m (p : io S (res A E)) (k : A -> io S (res B E)) :
  at_most cnt n p -> (forall a, at_most cnt m (k a)) -> at_most cnt (n + m) (io_try p k).
Proof. intros Hp Hk. apply at_most_bind; [done|]. by intros []. Qed.
Lemma at_most_try_pure {S A B E} cnt n (r : res A E) (k : A -> io S (res B E)) :
  (forall a, at_most cnt n (k a)) -> at_most cnt n (io_try (IoRet r) k).
Proof. intros Hk. destruct r; [apply Hk|exact I|exact I]. Qed.
Lemma at_most_call {S X} cnt n (e : eff X) : (cnt _ e <= n)%nat -> at_most (S := S) cnt n (call e).
Proof. by split. Qed.
Lemma at_most_map_err {S A E F} cnt n (f : E -> F) (p : io S (res A E)) :
  at_most cnt n p -> at_most cnt n (io_map_err f p).
Proof.
  intros Hp. rewrite <- (Nat.add_0_r n). by apply at_most_bind.
Qed.
Lemma at_most_with_deadline {S A} cnt n dl (p : io S A) :
  cnt _ InstantNow = O -> at_most cnt n p -> at_most cnt n (with_deadline dl p).
Proof.
  intros H0. revert n. induction p as [a|X e j IH|X f j IH]; intros n; simpl; [done| |auto].
  intros [? Hk]. split; [done|]. intros x. rewrite H0. split; [lia|]. intros t.
  rewrite Nat.sub_0_r. destruct (dl <? t); simpl; auto.
Qed.
Lemma at_most_maybe_timeout {S A E} cnt n t (e : Z -> E) (p : io S (res A E)) :
  cnt _ InstantNow = O -> at_most cnt n p -> at_most cnt n (maybe_timeout t e p).
Proof.
  intros H0 Hp. destruct t as [d|]; [|done]. unfold maybe_timeout.
  rewrite <- (Nat.add_0_r n). apply at_most_bind; [|done].
  simpl. rewrite H0, Nat.sub_0_r. split; [lia|]. intros t. by apply at_most_with_deadline.
Qed.
Lemma at_most_exec {S A} cnt n (p : io S A) s tr a s' :
  at_most cnt n p -> exec p s tr a s' -> (total cnt tr <= n)%nat.
Proof.
  revert n s tr. induction p as [b|X e j IH|X f j IH]; intros n s tr; simpl.
  - intros _ (-> & _). simpl. lia.
  - intros [? Hk] (x & tr' & _ & -> & Hx). eapply IH in Hx; [|apply Hk].
    unfold total in *. simpl. lia.
  - intros Hk Hx. by eapply IH in Hx.
Qed.
Lemma total_app cnt tr1 tr2 : total cnt (tr1 ++ tr2) = (total cnt tr1 + total cnt tr2)%nat.
Proof. unfold total. by rewrite sum_list_with_app. Qed.

(** Programs that leave the state alone. *)
Fixpoint stateless {S A} (p : io S A) : Prop :=
  match p with
  | IoRet _ => True
  | IoDo e k => forall x, stateless (k x)
  | IoState f k => False
  end.
Lemma stateless_bind {S A B} (p : io S A) (k : A -> io S B) :
  stateless p -> (forall a, stateless (k a)) -> stateless (io_bind p k).
Proof. intros Hp Hk. induction p; simpl in *; auto. Qed.
Lemma stateless_try {S A B E} (p : io S (res A E)) (k : A -> io S (res B E)) :
  stateless p -> (forall a, stateless (k a)) -> stateless (io_try p k).
Proof. intros Hp Hk. apply stateless_bind; [done|]. by intros []. Qed.
Lemma stateless_try_pure {S A B E} (r : res A E) (k : A -> io S (res B E)) :
  (forall a, stateless (k a)) -> stateless (io_try (IoRet r) k).
Proof. intros Hk. destruct r; [apply Hk|exact I|exact I]. Qed.
Lemma stateless_with_deadline {S A} dl (p : io S A) : stateless p -> stateless (with_deadline dl p).
Proof. induction p; simpl; auto. intros Hk x t. case_match; simpl; auto. Qed.
Lemma stateless_maybe_timeout {S A E} t (e : Z -> E) (p : io S (res A E)) :
  stateless p -> stateless (maybe_timeout t e p).
Proof.
  intros Hp. destruct t as [d|]; [|done]. apply stateless_bind; [|done].
  intros t. by apply stateless_with_deadline.
Qed.
Lemma stateless_exec {S A} (p : io S A) s tr a s' : stateless p -> exec p s tr a s' -> s' = s.
Proof.
  revert s tr. induction p as [b|X e j IH|X f j IH]; intros s tr; simpl; [naive_solver| |done].
  intros Hk (x & tr' & _ & _ & Hx). eauto.
Qed.

Create HintDb io.
#[export] Hint Resolve safe_bind safe_maybe_timeout safe_join safe_race safe_call : io.
