(* ===== verification/Procs.v ===== *)
(** * Systems of tasks

    A spawned task of the program is a process: a loop whose every turn is an
    [io] program, or a single such program. A turn ends by leaving the loop, by
    a panic (which [tokio] confines to the task), by going round again, by
    spawning another task and going round, by becoming another process, or by
    spawning a task and becoming another process. A
    system is a store shared by any number of processes, each of which may take
    the next step; its trace is every call made with its answer. *)
From S2P Require Import Prelude RustStr RustNet Io.

Inductive next (Q : Type) :=
| Break
| Unwound
| Continue
| Spawn (q : Q)
| Become (q : Q)
| Fork (q q' : Q).
Arguments Break {Q}.
Arguments Unwound {Q}.
Arguments Continue {Q}.
Arguments Spawn {Q} q.
Arguments Become {Q} q.
Arguments Fork {Q} q q'.

(** The processes of one program seen as processes of another. *)
Definition next_map {Q Q'} (f : Q -> Q') (n : next Q) : next Q' :=
  match n with
  | Break => Break
  | Unwound => Unwound
  | Continue => Continue
  | Spawn q => Spawn (f q)
  | Become q => Become (f q)
  | Fork q q' => Fork (f q) (f q')
  end.

Section Procs.
Context {S Q : Type} (turn : Q -> io S (next Q)).

Definition start (q : Q) : Q * io S (next Q) := (q, turn q).
(** The processes after number [i], a [q], has ended a turn. *)
Definition after (i : nat) (q : Q) (n : next Q) (ps : list (Q * io S (next Q)))
  : list (Q * io S (next Q)) :=
  match n with
  | Break | Unwound => ps
  | Continue => <[i := start q]> ps
  | Spawn q' => <[i := start q]> ps ++ [start q']
  | Become q' => <[i := start q']> ps
  | Fork q1 q2 => <[i := start q2]> ps ++ [start q1]
  end.

Inductive sys_step : S * list (Q * io S (next Q)) -> list event -> S * list (Q * io S (next Q)) -> Prop :=
| sys_call s ps i q X (e : eff X) k x :
    ps !! i = Some (q, IoDo e k) -> eff_ok e x ->
    sys_step (s, ps) [Event e x] (s, <[i := (q, k x)]> ps)
| sys_state s ps i q X (f : S -> X * S) k :
    ps !! i = Some (q, IoState f k) ->
    sys_step (s, ps) [] ((f s).2, <[i := (q, k (f s).1)]> ps)
| sys_turn s ps i q n :
    ps !! i = Some (q, IoRet n) -> sys_step (s, ps) [] (s, after i q n ps).
Inductive sys_exec (c0 : S * list (Q * io S (next Q))) : list event -> S * list (Q * io S (next Q)) -> Prop :=
| sys_refl : sys_exec c0 [] c0
| sys_trans tr c tr' c' : sys_exec c0 tr c -> sys_step c tr' c' -> sys_exec c0 (tr ++ tr') c'.

(** ** Safety

    [safe] for a process that may rely on what has happened: [tr] is part of
    the trace so far. *)
Fixpoint tsafe {A} (P : forall X, eff X -> Prop) (I : S -> Prop) (tr : list event) (p : io S A)
    (R : list event -> A -> Prop) : Prop :=
  match p with
  | IoRet a => R tr a
  | IoDo e k => P _ e /\ forall x, eff_ok e x -> tsafe P I (tr ++ [Event e x]) (k x) R
  | IoState f k => forall s, I s -> I (f s).2 /\ tsafe P I tr (k (f s).1) R
  end.
Lemma safe_tsafe {A} P (I : S -> Prop) tr (p : io S A) (R : A -> Prop) (R' : list event -> A -> Prop) :
  (forall tr a, R a -> R' tr a) -> safe P I p R -> tsafe P I tr p R'.
Proof.
  intros HR. revert tr. induction p as [a|X e k IH|X f k IH]; intros tr; simpl; [auto| |].
  - intros [? Hk]. split; [done|]. intros x Hx. apply IH. auto.
  - intros Hk s Hs. destruct (Hk s Hs). split; [done|]. by apply IH.
Qed.

Section Safety.
Context (P : Q -> forall X, eff X -> Prop) (I : S -> Prop).
Context (fact : list event -> Q -> Prop) (dies : Q -> Prop).
(** How a turn may end. *)
Definition turn_ends (q : Q) (tr : list event) (n : next Q) : Prop :=
  match n with
  | Break | Continue => True
  | Unwound => dies q
  | Spawn q' | Become q' => fact tr q'
  | Fork q1 q2 => fact tr q1 /\ fact tr q2
  end.
Definition proc_safe (tr : list event) (p : Q * io S (next Q)) : Prop :=
  fact tr p.1 /\ exists own, own ⊆ tr /\ tsafe (P p.1) I own p.2 (turn_ends p.1).
(** Every call was made by a process that may make it. *)
Definition calls_safe (tr : list event) : Prop :=
  forall X (e : eff X) x, Event e x ∈ tr -> exists q, fact tr q /\ P q X e.

Context (fact_mono : forall tr tr' q, tr ⊆ tr' -> fact tr q -> fact tr' q).
Context (turn_safe : forall tr q, fact tr q -> tsafe (P q) I tr (turn q) (turn_ends q)).

Lemma proc_safe_mono tr tr' p : tr ⊆ tr' -> proc_safe tr p -> proc_safe tr' p.
Proof.
  intros Htr [Hf (own & Hown & Hs)]. split; [by eapply fact_mono|]. exists own.
  split; [by transitivity tr|done].
Qed.
Lemma proc_safe_start tr q : fact tr q -> proc_safe tr (start q).
Proof. intros Hf. split; [done|]. exists tr. split; [done|]. by apply turn_safe. Qed.
Lemma procs_safe_after tr i q n ps :
  Forall (proc_safe tr) ps -> ps !! i = Some (q, IoRet n) -> Forall (proc_safe tr) (after i q n ps).
Proof.
  intros Hps Hi. pose proof (Forall_lookup_1 _ _ _ _ Hps Hi) as [Hf (own & Hown & Hn)].
  cbn in Hf, Hn. unfold after, turn_ends in *.
  destruct n as [| | |q'|q'|q1 q2]; [done|done| | | |].
  - apply Forall_insert; [done|by apply proc_safe_start].
  - apply Forall_app. split; [apply Forall_insert; [done|by apply proc_safe_start]|].
    apply Forall_singleton, proc_safe_start. by eapply fact_mono.
  - apply Forall_insert; [done|]. apply proc_safe_start. by eapply fact_mono.
  - destruct Hn. apply Forall_app. split; [apply Forall_insert; [done|]|apply Forall_singleton];
      apply proc_safe_start; by eapply fact_mono.
Qed.

Lemma sys_step_safe tr c tr' c' :
  sys_step c tr' c' -> I c.1 -> Forall (proc_safe tr) c.2 -> calls_safe tr ->
  I c'.1 /\ Forall (proc_safe (tr ++ tr')) c'.2 /\ calls_safe (tr ++ tr').
Proof.
  assert (forall ev, tr ⊆ tr ++ [ev]) as Hsub by set_solver.
  intros Hstep HI Hps Hcalls. destruct Hstep as [s ps i q X e k x Hi Hx|s ps i q X f k Hi|s ps i q n Hi];
    cbn [fst snd] in *; [|rewrite app_nil_r..].
  - pose proof (Forall_lookup_1 _ _ _ _ Hps Hi) as [Hf (own & Hown & He & Hk)]. cbn in Hf.
    split; [done|]. split.
    + apply Forall_insert; [eapply list.Forall_impl; [exact Hps|]; intros p; by apply proc_safe_mono, Hsub|].
      split; [by eapply fact_mono, Hf|]. exists (own ++ [Event e x]). split; [set_solver|by apply Hk].
    + intros X' e' x' [Hin|Hin]%elem_of_app.
      * destruct (Hcalls _ _ _ Hin) as (q' & Hf' & HP). exists q'. split; [by eapply fact_mono, Hf'|done].
      * exists q. split; [by eapply fact_mono, Hf|]. apply list_elem_of_singleton in Hin.
        change (match Event e' x' with @Event X e _ => P q X e end). by rewrite Hin.
  - pose proof (Forall_lookup_1 _ _ _ _ Hps Hi) as [Hf (own & Hown & Hk)].
    destruct (Hk s HI) as [HI' Hs]. split; [done|]. split; [|done].
    apply Forall_insert; [done|]. split; [done|]. by exists own.
  - split; [done|]. split; [by apply procs_safe_after|done].
Qed.

Lemma sys_safe s0 qs tr c :
  sys_exec (s0, start <$> qs) tr c -> I s0 -> Forall (fact []) qs ->
  I c.1 /\ Forall (proc_safe tr) c.2 /\ calls_safe tr.
Proof.
  intros Hexec HI Hqs. induction Hexec as [|tr c tr' c' _ (HI' & Hps & Hcalls) Hstep].
  - split; [done|]. split; [|by intros X e x ?%not_elem_of_nil].
    apply list.Forall_fmap. eapply list.Forall_impl; [exact Hqs|]. intros q. apply proc_safe_start.
  - by eapply sys_step_safe.
Qed.
End Safety.

(** One process runs while the others wait. *)
Lemma exec_proc {X} i q (p : io S X) (k : X -> io S (next Q)) s tr x s' ps c0 tr0 :
  exec p s tr x s' -> ps !! i = Some (q, io_bind p k) -> sys_exec c0 tr0 (s, ps) ->
  sys_exec c0 (tr0 ++ tr) (s', <[i := (q, k x)]> ps).
Proof.
  revert s tr tr0 ps. induction p as [a|Y e j IH|Y f j IH]; intros s tr tr0 ps; cbn [exec io_bind].
  - intros (-> & -> & ->) Hi. by rewrite app_nil_r, list_insert_id.
  - intros (y & tr' & Hy & -> & Hx) Hi Hrun. change (Event e y :: tr') with ([Event e y] ++ tr'). rewrite app_assoc.
    rewrite <- (list_insert_insert_eq ps i _ (q, io_bind (j y) k)).
    eapply IH; [exact Hx|by apply list_lookup_insert_eq, (lookup_lt_Some _ _ _ Hi)|].
    eapply sys_trans; [exact Hrun|]. by apply (sys_call _ _ _ _ _ _ (fun y => io_bind (j y) k)).
  - intros Hx Hi Hrun. rewrite <- (list_insert_insert_eq ps i _ (q, io_bind (j (f s).1) k)).
    eapply IH; [exact Hx|by apply list_lookup_insert_eq, (lookup_lt_Some _ _ _ Hi)|].
    rewrite <- (app_nil_r tr0). eapply sys_trans; [exact Hrun|].
    by apply (sys_state _ _ _ _ _ _ (fun y => io_bind (j y) k)).
Qed.

(** ** Loops that never end *)
Definition goes_on (n : next Q) : Prop :=
  match n with Continue | Spawn _ => True | _ => False end.
Definition endless (q : Q) (p : io S (next Q)) : Prop := safe any_call (fun _ => True) p goes_on.

Lemma endless_step i q p c tr c' :
  endless q (turn q) -> sys_step c tr c' -> c.2 !! i = Some (q, p) -> endless q p ->
  exists p', c'.2 !! i = Some (q, p') /\ endless q p'.
Proof.
  intros Hturn Hstep Hi Hp. unfold endless in *.
  assert (forall j a ps, ps !! i = Some (q, p) -> i <> j -> <[j := a]> ps !! i = Some (q, p)) as Hne
    by (intros; by rewrite list_lookup_insert_ne).
  assert (forall (a : Q * io S (next Q)) ps, ps !! i = Some (q, p) -> <[i := a]> ps !! i = Some a) as Heq
    by (intros; apply list_lookup_insert_eq; by eapply lookup_lt_Some).
  destruct Hstep as [s ps j q' X e k x Hj Hx|s ps j q' X f k Hj|s ps j q' n Hj]; cbn [snd] in *;
    (destruct (decide (i = j)) as [<-|Hij]; [rewrite Hi in Hj; injection Hj as <- ->|]).
  - exists (k x). rewrite Heq by done. split; [done|]. by apply Hp.
  - exists p. by rewrite Hne.
  - exists (k (f s).1). rewrite Heq by done. split; [done|]. by apply Hp.
  - exists p. by rewrite Hne.
  - destruct n as [| | |q'|q'|q1 q2]; try done; cbn [after].
    + exists (turn q). by rewrite Heq.
    + exists (turn q). split; [|done]. apply lookup_app_l_Some. by apply Heq.
  - exists p. split; [|done]. destruct n as [| | |q''|q''|q1 q2]; cbn [after]; auto;
      apply lookup_app_l_Some; auto.
Qed.
Lemma endless_run c0 tr c i q p0 :
  sys_exec c0 tr c -> c0.2 !! i = Some (q, p0) -> endless q p0 -> endless q (turn q) ->
  exists p, c.2 !! i = Some (q, p) /\ endless q p.
Proof.
  intros Hexec Hi H0 Hturn. induction Hexec as [|tr c tr' c' _ (p & Hp & He) Hstep]; [by exists p0|].
  by eapply endless_step.
Qed.
Lemma endless_exec s0 qs tr c i q :
  sys_exec (s0, start <$> qs) tr c -> qs !! i = Some q -> endless q (turn q) ->
  exists p, c.2 !! i = Some (q, p) /\ endless q p.
Proof.
  intros Hexec Hi Hturn. eapply endless_run; [exact Hexec| |exact Hturn|exact Hturn].
  cbn. by rewrite list_lookup_fmap, Hi.
Qed.
End Procs.
