(* ===== verification/Script.v ===== *)
(** * An async function that spawns

    [script S Q A]: a main task that awaits programs on the store [S], spawns
    tasks [Q] between them, and ends with an [A]. [script_turn] makes it a
    process of [Procs.v], next to the tasks it has spawned, which run while it
    goes on; [alone] is the same function with its tasks not running, only
    collected. *)
From S2P Require Import Prelude RustStr RustNet Io Procs.
Implicit Type P : forall X, eff X -> Prop.

Inductive script (S Q A : Type) : Type :=
| Done (a : A)
| Await {X : Type} (p : io S X) (k : X -> script S Q A)
| Launch (q : Q) (k : script S Q A).
Arguments Done {S Q A} a.
Arguments Await {S Q A X} p k.
Arguments Launch {S Q A} q k.

Fixpoint script_bind {S Q A B} (m : script S Q A) (k : A -> script S Q B) : script S Q B :=
  match m with
  | Done a => k a
  | Await p j => Await p (fun x => script_bind (j x) k)
  | Launch q j => Launch q (script_bind j k)
  end.
(** The [?] operator. *)
Definition script_try {S Q A B E} (m : script S Q (res A E)) (k : A -> script S Q (res B E))
  : script S Q (res B E) :=
  script_bind m (fun r => match r with Ok a => k a | Err e => Done (Err e) | Panic => Done Panic end).
Definition await {S Q A} (p : io S A) : script S Q A := Await p Done.
Definition spawn {S Q} (q : Q) : script S Q unit := Launch q (Done tt).
Fixpoint launch_all {S Q} (qs : list Q) : script S Q unit :=
  match qs with [] => Done tt | q :: qs => Launch q (launch_all qs) end.
Definition script_map_err {S Q A E F} (f : E -> F) (m : script S Q (res A E)) : script S Q (res A F) :=
  script_bind m (fun r => Done (map_err f r)).
Notation "'let$' x := m 'in' k" := (script_bind m (fun x => k))
  (at level 10, x pattern, m at level 100, k at level 200,
   format "'[v' 'let$'  x  :=  m  'in' '/' k ']'") : rust_scope.
Notation "'try$' x := m 'in' k" := (script_try m (fun x => k))
  (at level 10, x pattern, m at level 100, k at level 200,
   format "'[v' 'try$'  x  :=  m  'in' '/' k ']'") : rust_scope.

(** [for x in l { body(x).await?; }] *)
Fixpoint for_each {S Q X E} (body : X -> script S Q (res unit E)) (l : list X) : script S Q (res unit E) :=
  match l with
  | [] => Done (Ok tt)
  | x :: l => try$ _ := body x in for_each body l
  end.

(** ** As a process *)
Section Process.
Context {S Q A : Type} (turn : Q -> io S (next Q)) (pending : A -> bool).

(** The main task and the others; a [pending] result is one after which the main
    task waits forever. *)
Definition script_turn (t : script S Q A + Q) : io S (next (script S Q A + Q)) :=
  match t with
  | inl (Done a) => IoRet (if pending a then Continue else Break)
  | inl (Await p k) => let* x := p in IoRet (Become (inl (k x)))
  | inl (Launch q k) => IoRet (Fork (inr q) (inl k))
  | inr q => io_map (next_map inr) (turn q)
  end.
Definition script_start (m : script S Q A) : list ((script S Q A + Q) * io S (next (script S Q A + Q))) :=
  [start script_turn (inl m)].
End Process.

(** ** Safety of a script

    [tr] is what it has called so far, [qs] what it has spawned; [F] must hold
    of a task when it is spawned, [R] of the result. *)
Section Safety.
Context {S Q : Type} (P : forall X, eff X -> Prop) (I : S -> Prop) (F : list event -> Q -> Prop).

Fixpoint script_safe {A} (tr : list event) (qs : list Q) (m : script S Q A)
    (R : list event -> list Q -> A -> Prop) : Prop :=
  match m with
  | Done a => R tr qs a
  | Await p k => tsafe P I tr p (fun tr' x => script_safe tr' qs (k x) R)
  | Launch q k => F tr q /\ script_safe tr (qs ++ [q]) k R
  end.

Lemma tsafe_mono {A} tr (p : io S A) (R R' : list event -> A -> Prop) :
  (forall tr' a, R tr' a -> R' tr' a) -> tsafe P I tr p R -> tsafe P I tr p R'.
Proof.
  intros HR. revert tr. induction p as [a|X e k IH|X f k IH]; intros tr; simpl; [auto| |].
  - intros [? Hk]. split; [done|]. intros x Hx. by apply IH, Hk.
  - intros Hk s Hs. destruct (Hk s Hs). split; [done|]. by apply IH.
Qed.
Lemma tsafe_bind {A B} tr (p : io S A) (k : A -> io S B) R :
  tsafe P I tr p (fun tr' a => tsafe P I tr' (k a) R) -> tsafe P I tr (io_bind p k) R.
Proof.
  revert tr. induction p as [a|X e j IH|X f j IH]; intros tr; simpl; [done| |].
  - intros [? Hk]. split; [done|]. intros x Hx. by apply IH, Hk.
  - intros Hk s Hs. destruct (Hk s Hs). split; [done|]. by apply IH.
Qed.
(** A program that does not touch the store, by its executions. *)
Lemma tsafe_exec {A} tr (p : io S A) (R : list event -> A -> Prop) :
  stateless p -> safe P (fun _ => True) p (fun _ => True) ->
  (forall tr' a, (forall s, exec p s tr' a s) -> R (tr ++ tr') a) -> tsafe P I tr p R.
Proof.
  revert tr. induction p as [a|X e k IH|X f k IH]; intros tr; simpl; [| |done].
  - intros _ _ HR. rewrite <- (app_nil_r tr). apply HR. by intros s.
  - intros Hst [He Hs] HR. split; [done|]. intros x Hx. apply IH; [apply Hst|by apply Hs|].
    intros tr' a Ha. rewrite <- app_assoc. apply (HR (Event e x :: tr')). intros s. exists x, tr'. eauto.
Qed.

Lemma script_safe_mono {A} tr qs (m : script S Q A) (R R' : list event -> list Q -> A -> Prop) :
  (forall tr' qs' a, R tr' qs' a -> R' tr' qs' a) -> script_safe tr qs m R -> script_safe tr qs m R'.
Proof.
  intros HR. revert tr qs. induction m as [a|X p k IH|q k IH]; intros tr qs; simpl; [auto| |].
  - apply tsafe_mono. intros tr' x. apply IH.
  - intros [? Hk]. split; [done|]. by apply IH.
Qed.
Lemma script_safe_bind {A B} tr qs (m : script S Q A) (k : A -> script S Q B) R :
  script_safe tr qs m (fun tr' qs' a => script_safe tr' qs' (k a) R) ->
  script_safe tr qs (script_bind m k) R.
Proof.
  revert tr qs. induction m as [a|X p j IH|q j IH]; intros tr qs; simpl; [done| |].
  - apply tsafe_mono. intros tr' x. apply IH.
  - intros [? Hk]. split; [done|]. by apply IH.
Qed.
Lemma script_safe_try {A B E} tr qs (m : script S Q (res A E)) (k : A -> script S Q (res B E)) R :
  script_safe tr qs m (fun tr' qs' r => match r with
    | Ok a => script_safe tr' qs' (k a) R | Err e => R tr' qs' (Err e) | Panic => R tr' qs' Panic end) ->
  script_safe tr qs (script_try m k) R.
Proof. intros Hm. apply script_safe_bind. eapply script_safe_mono; [|exact Hm]. by intros tr' qs' []. Qed.
Lemma script_safe_map_err {A E E'} (f : E -> E') tr qs (m : script S Q (res A E)) R :
  script_safe tr qs m (fun tr' qs' r => R tr' qs' (map_err f r)) -> script_safe tr qs (script_map_err f m) R.
Proof. intros Hm. apply script_safe_bind. exact Hm. Qed.
Lemma script_safe_await {A} tr qs (p : io S A) (R : list event -> list Q -> A -> Prop) :
  stateless p -> safe P (fun _ => True) p (fun _ => True) ->
  (forall tr' a, (forall s, exec p s tr' a s) -> R (tr ++ tr') qs a) -> script_safe tr qs (await p) R.
Proof. apply (tsafe_exec _ _ (fun tr' a => R tr' qs a)). Qed.
(** A loop: [inv l] once the elements [l] are done. *)
Lemma script_safe_for_each {X E} (body : X -> script S Q (res unit E)) l0 l tr qs
    (inv : list X -> list event -> list Q -> Prop) (R : list event -> list Q -> res unit E -> Prop) :
  (forall l1 x tr' qs', inv l1 tr' qs' -> script_safe tr' qs' (body x)
     (fun tr2 qs2 r => match r with Ok _ => inv (l1 ++ [x]) tr2 qs2 | r => R tr2 qs2 r end)) ->
  (forall tr' qs', inv (l0 ++ l) tr' qs' -> R tr' qs' (Ok tt)) ->
  inv l0 tr qs -> script_safe tr qs (for_each body l) R.
Proof.
  intros Hbody. revert l0 tr qs. induction l as [|x l IH]; intros l0 tr qs Hend Hinv.
  - apply Hend. by rewrite app_nil_r.
  - apply script_safe_try. eapply script_safe_mono; [|by apply Hbody].
    intros tr' qs' [[]|e|] Hr; [|done|done]. apply (IH (l0 ++ [x])); [|done].
    intros tr2 qs2. by rewrite <- app_assoc; apply Hend.
Qed.
End Safety.

Lemma sub_step (own tr : list event) ev : own ⊆ tr -> own ++ [ev] ⊆ tr ++ [ev].
Proof. set_solver. Qed.
Lemma sub_more (own tr tr' : list event) : own ⊆ tr -> own ⊆ tr ++ tr'.
Proof. set_solver. Qed.

(** ** The running system: the main task and those it has spawned *)
Section System.
Context {S Q A : Type} (turn : Q -> io S (next Q)) (pending : A -> bool).
Context (P : forall X, eff X -> Prop) (policy : Q -> forall X, eff X -> Prop) (I : S -> Prop).
Context (fact : list event -> Q -> Prop) (dies forever : Q -> Prop).
Context (R : list event -> list Q -> A -> Prop).
Context (fact_mono : forall tr tr' q, tr ⊆ tr' -> fact tr q -> fact tr' q).
Context (turn_safe : forall tr q, fact tr q -> tsafe (policy q) I tr (turn q) (turn_ends fact dies q)).
Context (forever_endless : forall q, forever q -> endless q (turn q)).
Notation sturn := (script_turn turn pending).
Implicit Types (m : script S Q A) (t : script S Q A + Q).

Definition main_fact (tr : list event) t : Prop :=
  match t with
  | inl m => exists own qs, own ⊆ tr /\ script_safe P I fact own qs m R
  | inr q => fact tr q
  end.
Definition main_policy t : forall X, eff X -> Prop := match t with inl _ => P | inr q => policy q end.
Definition main_dies t : Prop := match t with inl _ => False | inr q => dies q end.

Lemma main_fact_mono tr tr' t : tr ⊆ tr' -> main_fact tr t -> main_fact tr' t.
Proof using fact_mono.
  intros Htr. destruct t as [m|q]; [|by apply fact_mono]. intros (own & qs & Hown & Hm).
  exists own, qs. split; [by transitivity tr|done].
Qed.
(** What a turn of the main task leads to, from the tasks [qs] so far. *)
Definition main_ends (qs : list Q) (tr : list event) (n : next (script S Q A + Q)) : Prop :=
  match n with
  | Break | Continue => True
  | Become (inl k) => script_safe P I fact tr qs k R
  | Fork (inr q) (inl k) => fact tr q /\ script_safe P I fact tr (qs ++ [q]) k R
  | _ => False
  end.
Lemma main_turn_ends own qs m :
  script_safe P I fact own qs m R -> tsafe P I own (sturn (inl m)) (main_ends qs).
Proof.
  destruct m as [a|X p k|q k]; simpl; [by destruct (pending a)| |done].
  intros Hp. apply tsafe_bind. eapply tsafe_mono; [|exact Hp]. done.
Qed.
Lemma main_turn_safe tr t :
  main_fact tr t -> tsafe (main_policy t) I tr (sturn t) (turn_ends main_fact main_dies t).
Proof using fact_mono turn_safe.
  destruct t as [m|q].
  - intros (own & qs & Hown & Hm%main_turn_ends). cbn [main_policy].
    revert Hm. generalize (sturn (inl m)) as p. intros p. revert own tr Hown.
    induction p as [n|X e k IH|X f k IH]; intros own tr Hown; cbn [tsafe].
    + destruct n as [| | |[]|[k|]|[] [k|]]; try done; simpl; intros Hn.
      * by exists own, qs.
      * destruct Hn. split; [by eapply fact_mono|]. by exists own, (qs ++ [q]).
    + intros [? Hk]. split; [done|]. intros x Hx. eapply IH; [|by apply Hk]. by apply sub_step.
    + intros Hk s Hs. destruct (Hk s Hs). split; [done|]. by eapply IH.
  - intros Hq%turn_safe. apply tsafe_bind. eapply tsafe_mono; [|exact Hq]. by intros tr' [].
Qed.

(** Every call is one the main task may make, or one of a spawned task. *)
Lemma script_sys_safe s0 m tr c :
  sys_exec sturn (s0, script_start turn pending m) tr c -> I s0 -> script_safe P I fact [] [] m R ->
  I c.1 /\ forall X (e : eff X) x, Event e x ∈ tr -> P X e \/ exists q, fact tr q /\ policy q X e.
Proof using fact_mono turn_safe.
  intros Hexec HI Hm.
  destruct (sys_safe sturn main_policy I main_fact main_dies main_fact_mono main_turn_safe
    s0 [inl m] tr c Hexec HI) as (HI' & _ & Hcalls).
  { apply Forall_singleton. by exists [], []. }
  split; [done|]. intros X e x ([m'|q] & Hf & HP)%Hcalls; [by left|right; by exists q].
Qed.

(** What is known of a task that was spawned. *)
Lemma script_spawned s0 m tr c i q p :
  sys_exec sturn (s0, script_start turn pending m) tr c -> I s0 -> script_safe P I fact [] [] m R ->
  c.2 !! i = Some (inr q, p) -> fact tr q.
Proof using fact_mono turn_safe.
  intros Hexec HI Hm Hi.
  destruct (sys_safe sturn main_policy I main_fact main_dies main_fact_mono main_turn_safe
    s0 [inl m] tr c Hexec HI) as (_ & Hps & _).
  { apply Forall_singleton. by exists [], []. }
  by destruct (Forall_lookup_1 _ _ _ _ Hps Hi).
Qed.

(** A spawned loop that goes on forever is still there. *)
Definition running (c : S * list ((script S Q A + Q) * io S (next (script S Q A + Q)))) (q : Q) : Prop :=
  exists i p, c.2 !! i = Some (inr q, p) /\ endless (inr q : script S Q A + Q) p.
Lemma forever_turn q : forever q -> endless (inr q) (sturn (inr q)).
Proof using forever_endless.
  intros Hq%forever_endless. apply safe_map. eapply safe_mono; [|exact Hq]. by intros [].
Qed.
Lemma running_step c tr' c' q : sys_step sturn c tr' c' -> forever q -> running c q -> running c' q.
Proof using forever_endless.
  intros Hstep Hq (i & p & Hi & Hp). exists i. eapply endless_step; [by apply forever_turn|done..].
Qed.
Lemma running_start s ps i q p :
  forever q -> running (s, <[i := p]> ps ++ [start sturn (inr q)]) q.
Proof using forever_endless.
  intros Hq. exists (length ps), (sturn (inr q)). split; [|by apply forever_turn].
  cbn. rewrite <- (length_insert ps i p). by apply list_lookup_middle.
Qed.

(** The main task, and the tasks it has spawned so far. *)
Definition main_at (tr : list event) c (m : script S Q A) (own : list event) (qs : list Q) : Prop :=
  own ⊆ tr /\ script_safe P I fact own qs m R /\ (forall q, q ∈ qs -> forever q -> running c q).
Definition main_inv tr c : Prop :=
  exists m p own own' qs, c.2 !! 0%nat = Some (inl m, p) /\ main_at tr c m own qs
    /\ own' ⊆ tr /\ tsafe P I own' p (main_ends qs).

Lemma main_at_step tr c tr' c' m own qs :
  sys_step sturn c tr' c' -> main_at tr c m own qs -> main_at (tr ++ tr') c' m own qs.
Proof using forever_endless.
  intros Hstep (Hown & Hm & Hqs). split_and!; [by apply sub_more|done|].
  intros q Hq Hf. eapply running_step; [done..|]. by apply Hqs.
Qed.
(** A turn of another process leaves the main task where it is. *)
Lemma after_other i (t : script S Q A + Q) n ps x :
  ps !! 0%nat = Some x -> i <> 0%nat -> after sturn i t n ps !! 0%nat = Some x.
Proof.
  intros Hp Hi. assert (forall y, <[i := y]> ps !! 0%nat = Some x) as Hne by (intros; by rewrite list_lookup_insert_ne).
  destruct n; cbn [after]; auto; apply lookup_app_l_Some; auto.
Qed.
(** The end of a turn of the main task. *)
Lemma main_inv_turn tr s ps m n own own' qs :
  ps !! 0%nat = Some (inl m, IoRet n) -> main_at tr (s, ps) m own qs -> own' ⊆ tr -> main_ends qs own' n ->
  main_at tr (s, after sturn 0 (inl m) n ps) m own qs -> main_inv tr (s, after sturn 0 (inl m) n ps).
Proof using forever_endless fact_mono.
  intros Hp Hm Hown Hn Hm'.
  assert (forall x, <[0%nat := x]> ps !! 0%nat = Some x) as Heq
    by (intros; apply list_lookup_insert_eq; by eapply lookup_lt_Some).
  destruct Hm' as (Hsub & Hsafe & Hrun). destruct n as [| | |[]|[k|]|[|q] [k|]]; try done; cbn [after main_ends] in *.
  - exists m, (IoRet Break), own, own', qs. split; [exact Hp|]. split; [exact Hm|]. by split.
  - exists m, (sturn (inl m)), own, own, qs. split; [by apply Heq|]. split; [by split_and!|]. split; [done|].
    by apply main_turn_ends.
  - exists k, (sturn (inl k)), own', own', qs. split; [by apply Heq|]. split; [by split_and!|]. split; [done|].
    by apply main_turn_ends.
  - destruct Hn as [_ Hk]. exists k, (sturn (inl k)), own', own', (qs ++ [q]).
    split; [apply lookup_app_l_Some; by apply Heq|]. split; [|split; [done|by apply main_turn_ends]].
    split; [done|]. split; [done|]. intros q' [Hq'|Hq']%elem_of_app Hf; [by apply Hrun|].
    apply list_elem_of_singleton in Hq' as ->. by apply running_start.
Qed.
Lemma main_inv_step tr c tr' c' :
  sys_step sturn c tr' c' -> I c.1 -> main_inv tr c -> main_inv (tr ++ tr') c'.
Proof using forever_endless fact_mono.
  intros Hstep HI (m & p & own & own' & qs & Hp & Hm & Hown & Ht).
  pose proof (main_at_step _ _ _ _ _ _ _ Hstep Hm) as Hm'.
  assert (forall x ps, ps !! 0%nat = Some (inl m : script S Q A + Q, p) -> <[0%nat := x]> ps !! 0%nat = Some x) as Heq
    by (intros; apply list_lookup_insert_eq; by eapply lookup_lt_Some).
  assert (forall i x ps, ps !! 0%nat = Some (inl m : script S Q A + Q, p) -> i <> 0%nat -> <[i := x]> ps !! 0%nat = Some (inl m, p)) as Hne
    by (intros; by rewrite list_lookup_insert_ne).
  destruct Hstep as [s ps i t X e k x Hi Hx|s ps i t X f k Hi|s ps i t n Hi]; cbn [fst snd] in *;
    (destruct (decide (i = 0%nat)) as [->|Hi0]; [rewrite Hp in Hi; injection Hi as <- ->|]).
  - exists m, (k x), own, (own' ++ [Event e x]), qs. split; [by apply Heq|]. split; [done|].
    split; [by apply sub_step|]. by apply Ht.
  - exists m, p, own, own', qs. split; [by apply Hne|]. split; [done|]. split; [by apply sub_more|done].
  - exists m, (k (f s).1), own, own', qs. split; [by apply Heq|]. split; [done|].
    split; [by apply sub_more|]. by apply Ht.
  - exists m, p, own, own', qs. split; [by apply Hne|]. split; [done|]. split; [by apply sub_more|done].
  - rewrite app_nil_r in *. by eapply main_inv_turn.
  - exists m, p, own, own', qs. split; [by apply after_other|]. split; [done|].
    split; [by apply sub_more|done].
Qed.
Lemma main_inv_exec s0 m tr c :
  sys_exec sturn (s0, script_start turn pending m) tr c -> I s0 -> script_safe P I fact [] [] m R ->
  main_inv tr c.
Proof using fact_mono turn_safe forever_endless.
  intros Hexec HI Hm. induction Hexec as [|tr c tr' c' Hexec IH Hstep].
  - exists m, (sturn (inl m)), [], [], []. split; [done|]. split; [|split; [done|by apply main_turn_ends]].
    split; [done|]. split; [done|]. by intros q ?%not_elem_of_nil.
  - eapply main_inv_step; [done|by eapply script_sys_safe|done].
Qed.
(** When the main task has its result, the loops it has spawned are running. *)
Lemma script_result s0 m tr c a p :
  sys_exec sturn (s0, script_start turn pending m) tr c -> I s0 -> script_safe P I fact [] [] m R ->
  c.2 !! 0%nat = Some (inl (Done a), p) ->
  exists own qs, own ⊆ tr /\ R own qs a /\ forall q, q ∈ qs -> forever q -> running c q.
Proof using fact_mono turn_safe forever_endless.
  intros Hexec HI Hm Ha. destruct (main_inv_exec _ _ _ _ Hexec HI Hm) as (m' & p' & own & own' & qs & Hp & Hat & _).
  rewrite Hp in Ha. injection Ha as -> _. destruct Hat as (Hown & Hr & Hqs). by exists own, qs.
Qed.
(** The main task is always there. *)
Lemma main_task_stays s0 m tr c :
  sys_exec sturn (s0, script_start turn pending m) tr c -> I s0 -> script_safe P I fact [] [] m R ->
  exists m' p, c.2 !! 0%nat = Some (inl m', p).
Proof using fact_mono turn_safe forever_endless.
  intros Hexec HI Hm. destruct (main_inv_exec _ _ _ _ Hexec HI Hm) as (m' & p & _ & _ & _ & Hp & _). by exists m', p.
Qed.
End System.

(** ** The main task by itself

    The calls it makes and the tasks it spawns when none of them takes a step. *)
Fixpoint alone {S Q A} (m : script S Q A) : io S (list Q * A) :=
  match m with
  | Done a => IoRet ([], a)
  | Await p k => let* x := p in alone (k x)
  | Launch q k => io_map (fun '(qs, a) => (q :: qs, a)) (alone k)
  end.
Section Alone.
Context {S Q : Type}.

Lemma exec_map {A B} (f : A -> B) (p : io S A) s tr b s' :
  exec (io_map f p) s tr b s' <-> exists a, exec p s tr a s' /\ b = f a.
Proof.
  unfold io_map. rewrite exec_bind. split.
  - intros (a & s1 & tr1 & tr2 & -> & H & (-> & -> & ->)). exists a. by rewrite app_nil_r.
  - intros (a & H & ->). exists a, s', tr, []. by rewrite app_nil_r.
Qed.
Lemma exec_alone_bind {A B} (m : script S Q A) (k : A -> script S Q B) s tr qs b s'' :
  exec (alone (script_bind m k)) s tr (qs, b) s'' <->
  exists a s' tr1 tr2 qs1 qs2, tr = tr1 ++ tr2 /\ qs = qs1 ++ qs2
    /\ exec (alone m) s tr1 (qs1, a) s' /\ exec (alone (k a)) s' tr2 (qs2, b) s''.
Proof.
  revert s tr qs. induction m as [a|X p j IH|q j IH]; intros s tr qs; cbn [script_bind alone].
  - split; [intros H; by exists a, s, [], tr, [], qs|].
    intros (a' & s' & tr1 & tr2 & qs1 & qs2 & -> & -> & (-> & Hr & ->) & Hk). by injection Hr as -> ->.
  - rewrite exec_bind. split.
    + intros (x & s1 & tr1 & tr2 & -> & Hp & (a & s2 & tr3 & tr4 & qs1 & qs2 & -> & -> & H1 & H2)%IH).
      exists a, s2, (tr1 ++ tr3), tr4, qs1, qs2. rewrite app_assoc. split_and!; [done|done| |done].
      apply exec_bind. by exists x, s1, tr1, tr3.
    + intros (a & s2 & tr1 & tr2 & qs1 & qs2 & -> & -> & H1 & H2). apply exec_bind in H1 as (x & s1 & tr3 & tr4 & -> & Hp & H1).
      exists x, s1, tr3, (tr4 ++ tr2). rewrite app_assoc. split_and!; [done|done|]. apply IH. by exists a, s2, tr4, tr2, qs1, qs2.
  - rewrite exec_map. split.
    + intros ([qs' b'] & Hx & [= -> <-]). apply IH in Hx as (a & s2 & tr1 & tr2 & qs1 & qs2 & -> & -> & H1 & H2).
      exists a, s2, tr1, tr2, (q :: qs1), qs2. split_and!; [done|done| |done]. apply exec_map. by exists (qs1, a).
    + intros (a & s2 & tr1 & tr2 & qs1 & qs2 & -> & -> & ([qs' a'] & H1 & [= -> ->])%exec_map & H2).
      exists (qs' ++ qs2, b). split; [|done]. apply IH. by exists a', s2, tr1, tr2, qs', qs2.
Qed.
Lemma exec_alone_try {A B E} (m : script S Q (res A E)) (k : A -> script S Q (res B E)) s tr qs r s'' :
  exec (alone (script_try m k)) s tr (qs, r) s'' <->
  exists r0 s' tr1 tr2 qs1 qs2, tr = tr1 ++ tr2 /\ qs = qs1 ++ qs2 /\ exec (alone m) s tr1 (qs1, r0) s'
    /\ match r0 with
       | Ok a => exec (alone (k a)) s' tr2 (qs2, r) s''
       | Err e => tr2 = [] /\ qs2 = [] /\ r = Err e /\ s'' = s'
       | Panic => tr2 = [] /\ qs2 = [] /\ r = Panic /\ s'' = s'
       end.
Proof.
  unfold script_try. rewrite exec_alone_bind.
  split; intros (r0 & s' & tr1 & tr2 & qs1 & qs2 & -> & -> & Hm & Hr); exists r0, s', tr1, tr2, qs1, qs2;
    (split_and!; [done|done|done|]); destruct r0 as [a|e|]; [done|..|done| |]; cbn in *; naive_solver.
Qed.
Lemma exec_alone_await {A} (p : io S A) s tr (qs : list Q) a s' :
  exec (alone (await p)) s tr (qs, a) s' <-> qs = [] /\ exec p s tr a s'.
Proof.
  cbn [await alone]. rewrite exec_bind. split.
  - intros (x & s1 & tr1 & tr2 & -> & H & (-> & [= -> ->] & ->)). by rewrite app_nil_r.
  - intros [-> H]. exists a, s', tr, []. by rewrite app_nil_r.
Qed.

(** *** A script that refines a plain program

    [m] does what [p] does and spawns what [f] says of its result. *)
Definition void {A E} (r : res A E) : res unit E := res_map (fun _ => tt) r.
Definition launches {A E} (m : script S Q (res unit E)) (p : io S (res A E)) (f : A -> list Q -> Prop) : Prop :=
  (forall s tr out s', exec p s tr out s' ->
     exists qs, exec (alone m) s tr (qs, void out) s' /\ forall a, out = Ok a -> f a qs)
  /\ (forall s tr qs r s', exec (alone m) s tr (qs, r) s' ->
     exists out, exec p s tr out s' /\ r = void out /\ forall a, out = Ok a -> f a qs).

Lemma launches_done {A E} (a : A) (f : A -> list Q -> Prop) :
  f a [] -> launches (E := E) (Done (Ok tt)) (IoRet (Ok a)) f.
Proof.
  intros Hf. split.
  - intros s tr out s' (-> & -> & ->). exists []. split; [done|]. by intros a' [= <-].
  - intros s tr qs r s' (-> & [= -> ->] & ->). exists (Ok a). split_and!; [done|done|]. by intros a' [= <-].
Qed.
Lemma launches_try {A B E} (m k' : script S Q (res unit E)) (p : io S (res A E)) (k : A -> io S (res B E))
    f g :
  launches m p f -> (forall a, launches k' (k a) (fun b qs2 => forall qs1, f a qs1 -> g b (qs1 ++ qs2))) ->
  launches (try$ _ := m in k') (io_try p k) g.
Proof.
  intros [Hm1 Hm2] Hk. split.
  - intros s tr out s'. rewrite exec_try. intros (r & s1 & tr1 & tr2 & -> & Hp & Hr).
    destruct (Hm1 _ _ _ _ Hp) as (qs1 & Hx & Hf). setoid_rewrite exec_alone_try. destruct r as [a|e|].
    + destruct (proj1 (Hk a) _ _ _ _ Hr) as (qs2 & Hx2 & Hg). exists (qs1 ++ qs2). split; [|by intros b Hb; apply Hg, Hf].
      by exists (Ok tt), s1, tr1, tr2, qs1, qs2.
    + destruct Hr as (-> & -> & ->). exists qs1. split; [|done]. exists (Err e), s1, tr1, [], qs1, []. by rewrite !app_nil_r.
    + destruct Hr as (-> & -> & ->). exists qs1. split; [|done]. exists Panic, s1, tr1, [], qs1, []. by rewrite !app_nil_r.
  - intros s tr qs r s'. rewrite exec_alone_try. intros (r1 & s1 & tr1 & tr2 & qs1 & qs2 & -> & -> & Hx & Hr).
    destruct (Hm2 _ _ _ _ _ Hx) as (out & Hp & -> & Hf). setoid_rewrite exec_try. destruct out as [a|e|]; cbn in Hr.
    + destruct (proj2 (Hk a) _ _ _ _ _ Hr) as (out & Hp2 & -> & Hg). exists out.
      split_and!; [by exists (Ok a), s1, tr1, tr2|done|by intros b Hb; apply Hg, Hf].
    + destruct Hr as (-> & -> & -> & ->). exists (Err e). split_and!; [by exists (Err e), s1, tr1, []|done|done].
    + destruct Hr as (-> & -> & -> & ->). exists Panic. split_and!; [by exists Panic, s1, tr1, []|done|done].
Qed.
(** Awaiting [p] is [p] followed by what depends on its result. *)
Lemma launches_await {A B E} (p : io S (res A E)) (k' : A -> script S Q (res unit E)) (k : A -> io S (res B E)) g :
  (forall a, launches (k' a) (k a) g) -> launches (try$ a := await p in k' a) (io_try p k) g.
Proof.
  intros Hk. split.
  - intros s tr out s'. rewrite exec_try. intros (r & s1 & tr1 & tr2 & -> & Hp & Hr).
    assert (exec (alone (await p)) s tr1 ([] : list Q, r) s1) as Hx by by apply exec_alone_await.
    setoid_rewrite exec_alone_try. destruct r as [a|e|].
    + destruct (proj1 (Hk a) _ _ _ _ Hr) as (qs2 & Hx2 & Hg). exists qs2. split; [|done].
      by exists (Ok a), s1, tr1, tr2, [], qs2.
    + destruct Hr as (-> & -> & ->). exists []. split; [|done]. by exists (Err e), s1, tr1, [], [], [].
    + destruct Hr as (-> & -> & ->). exists []. split; [|done]. by exists Panic, s1, tr1, [], [], [].
  - intros s tr qs r s'. rewrite exec_alone_try.
    intros (r1 & s1 & tr1 & tr2 & qs1 & qs2 & -> & -> & [-> Hx]%exec_alone_await & Hr).
    setoid_rewrite exec_try. destruct r1 as [a|e|].
    + destruct (proj2 (Hk a) _ _ _ _ _ Hr) as (out & Hp2 & -> & Hg). exists out. split_and!; [|done|done].
      by exists (Ok a), s1, tr1, tr2.
    + destruct Hr as (-> & -> & -> & ->). exists (Err e). split_and!; [by exists (Err e), s1, tr1, []|done|done].
    + destruct Hr as (-> & -> & -> & ->). exists Panic. split_and!; [by exists Panic, s1, tr1, []|done|done].
Qed.
(** A pure step. *)
Lemma launches_pure {A B E} (r : res A E) (k' : A -> script S Q (res unit E)) (k : A -> io S (res B E)) g :
  (forall a, launches (k' a) (k a) g) -> launches (try$ a := Done r in k' a) (io_try (IoRet r) k) g.
Proof.
  intros Hk. destruct r as [a|e|]; [apply Hk|..].
  - split; [intros s tr out s' (-> & -> & ->); by exists []|].
    intros s tr qs r s' (-> & [= -> ->] & ->). by exists (Err e).
  - split; [intros s tr out s' (-> & -> & ->); by exists []|].
    intros s tr qs r s' (-> & [= -> ->] & ->). by exists Panic.
Qed.
(** An infallible call. *)
Lemma launches_let_await {X B E} (p : io S X) (k' : X -> script S Q (res unit E)) (k : X -> io S (res B E)) g :
  (forall a, launches (k' a) (k a) g) -> launches (let$ a := await p in k' a) (let* a := p in k a) g.
Proof.
  intros Hk. split.
  - intros s tr out s' (x & s1 & tr1 & tr2 & -> & Hp & Hr)%exec_bind.
    destruct (proj1 (Hk x) _ _ _ _ Hr) as (qs & Hx & Hg). exists qs. split; [|done]. apply exec_alone_bind.
    exists x, s1, tr1, tr2, [], qs. split_and!; [done|done|by apply exec_alone_await|done].
  - intros s tr qs r s' (x & s1 & tr1 & tr2 & qs1 & qs2 & -> & -> & [-> Hp]%exec_alone_await & Hr)%exec_alone_bind.
    destruct (proj2 (Hk x) _ _ _ _ _ Hr) as (out & Hx & -> & Hg). exists out. split_and!; [|done|done].
    apply exec_bind. by exists x, s1, tr1, tr2.
Qed.
(** Binding a socket and spawning its loop. *)
Lemma launches_spawn {A E} (p : io S (res A E)) (loops : A -> list Q) (k : A -> script S Q (res unit E)) :
  (forall a, k a = script_bind (launch_all (loops a)) (fun _ => Done (Ok tt))) ->
  launches (try$ a := await p in k a) p (fun a qs => qs = loops a).
Proof.
  intros Hk.
  assert (forall l s tr qs s' x, exec (alone (script_bind (launch_all (S := S) (Q := Q) l) (fun _ => Done (Ok tt)))) s tr (qs, x) s'
            <-> tr = [] /\ qs = l /\ x = Ok (E := E) tt /\ s' = s) as Hl.
  { induction l as [|q l IH]; intros s tr qs s' x; cbn [launch_all script_bind alone].
    - cbn. naive_solver.
    - rewrite exec_map. split.
      + intros ([qs' x'] & (-> & -> & -> & ->)%IH & [= -> ->]). done.
      + intros (-> & -> & -> & ->). exists (l, Ok tt). split; [by apply IH|done]. }
  split.
  - intros s tr out s' Hp. setoid_rewrite exec_alone_try.
    assert (exec (alone (await p)) s tr ([] : list Q, out) s') as Hx by by apply exec_alone_await.
    exists (match out with Ok a => loops a | _ => [] end). split; [|by intros a ->].
    exists out, s', tr, [], [], (match out with Ok a => loops a | _ => [] end). rewrite app_nil_r.
    split_and!; [done|done|done|]. destruct out; [rewrite Hk; by apply Hl|done..].
  - intros s tr qs r s'. rewrite exec_alone_try.
    intros (out & s1 & tr1 & tr2 & qs1 & qs2 & -> & -> & [-> Hx]%exec_alone_await & Hr).
    exists out. destruct out as [a|e|].
    + rewrite Hk in Hr. apply Hl in Hr as (-> & -> & -> & ->). rewrite app_nil_r. split_and!; [done|done|by intros a' [= <-]].
    + destruct Hr as (-> & -> & -> & ->). rewrite app_nil_r. by split_and!.
    + destruct Hr as (-> & -> & -> & ->). rewrite app_nil_r. by split_and!.
Qed.
Lemma launches_mono {A E} m (p : io S (res A E)) (f g : A -> list Q -> Prop) :
  (forall a qs, f a qs -> g a qs) -> launches m p f -> launches m p g.
Proof.
  intros Hfg [H1 H2]. split.
  - intros s tr out s' (qs & Hx & Hf)%H1. exists qs. split; [done|]. intros a Ha. by apply Hfg, Hf.
  - intros s tr qs r s' (out & Hx & Hr & Hf)%H2. exists out. split_and!; [done..|]. intros a Ha. by apply Hfg, Hf.
Qed.
Lemma launches_map_err {A E E'} (h : E -> E') m (p : io S (res A E)) (f : A -> list Q -> Prop) :
  launches m p f -> launches (script_map_err h m) (io_map_err h p) f.
Proof.
  assert (forall r : res A E, map_err h (void r) = void (map_err h r)) as Hv by by intros [].
  assert (forall (r : res A E) a, map_err h r = Ok a -> r = Ok a) as Ho by by intros [] ?; simpl; intros [= ->].
  intros [H1 H2]. split.
  - intros s tr out s' (r & Hp & ->)%exec_map. apply H1 in Hp as (qs & Hx & Hf). exists qs. split.
    + apply exec_alone_bind. exists (void r), s', tr, [], qs, []. rewrite !app_nil_r. split_and!; [done..|].
      simpl. by rewrite Hv.
    + intros a Ha. apply Hf. by apply Ho.
  - intros s tr qs r s' (r0 & s1 & tr1 & tr2 & qs1 & qs2 & -> & -> & Hx & Hr)%exec_alone_bind.
    destruct Hr as (-> & [= -> ->] & ->). rewrite !app_nil_r. apply H2 in Hx as (out & Hp & -> & Hf).
    exists (map_err h out). split_and!; [apply exec_map; by exists out|apply Hv|]. intros a Ha. apply Hf. by apply Ho.
Qed.
(** A plain program that goes on to put its result together. *)
Lemma launches_result {A B E} m (p : io S (res A E)) (h : A -> B) (f : A -> list Q -> Prop) (g : B -> list Q -> Prop) :
  launches m p f -> (forall a qs, f a qs -> g (h a) qs) ->
  launches m (try* a := p in IoRet (Ok (h a))) g.
Proof.
  intros [H1 H2] Hg. split.
  - intros s tr out s'. rewrite exec_try. intros (r & s1 & tr1 & tr2 & -> & (qs & Hx & Hf)%H1 & Hr).
    exists qs. destruct r as [a|e|]; destruct Hr as (-> & -> & ->); rewrite app_nil_r; (split; [done|]); [|done|done].
    intros b [= <-]. by apply Hg, Hf.
  - intros s tr qs r s' (out & Hp & -> & Hf)%H2. exists (res_map h out). split_and!.
    + apply exec_try. exists out, s', tr, []. rewrite app_nil_r. split_and!; [done|done|]. by destruct out.
    + by destruct out.
    + intros b. destruct out as [a| |]; [|done..]. intros [= <-]. by apply Hg, Hf.
Qed.
(** A loop that serves each address, against one that returns what it bound. *)
Lemma launches_for_each {X A E} (body' : X -> script S Q (res unit E)) (body : X -> io S (res A E))
    (all : list X -> io S (res (list A) E)) (loops : A -> list Q) l :
  all [] = IoRet (Ok []) ->
  (forall x l, all (x :: l) = try* a := body x in try* r := all l in IoRet (Ok (a :: r))) ->
  (forall x, launches (body' x) (body x) (fun a qs => qs = loops a)) ->
  launches (for_each body' l) (all l) (fun r qs => qs = r ≫= loops).
Proof.
  intros Hnil Hcons Hbody. induction l as [|x l IH]; [rewrite Hnil; by apply launches_done|].
  rewrite Hcons. cbn [for_each]. eapply launches_try; [apply Hbody|]. intros a.
  apply (launches_mono _ _ (fun r qs => exists r', r = a :: r' /\ qs = r' ≫= loops)).
  { intros r qs (r' & -> & ->) qs1 ->. done. }
  eapply launches_result; [exact IH|]. intros r qs ->. by exists r.
Qed.
End Alone.

(** *** The script by itself is a run of the system *)
Section Runs.
Context {S Q A : Type} (turn : Q -> io S (next Q)) (pending : A -> bool).
Notation sturn := (script_turn (A := A) turn pending).

Lemma alone_run (m : script S Q A) s tr qs a s' ps c0 tr0 :
  exec (alone m) s tr (qs, a) s' -> sys_exec sturn c0 tr0 (s, start sturn (inl m) :: ps) ->
  sys_exec sturn c0 (tr0 ++ tr) (s', start sturn (inl (Done a)) :: ps ++ (start sturn <$> (inr <$> qs))).
Proof.
  revert s tr qs ps tr0. induction m as [b|X p k IH|q k IH]; intros s tr qs ps tr0; cbn [alone].
  - intros (-> & [= -> ->] & ->) Hrun. by rewrite !app_nil_r.
  - rewrite exec_bind. intros (x & s1 & tr1 & tr2 & -> & Hp & Hx) Hrun. rewrite app_assoc.
    eapply IH; [exact Hx|]. rewrite <- (app_nil_r (tr0 ++ tr1)).
    eapply sys_trans; [exact (exec_proc sturn 0 _ _ _ _ _ _ _ (_ :: ps) _ _ Hp eq_refl Hrun)|].
    exact (sys_turn _ s1 (_ :: ps) 0 _ (Become (inl (k x))) eq_refl).
  - rewrite exec_map. intros ([qs' a'] & Hx & [= -> ->]) Hrun.
    replace (ps ++ (start sturn <$> (inr <$> q :: qs'))) with ((ps ++ [start sturn (inr q)]) ++ (start sturn <$> (inr <$> qs')))
      by by rewrite <- app_assoc.
    eapply IH; [exact Hx|]. rewrite <- (app_nil_r tr0). eapply sys_trans; [exact Hrun|].
    exact (sys_turn _ s (_ :: ps) 0 _ (Fork (inr q) (inl k)) eq_refl).
Qed.
Lemma script_runs (m : script S Q A) s tr qs a s' :
  exec (alone m) s tr (qs, a) s' ->
  sys_exec sturn (s, script_start turn pending m) tr
    (s', start sturn (inl (Done a)) :: (start sturn <$> (inr <$> qs))).
Proof. intros Hx. apply (alone_run m s tr qs a s' [] _ [] Hx). apply sys_refl. Qed.
End Runs.
