(* ===== verification/Errors.v ===== *)
(** * Errors and options

    [src/error.rs] and [src/options.rs]: the error type every transport
    returns, which errors are worth a retry, the HTTP versions with their ALPN
    names, and the per-upstream options. *)
From S2P Require Import Prelude RustStr.

(** Payloads that come from another crate's error are its [Display] text. *)
Inductive DohError :=
| Bootstrap (msg : string)
| Pack (msg : string)
| Http (msg : string)
| UnexpectedStatus (status : Z) (addr : string)
| NonZeroId (id : Z)
| InvalidResponse (msg : string)
| Timeout (d : Z)
| NoSupportedVersions
| IoError (msg : string)
| Quic (msg : string)
| DnsCrypt (msg : string).

#[export] Instance DohError_eq_dec : EqDecision DohError.
Proof. solve_decision. Defined.

Definition should_retry (e : DohError) : bool :=
  match e with
  | Timeout _ => true
  | Quic msg => contains "0-RTT" msg || contains "retry" msg
  | _ => false
  end.

Inductive HttpVersion := Http11 | Http2 | Http3.
#[export] Instance HttpVersion_eq_dec : EqDecision HttpVersion.
Proof. solve_decision. Defined.

Definition alpn (v : HttpVersion) : string :=
  match v with Http11 => "http/1.1" | Http2 => "h2" | Http3 => "h3" end.
Definition default_http_versions : list HttpVersion := [Http11; Http2].

(** [Resolver] is the type of the bootstrap resolver object. Durations are in
    nanoseconds. *)
Record Options (Resolver : Type) := MkOptions {
  bootstrap : option Resolver;
  http_versions : list HttpVersion;
  opt_timeout : option Z;
  insecure_skip_verify : bool;
  prefer_ipv6 : bool;
  basic_auth : option (string * string);
}.
Arguments MkOptions {Resolver}.
Arguments bootstrap {Resolver} o.
Arguments http_versions {Resolver} o.
Arguments opt_timeout {Resolver} o.
Arguments insecure_skip_verify {Resolver} o.
Arguments prefer_ipv6 {Resolver} o.
Arguments basic_auth {Resolver} o.

Definition from_secs (n : Z) : Z := n * 10 ^ 9.
Definition as_secs (d : Z) : Z := d / 10 ^ 9.

Definition default_options {R} : Options R :=
  {| bootstrap := None; http_versions := []; opt_timeout := Some (from_secs 10);
     insecure_skip_verify := false; prefer_ipv6 := false; basic_auth := None |}.

Definition resolved_http_versions {R} (o : Options R) : list HttpVersion :=
  match http_versions o with [] => default_http_versions | vs => vs end.

Lemma resolved_http_versions_nonempty {R} (o : Options R) : resolved_http_versions o <> [].
Proof. unfold resolved_http_versions. by destruct (http_versions o). Qed.
