(* ===== verification/Dns.v ===== *)
(** * DNS messages

    The program handles DNS messages through the [hickory-proto] crate. Its
    types are abstract here ([DnsLib]): a message is a record of the public
    fields the program reads or writes, with everything else in opaque
    remainders, and its functions are the operations of [DnsCodec] with the
    documented laws the proofs rely on in [DnsLaws]. [Toy] is an executable
    instance that satisfies every law; the witnesses run on it. *)
From S2P Require Import Prelude RustStr RustNet.

Inductive MessageType := Query_ | Response_.
#[export] Instance MessageType_eq_dec : EqDecision MessageType.
Proof. solve_decision. Defined.

(** Names, record types and record data. [name_eqb] is [Name]'s [PartialEq],
    which ignores letter case, so it is an equivalence coarser than equality. *)
Class DnsLib := {
  Name : Type;
  name_eqb : Name -> Name -> bool;
  name_eqb_equiv :: Equivalence (fun a b => name_eqb a b = true);
  eq_ignore_root : Name -> Name -> bool;
  Name_from_ascii : string -> string + Name;
  Name_to_ascii : Name -> string;
  debug_name : Name -> string;
  RecordType : Type;
  RecordType_eq_dec :: EqDecision RecordType;
  RT_A : RecordType;
  RT_AAAA : RecordType;
  RT_TXT : RecordType;
  RT_OPT : RecordType;
  debug_record_type : RecordType -> string;
  DNSClass : Type;
  DNSClass_eq_dec :: EqDecision DNSClass;
  OpCode : Type;
  OpCode_Query : OpCode;
  RData : Type;
  rdata_type : RData -> RecordType;
  rdata_ip_addr : RData -> option IpAddr;
  rdata_txt : RData -> option (list bytes);
  txt_from_bytes : list bytes -> RData;
  MetadataRest : Type;
  EdnsRest : Type;
  RecordRest : Type;
  MessageRest : Type;
}.

Section Messages.
Context `{DnsLib}.

Record Metadata := {
  md_id : Z;
  message_type : MessageType;
  truncation : bool;
  recursion_desired : bool;
  checking_disabled : bool;
  md_rest : MetadataRest;
}.
Record Query := {
  query_name : Name;
  query_type : RecordType;
  query_class : DNSClass;
}.
Record Edns := { dnssec_ok : bool; edns_rest : EdnsRest }.
Record DnsRecord := {
  record_name : Name;
  record_ttl : Z;
  record_data : RData;
  record_rest : RecordRest;
}.
Record Message := {
  metadata : Metadata;
  queries : list Query;
  answers : list DnsRecord;
  authorities : list DnsRecord;
  additionals : list DnsRecord;
  edns : option Edns;
  msg_rest : MessageRest;
}.

Definition record_type (r : DnsRecord) : RecordType := rdata_type (record_data r).
Definition msg_id (m : Message) : Z := md_id (metadata m).

(** Field assignments. *)
Definition set_metadata (m : Message) (md : Metadata) : Message :=
  {| metadata := md; queries := queries m; answers := answers m;
     authorities := authorities m; additionals := additionals m;
     edns := edns m; msg_rest := msg_rest m |}.
Definition set_id (m : Message) (i : Z) : Message :=
  set_metadata m
    {| md_id := i; message_type := message_type (metadata m);
       truncation := truncation (metadata m);
       recursion_desired := recursion_desired (metadata m);
       checking_disabled := checking_disabled (metadata m);
       md_rest := md_rest (metadata m) |}.
Definition set_recursion_desired (m : Message) (b : bool) : Message :=
  set_metadata m
    {| md_id := md_id (metadata m); message_type := message_type (metadata m);
       truncation := truncation (metadata m); recursion_desired := b;
       checking_disabled := checking_disabled (metadata m);
       md_rest := md_rest (metadata m) |}.
Definition set_queries (m : Message) (qs : list Query) : Message :=
  {| metadata := metadata m; queries := qs; answers := answers m;
     authorities := authorities m; additionals := additionals m;
     edns := edns m; msg_rest := msg_rest m |}.
Definition set_sections (m : Message) (an au ad : list DnsRecord) : Message :=
  {| metadata := metadata m; queries := queries m; answers := an;
     authorities := au; additionals := ad; edns := edns m; msg_rest := msg_rest m |}.
Definition set_ttl (r : DnsRecord) (ttl : Z) : DnsRecord :=
  {| record_name := record_name r; record_ttl := ttl; record_data := record_data r;
     record_rest := record_rest r |}.

Lemma set_id_id m i : msg_id (set_id m i) = i.
Proof. done. Qed.
Lemma set_id_set_id m i j : set_id (set_id m i) j = set_id m j.
Proof. done. Qed.
Lemma set_id_same m : set_id m (msg_id m) = m.
Proof. by destruct m as [[] ? ? ? ? ? ?]. Qed.

(** The crate's functions; errors are [Display] texts. *)
Class DnsCodec := {
  Message_new : Z -> MessageType -> OpCode -> Message;
  Query_query : Name -> RecordType -> Query;
  Record_from_rdata : Name -> Z -> RData -> DnsRecord;
  add_query : Message -> Query -> Message;
  add_answer : Message -> DnsRecord -> Message;
  truncate : Message -> Message;
  to_bytes : Message -> string + bytes;
  from_bytes : bytes -> string + Message;
}.

Class DnsLaws `{DnsCodec} := {
  Message_new_id i t o : msg_id (Message_new i t o) = i;
  Message_new_type i t o : message_type (metadata (Message_new i t o)) = t;
  Message_new_queries i t o : queries (Message_new i t o) = [];
  Message_new_answers i t o : answers (Message_new i t o) = [];
  Query_query_name n t : query_name (Query_query n t) = n;
  Query_query_type n t : query_type (Query_query n t) = t;
  Record_from_rdata_data n ttl d : record_data (Record_from_rdata n ttl d) = d;
  Record_from_rdata_name n ttl d : record_name (Record_from_rdata n ttl d) = n;
  add_query_eq m q : add_query m q = set_queries m (queries m ++ [q]);
  add_answer_eq m r :
    add_answer m r = set_sections m (answers m ++ [r]) (authorities m) (additionals m);
  truncate_id m : msg_id (truncate m) = msg_id m;
  truncate_queries m : queries (truncate m) = queries m;
  truncate_flag m : truncation (metadata (truncate m)) = true;
  rdata_txt_from_bytes l : rdata_txt (txt_from_bytes l) = Some l;
}.
End Messages.
Create Rewrite HintDb dns.
#[export] Hint Rewrite @Message_new_id @Message_new_type @Message_new_queries
  @Message_new_answers @Query_query_name @Query_query_type @Record_from_rdata_data
  @Record_from_rdata_name @add_query_eq @add_answer_eq @truncate_id @truncate_queries
  @truncate_flag @rdata_txt_from_bytes : dns.

(** ** An executable instance

    Names are strings compared up to case; the codec writes the identifier,
    the three flags, the questions and the TXT and address answers, each
    string and list with a length byte. *)
Module Toy.
Inductive ToyData := ToyIp (a : IpAddr) | ToyTxt (l : list bytes) | ToyOpt.
Definition toy_type (d : ToyData) : Z :=
  match d with ToyIp (V4 _) => 1 | ToyIp (V6 _) => 28 | ToyTxt _ => 16 | ToyOpt => 41 end.

Definition toy_eqb (a b : string) : bool :=
  bool_decide (to_ascii_lowercase a = to_ascii_lowercase b).
Lemma toy_eqb_equiv : Equivalence (fun a b => toy_eqb a b = true).
Proof.
  unfold toy_eqb. split.
  - intros a. by rewrite bool_decide_eq_true.
  - intros a b. rewrite !bool_decide_eq_true. done.
  - intros a b c. rewrite !bool_decide_eq_true. congruence.
Qed.

#[export] Instance lib : DnsLib := {
  Name := string;
  name_eqb := toy_eqb;
  name_eqb_equiv := toy_eqb_equiv;
  eq_ignore_root := toy_eqb;
  Name_from_ascii s := if is_empty s then inl "empty name" else inr s;
  Name_to_ascii s := s;
  debug_name s := s;
  RecordType := Z;
  RecordType_eq_dec := Z.eq_dec;
  RT_A := 1; RT_AAAA := 28; RT_TXT := 16; RT_OPT := 41;
  debug_record_type := dec;
  DNSClass := Z;
  DNSClass_eq_dec := Z.eq_dec;
  OpCode := unit;
  OpCode_Query := ();
  RData := ToyData;
  rdata_type := toy_type;
  rdata_ip_addr d := match d with ToyIp a => Some a | _ => None end;
  rdata_txt d := match d with ToyTxt l => Some l | _ => None end;
  txt_from_bytes := ToyTxt;
  MetadataRest := unit; EdnsRest := unit; RecordRest := unit; MessageRest := unit;
}.

Definition flag (b : bool) (v : Z) : Z := if b then v else 0.
Definition put_bytes (b : bytes) : bytes := to_be 2 (Z.of_nat (length b)) ++ b.
Definition get_bytes (l : bytes) : option (bytes * bytes) :=
  match l with
  | a :: b :: l => let n := Z.to_nat (from_be [a; b]) in Some (take n l, drop n l)
  | _ => None
  end.
Definition put_query (q : @Query lib) : bytes :=
  put_bytes (as_bytes (query_name q)) ++ to_be 2 (query_type q).
Definition get_query (l : bytes) : option (@Query lib * bytes) :=
  match get_bytes l with
  | Some (n, a :: b :: l) =>
      Some ({| query_name := of_bytes n; query_type := from_be [a; b];
               query_class := 1 |}, l)
  | _ => None
  end.
Definition put_answer (r : @DnsRecord lib) : bytes :=
  put_bytes (as_bytes (record_name r)) ++ to_be 4 (record_ttl r)
  ++ match record_data r with
     | ToyTxt [t] => x00 :: put_bytes t
     | ToyIp (V4 a) => [x01; oct1 a; oct2 a; oct3 a; oct4 a]
     | _ => [x02]
     end.
Definition get_answer (l : bytes) : option (@DnsRecord lib * bytes) :=
  match get_bytes l with
  | Some (n, a :: b :: c :: d :: k :: l) =>
      let mk data :=
        {| record_name := of_bytes n : @Name lib; record_ttl := from_be [a; b; c; d];
           record_data := data : @RData lib; record_rest := () |} in
      match k, l with
      | x00, l => let! (t, l) := get_bytes l in Some (mk (ToyTxt [t]), l)
      | x01, o1 :: o2 :: o3 :: o4 :: l => Some (mk (ToyIp (V4 (Ipv4 o1 o2 o3 o4))), l)
      | _, _ => None
      end
  | _ => None
  end.
Fixpoint get_list {A} (get : bytes -> option (A * bytes)) (n : nat) (l : bytes)
  : option (list A * bytes) :=
  match n with
  | O => Some ([], l)
  | S n => let! (a, l) := get l in let! (r, l) := get_list get n l in Some (a :: r, l)
  end.
Definition encode (m : @Message lib) : bytes :=
  let md := metadata m in
  to_be 2 (md_id md)
  ++ [as_u8 (flag (match message_type md with Response_ => true | _ => false end) 1
             + flag (truncation md) 2 + flag (recursion_desired md) 4
             + flag (checking_disabled md) 8);
      as_u8 (Z.of_nat (length (queries m))); as_u8 (Z.of_nat (length (answers m)))]
  ++ flat_map put_query (queries m) ++ flat_map put_answer (answers m).
Definition decode (l : bytes) : option (@Message lib) :=
  match l with
  | a :: b :: f :: nq :: na :: l =>
      let! (qs, l) := get_list get_query (Z.to_nat (u8 nq)) l in
      let! (ans, l) := get_list get_answer (Z.to_nat (u8 na)) l in
      if (length l =? 0)%nat then
      Some {| metadata := {| md_id := from_be [a; b];
                             message_type := if Z.testbit (u8 f) 0 then Response_ else Query_;
                             truncation := Z.testbit (u8 f) 1;
                             recursion_desired := Z.testbit (u8 f) 2;
                             checking_disabled := Z.testbit (u8 f) 3;
                             md_rest := () |};
              queries := qs; answers := ans; authorities := []; additionals := [];
              edns := None; msg_rest := () |}
      else None
  | _ => None
  end.

Definition blank (i : Z) (t : MessageType) (tc : bool) : @Message lib :=
  {| metadata := {| md_id := i; message_type := t; truncation := tc;
                    recursion_desired := false; checking_disabled := false; md_rest := () |};
     queries := []; answers := []; authorities := []; additionals := [];
     edns := None; msg_rest := () |}.
#[export] Instance codec : DnsCodec := {
  Message_new i t _ := blank i t false;
  Query_query n t := {| query_name := n; query_type := t; query_class := 1 |};
  Record_from_rdata n ttl d :=
    {| record_name := n; record_ttl := ttl; record_data := d; record_rest := () |};
  add_query m q := set_queries m (queries m ++ [q]);
  add_answer m r := set_sections m (answers m ++ [r]) (authorities m) (additionals m);
  truncate m :=
    set_queries (blank (msg_id m) (message_type (metadata m)) true) (queries m);
  to_bytes m := inr (encode m);
  from_bytes l := match decode l with Some m => inr m | None => inl "bad message" end;
}.
#[export] Instance laws : DnsLaws.
Proof. by split. Qed.

(** A query and a response the witnesses use. *)
Definition query (i : Z) (n : string) (t : Z) : @Message lib :=
  add_query (Message_new i Query_ OpCode_Query) (Query_query n t).
Definition reply (m : @Message lib) (ttl : Z) : @Message lib :=
  add_answer
    (set_queries (Message_new (msg_id m) Response_ OpCode_Query) (queries m))
    (Record_from_rdata "example.com." ttl (ToyIp (V4 (Ipv4 x01 x02 x03 x04)))).
End Toy.
