(* ===== verification/WebLib.v ===== *)
(** * The HTTP and TLS crates

    What the program uses of [http]/[hyper] and [rustls-pki-types] outside I/O:
    URI parsing and accessors, the checks made while a request is built, and
    the validation of a TLS server name. [Toy] is an executable instance that
    splits [scheme://authority/path?query] by hand. *)
From S2P Require Import Prelude RustStr RustNet.

Class WebLib := {
  Uri : Type;
  Uri_parse : string -> string + Uri;
  uri_host : Uri -> option string;
  uri_path : Uri -> string;
  uri_port : Uri -> option Z;
  uri_query : Uri -> option string;
  (** [Some e]: the request builder, or [ServerName::try_from], fails with [e]. *)
  request_error : list (string * string) -> option string;
  server_name_error : string -> option string;
}.

(** [ServerName::try_from(name).map_err(..)]. *)
Definition server_name `{WebLib} {E} (f : string -> E) (name : string) : res string E :=
  match server_name_error name with Some e => Err (f e) | None => Ok name end.

Module ToyWeb.
Record toy_uri := MkUri {
  t_host : string; t_port : option Z; t_path : string; t_query : option string }.
Definition parse (s : string) : string + toy_uri :=
  let rest := match split_once "://" s with Some (_, r) => r | None => s end in
  let '(before, query) :=
    match split_once_char "?" rest with
    | Some (b, q) => (b, Some q) | None => (rest, None)
    end in
  let '(authority, path) :=
    match split_once_char "/" before with
    | Some (a, p) => (a, "/" +:+ p) | None => (before, "/")
    end in
  if is_empty authority then inl "empty authority"
  else match rsplit_once_char ":" authority with
       | Some (h, p) =>
           match parse_u16 p with
           | Ok n => inr (MkUri h (Some n) path query)
           | _ => inl "invalid port"
           end
       | None => inr (MkUri authority None path query)
       end.
#[export] Instance web : WebLib := {
  Uri := toy_uri;
  Uri_parse := parse;
  uri_host u := Some (t_host u);
  uri_path := t_path;
  uri_port := t_port;
  uri_query := t_query;
  request_error _ := None;
  server_name_error s := if is_empty s then Some "empty name" else None;
}.
End ToyWeb.
