(* ===== verification/Wire.v ===== *)
(** * RFC 8484 message framing

    [src/client/wire.rs]: packing a request with a zeroed identifier into the
    [dns=] parameter, unpacking and validating a response, and the listener's
    mirror images. The base64 engines of the [base64] crate are a parameter
    ([Base64]) with their documented laws ([Base64Laws]). *)
From S2P Require Import Prelude RustStr RustNet Dns Errors.

Record Engine := {
  b64_encode : bytes -> string;
  b64_decode : string -> string + bytes;
}.
Class Base64 := { URL_SAFE_NO_PAD : Engine; STANDARD : Engine }.

(** Decoding inverts encoding; the URL-safe alphabet is letters, digits, [-]
    and [_]; the standard one adds [+], [/] and [=]. *)
Definition url_safe_char (c : ascii) : bool :=
  let z := code c in
  ((48 <=? z) && (z <=? 57)) || ((65 <=? z) && (z <=? 90)) || ((97 <=? z) && (z <=? 122))
  || (z =? 45) || (z =? 95).
Definition standard_char (c : ascii) : bool :=
  let z := code c in
  ((48 <=? z) && (z <=? 57)) || ((65 <=? z) && (z <=? 90)) || ((97 <=? z) && (z <=? 122))
  || (z =? 43) || (z =? 47) || (z =? 61).
Class Base64Laws `{Base64} := {
  url_safe_roundtrip b : b64_decode URL_SAFE_NO_PAD (b64_encode URL_SAFE_NO_PAD b) = inr b;
  url_safe_alphabet b c :
    char_in c (b64_encode URL_SAFE_NO_PAD b) = true -> url_safe_char c = true;
  standard_roundtrip b : b64_decode STANDARD (b64_encode STANDARD b) = inr b;
  standard_empty : b64_decode STANDARD "" = inr [];
  standard_alphabet b c :
    char_in c (b64_encode STANDARD b) = true -> standard_char c = true;
}.

Section Wire.
Context `{HL : DnsLib} {HC : DnsCodec} {HB : Base64}.

Definition invalid (prefix e : string) : DohError := InvalidResponse (prefix +:+ e).

Definition validate_response (req resp : Message) : res unit DohError :=
  if negb (length (queries resp) =? 1)%nat then
    Err (InvalidResponse ("only 1 question allowed; got "
                          +:+ dec (Z.of_nat (length (queries resp)))))
  else
    match queries req, queries resp with
    | req_q :: _, resp_q :: _ =>
        if negb (bool_decide (query_type req_q = query_type resp_q)) then
          Err (InvalidResponse ("mismatched type " +:+ debug_record_type (query_type resp_q)))
        else if negb (eq_ignore_root (query_name req_q) (query_name resp_q)) then
          Err (InvalidResponse ("mismatched name " +:+ debug_name (query_name resp_q)))
        else Ok ()
    | _, _ => Panic (* [queries[0]] out of range *)
    end.

Definition encode_request (req : Message) : res (string * Z) DohError :=
  let original_id := msg_id req in
  let zeroed := set_id req 0 in
  let? b := from_sum Pack (to_bytes zeroed) in
  Ok (b64_encode URL_SAFE_NO_PAD b, original_id).

Definition decode_response (body : bytes) (req : Message) (original_id : Z)
  : res Message DohError :=
  let? resp := from_sum (invalid "unpacking response: ") (from_bytes body) in
  if negb (msg_id resp =? 0) then Err (NonZeroId (msg_id resp))
  else
    let resp := set_id resp original_id in
    let? _ := validate_response req resp in
    Ok resp.

Definition decode_request (dns_param : option string) (body : bytes) : res Message DohError :=
  let? b := match dns_param with
            | Some param =>
                from_sum (invalid "decoding dns param: ") (b64_decode URL_SAFE_NO_PAD param)
            | None => Ok body
            end in
  from_sum (invalid "unpacking doh request: ") (from_bytes b).

Definition encode_response (resp : Message) : res bytes DohError :=
  from_sum Pack (to_bytes resp).

Definition format_host_port (host : string) (port : Z) : string :=
  match parse_ipv6_addr host with
  | Some _ => "[" +:+ host +:+ "]:" +:+ dec port
  | None => host +:+ ":" +:+ dec port
  end.

(** ** The validation contract *)

(** What a validated response is: one question, for the request's first
    question up to name case and the trailing root dot. *)
Definition answers_question (req resp : Message) : Prop :=
  exists req_q rest resp_q,
    queries req = req_q :: rest /\ queries resp = [resp_q]
    /\ query_type req_q = query_type resp_q
    /\ eq_ignore_root (query_name req_q) (query_name resp_q) = true.

Lemma validate_response_Ok req resp :
  validate_response req resp = Ok () <-> answers_question req resp.
Proof.
  unfold validate_response, answers_question.
  assert (forall (e : res unit DohError) (R : Prop), (e <> Ok ()) -> ~ R -> (e = Ok () <-> R))
    as Hno by tauto.
  destruct (queries resp) as [|q [|q' qs]]; simpl;
    [apply Hno; [done|by intros (?&?&?&?&?&?)]| |apply Hno; [done|by intros (?&?&?&?&?&?)]].
  destruct (queries req) as [|q0 qs]; simpl; [apply Hno; [done|by intros (?&?&?&?&?)]|].
  case_bool_decide; simpl;
    [|apply Hno; [done|intros (?&?&?&?&?&?&?); by simplify_eq]].
  destruct (eq_ignore_root _ _) eqn:E; simpl;
    [|apply Hno; [done|intros (?&?&?&?&?&?&?); simplify_eq; congruence]].
  split; [intros _|done]. by eexists _, _, _.
Qed.

Lemma validate_response_set_id req resp i :
  validate_response req (set_id resp i) = validate_response req resp.
Proof. done. Qed.

(** A message the codec reads back as it was. *)
Definition roundtrips (m : Message) : Prop :=
  exists b, to_bytes m = inr b /\ from_bytes b = inr m.

Lemma decode_response_Ok body req oid r :
  decode_response body req oid = Ok r ->
  exists m, from_bytes body = inr m /\ msg_id m = 0 /\ r = set_id m oid
            /\ answers_question req r.
Proof.
  unfold decode_response. intros H. inv_ok H. rename a into m, E into Em. exists m.
  destruct (Z.eqb_spec (msg_id m) 0); simpl in H; [|done].
  inv_ok H. simplify_eq. destruct a. rewrite validate_response_Ok in E. done.
Qed.
End Wire.

(** The URL-safe alphabet avoids every separator of a query string. *)
Lemma url_safe_no_sep `{Base64Laws} b c :
  url_safe_char c = false -> char_in c (b64_encode URL_SAFE_NO_PAD b) = false.
Proof.
  intros Hc. destruct (char_in c _) eqn:E; [|done].
  by rewrite (url_safe_alphabet b c E) in Hc.
Qed.

(** ** An executable instance: two hexadecimal digits per byte *)
Module ToyBase64.
Fixpoint encode (b : bytes) : string :=
  match b with
  | [] => ""
  | x :: b => String (digit_char (u8 x / 16)) (String (digit_char (u8 x mod 16)) (encode b))
  end.
Fixpoint decode (s : string) : option bytes :=
  match s with
  | EmptyString => Some []
  | String a (String b s) =>
      let! x := to_digit 16 a in let! y := to_digit 16 b in
      let! r := decode s in Some (as_u8 (x * 16 + y) :: r)
  | _ => None
  end.
Definition engine : Engine :=
  {| b64_encode := encode;
     b64_decode s := match decode s with Some b => inr b | None => inl "bad digit" end |}.
#[export] Instance base64 : Base64 := {| URL_SAFE_NO_PAD := engine; STANDARD := engine |}.

Lemma decode_encode b : decode (encode b) = Some b.
Proof.
  induction b as [|x b IH]; [done|]. cbn [encode decode].
  assert (to_digit 16 (digit_char (u8 x / 16)) = Some (u8 x / 16)
          /\ to_digit 16 (digit_char (u8 x mod 16)) = Some (u8 x mod 16)) as [-> ->]
    by (destruct x; split; reflexivity).
  rewrite IH. do 2 f_equal.
  replace (u8 x / 16 * 16 + u8 x mod 16) with (u8 x)
    by (pose proof (Z.div_mod (u8 x) 16); lia).
  apply as_u8_u8.
Qed.
Lemma encode_alphabet b c :
  char_in c (encode b) = true -> url_safe_char c = true /\ standard_char c = true.
Proof.
  induction b as [|x b IH]; [done|]. cbn [encode char_in].
  case_decide as E1; [subst; intros _; by destruct x|].
  case_decide as E2; [subst; intros _; by destruct x|]. auto.
Qed.
#[export] Instance laws : Base64Laws.
Proof.
  split; try done; intros b; simpl; try (by rewrite decode_encode);
    intros c Hc; by apply encode_alphabet in Hc as [? ?].
Qed.
End ToyBase64.

(** ** Properties *)
Section Properties.
Context `{HL : DnsLib} {HC : DnsCodec} {HB : Base64}.

(** [validate_response] accepts a response exactly when it carries one
    question, of the request's type and (up to case) name; it fails with
    an [InvalidResponse] error otherwise, except that it panics precisely
    when a one-question response is checked against a request that has no
    question at all (the unguarded [req.queries[0]]). *)
Theorem validate_response_spec req resp :
  (validate_response req resp = Ok () <-> answers_question req resp)
  /\ (validate_response req resp = Panic
      <-> queries req = [] /\ length (queries resp) = 1%nat)
  /\ (forall e, validate_response req resp = Err e -> exists msg, e = InvalidResponse msg).
Proof.
  split; [apply validate_response_Ok|]. unfold validate_response.
  destruct (queries resp) as [|q [|q' qs]]; simpl; try (split; naive_solver).
  destruct (queries req) as [|q0 qs]; simpl; [split; naive_solver|].
  repeat case_match; split; naive_solver.
Qed.

(** [decode_response] returns a message exactly when the body unpacks to
    one with a zero identifier that answers the request's question, and what
    it returns is that message under the original identifier. *)
Theorem decode_response_spec body req oid r :
  decode_response body req oid = Ok r
  <-> exists m, from_bytes body = inr m /\ msg_id m = 0 /\ answers_question req m
                /\ r = set_id m oid.
Proof.
  split.
  - intros (m & ? & ? & -> & ?)%decode_response_Ok. by exists m.
  - intros (m & Hm & Hid & Hq & ->). unfold decode_response. rewrite Hm. simpl.
    rewrite Hid. simpl. rewrite validate_response_set_id.
    by rewrite (proj2 (validate_response_Ok req m) Hq).
Qed.
End Properties.
