(* ===== verification/Base64.v ===== *)
(** * RFC 4648 base64

    The interface [Base64] of [Wire] at the encoding the program really uses:
    the URL-safe alphabet without padding and the standard one with padding,
    as the [base64] crate's two engines read and write them (left-over bits of
    the last digit must be zero, padding must be there or must not). [rfc_laws]
    shows that the laws the theorems assume hold of it; the tests of the
    repository run on it. *)
From S2P Require Import Prelude RustStr Wire.

(** [std] chooses the alphabet, and with it the padding. *)
Definition digit (std : bool) (n : Z) : ascii :=
  chr (
    if n <? 26 then 65 + n
    else if n <? 52 then 97 + (n - 26)
    else if n <? 62 then 48 + (n - 52)
    else if n =? 62 then (if std then 43 else 45) else (if std then 47 else 95)).
Definition value (std : bool) (c : ascii) : option Z :=
  let z := code c in
  if (65 <=? z) && (z <=? 90) then Some (z - 65)
  else if (97 <=? z) && (z <=? 122) then Some (z - 97 + 26)
  else if (48 <=? z) && (z <=? 57) then Some (z - 48 + 52)
  else if z =? (if std then 43 else 45) then Some 62
  else if z =? (if std then 47 else 95) then Some 63
  else None.
Definition padding (std : bool) (s : string) : string := if std then s else "".

Fixpoint encode (std : bool) (b : bytes) : string :=
  match b with
  | [] => ""
  | [x] =>
      String (digit std (u8 x / 4)) (String (digit std (u8 x mod 4 * 16)) (padding std "=="))
  | [x; y] =>
      String (digit std (u8 x / 4))
        (String (digit std (u8 x mod 4 * 16 + u8 y / 16))
           (String (digit std (u8 y mod 16 * 4)) (padding std "=")))
  | x :: y :: z :: b =>
      String (digit std (u8 x / 4))
        (String (digit std (u8 x mod 4 * 16 + u8 y / 16))
           (String (digit std (u8 y mod 16 * 4 + u8 z / 64))
              (String (digit std (u8 z mod 64)) (encode std b))))
  end.

(** The last group, of one or two bytes. *)
Definition last_one (std : bool) (a b : ascii) : option bytes :=
  let! x := value std a in let! y := value std b in
  if y mod 16 =? 0 then Some [as_u8 (x * 4 + y / 16)] else None.
Definition last_two (std : bool) (a b c : ascii) : option bytes :=
  let! x := value std a in let! y := value std b in let! z := value std c in
  if z mod 4 =? 0 then Some [as_u8 (x * 4 + y / 16); as_u8 (y mod 16 * 16 + z / 4)] else None.
Definition is_pad (c : ascii) : bool := code c =? 61.
Fixpoint decode (std : bool) (s : string) : option bytes :=
  match s with
  | "" => Some []
  | String a (String b "") => if std then None else last_one std a b
  | String a (String b (String c "")) => if std then None else last_two std a b c
  | String a (String b (String c (String d s))) =>
      if std && is_pad d then
        if is_empty s then if is_pad c then last_one std a b else last_two std a b c else None
      else
        let! x := value std a in let! y := value std b in
        let! z := value std c in let! t := value std d in
        let! r := decode std s in
        Some (as_u8 (x * 4 + y / 16) :: as_u8 (y mod 16 * 16 + z / 4) :: as_u8 (z mod 4 * 64 + t) :: r)
  | _ => None
  end.

Definition engine (std : bool) : Engine :=
  {| b64_encode := encode std;
     b64_decode s := match decode std s with Some b => inr b | None => inl "Invalid input" end |}.
Definition rfc4648 : Base64 := {| URL_SAFE_NO_PAD := engine false; STANDARD := engine true |}.

(** ** Laws *)
Lemma digit_facts std n :
  0 <= n < 64 ->
  value std (digit std n) = Some n /\ is_pad (digit std n) = false
  /\ (if std then standard_char (digit std n) else url_safe_char (digit std n)) = true.
Proof.
  intros Hn. assert (In n (Z.of_nat <$> seq 0 64)) as Hin.
  { apply list_elem_of_In, list_elem_of_fmap. exists (Z.to_nat n). split; [lia|].
    apply elem_of_seq. lia. }
  clear Hn. revert n Hin. apply List.Forall_forall.
  destruct std; repeat constructor.
Qed.
Lemma value_digit std n : 0 <= n < 64 -> value std (digit std n) = Some n.
Proof. intros Hn. by apply digit_facts. Qed.
Lemma is_pad_digit std n : 0 <= n < 64 -> is_pad (digit std n) = false.
Proof. intros Hn. by apply (digit_facts std). Qed.

(** Six-bit groups and bytes. *)
Lemma split_join k a b : 0 < k -> 0 <= b < k -> (a * k + b) / k = a /\ (a * k + b) mod k = b.
Proof.
  intros Hk Hb. split; [rewrite Z.div_add_l, Z.div_small by lia; lia|].
  rewrite Z.add_comm, Z.mod_add by lia. by apply Z.mod_small.
Qed.
Lemma high_part x k m : 0 <= x < m * k -> 0 < k -> 0 < m -> 0 <= x / k < m.
Proof. intros Hx Hk Hm. split; [apply Z.div_pos; lia|apply Z.div_lt_upper_bound; lia]. Qed.
Lemma as_u8_split x k : 0 < k -> as_u8 (u8 x / k * k + u8 x mod k) = x.
Proof. intros Hk. rewrite Z.mul_comm, <- Z.div_mod by lia. apply as_u8_u8. Qed.
Lemma sextets x y z :
  let x := u8 x in let y := u8 y in let z := u8 z in
  0 <= x / 4 < 64 /\ 0 <= x mod 4 * 16 < 64 /\ 0 <= x mod 4 * 16 + y / 16 < 64
  /\ 0 <= y mod 16 * 4 < 64 /\ 0 <= y mod 16 * 4 + z / 64 < 64 /\ 0 <= z mod 64 < 64.
Proof.
  intros x' y' z'. pose proof (u8_range x). pose proof (u8_range y). pose proof (u8_range z).
  pose proof (high_part (u8 x) 4 64). pose proof (high_part (u8 y) 16 16). pose proof (high_part (u8 z) 64 4).
  pose proof (Z.mod_pos_bound (u8 x) 4). pose proof (Z.mod_pos_bound (u8 y) 16).
  pose proof (Z.mod_pos_bound (u8 z) 64). subst x' y' z'. lia.
Qed.
Lemma join_bytes x y z :
  let d2 := u8 x mod 4 * 16 + u8 y / 16 in let d3 := u8 y mod 16 * 4 + u8 z / 64 in
  as_u8 (u8 x / 4 * 4 + d2 / 16) = x /\ as_u8 (d2 mod 16 * 16 + d3 / 4) = y
  /\ as_u8 (d3 mod 4 * 64 + u8 z mod 64) = z.
Proof.
  intros d2 d3. pose proof (u8_range y). pose proof (u8_range z).
  destruct (split_join 16 (u8 x mod 4) (u8 y / 16)) as [H1 H2]; [lia|apply high_part; lia|].
  destruct (split_join 4 (u8 y mod 16) (u8 z / 64)) as [H3 H4]; [lia|apply high_part; lia|].
  subst d2 d3. rewrite H1, H2, H3, H4, !as_u8_split by lia. done.
Qed.

(** The groups of [encode], from the front. *)
Lemma bytes_ind3 (P : bytes -> Prop) :
  P [] -> (forall x, P [x]) -> (forall x y, P [x; y]) -> (forall x y z b, P b -> P (x :: y :: z :: b)) ->
  forall b, P b.
Proof.
  intros H0 H1 H2 H3. fix IH 1. intros [|x [|y [|z b]]]; [done|apply H1|apply H2|apply H3, IH].
Qed.

Lemma last_one_encode std x :
  last_one std (digit std (u8 x / 4)) (digit std (u8 x mod 4 * 16)) = Some [x].
Proof.
  pose proof (sextets x x00 x00) as (H1 & H2 & _). unfold last_one. rewrite !value_digit by done.
  rewrite Z.mod_mul, Z.div_mul by lia. simpl. by rewrite as_u8_split by lia.
Qed.
Lemma last_two_encode std x y :
  last_two std (digit std (u8 x / 4)) (digit std (u8 x mod 4 * 16 + u8 y / 16))
    (digit std (u8 y mod 16 * 4)) = Some [x; y].
Proof.
  pose proof (sextets x y x00) as (H1 & _ & H3 & H4 & _). unfold last_two. rewrite !value_digit by done.
  pose proof (join_bytes x y x00) as (E1 & E2 & _). rewrite Z.mod_mul by lia. simpl.
  change (u8 x00 / 64) with 0 in *. rewrite Z.add_0_r in *. by rewrite E1, E2.
Qed.

Lemma encode_not_empty std x b : is_empty (encode std (x :: b)) = false.
Proof. by destruct b as [|? [|]]. Qed.
(** Decoding four digits that no padding ends. *)
Lemma decode_four std a b c d s x y z t :
  value std a = Some x -> value std b = Some y -> value std c = Some z -> value std d = Some t ->
  is_pad d = false ->
  decode std (String a (String b (String c (String d s)))) =
    let! r := decode std s in
    Some (as_u8 (x * 4 + y / 16) :: as_u8 (y mod 16 * 16 + z / 4) :: as_u8 (z mod 4 * 64 + t) :: r).
Proof. intros Ha Hb Hc Hd Hp. cbn [decode]. by rewrite Hp, andb_false_r, Ha, Hb, Hc, Hd. Qed.

Lemma rfc_decode_encode std b : decode std (encode std b) = Some b.
Proof.
  induction b as [|x|x y|x y z b IH] using bytes_ind3; [done| | |].
  - destruct std; [|apply last_one_encode]. cbn -[digit]. apply last_one_encode.
  - pose proof (sextets x y x00) as (_ & _ & _ & H4 & _).
    destruct std; [|apply last_two_encode]. cbn -[digit].
    rewrite (is_pad_digit true) by done. apply last_two_encode.
  - pose proof (sextets x y z) as (H1 & _ & H3 & _ & H5 & H6). cbn [encode].
    erewrite decode_four; try (by apply value_digit); [|by apply is_pad_digit].
    rewrite IH. destruct (join_bytes x y z) as (-> & -> & ->). done.
Qed.

Lemma rfc_encode_alphabet std b c :
  char_in c (encode std b) = true -> (if std then standard_char c else url_safe_char c) = true.
Proof.
  assert (forall n s, 0 <= n < 64 ->
    (char_in c s = true -> (if std then standard_char c else url_safe_char c) = true) ->
    char_in c (String (digit std n) s) = true -> (if std then standard_char c else url_safe_char c) = true)
    as Hcons.
  { intros n s Hn Hs. cbn [char_in]. case_decide as E; [subst; intros _; by apply digit_facts|exact Hs]. }
  assert (forall s, s = "=" \/ s = "==" -> char_in c (padding std s) = true ->
            (if std then standard_char c else url_safe_char c) = true) as Hpad.
  { intros s [-> | ->]; destruct std; cbn; try done; repeat case_decide; by subst. }
  induction b as [|x|x y|x y z b IH] using bytes_ind3; [done| | |].
  - pose proof (sextets x x00 x00) as (H1 & H2 & _). cbn [encode].
    apply Hcons; [done|]. apply Hcons; [done|]. apply Hpad. by right.
  - pose proof (sextets x y x00) as (H1 & _ & H3 & H4 & _). cbn [encode].
    apply Hcons; [done|]. apply Hcons; [done|]. apply Hcons; [done|]. apply Hpad. by left.
  - pose proof (sextets x y z) as (H1 & _ & H3 & _ & H5 & H6). cbn [encode].
    do 4 (apply Hcons; [done|]). exact IH.
Qed.

Lemma rfc_laws : @Base64Laws rfc4648.
Proof.
  split; try done; intros b; simpl; try (by rewrite rfc_decode_encode).
  - apply (rfc_encode_alphabet false).
  - apply (rfc_encode_alphabet true).
Qed.

(** The test vectors of RFC 4648 section 10, and a stamp's alphabet. *)
Example rfc_vectors :
  encode true <$> (as_bytes <$> [""; "f"; "fo"; "foo"; "foob"; "fooba"; "foobar"])
  = [""; "Zg=="; "Zm8="; "Zm9v"; "Zm9vYg=="; "Zm9vYmE="; "Zm9vYmFy"].
Proof. vm_refl. Qed.
Example rejects : decode false "Zg==" = None /\ decode true "Zg" = None /\ decode false "Zh" = None
  /\ decode false "not!valid!base64!!!" = None.
Proof. split_and!; vm_refl. Qed.
