(* ===== verification/Cache.v ===== *)
(** * The response cache

    [src/cache.rs]: the TTL-aware cache wrapped around a query handler. The
    LRU map of the [lru] crate is an interface ([Lru]) with its documented
    behaviour as laws over an abstract recency-ordered view ([LruLaws]);
    [ListLru] implements it. Each of [get] and [insert] runs under the cache's
    mutex with no [await] inside, so it is one atomic step of the shared
    state; [into_handler] is the task that serves one query. *)
From S2P Require Import Prelude RustStr RustNet Io Dns Errors.

Implicit Type P : forall X, eff X -> Prop.

(** ** The LRU map interface *)
Section AssocList.
Context {K V : Type} (eqb : K -> K -> bool).
Definition find_key (k : K) (l : list (K * V)) : option (K * V) :=
  head (filter (fun p => eqb k p.1 = true) l).
Definition remove_key (k : K) (l : list (K * V)) : list (K * V) :=
  filter (fun p => eqb k p.1 = false) l.

Lemma find_key_Some k l p : find_key k l = Some p -> p ∈ l /\ eqb k p.1 = true.
Proof.
  unfold find_key. intros Hf. assert (p ∈ filter (fun p => eqb k p.1 = true) l) as Hp.
  { destruct (filter _ l); simplify_eq/=. by left. }
  by apply list_elem_of_filter in Hp as [? ?].
Qed.
Lemma elem_of_remove_key k l p : p ∈ remove_key k l <-> p ∈ l /\ eqb k p.1 = false.
Proof. unfold remove_key. rewrite list_elem_of_filter. naive_solver. Qed.
Lemma length_remove_key k l p :
  find_key k l = Some p -> (length (remove_key k l) < length l)%nat.
Proof.
  intros [Hp Hk]%find_key_Some. unfold remove_key.
  apply length_filter_lt with p; [done|]. simpl. by rewrite Hk.
Qed.
Lemma find_key_cons k k' v l :
  find_key k ((k', v) :: l) = if eqb k k' then Some (k', v) else find_key k l.
Proof.
  unfold find_key. rewrite filter_cons. simpl.
  case_decide as E; [by rewrite E|]. by destruct (eqb k k').
Qed.
Lemma find_key_remove_ne k k' l :
  (forall q, eqb k q = true -> eqb k' q = true -> False) ->
  find_key k (remove_key k' l) = find_key k l.
Proof.
  intros Hne. unfold find_key, remove_key. f_equal. rewrite list_filter_filter.
  apply list_filter_iff. intros p. split; [naive_solver|]. intros Hp. split; [done|].
  destruct (eqb k' p.1) eqn:E; [|done]. by destruct (Hne _ Hp E).
Qed.
Lemma find_key_remove_eq k k' l :
  (forall q, eqb k q = eqb k' q) -> find_key k (remove_key k' l) = None.
Proof.
  intros Heq. destruct (find_key k (remove_key k' l)) as [p|] eqn:E; [|done].
  apply find_key_Some in E as [[_ E1]%elem_of_remove_key E2]. rewrite Heq in E2. congruence.
Qed.
End AssocList.

(** [LruCache::{new, get, put, pop}] on caches of type [C]. *)
Class Lru (K V C : Type) := {
  lru_new : nat -> C;
  lru_get : C -> K -> option V * C;
  lru_put : C -> K -> V -> C;
  lru_pop : C -> K -> C;
}.

(** The documented behaviour: [lru_view] lists the entries, most recently used
    first; [get] promotes the entry it finds; [put] stores at the front,
    keeping the existing key, and evicts beyond the capacity; [pop] removes. *)
Class LruLaws {K V C} (eqb : K -> K -> bool) `{Lru K V C} := {
  lru_view : C -> list (K * V);
  lru_cap : C -> nat;
  view_new n : lru_view (lru_new n) = [];
  cap_new n : lru_cap (lru_new n) = n;
  get_result c k : (lru_get c k).1 = snd <$> find_key eqb k (lru_view c);
  view_get c k :
    lru_view (lru_get c k).2
    = match find_key eqb k (lru_view c) with
      | Some p => p :: remove_key eqb k (lru_view c)
      | None => lru_view c
      end;
  cap_get c k : lru_cap (lru_get c k).2 = lru_cap c;
  view_put c k v :
    lru_view (lru_put c k v)
    = take (lru_cap c)
        ((match find_key eqb k (lru_view c) with Some p => p.1 | None => k end, v)
         :: remove_key eqb k (lru_view c));
  cap_put c k v : lru_cap (lru_put c k v) = lru_cap c;
  view_pop c k : lru_view (lru_pop c k) = remove_key eqb k (lru_view c);
  cap_pop c k : lru_cap (lru_pop c k) = lru_cap c;
}.

(** ** The reference implementation *)
Module ListLru.
Record t (K V : Type) := Make { cap : nat; items : list (K * V) }.
Arguments Make {K V}.
Arguments cap {K V}.
Arguments items {K V}.
Section Impl.
Context {K V : Type} (eqb : K -> K -> bool).
Definition lru : Lru K V (t K V) := {|
  lru_new n := Make n [];
  lru_get c k :=
    match find_key eqb k (items c) with
    | Some p => (Some p.2, Make (cap c) (p :: remove_key eqb k (items c)))
    | None => (None, c)
    end;
  lru_put c k v :=
    Make (cap c)
      (take (cap c)
         ((match find_key eqb k (items c) with Some p => p.1 | None => k end, v)
          :: remove_key eqb k (items c)));
  lru_pop c k := Make (cap c) (remove_key eqb k (items c));
|}.
Lemma laws : @LruLaws K V (t K V) eqb lru.
Proof.
  refine {| lru_view := items : t K V -> _; lru_cap := cap : t K V -> _ |};
    intros; simpl; try done; by destruct (find_key eqb k (items c)).
Defined.
End Impl.
End ListLru.

(** ** The cache *)
Record CacheOptions := { size : nat; opt_min_ttl : Z; opt_max_ttl : option Z }.

Section Cache.
Context `{HL : DnsLib}.

Record CacheKey := {
  ck_name : Name;
  ck_type : RecordType;
  ck_class : DNSClass;
  ck_dnssec_ok : bool;
  ck_checking_disabled : bool;
}.
(** The derived [PartialEq]: the name compares by [Name]'s own equality. *)
Definition key_eqb (a b : CacheKey) : bool :=
  name_eqb (ck_name a) (ck_name b)
  && bool_decide (ck_type a = ck_type b) && bool_decide (ck_class a = ck_class b)
  && Bool.eqb (ck_dnssec_ok a) (ck_dnssec_ok b)
  && Bool.eqb (ck_checking_disabled a) (ck_checking_disabled b).

Record CacheEntry := { response : Message; stored_at : Z; ttl : Z }.

(** [req.edns.as_ref().is_some_and(|edns| edns.flags().dnssec_ok)]. *)
Definition wants_dnssec (req : Message) : bool :=
  match edns req with Some e => dnssec_ok e | None => false end.

Definition cache_key (req : Message) : option CacheKey :=
  match queries req with
  | [q] =>
      Some {| ck_name := query_name q; ck_type := query_type q; ck_class := query_class q;
              ck_dnssec_ok := wants_dnssec req;
              ck_checking_disabled := checking_disabled (metadata req) |}
  | _ => None
  end.

Definition is_opt (r : DnsRecord) : bool := bool_decide (record_type r = RT_OPT).
Definition cacheable_records (m : Message) : list DnsRecord :=
  filter (fun r => is_opt r = false) (answers m ++ authorities m ++ additionals m).

(** [all_records_mut] with the assignment its caller makes. *)
Definition rewrite_ttl (remaining : Z) (r : DnsRecord) : DnsRecord :=
  if is_opt r then r else set_ttl r remaining.
Definition rewrite_ttls (remaining : Z) (m : Message) : Message :=
  set_sections m (rewrite_ttl remaining <$> answers m)
    (rewrite_ttl remaining <$> authorities m) (rewrite_ttl remaining <$> additionals m).

Fixpoint min_list (l : list Z) : option Z :=
  match l with
  | [] => None
  | x :: l => Some (match min_list l with Some m => Z.min x m | None => x end)
  end.

Section Operations.
Context {C : Type} `{HLru : Lru CacheKey CacheEntry C}.

Record Cache := { entries : C; min_ttl : Z; max_ttl : option Z }.
Definition cache_new (opts : CacheOptions) : Cache :=
  {| entries := lru_new (size opts); min_ttl := opt_min_ttl opts;
     max_ttl := opt_max_ttl opts |}.
Definition with_entries (c : Cache) (es : C) : Cache :=
  {| entries := es; min_ttl := min_ttl c; max_ttl := max_ttl c |}.

Definition response_ttl (c : Cache) (resp : Message) : option Z :=
  let! min_rr_ttl := min_list (record_ttl <$> cacheable_records resp) in
  let ttl := from_secs min_rr_ttl in
  let ttl := if ttl <? min_ttl c then min_ttl c else ttl in
  Some (match max_ttl c with
        | Some max_ttl => if max_ttl <? ttl then max_ttl else ttl
        | None => ttl
        end).

(** [now] is the instant [stored_at.elapsed()] reads; [elapsed] saturates. *)
Definition get (c : Cache) (key : CacheKey) (id now : Z) : option Message * Cache :=
  match lru_get (entries c) key with
  | (None, es) => (None, with_entries c es)
  | (Some entry, es) =>
      let elapsed := Z.max 0 (now - stored_at entry) in
      if ttl entry <=? elapsed then (None, with_entries c (lru_pop es key))
      else
        let remaining := as_u32 (as_secs (ttl entry - elapsed)) in
        (Some (rewrite_ttls remaining (set_id (response entry) id)), with_entries c es)
  end.

Definition insert (c : Cache) (key : CacheKey) (resp : Message) (now : Z) : Cache :=
  match response_ttl c resp with
  | None => c
  | Some t =>
      with_entries c
        (lru_put (entries c) key {| response := resp; stored_at := now; ttl := t |})
  end.

(** The handler [into_handler] builds around [handler], whose own shared
    state is [T]. *)
Definition into_handler {T} (handler : Message -> io T (res Message DohError))
    (req : Message) : io (Cache * T) (res Message DohError) :=
  let inner := zoom snd (fun t s => (s.1, t)) (handler req) in
  match cache_key req with
  | None => inner
  | Some key =>
      let* now := call InstantNow in
      let* hit := atomically (fun s : Cache * T =>
                    let '(r, c) := get s.1 key (msg_id req) now in (r, (c, s.2))) in
      match hit with
      | Some resp => IoRet (Ok resp)
      | None =>
          try* resp := inner in
          let* now := call InstantNow in
          let* _ := atomically (fun s : Cache * T =>
                      (tt, (insert s.1 key resp now, s.2))) in
          IoRet (Ok resp)
      end
  end.
End Operations.
End Cache.
Arguments Cache C : clear implicits.

(** ** Lemmas *)
#[export] Instance key_eqb_equiv `{DnsLib} : Equivalence (fun a b => key_eqb a b = true).
Proof.
  pose proof name_eqb_equiv as [Hr Hs Ht]. unfold key_eqb. split.
  - intros a. rewrite !andb_true_iff, !bool_decide_eq_true, !Bool.eqb_true_iff.
    split_and!; auto.
  - intros a b. rewrite !andb_true_iff, !bool_decide_eq_true, !Bool.eqb_true_iff.
    intros; destruct_and!; split_and!; auto.
  - intros a b c. rewrite !andb_true_iff, !bool_decide_eq_true, !Bool.eqb_true_iff.
    intros; destruct_and!; split_and!; try congruence. etrans; eauto.
Qed.

(** Equal keys behave alike in every comparison. *)
Lemma key_eqb_congr `{DnsLib} a b : key_eqb a b = true -> forall c, key_eqb a c = key_eqb b c.
Proof.
  pose proof key_eqb_equiv as [_ Hs Ht]. intros Hab c.
  destruct (key_eqb a c) eqn:E1, (key_eqb b c) eqn:E2; try done.
  - rewrite <- E2. symmetry. apply (Ht b a c); [by apply (Hs a b)|done].
  - rewrite <- E1. by apply (Ht a b c).
Qed.
Lemma key_eqb_sym `{DnsLib} a b : key_eqb a b = key_eqb b a.
Proof.
  pose proof key_eqb_equiv as [_ Hs _].
  destruct (key_eqb a b) eqn:E1, (key_eqb b a) eqn:E2; try done.
  - by rewrite (Hs a b) in E2.
  - by rewrite (Hs b a) in E1.
Qed.
#[export] Instance key_eqb_proper `{DnsLib} :
  Proper ((fun a b => key_eqb a b = true) ==> eq ==> eq) key_eqb.
Proof. intros a b Hab c ? <-. by apply key_eqb_congr. Qed.

Lemma min_list_spec l m :
  min_list l = Some m <-> m ∈ l /\ Forall (fun x => m <= x) l.
Proof.
  revert m. induction l as [|x l IH]; intros m; simpl.
  - split; [done|]. intros [?%not_elem_of_nil _]. done.
  - destruct (min_list l) as [k|] eqn:E.
    + destruct (proj1 (IH k) eq_refl) as [Hk Hl]. split.
      * intros [= <-]. split.
        -- destruct (Z.min_spec x k) as [[_ ->]|[_ ->]]; [left|by right].
        -- constructor; [lia|]. eapply Forall_impl; [|exact Hl]. simpl. lia.
      * intros [Hm Hl']. apply Forall_cons_1 in Hl' as [Hx Hl']. f_equal.
        rewrite list.Forall_forall in Hl, Hl'. pose proof (Hl' k Hk).
        apply elem_of_cons in Hm as [->|Hm]; [lia|]. pose proof (Hl m Hm). lia.
    + assert (l = []) as ->.
      { destruct l; [done|]. simpl in E. by destruct (min_list l). }
      split.
      * intros [= <-]. split; [by left|]. by repeat constructor.
      * intros [[->|?%not_elem_of_nil]%elem_of_cons _]; done.
Qed.

Section Lemmas.
Context `{HL : DnsLib} {C : Type} {HLru : Lru CacheKey CacheEntry C} {HLaws : LruLaws key_eqb}.
Implicit Types (c : Cache C) (k : CacheKey).

Definition view c : list (CacheKey * CacheEntry) := lru_view (entries c).
Definition lookup_entry c k : option (CacheKey * CacheEntry) := find_key key_eqb k (view c).

(** [get] in terms of the view. *)
Lemma get_spec c k id now :
  (get c k id now).1
  = match lookup_entry c k with
    | Some (_, e) =>
        let elapsed := Z.max 0 (now - stored_at e) in
        if ttl e <=? elapsed then None
        else Some (rewrite_ttls (as_u32 (as_secs (ttl e - elapsed))) (set_id (response e) id))
    | None => None
    end.
Proof.
  unfold get, lookup_entry, view.
  pose proof (get_result (entries c) k) as Hres.
  destruct (lru_get (entries c) k) as [r es]. simpl in Hres. subst r.
  destruct (find_key _ _ _) as [[k' e]|]; simpl; [|done]. by case_match.
Qed.

Lemma view_after_get c k id now p :
  p ∈ view (get c k id now).2 -> p ∈ view c.
Proof.
  unfold get, view.
  pose proof (get_result (entries c) k) as Hres. pose proof (view_get (entries c) k) as Hv.
  destruct (lru_get (entries c) k) as [r es]. simpl in Hres, Hv. subst r.
  assert (forall p, p ∈ lru_view es -> p ∈ lru_view (entries c)) as Hsub.
  { intros q. rewrite Hv. destruct (find_key _ _ _) as [q'|] eqn:E; [|done].
    apply find_key_Some in E as [? _].
    rewrite elem_of_cons, elem_of_remove_key. intros [->|[? _]]; done. }
  destruct (find_key _ _ _) as [[k' e]|]; simpl; [|apply Hsub].
  case_match; simpl; [|apply Hsub].
  rewrite view_pop, elem_of_remove_key. intros [? _]. by apply Hsub.
Qed.

Lemma length_view_get c k id now :
  (length (view (get c k id now).2) <= length (view c))%nat.
Proof.
  unfold get, view.
  pose proof (get_result (entries c) k) as Hres. pose proof (view_get (entries c) k) as Hv.
  destruct (lru_get (entries c) k) as [r es]. simpl in Hres, Hv. subst r.
  assert (length (lru_view es) <= length (lru_view (entries c)))%nat as Hsub.
  { rewrite Hv. destruct (find_key _ _ _) as [q'|] eqn:E; [|done].
    apply length_remove_key in E. simpl. lia. }
  destruct (find_key _ _ _) as [[k' e]|]; simpl; [|apply Hsub].
  case_match; simpl; [|apply Hsub].
  rewrite view_pop. unfold remove_key. etrans; [apply length_filter|]. done.
Qed.

Lemma get_options c k id now :
  min_ttl (get c k id now).2 = min_ttl c /\ max_ttl (get c k id now).2 = max_ttl c
  /\ lru_cap (entries (get c k id now).2) = lru_cap (entries c).
Proof.
  unfold get. pose proof (cap_get (entries c) k) as Hc.
  destruct (lru_get (entries c) k) as [[e|] es]; simpl in *; [|done].
  case_match; simpl; [|done]. by rewrite cap_pop.
Qed.

Lemma insert_options c k resp now :
  min_ttl (insert c k resp now) = min_ttl c /\ max_ttl (insert c k resp now) = max_ttl c
  /\ lru_cap (entries (insert c k resp now)) = lru_cap (entries c).
Proof. unfold insert. case_match; simpl; [|done]. by rewrite cap_put. Qed.

Lemma view_insert c k resp now t :
  response_ttl c resp = Some t ->
  view (insert c k resp now)
  = take (lru_cap (entries c))
      ((match lookup_entry c k with Some p => p.1 | None => k end,
        {| response := resp; stored_at := now; ttl := t |})
       :: remove_key key_eqb k (view c)).
Proof. intros Ht. unfold view, insert. rewrite Ht. simpl. apply view_put. Qed.

(** The key an insertion stores under is the one it was given, up to [key_eqb]. *)
Lemma stored_key_eqb c k :
  key_eqb k (match lookup_entry c k with Some p => p.1 | None => k end) = true.
Proof.
  destruct (lookup_entry c k) as [p|] eqn:E; [by apply find_key_Some in E as [_ ?]|].
  apply (@Equivalence_Reflexive _ _ key_eqb_equiv).
Qed.

Lemma lookup_insert_same c k k' resp now t :
  response_ttl c resp = Some t -> (0 < lru_cap (entries c))%nat -> key_eqb k' k = true ->
  exists k0, lookup_entry (insert c k resp now) k'
             = Some (k0, {| response := resp; stored_at := now; ttl := t |}).
Proof.
  intros Ht Hcap Hk. unfold lookup_entry. rewrite (view_insert _ _ _ _ _ Ht).
  destruct (lru_cap (entries c)) as [|n]; [lia|]. cbn [take].
  rewrite find_key_cons, (key_eqb_congr _ _ Hk), stored_key_eqb. eauto.
Qed.

(** Another key's entry is untouched by an insertion unless it is evicted. *)
Lemma lookup_insert_other c k k' resp now :
  key_eqb k' k = false ->
  lookup_entry (insert c k resp now) k' = lookup_entry c k'
  \/ lookup_entry (insert c k resp now) k' = None.
Proof.
  intros Hk. destruct (response_ttl c resp) as [t|] eqn:Ht;
    [|left; unfold insert; by rewrite Ht].
  unfold lookup_entry at 1 3. rewrite (view_insert _ _ _ _ _ Ht).
  set (l := _ :: _). assert (find_key key_eqb k' l = lookup_entry c k') as Hl.
  { unfold l. rewrite find_key_cons.
    rewrite (key_eqb_sym k'), <- (key_eqb_congr _ _ (stored_key_eqb c k)), key_eqb_sym, Hk.
    apply find_key_remove_ne. intros q E1 E2.
    rewrite (key_eqb_sym k), <- (key_eqb_congr k' q) in E2 by done. congruence. }
  rewrite <- Hl. clearbody l. generalize (lru_cap (entries c)).
  clear. induction l as [|[k1 e1] l IH]; intros [|n]; cbn [take]; auto.
  rewrite !find_key_cons. case_match; auto.
Qed.

Lemma lookup_get_expired c k id now :
  (get c k id now).1 = None -> lookup_entry (get c k id now).2 k = None.
Proof.
  unfold get, lookup_entry, view.
  pose proof (get_result (entries c) k) as Hres. pose proof (view_get (entries c) k) as Hv.
  destruct (lru_get (entries c) k) as [r es]. simpl in Hres, Hv. subst r.
  destruct (find_key _ _ _) as [[k' e]|] eqn:E; simpl.
  - case_match; simpl; [|done]. intros _. rewrite view_pop.
    by apply find_key_remove_eq.
  - intros _. by rewrite Hv.
Qed.
End Lemmas.

(** ** What the cache holds

    [stored req e] is what is known of an entry [e] that was stored for the
    query [req]. *)
Section Holds.
Context `{HL : DnsLib} {C : Type} {HLru : Lru CacheKey CacheEntry C} {HLaws : LruLaws key_eqb}.
Context (opts : CacheOptions).
Implicit Type stored : Message -> CacheEntry -> Prop.

Definition storage_time (resp : Message) : option Z :=
  response_ttl (cache_new opts : Cache C) resp.
Definition entry_holds stored (p : CacheKey * CacheEntry) : Prop :=
  exists req key, stored req p.2 /\ cache_key req = Some key
                  /\ key_eqb key p.1 = true
                  /\ storage_time (response p.2) = Some (ttl p.2).
Definition cache_holds stored (c : Cache C) : Prop :=
  min_ttl c = opt_min_ttl opts /\ max_ttl c = opt_max_ttl opts
  /\ lru_cap (entries c) = size opts
  /\ (length (view c) <= size opts)%nat /\ Forall (entry_holds stored) (view c).

Lemma response_ttl_options (c c' : Cache C) resp :
  min_ttl c = min_ttl c' -> max_ttl c = max_ttl c' ->
  response_ttl c resp = response_ttl c' resp.
Proof. unfold response_ttl. by intros -> ->. Qed.

Lemma cache_holds_new stored : cache_holds stored (cache_new opts).
Proof.
  unfold cache_holds, view. simpl. rewrite view_new, cap_new. simpl.
  split_and!; [done|done|done|lia|constructor].
Qed.
Lemma cache_holds_mono stored stored' c :
  (forall req e, stored req e -> stored' req e) -> cache_holds stored c -> cache_holds stored' c.
Proof.
  intros Hst (? & ? & ? & ? & Hall). split_and!; try done. eapply list.Forall_impl; [exact Hall|].
  intros p (req & key & ? & ?). exists req, key. auto.
Qed.
Lemma cache_holds_get stored c k id now : cache_holds stored c -> cache_holds stored (get c k id now).2.
Proof.
  intros (Hmin & Hmax & Hcap & Hlen & Hall).
  destruct (get_options c k id now) as (E1 & E2 & E3).
  unfold cache_holds. rewrite E1, E2, E3. split_and!; try done.
  - etrans; [apply length_view_get|done].
  - rewrite list.Forall_forall in Hall |- *. intros p Hp%view_after_get. auto.
Qed.
Lemma cache_holds_insert stored c k req resp now :
  cache_holds stored c -> cache_key req = Some k ->
  (forall t, storage_time resp = Some t -> stored req {| response := resp; stored_at := now; ttl := t |}) ->
  cache_holds stored (insert c k resp now).
Proof.
  intros (Hmin & Hmax & Hcap & Hlen & Hall) Hkey Hst.
  destruct (insert_options c k resp now) as (E1 & E2 & E3).
  unfold cache_holds. rewrite E1, E2, E3.
  destruct (response_ttl c resp) as [t|] eqn:Ht;
    [|unfold insert; rewrite Ht; by split_and!].
  assert (storage_time resp = Some t) as Ht' by (rewrite <- Ht; by apply response_ttl_options).
  rewrite (view_insert _ _ _ _ _ Ht), Hcap. split_and!; try done.
  - rewrite length_take. lia.
  - apply Forall_take. constructor.
    + exists req, k. simpl. split_and!; [by apply Hst|done|apply stored_key_eqb|done].
    + rewrite list.Forall_forall in Hall |- *.
      intros p [? _]%elem_of_remove_key. auto.
Qed.
(** A hit is an entry stored for an equal key, whose storage time has not run
    out at [now]. *)
Lemma get_holds stored c req key now r :
  cache_holds stored c -> cache_key req = Some key ->
  (get c key (msg_id req) now).1 = Some r ->
  exists req' key' e, stored req' e /\ cache_key req' = Some key' /\ key_eqb key key' = true
  /\ storage_time (response e) = Some (ttl e) /\ Z.max 0 (now - stored_at e) < ttl e
  /\ r = rewrite_ttls (as_u32 (as_secs (ttl e - Z.max 0 (now - stored_at e)))) (set_id (response e) (msg_id req)).
Proof.
  intros (_ & _ & _ & _ & Hall) Hkey. rewrite get_spec.
  destruct (lookup_entry c key) as [[k e]|] eqn:E; [|done].
  apply find_key_Some in E as [Hin Hk]. simpl in Hk.
  rewrite list.Forall_forall in Hall.
  destruct (Hall _ Hin) as (req' & key' & Hrel & Hkey' & Hk' & Ht). simpl in *.
  destruct (Z.leb_spec (ttl e) (Z.max 0 (now - stored_at e))); [done|].
  intros [= <-]. exists req', key', e. split_and!; try done.
  pose proof key_eqb_equiv as [_ Hs Htr]. by apply (Htr _ k); [|apply (Hs key' k)].
Qed.
End Holds.

(** ** What the cache promises

    [handler_rel req resp] stands for "the wrapped handler answered [req] with
    [resp]". A response the caching handler gives is either such an answer, or
    such an answer to an earlier query with an equal key, under the new
    identifier and with the remaining lifetime as the TTL of every record but
    OPT. [CachePool.v] says when that earlier answer was stored. *)
Section Contract.
Context `{HL : DnsLib} {C : Type} {HLru : Lru CacheKey CacheEntry C} {HLaws : LruLaws key_eqb}.
Context (handler_rel : Message -> Message -> Prop) (opts : CacheOptions).
Notation storage_time := (storage_time (C := C) opts).

Definition served (req resp : Message) : Prop :=
  handler_rel req resp
  \/ exists req' resp' key key' t remaining,
       handler_rel req' resp'
       /\ cache_key req = Some key /\ cache_key req' = Some key' /\ key_eqb key key' = true
       /\ storage_time resp' = Some t /\ 0 < remaining <= t
       /\ resp = rewrite_ttls (as_u32 (as_secs remaining)) (set_id resp' (msg_id req)).

(** The invariant of the shared cache state. *)
Definition cache_inv : Cache C -> Prop := cache_holds opts (fun req e => handler_rel req (response e)).

Lemma cache_inv_new : cache_inv (cache_new opts).
Proof. apply cache_holds_new. Qed.
Lemma cache_inv_get c k id now : cache_inv c -> cache_inv (get c k id now).2.
Proof. apply cache_holds_get. Qed.
Lemma cache_inv_insert c k req resp now :
  cache_inv c -> handler_rel req resp -> cache_key req = Some k ->
  cache_inv (insert c k resp now).
Proof. intros Hc Hrel Hk. by eapply cache_holds_insert. Qed.
Lemma get_served c req key now r :
  cache_inv c -> cache_key req = Some key ->
  (get c key (msg_id req) now).1 = Some r -> served req r.
Proof.
  intros Hc Hkey Hr. destruct (get_holds _ _ _ _ _ _ _ Hc Hkey Hr) as (req' & key' & e & Hrel & Hk' & Hk & Ht & Hlt & ->).
  right. exists req', (response e), key, key', (ttl e), (ttl e - Z.max 0 (now - stored_at e)).
  split_and!; try done; lia.
Qed.

(** What a handler promises of its outcome: an answer in a relation, or an
    error; [panics] are the requests it may unwind on. *)
Definition outcome (rel : Message -> Message -> Prop) (panics : Message -> Prop)
    (req : Message) (r : res Message DohError) : Prop :=
  match r with Ok resp => rel req resp | Err _ => True | Panic => panics req end.

Lemma into_handler_safe {T} P (J : T -> Prop) panics
    (handler : Message -> io T (res Message DohError)) req :
  P _ InstantNow ->
  (forall req, safe P J (handler req) (outcome handler_rel panics req)) ->
  safe P (fun s : Cache C * T => cache_inv s.1 /\ J s.2) (into_handler handler req)
    (outcome served panics req).
Proof.
  intros HP Hh. unfold into_handler.
  assert (safe P (fun s : Cache C * T => cache_inv s.1 /\ J s.2)
            (zoom snd (fun t s => (s.1, t)) (handler req)) (outcome handler_rel panics req)) as Hin.
  { apply (safe_zoom _ J); [by intros ? [_ ?]|naive_solver|apply Hh]. }
  destruct (cache_key req) as [key|] eqn:Hkey;
    [|eapply safe_mono; [|exact Hin]; simpl; intros [resp| |] Hr; [by left|done|done]].
  io_simpl. split; [done|]. intros now _ s [Hc HJ].
  destruct (get s.1 key (msg_id req) now) as [r c] eqn:E. simpl.
  assert (cache_inv c) as Hc'.
  { replace c with (get s.1 key (msg_id req) now).2 by (by rewrite E). by apply cache_inv_get. }
  split; [done|]. destruct r as [resp|].
  - apply (get_served s.1 req key now); [done|done|]. by rewrite E.
  - eapply safe_bind; [exact Hin|]. simpl. intros [resp|e|] Hr; [|done|done].
    io_simpl. split; [done|]. intros t1 _ s' [Hs' HJ']. split.
    + split; [|done]. by eapply cache_inv_insert.
    + by left.
Qed.
End Contract.

(** ** Properties *)
Section Properties.
Context `{HL : DnsLib} {C : Type} {HLru : Lru CacheKey CacheEntry C} {HLaws : LruLaws key_eqb}.

(** Looking up what was stored [d] ago under an equal key is a hit as
    long as [d] is below the storage time, answering with the stored
    response under the query's identifier and the remaining whole seconds
    as its TTLs; from then on it is a miss and the entry is gone. *)
Theorem get_after_insert (c : Cache C) key key' resp t stored now id :
  (0 < lru_cap (entries c))%nat -> response_ttl c resp = Some t ->
  key_eqb key' key = true -> stored <= now ->
  let c' := insert c key resp stored in
  (now - stored < t ->
     (get c' key' id now).1
     = Some (rewrite_ttls (as_u32 (as_secs (t - (now - stored)))) (set_id resp id)))
  /\ (t <= now - stored ->
     (get c' key' id now).1 = None /\ lookup_entry (get c' key' id now).2 key' = None).
Proof.
  intros Hcap Ht Hk Hle c'. subst c'.
  destruct (lookup_insert_same c key key' resp stored t Ht Hcap Hk) as [k0 Hl].
  assert ((get (insert c key resp stored) key' id now).1
          = if t <=? now - stored then None
            else Some (rewrite_ttls (as_u32 (as_secs (t - (now - stored)))) (set_id resp id)))
    as Hg.
  { rewrite get_spec, Hl. simpl. by rewrite Z.max_r by lia. }
  split; intros Ht'; rewrite Hg.
  - by destruct (Z.leb_spec t (now - stored)); [lia|].
  - destruct (Z.leb_spec t (now - stored)); [|lia]. split; [done|].
    apply lookup_get_expired. rewrite Hg. by destruct (Z.leb_spec t (now - stored)); [|lia].
Qed.

(** C32: two queries share a cache entry only if they ask the same name (by
    [Name]'s equality), type and class with the same DO and CD bits, and
    storing an answer for one never changes what the cache answers to a
    query with another key, except by evicting it. *)
Theorem cache_key_isolation (c : Cache C) req req' key key' resp stored id now :
  cache_key req = Some key -> cache_key req' = Some key' ->
  (key_eqb key' key = true
   <-> exists q q', queries req = [q] /\ queries req' = [q']
       /\ name_eqb (query_name q') (query_name q) = true
       /\ query_type q' = query_type q /\ query_class q' = query_class q
       /\ wants_dnssec req' = wants_dnssec req
       /\ checking_disabled (metadata req') = checking_disabled (metadata req))
  /\ (key_eqb key' key = false ->
      (get (insert c key resp stored) key' id now).1 = (get c key' id now).1
      \/ (get (insert c key resp stored) key' id now).1 = None).
Proof.
  intros Hkey Hkey'. split.
  - unfold cache_key in Hkey, Hkey'.
    destruct (queries req) as [|q [|]] eqn:Eq; simplify_eq.
    destruct (queries req') as [|q' [|]] eqn:Eq'; simplify_eq.
    unfold key_eqb. simpl.
    rewrite !andb_true_iff, !bool_decide_eq_true, !Bool.eqb_true_iff.
    split.
    + intros; destruct_and!. by exists q, q'.
    + intros (q1 & q2 & [= <-] & [= <-] & ? & ? & ? & ? & ?). by split_and!.
  - intros Hk. rewrite !get_spec.
    destruct (lookup_insert_other c key key' resp stored Hk) as [-> | ->]; auto.
Qed.

(** The storage time of a response is the least TTL of its non-OPT
    records clamped between the floor and the ceiling, the ceiling winning
    when they cross; a response without such a record is not stored. *)
Theorem response_ttl_spec (c : Cache C) resp :
  match response_ttl c resp with
  | None => cacheable_records resp = [] /\ forall key now, insert c key resp now = c
  | Some t =>
      exists r, r ∈ cacheable_records resp
      /\ Forall (fun r' => record_ttl r <= record_ttl r') (cacheable_records resp)
      /\ t = match max_ttl c with
             | Some m => Z.min m (Z.max (min_ttl c) (from_secs (record_ttl r)))
             | None => Z.max (min_ttl c) (from_secs (record_ttl r))
             end
  end.
Proof.
  destruct (response_ttl c resp) as [t|] eqn:E.
  - unfold response_ttl in E.
    destruct (min_list _) as [m|] eqn:Em; [|done].
    apply min_list_spec in Em as [Hin Hall].
    apply list_elem_of_fmap in Hin as (r & -> & Hr). exists r. split; [done|].
    split.
    { rewrite list.Forall_forall in Hall. apply list.Forall_forall. intros r' Hr'.
      apply Hall, list_elem_of_fmap. eauto. }
    injection E as <-. destruct (max_ttl c); repeat case_match; lia.
  - split; [|intros; unfold insert; by rewrite E].
    unfold response_ttl in E. destruct (cacheable_records resp) as [|r l]; [done|].
    simpl in E. by destruct (min_list _).
Qed.

(** With no TTL floor configured, a hit never extends a record's
    lifetime: every record served is the stored record itself (OPT) or the
    stored record with a TTL no larger than the one it was stored with. *)
Theorem hit_never_extends_ttl (c : Cache C) key key' resp t stored now id r r' i hit :
  (0 < lru_cap (entries c))%nat -> min_ttl c = 0 -> key_eqb key' key = true ->
  response_ttl c resp = Some t -> stored <= now ->
  (forall r, r ∈ cacheable_records resp -> 0 <= record_ttl r <= u32_max) ->
  (get (insert c key resp stored) key' id now).1 = Some hit ->
  (answers resp ++ authorities resp ++ additionals resp) !! i = Some r ->
  (answers hit ++ authorities hit ++ additionals hit) !! i = Some r' ->
  r' = r \/ (r' = set_ttl r (record_ttl r') /\ 0 <= record_ttl r' <= record_ttl r).
Proof.
  intros Hcap Hmin Hk Ht Hle Hrange Hget Hr Hr'.
  destruct (lookup_insert_same c key key' resp stored t Ht Hcap Hk) as [k0 Hl].
  rewrite get_spec, Hl in Hget. simpl in Hget.
  destruct (Z.leb_spec t (Z.max 0 (now - stored))); [done|]. injection Hget as <-.
  unfold rewrite_ttls, set_sections in Hr'. simpl in Hr'.
  rewrite <- !fmap_app, list_lookup_fmap, Hr in Hr'. injection Hr' as <-.
  unfold rewrite_ttl. destruct (is_opt r) eqn:Eo; [by left|]. right. split; [done|].
  assert (r ∈ cacheable_records resp) as Hc.
  { apply list_elem_of_filter. split; [done|]. by eapply list_elem_of_lookup_2. }
  pose proof (Hrange r Hc).
  unfold response_ttl in Ht. destruct (min_list _) as [m|] eqn:Em; [|done].
  apply min_list_spec in Em as [Hin Hall].
  rewrite list.Forall_forall in Hall.
  assert (m <= record_ttl r) by (apply Hall, list_elem_of_fmap; eauto).
  apply list_elem_of_fmap in Hin as (rm & -> & Hrm). pose proof (Hrange rm Hrm).
  rewrite Hmin in Ht.
  assert (t <= from_secs (record_ttl rm)).
  { unfold from_secs in *. injection Ht as <-. destruct (max_ttl c); repeat case_match; lia. }
  simpl. unfold as_u32, as_secs, from_secs, u32_max in *.
  set (q := (t - Z.max 0 (now - stored)) / 10 ^ 9).
  assert (0 <= q <= record_ttl rm).
  { unfold q. split; [apply Z.div_pos; lia|]. apply Z.div_le_upper_bound; lia. }
  rewrite Z.mod_small by lia. lia.
Qed.
End Properties.

(** ** Witnesses: the list-based LRU over the executable message instance *)
Section Witnesses.
#[local] Existing Instances Toy.lib Toy.codec.
#[local] Instance KLru : Lru CacheKey CacheEntry (ListLru.t CacheKey CacheEntry) := ListLru.lru key_eqb.
#[local] Instance KLaws : LruLaws key_eqb := ListLru.laws key_eqb.

Definition w_opts : CacheOptions := {| size := 2; opt_min_ttl := 0; opt_max_ttl := None |}.
Definition w_cache : Cache (ListLru.t CacheKey CacheEntry) := cache_new w_opts.
Definition w_req : Message := Toy.query 7 "example.com." 1.
Definition w_req' : Message := Toy.query 8 "EXAMPLE.com." 1.
Definition w_resp : Message := Toy.reply w_req 300.
Definition w_key (m : Message) : CacheKey :=
  default {| ck_name := "" : @Name Toy.lib; ck_type := 0; ck_class := 0;
             ck_dnssec_ok := false; ck_checking_disabled := false |} (cache_key m).

Lemma get_after_insert_witness :
  let c' := insert w_cache (w_key w_req) w_resp 0 in
  (from_secs 100 - 0 < from_secs 300 ->
     (get c' (w_key w_req') 8 (from_secs 100)).1
     = Some (rewrite_ttls (as_u32 (as_secs (from_secs 300 - (from_secs 100 - 0))))
               (set_id w_resp 8)))
  /\ (from_secs 300 <= from_secs 100 - 0 ->
     (get c' (w_key w_req') 8 (from_secs 100)).1 = None
     /\ lookup_entry (get c' (w_key w_req') 8 (from_secs 100)).2 (w_key w_req') = None).
Proof.
  apply (get_after_insert w_cache (w_key w_req) (w_key w_req') w_resp (from_secs 300) 0
           (from_secs 100) 8); [simpl; lia|vm_refl|vm_refl|vm_compute; discriminate].
Defined.

Lemma cache_key_isolation_witness :
  (key_eqb (w_key w_req') (w_key w_req) = true
   <-> exists q q', queries w_req = [q] /\ queries w_req' = [q']
       /\ name_eqb (query_name q') (query_name q) = true
       /\ query_type q' = query_type q /\ query_class q' = query_class q
       /\ wants_dnssec w_req' = wants_dnssec w_req
       /\ checking_disabled (metadata w_req') = checking_disabled (metadata w_req))
  /\ (key_eqb (w_key w_req') (w_key w_req) = false ->
      (get (insert w_cache (w_key w_req) w_resp 0) (w_key w_req') 8 1).1
        = (get w_cache (w_key w_req') 8 1).1
      \/ (get (insert w_cache (w_key w_req) w_resp 0) (w_key w_req') 8 1).1 = None).
Proof. apply (cache_key_isolation w_cache w_req w_req'); reflexivity. Defined.

Lemma hit_never_extends_ttl_witness :
  exists r r', record_ttl r = 300 /\ record_ttl r' = 200
    /\ (r' = r \/ (r' = set_ttl r (record_ttl r') /\ 0 <= record_ttl r' <= record_ttl r)).
Proof.
  exists (Record_from_rdata ("example.com." : @Name Toy.lib) 300
            (Toy.ToyIp (V4 (Ipv4 x01 x02 x03 x04)) : @RData Toy.lib)).
  exists (Record_from_rdata ("example.com." : @Name Toy.lib) 200
            (Toy.ToyIp (V4 (Ipv4 x01 x02 x03 x04)) : @RData Toy.lib)).
  split; [reflexivity|]. split; [reflexivity|].
  apply (hit_never_extends_ttl w_cache (w_key w_req) (w_key w_req') w_resp (from_secs 300) 0
            (from_secs 100) 8 _ _ 0%nat (rewrite_ttls 200 (set_id w_resp 8)));
    [simpl; lia|reflexivity|vm_refl|vm_refl|vm_compute; discriminate| |vm_refl|vm_refl|vm_refl].
  intros r Hr. apply list_elem_of_filter in Hr as [_ Hr].
  apply list_elem_of_singleton in Hr as ->. vm_compute. split; discriminate.
Defined.
End Witnesses.
