(* ===== verification/CacheSpec.v ===== *)
(** * The cache as a map

    An abstract specification of the cache of [Cache.v]: an unbounded map from
    keys to answers with a time to live, without recency or eviction. The
    cache refines it: a hit is always the map's answer, and as long as the
    keys in use fit its size the two cannot be told apart. *)
From S2P Require Import Prelude RustStr RustNet Io Dns Errors Cache.

(** The calls [into_handler] makes, as a sequence. *)
Inductive cache_op `{DnsLib} :=
| OpGet (k : CacheKey) (id now : Z)
| OpInsert (k : CacheKey) (resp : Message) (now : Z).

Section Ideal.
Context `{HL : DnsLib} {C : Type} {HLru : Lru CacheKey CacheEntry C}.

Definition ideal : Type := CacheKey -> option CacheEntry.
Definition ideal_set (a : ideal) (k : CacheKey) (o : option CacheEntry) : ideal :=
  fun k' => if key_eqb k' k then o else a k'.
Definition expired (e : CacheEntry) (now : Z) : bool := ttl e <=? Z.max 0 (now - stored_at e).
Definition aged (e : CacheEntry) (id now : Z) : Message :=
  rewrite_ttls (as_u32 (as_secs (ttl e - Z.max 0 (now - stored_at e)))) (set_id (response e) id).

(** [opts] decides how long an answer lives. *)
Definition ideal_step (opts : CacheOptions) (a : ideal) (op : cache_op) : option Message * ideal :=
  match op with
  | OpGet k id now =>
      match a k with
      | None => (None, a)
      | Some e => if expired e now then (None, ideal_set a k None) else (Some (aged e id now), a)
      end
  | OpInsert k resp now =>
      (None, match storage_time (C := C) opts resp with
             | Some t => ideal_set a k (Some {| response := resp; stored_at := now; ttl := t |})
             | None => a
             end)
  end.
Definition cache_step (c : Cache C) (op : cache_op) : option Message * Cache C :=
  match op with
  | OpGet k id now => get c k id now
  | OpInsert k resp now => (None, insert c k resp now)
  end.
Fixpoint outputs {A} (step : A -> cache_op -> option Message * A) (a : A) (ops : list cache_op)
  : list (option Message) :=
  match ops with
  | [] => []
  | op :: ops => (step a op).1 :: outputs step (step a op).2 ops
  end.
End Ideal.

Section Refinement.
Context `{HL : DnsLib} {C : Type} {HLru : Lru CacheKey CacheEntry C} {HLaws : LruLaws key_eqb}.
Implicit Types (c : Cache C) (k : CacheKey) (a : ideal).

Definition held c k : option CacheEntry := snd <$> lookup_entry c k.

Lemma key_eqb_refl k : key_eqb k k = true.
Proof. apply (@Equivalence_Reflexive _ _ key_eqb_equiv). Qed.
Lemma find_key_congr {V} k k' (l : list (CacheKey * V)) :
  key_eqb k k' = true -> find_key key_eqb k l = find_key key_eqb k' l.
Proof.
  intros Hk. unfold find_key. f_equal. apply list_filter_iff. intros p.
  by rewrite (key_eqb_congr _ _ Hk).
Qed.

Lemma key_eqb_disjoint k k' q :
  key_eqb k k' = false -> key_eqb k q = true -> key_eqb k' q = true -> False.
Proof. intros E H1 H2. rewrite (key_eqb_congr k q H1), key_eqb_sym, H2 in E. done. Qed.

(** Promoting the entry that was found changes no lookup. *)
Lemma find_key_promote {V} k k' (l : list (CacheKey * V)) p :
  find_key key_eqb k l = Some p ->
  find_key key_eqb k' (p :: remove_key key_eqb k l) = find_key key_eqb k' l.
Proof.
  intros Hf. pose proof (find_key_Some _ _ _ _ Hf) as [_ Hkp]. destruct p as [kp v]. simpl in Hkp.
  rewrite find_key_cons. rewrite (key_eqb_sym k'), <- (key_eqb_congr k kp) by done.
  destruct (key_eqb k k') eqn:E.
  - by rewrite <- (find_key_congr k k').
  - apply find_key_remove_ne. intros q H1 H2. by eapply key_eqb_disjoint.
Qed.

Lemma held_get c k id now k' :
  held (get c k id now).2 k'
  = match held c k with
    | Some e => if expired e now && key_eqb k' k then None else held c k'
    | None => held c k'
    end.
Proof.
  unfold held, lookup_entry, view, get, expired.
  pose proof (get_result (entries c) k) as Hres. pose proof (view_get (entries c) k) as Hv.
  destruct (lru_get (entries c) k) as [r es]. simpl in Hres, Hv. subst r.
  destruct (find_key key_eqb k (lru_view (entries c))) as [[kp e]|] eqn:Hf; simpl; [|by rewrite Hv].
  destruct (ttl e <=? Z.max 0 (now - stored_at e)); simpl; [|by rewrite Hv, find_key_promote].
  rewrite view_pop. destruct (key_eqb k' k) eqn:E.
  - rewrite (find_key_congr _ _ _ E), find_key_remove_eq; [done|]. done.
  - rewrite find_key_remove_ne, Hv, find_key_promote; [done|done|]. intros q. by apply key_eqb_disjoint.
Qed.
Lemma get_held c k id now :
  (get c k id now).1
  = match held c k with
    | Some e => if expired e now then None else Some (aged e id now)
    | None => None
    end.
Proof. rewrite get_spec. unfold held. by destruct (lookup_entry c k) as [[? ?]|]. Qed.
Lemma held_congr c k k' : key_eqb k k' = true -> held c k = held c k'.
Proof. intros Hk. unfold held, lookup_entry. by rewrite (find_key_congr k k'). Qed.

(** *** The cache forgets, and nothing else *)
Definition below c a : Prop :=
  (forall k, held c k = None \/ held c k = a k)
  /\ forall k k', key_eqb k k' = true -> a k = a k'.
Lemma ideal_set_congr a k o k1 k2 :
  (forall k k', key_eqb k k' = true -> a k = a k') -> key_eqb k1 k2 = true ->
  ideal_set a k o k1 = ideal_set a k o k2.
Proof. intros Ha Hk. unfold ideal_set. rewrite (key_eqb_congr _ _ Hk). by rewrite (Ha k1 k2). Qed.

Lemma held_insert_below c k resp now k' t :
  response_ttl c resp = Some t ->
  held (insert c k resp now) k' = None
  \/ held (insert c k resp now) k'
     = if key_eqb k' k then Some {| response := resp; stored_at := now; ttl := t |} else held c k'.
Proof.
  intros Ht. unfold held. destruct (key_eqb k' k) eqn:E.
  - destruct (decide (0 < lru_cap (entries c))%nat) as [Hcap|Hcap].
    + right. by destruct (lookup_insert_same c k k' resp now t Ht Hcap E) as [k0 ->].
    + left. unfold lookup_entry. rewrite (view_insert _ _ _ _ _ Ht).
      replace (lru_cap (entries c)) with 0%nat by lia. done.
  - destruct (lookup_insert_other c k k' resp now E) as [-> | ->]; auto.
Qed.

Context (opts : CacheOptions).
Definition configured_as c : Prop :=
  min_ttl c = opt_min_ttl opts /\ max_ttl c = opt_max_ttl opts /\ lru_cap (entries c) = size opts.
Lemma configured_step c op : configured_as c -> configured_as (cache_step c op).2.
Proof.
  unfold configured_as. intros (H1 & H2 & H3). destruct op as [k id now|k resp now]; cbn.
  - destruct (get_options c k id now) as (-> & -> & ->). done.
  - destruct (insert_options c k resp now) as (-> & -> & ->). done.
Qed.
Lemma configured_ttl c resp : configured_as c -> response_ttl c resp = storage_time (C := C) opts resp.
Proof. intros (H1 & H2 & _). by apply response_ttl_options. Qed.

Lemma below_step c a op :
  configured_as c -> below c a ->
  ((cache_step c op).1 = None \/ (cache_step c op).1 = (ideal_step (C := C) opts a op).1)
  /\ below (cache_step c op).2 (ideal_step (C := C) opts a op).2.
Proof.
  intros Hc [Hb Ha]. destruct op as [k id now|k resp now]; cbn [cache_step ideal_step fst snd].
  - rewrite get_held. destruct (Hb k) as [Hk|Hk].
    + rewrite Hk. split; [by left|].
      assert (forall k', held (get c k id now).2 k' = held c k') as Hsame by (intros; by rewrite held_get, Hk).
      destruct (a k) as [e|]; [destruct (expired e now)|]; simpl; (split; [|auto using ideal_set_congr]);
        intros k'; rewrite Hsame; [|apply Hb..].
      unfold ideal_set. destruct (key_eqb k' k) eqn:E; [left; by rewrite (held_congr _ _ _ E)|apply Hb].
    + rewrite Hk. destruct (a k) as [e|] eqn:Hak; [destruct (expired e now) eqn:He|]; simpl;
        (split; [by auto|]); (split; [|auto using ideal_set_congr]); intros k'; rewrite held_get, Hk;
        [|rewrite He; apply Hb|apply Hb].
      rewrite He. unfold ideal_set. simpl. destruct (key_eqb k' k); [by left|apply Hb].
  - split; [by left|]. rewrite <- (configured_ttl c resp Hc). destruct (response_ttl c resp) as [t|] eqn:Ht.
    + split; [|auto using ideal_set_congr]. intros k'.
      destruct (held_insert_below c k resp now k' t Ht) as [H|H]; [by left|]. rewrite H. unfold ideal_set.
      destruct (key_eqb k' k); [by right|apply Hb].
    + unfold insert. by rewrite Ht.
Qed.
Lemma below_outputs c a ops :
  configured_as c -> below c a ->
  Forall2 (fun o o' => o = None \/ o = o') (outputs cache_step c ops)
    (outputs (ideal_step (C := C) opts) a ops).
Proof.
  revert c a. induction ops as [|op ops IH]; intros c a Hc Hb; [constructor|]. cbn [outputs].
  destruct (below_step c a op Hc Hb) as [Ho Hb']. constructor; [exact Ho|].
  apply IH; [by apply configured_step|exact Hb'].
Qed.

(** *** Below its size the cache forgets nothing *)
Fixpoint distinct (l : list (CacheKey * CacheEntry)) : Prop :=
  match l with
  | [] => True
  | p :: l => Forall (fun q => key_eqb p.1 q.1 = false) l /\ distinct l
  end.
Definition among (ks : list CacheKey) (l : list (CacheKey * CacheEntry)) : Prop :=
  Forall (fun p => exists k, k ∈ ks /\ key_eqb k p.1 = true) l.
Lemma remove_key_Forall (Q : CacheKey * CacheEntry -> Prop) k l :
  Forall Q l -> Forall Q (remove_key key_eqb k l).
Proof. rewrite !list.Forall_forall. intros HQ p [Hp _]%elem_of_remove_key. auto. Qed.
Lemma remove_key_none k (l : list (CacheKey * CacheEntry)) :
  Forall (fun q => key_eqb k q.1 = false) l -> remove_key key_eqb k l = l.
Proof.
  induction 1 as [|q l Hq _ IH]; [done|]. unfold remove_key in *. rewrite filter_cons_True by done.
  by rewrite IH.
Qed.
Lemma distinct_remove k l : distinct l -> distinct (remove_key key_eqb k l).
Proof.
  induction l as [|p l IH]; [done|]. intros [Hp Hl]. unfold remove_key. rewrite filter_cons.
  case_decide; [|by apply IH]. split; [by apply remove_key_Forall|by apply IH].
Qed.
Lemma length_remove_distinct k l :
  distinct l -> (length l <= Datatypes.S (length (remove_key key_eqb k l)))%nat.
Proof.
  induction l as [|p l IH]; [simpl; lia|]. intros [Hp Hl]. unfold remove_key. rewrite filter_cons.
  destruct (key_eqb k p.1) eqn:E; [rewrite decide_False by done|rewrite decide_True by done].
  - fold (remove_key key_eqb k l). rewrite remove_key_none; [done|].
    eapply list.Forall_impl; [exact Hp|]. intros q. by rewrite (key_eqb_congr _ _ E).
  - simpl. specialize (IH Hl). unfold remove_key in IH. lia.
Qed.
Lemma distinct_among ks l : distinct l -> among ks l -> (length l <= length ks)%nat.
Proof.
  revert l. induction ks as [|k ks IH]; intros l Hd Ha.
  - destruct l as [|p l]; [done|]. apply Forall_cons_1 in Ha as [(k & ?%not_elem_of_nil & _) _]. done.
  - pose proof (length_remove_distinct k l Hd). simpl.
    specialize (IH (remove_key key_eqb k l) (distinct_remove _ _ Hd)).
    assert (among ks (remove_key key_eqb k l)); [|by specialize (IH ltac:(done)); lia].
    unfold among in *. rewrite list.Forall_forall in Ha |- *. intros p [Hp Hk]%elem_of_remove_key.
    destruct (Ha p Hp) as (k' & [->|Hk']%elem_of_cons & E); [congruence|by exists k'].
Qed.

Lemma distinct_promote k l p :
  distinct l -> key_eqb k p.1 = true -> distinct (p :: remove_key key_eqb k l).
Proof.
  intros Hd Hk. split; [|by apply distinct_remove]. apply list.Forall_forall.
  intros q [_ Hq]%elem_of_remove_key. by rewrite <- (key_eqb_congr _ _ Hk).
Qed.
Lemma among_promote ks k l p :
  among ks l -> (exists k', k' ∈ ks /\ key_eqb k' p.1 = true) -> among ks (p :: remove_key key_eqb k l).
Proof. intros Ha Hp. constructor; [done|by apply remove_key_Forall]. Qed.

Definition exact ks c a : Prop :=
  (forall k, held c k = a k) /\ distinct (view c) /\ among ks (view c).
(** The operation stores under one of [ks]. *)
Definition stores_among (ks : list CacheKey) (op : cache_op) : Prop :=
  match op with
  | OpGet _ _ _ => True
  | OpInsert k _ _ => exists k', k' ∈ ks /\ key_eqb k' k = true
  end.

Lemma view_get_shape c k id now :
  distinct (view c) -> forall ks, among ks (view c) ->
  distinct (view (get c k id now).2) /\ among ks (view (get c k id now).2).
Proof.
  intros Hd ks Ha. unfold view, get in *.
  pose proof (get_result (entries c) k) as Hres. pose proof (view_get (entries c) k) as Hv.
  destruct (lru_get (entries c) k) as [r es]. simpl in Hres, Hv. subst r.
  destruct (find_key key_eqb k (lru_view (entries c))) as [p|] eqn:Hf; simpl; [|by rewrite Hv].
  apply find_key_Some in Hf as [Hin Hk].
  assert (distinct (lru_view es) /\ among ks (lru_view es)) as [Hd' Ha'].
  { rewrite Hv. split; [by apply distinct_promote|]. apply among_promote; [done|].
    unfold among in Ha. rewrite list.Forall_forall in Ha. by apply Ha. }
  destruct (ttl p.2 <=? _); simpl; [|done].
  rewrite view_pop. split; [by apply distinct_remove|by apply remove_key_Forall].
Qed.

Lemma exact_step ks c a op :
  (length ks <= size opts)%nat -> configured_as c -> stores_among ks op -> exact ks c a ->
  (cache_step c op).1 = (ideal_step (C := C) opts a op).1
  /\ exact ks (cache_step c op).2 (ideal_step (C := C) opts a op).2.
Proof.
  intros Hks Hc Hop (Hh & Hd & Ha). destruct op as [k id now|k resp now]; cbn [cache_step ideal_step fst snd].
  - rewrite get_held, Hh. destruct (view_get_shape c k id now Hd ks Ha) as [Hd' Ha'].
    destruct (a k) as [e|] eqn:Hak; [destruct (expired e now) eqn:He|]; (split; [done|]);
      (split; [|done]); intros k'; rewrite held_get, !Hh, Hak, ?He; [|done..].
    cbn [snd]. unfold ideal_set. by destruct (key_eqb k' k).
  - split; [done|]. rewrite <- (configured_ttl c resp Hc).
    destruct (response_ttl c resp) as [t|] eqn:Ht; [|unfold insert; by rewrite Ht].
    set (l := (match lookup_entry c k with Some p => p.1 | None => k end,
               {| response := resp; stored_at := now; ttl := t |}) :: remove_key key_eqb k (view c)).
    assert (distinct l /\ among ks l) as [Hd' Ha'].
    { split; [apply distinct_promote; [done|apply stored_key_eqb]|]. apply among_promote; [done|].
      destruct Hop as (k' & Hin & Hk). exists k'. split; [done|].
      rewrite (key_eqb_congr _ _ Hk). apply stored_key_eqb. }
    assert (view (insert c k resp now) = l) as Hview.
    { rewrite (view_insert _ _ _ _ _ Ht). apply take_ge. destruct Hc as (_ & _ & ->).
      etrans; [by apply distinct_among|done]. }
    split; [|by rewrite Hview]. intros k'. unfold held, lookup_entry. rewrite Hview. unfold l, ideal_set.
    rewrite find_key_cons, (key_eqb_sym k'), <- (key_eqb_congr _ _ (stored_key_eqb c k)), key_eqb_sym.
    destruct (key_eqb k' k) eqn:E; [done|]. rewrite find_key_remove_ne; [apply Hh|].
    intros q. by apply key_eqb_disjoint.
Qed.
Lemma exact_outputs ks c a ops :
  (length ks <= size opts)%nat -> configured_as c -> Forall (stores_among ks) ops -> exact ks c a ->
  outputs cache_step c ops = outputs (ideal_step (C := C) opts) a ops.
Proof.
  intros Hks Hc Hops. revert c a Hc. induction Hops as [|op ops Hop _ IH]; intros c a Hc He; [done|].
  cbn [outputs]. destruct (exact_step ks c a op Hks Hc Hop He) as [-> He'].
  f_equal. apply IH; [by apply configured_step|exact He'].
Qed.
End Refinement.

Section Properties.
Context `{HL : DnsLib} {C : Type} {HLru : Lru CacheKey CacheEntry C} {HLaws : LruLaws key_eqb}.

(** C7: the cache refines an unbounded map with expiry: run from empty on any
    sequence of lookups and insertions, at any times, it answers each lookup
    either with a miss or exactly as the map does; and when the keys stored
    under number at most its size, it answers every lookup as the map does. *)
Theorem cache_refines_map (opts : CacheOptions) (ops : list cache_op) :
  Forall2 (fun o o' => o = None \/ o = o')
    (outputs cache_step (cache_new opts : Cache C) ops)
    (outputs (ideal_step (C := C) opts) (fun _ => None) ops)
  /\ forall ks, (length ks <= size opts)%nat -> Forall (stores_among ks) ops ->
       outputs cache_step (cache_new opts : Cache C) ops
       = outputs (ideal_step (C := C) opts) (fun _ => None) ops.
Proof.
  assert (configured_as opts (cache_new opts : Cache C)) as Hc by (split_and!; [done|done|apply cap_new]).
  assert (view (cache_new opts : Cache C) = []) as Hv by apply view_new.
  assert (forall k, held (cache_new opts : Cache C) k = None) as Hh
    by (intros k; unfold held, lookup_entry; by rewrite Hv).
  split.
  - apply below_outputs; [done|]. split; [intros k; by left|done].
  - intros ks Hks Hops. apply (exact_outputs opts ks); [done|done|done|].
    split; [done|]. rewrite Hv. split; [done|constructor].
Qed.
End Properties.

Section Witnesses.
#[local] Existing Instances Toy.lib Toy.codec.
#[local] Instance SLru : Lru CacheKey CacheEntry (ListLru.t CacheKey CacheEntry) := ListLru.lru key_eqb.
#[local] Instance SLaws : LruLaws key_eqb := ListLru.laws key_eqb.

(** Stored, hit while fresh, gone when expired; one key in a cache of two. *)
Definition w_ops : list cache_op :=
  [OpInsert (w_key w_req) w_resp 0; OpGet (w_key w_req') 8 (from_secs 100); OpGet (w_key w_req) 9 (from_secs 300)].
Lemma cache_refines_map_witness :
  outputs cache_step (cache_new w_opts : Cache (ListLru.t CacheKey CacheEntry)) w_ops
  = outputs (ideal_step (C := ListLru.t CacheKey CacheEntry) w_opts) (fun _ => None) w_ops.
Proof.
  refine (proj2 (cache_refines_map w_opts w_ops) [w_key w_req] _ _); [simpl; lia|].
  repeat constructor. exists (w_key w_req). split; [left|vm_refl].
Defined.
Example w_ops_outputs :
  (fun o => match o with Some _ => true | None => false end)
    <$> outputs cache_step (cache_new w_opts : Cache (ListLru.t CacheKey CacheEntry)) w_ops
  = [false; true; false].
Proof. vm_refl. Qed.
End Witnesses.
