(* ===== verification/CachePool.v ===== *)
(** * Queries through one cache

    Many queries served at the same time by the caching handler of [Cache.v],
    and what a hit among them is: the answer of another query's task, stored at
    the reading of the clock that task ended with, and not expired at the
    reading the hit was made with. *)
From S2P Require Import Prelude RustStr Io Dns Errors Cache.

Section Pool.
Context `{HL : DnsLib} {C T : Type} {HLru : Lru CacheKey CacheEntry C} {HLaws : LruLaws key_eqb}.
Context (opts : CacheOptions) (handler : Message -> io T (res Message DohError)).
Notation state := (Cache C * T)%type.

(** A query being served: the request, the calls its task has made with their
    answers, and what is left of the task. *)
Record query := Query {
  request : Message;
  calls : list event;
  rest : io state (res Message DohError);
}.
(** Queries arrive at any time, and any of them may take the next step. *)
Inductive serving : state * list query -> state * list query -> Prop :=
| query_arrives s qs req :
    serving (s, qs) (s, qs ++ [Query req [] (into_handler handler req)])
| query_calls s qs i req tr X (e : eff X) k x :
    qs !! i = Some (Query req tr (IoDo e k)) -> eff_ok e x ->
    serving (s, qs) (s, <[i := Query req (tr ++ [Event e x]) (k x)]> qs)
| query_steps s qs i req tr X (f : state -> X * state) k :
    qs !! i = Some (Query req tr (IoState f k)) ->
    serving (s, qs) ((f s).2, <[i := Query req tr (k (f s).1)]> qs).

Definition answered (q : query) : Prop := exists resp, rest q = IoRet (Ok resp).
Lemma insert_keeps (q q0 q' : query) (qs : list query) (i : nat) :
  q ∈ qs -> answered q -> qs !! i = Some q0 -> ~ answered q0 -> q ∈ <[i := q']> qs.
Proof.
  intros [j Hj]%list_elem_of_lookup Ha Hi Hn. apply list_elem_of_lookup. exists j.
  rewrite list_lookup_insert_ne; [done|]. intros ->. rewrite Hi in Hj. by injection Hj as ->.
Qed.

Context (handler_rel : Message -> Message -> Prop) (J : T -> Prop).
Notation storage_time := (storage_time (C := C) opts).
Implicit Type W : query -> Prop.

(** The answered queries [W] explain an entry: its query's task read the clock
    last, at the time the entry was stored, and gave the response stored. *)
Definition stored_by W (req : Message) (e : CacheEntry) : Prop :=
  handler_rel req (response e)
  /\ exists tr, W (Query req (tr ++ [Event InstantNow (stored_at e)]) (IoRet (Ok (response e)))).
Definition cache_from W : Cache C -> Prop := cache_holds opts (stored_by W).
(** A hit made with the one reading [now] of the clock: the response to the
    query [req'] with an equal key, stored at [stored], less than its storage
    time before [now], with what is left of that time as its TTLs. *)
Definition hit_of W (req : Message) (tr : list event) (resp : Message) : Prop :=
  exists now req' tr' stored resp' key key' t,
    tr = [Event InstantNow now]
    /\ W (Query req' (tr' ++ [Event InstantNow stored]) (IoRet (Ok resp'))) /\ handler_rel req' resp'
    /\ cache_key req = Some key /\ cache_key req' = Some key' /\ key_eqb key key' = true
    /\ storage_time resp' = Some t /\ Z.max 0 (now - stored) < t
    /\ resp = rewrite_ttls (as_u32 (as_secs (t - Z.max 0 (now - stored)))) (set_id resp' (msg_id req)).
Definition provenance W req tr resp : Prop := handler_rel req resp \/ hit_of W req tr resp.

(** What the rest of a task keeps, while other queries are answered. *)
Fixpoint keeps W (req : Message) (tr : list event) (p : io state (res Message DohError)) : Prop :=
  match p with
  | IoRet r => forall resp, r = Ok resp -> provenance W req tr resp
  | IoDo e k => forall x, eff_ok e x -> keeps W req (tr ++ [Event e x]) (k x)
  | IoState f k => forall W' s, (forall q, W q -> W' q) -> cache_from W' s.1 -> J s.2 ->
      let q0 := Query req tr (k (f s).1) in
      let W'' := fun q => W' q \/ (q = q0 /\ answered q0) in
      cache_from W'' (f s).2.1 /\ J (f s).2.2 /\ keeps W'' req tr (k (f s).1)
  end.
Lemma stored_by_mono W W' req e : (forall q, W q -> W' q) -> stored_by W req e -> stored_by W' req e.
Proof. intros HW [? [tr ?]]. split; [done|]. exists tr. auto. Qed.
Lemma cache_from_mono W W' c : (forall q, W q -> W' q) -> cache_from W c -> cache_from W' c.
Proof. intros HW. apply cache_holds_mono. intros req e. by apply stored_by_mono. Qed.
Lemma provenance_mono W W' req tr resp :
  (forall q, W q -> W' q) -> provenance W req tr resp -> provenance W' req tr resp.
Proof.
  intros HW [?|(now & req' & tr' & stored & resp' & key & key' & t & ? & Hq & ?)]; [by left|right].
  exists now, req', tr', stored, resp', key, key', t. auto.
Qed.
Lemma keeps_mono W W' req tr p : (forall q, W q -> W' q) -> keeps W req tr p -> keeps W' req tr p.
Proof.
  revert W W' tr. induction p as [r|X e k IH|X f k IH]; intros W W' tr HW; cbn [keeps].
  - intros Hr resp Hresp. eapply provenance_mono; [exact HW|by apply Hr].
  - intros Hk x Hx. eapply IH; [exact HW|by apply Hk].
  - intros Hk W1 s HW1. apply Hk. auto.
Qed.

Context (Hh : forall req, safe any_call J (handler req) (fun r => forall resp, r = Ok resp -> handler_rel req resp)).
Notation inner p := (zoom snd (fun t s => (s.1, t)) p).

(** The wrapped handler leaves the cache alone. *)
Lemma keeps_inner W req tr p (Q : res Message DohError -> Prop) k :
  safe any_call J p Q ->
  (forall W' tr' r, (forall q, W q -> W' q) -> Q r -> keeps W' req tr' (k r)) ->
  keeps W req tr (io_bind (inner p) k).
Proof.
  revert W tr. induction p as [r|X e j IH|X f j IH]; intros W tr Hp Hk; cbn [zoom io_bind keeps] in *.
  - by apply Hk.
  - intros x Hx. apply IH; [by apply Hp|done].
  - intros W' s HW Hc HJ. destruct (Hp s.2 HJ) as [HJ' Hj]. destruct (f s.2) as [x t] eqn:E. cbn [fst snd] in *.
    split; [|split; [done|]].
    + eapply cache_from_mono; [|exact Hc]. auto.
    + apply IH; [done|]. intros W1 tr1 r HW1. apply Hk. auto.
Qed.
Lemma bind_inner_ret W req tr p :
  keeps W req tr (io_bind p IoRet) -> keeps W req tr p.
Proof.
  revert W tr. induction p as [r|X e j IH|X f j IH]; intros W tr; cbn [io_bind keeps]; [done|auto|].
  intros Hk W' s HW Hc HJ. destruct (Hk W' s HW Hc HJ) as (Hc1 & HJ1 & Hk1).
  assert (answered (Query req tr (io_bind (j (f s).1) IoRet)) <-> answered (Query req tr (j (f s).1))) as Ha.
  { unfold answered. cbn [rest]. destruct (j (f s).1); [done|split; by intros [? [=]]..]. }
  assert (forall q, answered (Query req tr (j (f s).1)) ->
    q = Query req tr (io_bind (j (f s).1) IoRet) -> q = Query req tr (j (f s).1)) as Hq.
  { intros q [resp Hr] ->. cbn [rest] in Hr. by rewrite Hr. }
  split; [|split; [exact HJ1|apply IH]].
  - eapply cache_from_mono; [|exact Hc1]. cbn beta. intros q [?|[? ?%Ha]]; [by left|right; auto].
  - eapply keeps_mono; [|exact Hk1]. cbn beta. intros q [?|[? ?%Ha]]; [by left|right; auto].
Qed.

Lemma keeps_into_handler W req : keeps W req [] (into_handler handler req).
Proof using Hh.
  unfold into_handler. destruct (cache_key req) as [key|] eqn:Hkey.
  2: { apply bind_inner_ret. eapply keeps_inner; [apply Hh|]. intros W' tr' r _ Hr resp ->. left. by apply Hr. }
  cbn [io_bind call keeps app]. intros now _. cbn [atomically io_bind keeps]. intros W' s HW Hc HJ.
  destruct (get s.1 key (msg_id req) now) as [hit c] eqn:Eg. cbn [fst snd].
  assert (cache_from W' c) as Hc' by (pose proof (cache_holds_get opts _ _ key (msg_id req) now Hc) as H; by rewrite Eg in H).
  split; [by eapply cache_from_mono; [|exact Hc']; auto|]. split; [done|]. destruct hit as [resp|].
  - intros resp' [= <-]. right.
    destruct (get_holds opts (stored_by W') s.1 req key now resp Hc Hkey) as (req' & key' & e & [Hrel [tr Hq]] & Hk' & Hk & Ht & Hlt & ->);
      [by rewrite Eg|].
    exists now, req', tr, (stored_at e), (response e), key, key', (ttl e). split_and!; auto.
  - eapply keeps_inner; [apply Hh|]. intros W1 tr1 r HW1 Hr. destruct r as [resp|e|]; [|by intros ? [=]..].
    specialize (Hr resp eq_refl). intros t1 _. cbn [atomically io_bind keeps]. intros W2 s2 HW2 Hc2 HJ2.
    split; [|split; [done|by intros resp' [= <-]; left]].
    eapply cache_holds_insert; [by eapply cache_from_mono; [|exact Hc2]; auto|exact Hkey|].
    intros t _. split; [done|]. exists tr1. right. split; [done|by exists resp].
Qed.

(** ** The pool *)
Definition done_in (qs : list query) (q : query) : Prop := q ∈ qs /\ answered q.
Definition pool_ok (c : state * list query) : Prop :=
  cache_from (done_in c.2) c.1.1 /\ J c.1.2
  /\ Forall (fun q => keeps (done_in c.2) (request q) (calls q) (rest q)) c.2.
Lemma pool_ok_step c c' : serving c c' -> pool_ok c -> pool_ok c'.
Proof using Hh.
  intros Hstep (Hc & HJ & Hall). destruct Hstep as [s qs req|s qs i req tr X e k x Hi Hx|s qs i req tr X f k Hi];
    cbn [fst snd] in *.
  - assert (forall q, done_in qs q -> done_in (qs ++ [Query req [] (into_handler handler req)]) q) as HW
      by (intros q [? ?]; split; [apply elem_of_app; by left|done]).
    split; [by eapply cache_from_mono; [exact HW|]|]. split; [done|]. apply Forall_app. split.
    + eapply list.Forall_impl; [exact Hall|]. intros q. by apply keeps_mono.
    + apply list.Forall_singleton, keeps_into_handler.
  - set (q' := Query req (tr ++ [Event e x]) (k x)).
    assert (forall q, done_in qs q -> done_in (<[i := q']> qs) q) as HW.
    { intros q [? ?]. split; [|done]. eapply insert_keeps; [done|done|exact Hi|]. by intros [? ?]. }
    split; [by eapply cache_from_mono; [exact HW|]|]. split; [done|]. apply Forall_insert.
    + eapply list.Forall_impl; [exact Hall|]. intros q. by apply keeps_mono.
    + pose proof (Forall_lookup_1 _ _ _ _ Hall Hi) as Hk. eapply keeps_mono; [exact HW|by apply Hk].
  - set (q' := Query req tr (k (f s).1)).
    pose proof (Forall_lookup_1 _ _ _ _ Hall Hi) as Hk.
    destruct (Hk _ s (fun q H => H) Hc HJ) as (Hc1 & HJ1 & Hk1). fold q' in Hc1, Hk1.
    assert (forall q, done_in qs q \/ (q = q' /\ answered q') -> done_in (<[i := q']> qs) q) as HW.
    { intros q [[? ?]|[-> ?]]; (split; [|done]).
      - eapply insert_keeps; [done|done|exact Hi|]. by intros [? ?].
      - apply list_elem_of_lookup. exists i. apply list_lookup_insert_eq. by eapply lookup_lt_Some. }
    split; [by eapply cache_from_mono; [exact HW|]|]. split; [done|]. apply Forall_insert.
    + eapply list.Forall_impl; [exact Hall|]. intros q. apply keeps_mono. intros q0 ?. apply HW. by left.
    + by eapply keeps_mono; [exact HW|].
Qed.
End Pool.
Arguments Query {HL C T} request calls rest.
Arguments request {HL C T}.
Arguments calls {HL C T}.
Arguments rest {HL C T}.

(** ** Properties *)
Section Properties.
Context `{HL : DnsLib} {C T : Type} {HLru : Lru CacheKey CacheEntry C} {HLaws : LruLaws key_eqb}.

(** C5: any number of queries served concurrently through one cache, in any
    interleaving of their steps and with the clock and the wrapped handler
    answering anything they may: every response given is the handler's own, or
    a hit, made with the single reading of the clock its task took: then it is
    the response another query of the pool, with an equal key, was given by the
    handler, stored at the reading of the clock that query's task ended with,
    less than its storage time before the reading of the hit, and it carries
    the new query's identifier and what is left of the storage time as its
    TTLs; and the cache never holds more entries than its size. *)
Theorem concurrent_cache_provenance (opts : CacheOptions) (handler : Message -> io T (res Message DohError))
    (handler_rel : Message -> Message -> Prop) (J : T -> Prop) (t0 : T) (s : Cache C * T) qs :
  (forall req, safe any_call J (handler req) (fun r => forall resp, r = Ok resp -> handler_rel req resp)) ->
  J t0 -> rtc (serving handler) ((cache_new opts, t0), []) (s, qs) ->
  (length (view s.1) <= size opts)%nat
  /\ forall req tr resp, Query req tr (IoRet (Ok resp)) ∈ qs ->
       handler_rel req resp
       \/ exists now req' tr' stored resp' key key' t,
            tr = [Event InstantNow now]
            /\ Query req' (tr' ++ [Event InstantNow stored]) (IoRet (Ok resp')) ∈ qs /\ handler_rel req' resp'
            /\ cache_key req = Some key /\ cache_key req' = Some key' /\ key_eqb key key' = true
            /\ storage_time (C := C) opts resp' = Some t /\ Z.max 0 (now - stored) < t
            /\ resp = rewrite_ttls (as_u32 (as_secs (t - Z.max 0 (now - stored)))) (set_id resp' (msg_id req)).
Proof.
  intros Hh Ht Hrun.
  assert (forall c c', rtc (serving handler) c c' -> pool_ok opts handler_rel J c -> pool_ok opts handler_rel J c') as Hpool.
  { induction 1 as [|c1 c2 c3 Hstep _ IH]; [done|]. intros Hc. apply IH. by eapply pool_ok_step. }
  destruct (Hpool _ _ Hrun) as ((_ & _ & _ & Hlen & _) & _ & Hall).
  { split; [apply cache_holds_new|]. split; [done|constructor]. }
  split; [exact Hlen|]. intros req tr resp Hin.
  pose proof (proj1 (list.Forall_forall _ _) Hall _ Hin) as Hq.
  destruct (Hq resp eq_refl) as [?|(now & req' & tr' & stored & resp' & key & key' & t & ? & [? _] & ?)]; [by left|right].
  by exists now, req', tr', stored, resp', key, key', t.
Qed.
End Properties.

(** ** Witness: a query, and then the same one in capitals, 100 s later *)
Section Witnesses.
#[local] Existing Instances Toy.lib Toy.codec.
#[local] Instance pool_lru : Lru CacheKey CacheEntry (ListLru.t CacheKey CacheEntry) := ListLru.lru key_eqb.
#[local] Instance pool_laws : LruLaws key_eqb := ListLru.laws key_eqb.
Notation lru := (ListLru.t CacheKey CacheEntry).

Definition w_handler (req : Message) : io unit (res Message DohError) :=
  IoRet (Ok (Toy.reply req 300)).
Definition w_hit : Message := rewrite_ttls 200 (set_id w_resp 8).
Definition w_queries : list (query (C := lru) (T := unit)) :=
  [Query w_req ([Event InstantNow 4] ++ [Event InstantNow (from_secs 5)]) (IoRet (Ok w_resp));
   Query w_req' [Event InstantNow (from_secs 105)] (IoRet (Ok w_hit))].

Lemma concurrent_cache_provenance_witness :
  let s := ((get (insert w_cache (w_key w_req) w_resp (from_secs 5)) (w_key w_req') 8 (from_secs 105)).2, tt) in
  (length (view s.1) <= 2)%nat
  /\ (w_hit = Toy.reply w_req' 300
      \/ exists now stored, Event InstantNow (from_secs 105) = Event InstantNow now
           /\ Z.max 0 (now - stored) < from_secs 300).
Proof.
  destruct (concurrent_cache_provenance (C := lru) w_opts w_handler (fun req resp => resp = Toy.reply req 300)
    (fun _ => True) tt
    ((get (insert w_cache (w_key w_req) w_resp (from_secs 5)) (w_key w_req') 8 (from_secs 105)).2, tt) w_queries)
    as [Hlen Hall].
  - intros req resp [= <-]. reflexivity.
  - exact I.
  - eapply rtc_l; [apply (query_arrives _ _ _ w_req)|].
    eapply rtc_l; [eapply (query_calls _ _ _ 0%nat _ _ _ InstantNow _ 4); [reflexivity|simpl; lia]|].
    eapply rtc_l; [eapply (query_steps _ _ _ 0%nat); reflexivity|].
    eapply rtc_l; [eapply (query_calls _ _ _ 0%nat _ _ _ InstantNow _ (from_secs 5)); [reflexivity|vm_compute; discriminate]|].
    eapply rtc_l; [eapply (query_steps _ _ _ 0%nat); reflexivity|].
    eapply rtc_l; [apply (query_arrives _ _ _ w_req')|].
    eapply rtc_l; [eapply (query_calls _ _ _ 1%nat _ _ _ InstantNow _ (from_secs 105)); [reflexivity|vm_compute; discriminate]|].
    eapply rtc_l; [eapply (query_steps _ _ _ 1%nat); reflexivity|].
    apply rtc_refl.
  - split; [exact Hlen|].
    destruct (Hall w_req' [Event InstantNow (from_secs 105)] w_hit) as [H|H]; [right; left|left; exact H|right].
    destruct H as (now & req' & tr' & stored & resp' & key & key' & t & Htr & _ & -> & _ & _ & _ & Ht & Hlt & _).
    exists now, stored. split; [congruence|]. 
    assert (t = from_secs 300) as <-; [|exact Hlt].
    revert Ht. vm_compute. congruence.
Defined.
End Witnesses.
