(* ===== verification/Latency.v ===== *)
(** * Latency averages

    [LatencyTracker] of [src/client/upstream.rs]: the exponential moving
    average of an upstream's exchange times, kept in an [AtomicU64] and updated
    in [f64] arithmetic. A non-negative [f64] is an integer times a power of
    two, and every operation is the exact result rounded to 53 significant bits,
    ties to even; all values of [record] lie far inside the exponent range, so
    neither overflow nor subnormal numbers occur. *)
From Stdlib Require Import Lia.
From S2P Require Import Prelude.

(** ** Non-negative binary64 numbers *)
Record f64 := F64 { mant : Z; expo : Z }.

(** Round an integer to 53 significant bits: [d] low bits go, ties to even. *)
Definition excess (m : Z) : Z := Z.max 0 (Z.log2 m - 52).
Definition rne (m : Z) : Z :=
  let d := excess m in
  let q := m / 2 ^ d in
  let r := m mod 2 ^ d in
  if (2 ^ d <? 2 * r) || ((2 ^ d =? 2 * r) && Z.odd q) then (q + 1) * 2 ^ d else q * 2 ^ d.
Definition rounded (m e : Z) : f64 := F64 (rne m) e.

Definition u64_as_f64 (n : Z) : f64 := rounded n 0.
Definition f_mul (x y : f64) : f64 := rounded (mant x * mant y) (expo x + expo y).
(** Both operands brought to the lower exponent. *)
Definition aligned (e : Z) (x : f64) : Z := mant x * 2 ^ (expo x - e).
Definition f_add (x y : f64) : f64 :=
  let e := Z.min (expo x) (expo y) in rounded (aligned e x + aligned e y) e.
Definition f_sub (x y : f64) : f64 :=
  let e := Z.min (expo x) (expo y) in rounded (aligned e x - aligned e y) e.
(** [f64::round]: half away from zero. *)
Definition f_round (x : f64) : Z :=
  if 0 <=? expo x then mant x * 2 ^ expo x
  else (mant x + 2 ^ (- expo x - 1)) / 2 ^ (- expo x).
(** [as u64] saturates. *)
Definition as_u64_sat (z : Z) : Z := Z.min z u64_max.

(** The literals [0.3] (the nearest [f64]) and [1.0]. *)
Definition EMA_ALPHA : f64 := F64 5404319552844595 (-54).
Definition f_one : f64 := F64 1 0.

(** ** The tracker *)
Record LatencyTracker := { avg_micros : Z }.
Definition latency_new : LatencyTracker := {| avg_micros := u64_max |}.
(** The derived [Default]. *)
Definition latency_default : LatencyTracker := {| avg_micros := 0 |}.

Definition as_micros (elapsed : Z) : Z := elapsed / 1000.
Definition ema (prev sample : Z) : Z :=
  as_u64_sat (f_round (f_add (f_mul EMA_ALPHA (u64_as_f64 sample))
                             (f_mul (f_sub f_one EMA_ALPHA) (u64_as_f64 prev)))).
(** [elapsed] in nanoseconds; the [fetch_update] is one atomic step. *)
Definition record (t : LatencyTracker) (elapsed : Z) : LatencyTracker :=
  let sample := Z.min (as_micros elapsed) u64_max in
  {| avg_micros := if avg_micros t =? u64_max then sample else ema (avg_micros t) sample |}.

(** The average as a duration in nanoseconds. *)
Definition average (t : LatencyTracker) : option Z :=
  if avg_micros t =? u64_max then None else Some (avg_micros t * 1000).

(** ** Rounding lemmas *)
Lemma excess_nonneg m : 0 <= excess m.
Proof. unfold excess. lia. Qed.

Lemma pow2_excess m : 0 < m -> 2 ^ excess m = 1 \/ 2 ^ 52 * 2 ^ excess m <= m.
Proof.
  intros Hm. unfold excess. destruct (Z.max_spec 0 (Z.log2 m - 52)) as [[Hl ->]|[Hl ->]].
  - right. rewrite <- Z.pow_add_r by lia. replace (52 + (Z.log2 m - 52)) with (Z.log2 m) by lia.
    apply Z.log2_spec. done.
  - left. done.
Qed.

(** Rounding is within half a unit in the last place. *)
Lemma rne_half_ulp m : 0 <= m -> 2 * Z.abs (rne m - m) <= 2 ^ excess m.
Proof.
  intros Hm. unfold rne. pose proof (excess_nonneg m).
  assert (0 < 2 ^ excess m) by (apply Z.pow_pos_nonneg; lia).
  pose proof (Z.div_mod m (2 ^ excess m) ltac:(lia)).
  pose proof (Z.mod_pos_bound m (2 ^ excess m) ltac:(lia)).
  destruct (Z.ltb_spec (2 ^ excess m) (2 * (m mod 2 ^ excess m))); simpl; [nia|].
  destruct (Z.eqb_spec (2 ^ excess m) (2 * (m mod 2 ^ excess m))); simpl; [|nia].
  destruct (Z.odd _); nia.
Qed.

Lemma rne_exact m : 0 <= m < 2 ^ 53 -> rne m = m.
Proof.
  intros Hm. unfold rne. assert (excess m = 0) as ->.
  { unfold excess. destruct (Z.eq_dec m 0) as [->|]; [done|].
    assert (Z.log2 m < 53) by (apply Z.log2_lt_pow2; lia). lia. }
  rewrite Z.pow_0_r, Z.div_1_r, Z.mod_1_r. simpl. lia.
Qed.

(** Relative error [2^-53], as an inequality of integers. *)
Lemma rne_error m : 0 <= m -> 2 ^ 53 * Z.abs (rne m - m) <= m.
Proof.
  intros Hm. destruct (Z.lt_ge_cases m (2 ^ 53)) as [Hlt|Hge].
  - rewrite rne_exact by lia. lia.
  - pose proof (rne_half_ulp m Hm). destruct (pow2_excess m ltac:(lia)) as [E|E]; [|lia].
    rewrite E in *. assert (Z.abs (rne m - m) = 0) as -> by lia. lia.
Qed.

Lemma rne_nonneg m : 0 <= m -> 0 <= rne m.
Proof. intros Hm. pose proof (rne_error m Hm). lia. Qed.

(** The constant the program computes for [1.0 - EMA_ALPHA]. *)
Lemma one_minus_alpha : f_sub f_one EMA_ALPHA = F64 12610078956637388 (-54).
Proof. vm_refl. Qed.

(** The three roundings of [ema] together. *)
Lemma ema_error prev sample :
  0 <= prev <= 2 ^ 44 -> 0 <= sample <= 2 ^ 44 ->
  let v := rne (rne (5404319552844595 * sample) + rne (12610078956637388 * prev)) in
  0 <= v /\ 20 * Z.abs (10 * v - 2 ^ 54 * (3 * sample + 7 * prev)) <= 2 ^ 54.
Proof.
  intros Hp Hs v.
  pose proof (rne_error (5404319552844595 * sample) ltac:(lia)) as E1.
  pose proof (rne_error (12610078956637388 * prev) ltac:(lia)) as E2.
  pose proof (rne_nonneg (5404319552844595 * sample) ltac:(lia)) as N1.
  pose proof (rne_nonneg (12610078956637388 * prev) ltac:(lia)) as N2.
  set (a := rne (5404319552844595 * sample)) in *.
  set (b := rne (12610078956637388 * prev)) in *.
  pose proof (rne_error (a + b) ltac:(lia)) as E3.
  pose proof (rne_nonneg (a + b) ltac:(lia)) as N3. fold v in E3, N3.
  split; lia.
Qed.

Lemma ema_value prev sample :
  0 <= prev <= 2 ^ 44 -> 0 <= sample <= 2 ^ 44 ->
  10 * Z.abs (10 * ema prev sample - (3 * sample + 7 * prev)) <= 51.
Proof.
  intros Hp Hs. destruct (ema_error prev sample Hp Hs) as [Hn He].
  unfold ema, u64_as_f64, rounded. rewrite one_minus_alpha.
  rewrite (rne_exact prev), (rne_exact sample) by lia.
  unfold f_mul, f_add, rounded, aligned, EMA_ALPHA. cbn [mant expo].
  change (Z.min (-54 + 0) (-54 + 0)) with (-54).
  change (-54 + 0 - -54) with 0. rewrite Z.pow_0_r, !Z.mul_1_r.
  set (v := rne _) in *. unfold f_round. cbn [mant expo].
  change (0 <=? -54) with false. change (- -54 - 1) with 53. change (- -54) with 54.
  cbv iota.
  pose proof (Z.div_mod (v + 2 ^ 53) (2 ^ 54) ltac:(lia)).
  pose proof (Z.mod_pos_bound (v + 2 ^ 53) (2 ^ 54) ltac:(lia)).
  set (q := (v + 2 ^ 53) / 2 ^ 54) in *. unfold as_u64_sat, u64_max.
  assert (q <= 2 ^ 64 - 1) by lia. rewrite Z.min_l by lia. lia.
Qed.

Section Properties.
(** C31: for averages and samples up to 2^44 microseconds (over 200 days) the
    floating-point update is exact to the last digit: the new average is
    [0.3 * sample + 0.7 * prev] rounded to a nearest microsecond, so it lies
    between the two, the tracker counts as tested from then on, and the
    first sample is taken as it is. *)
Theorem record_spec (t : LatencyTracker) elapsed :
  0 <= as_micros elapsed <= 2 ^ 44 ->
  let sample := as_micros elapsed in
  (average t = None -> average (record t elapsed) = Some (sample * 1000))
  /\ (0 <= avg_micros t <= 2 ^ 44 ->
      exists avg, average (record t elapsed) = Some (avg * 1000)
      /\ 10 * avg - 5 <= 3 * sample + 7 * avg_micros t <= 10 * avg + 5
      /\ Z.min sample (avg_micros t) <= avg <= Z.max sample (avg_micros t)).
Proof.
  intros Hs sample. subst sample. unfold average, record.
  rewrite (Z.min_l (as_micros elapsed)) by (unfold u64_max; lia).
  split.
  - destruct (Z.eqb_spec (avg_micros t) u64_max); [|done]. intros _. simpl.
    destruct (Z.eqb_spec (as_micros elapsed) u64_max); [unfold u64_max in *; lia|done].
  - intros Hp. pose proof (ema_value _ _ Hp Hs) as He.
    destruct (Z.eqb_spec (avg_micros t) u64_max); [unfold u64_max in *; lia|]. cbn [avg_micros].
    set (avg := ema _ _) in *. exists avg.
    destruct (Z.eqb_spec avg u64_max); [unfold u64_max in *; lia|].
    split; [done|]. lia.
Qed.

Lemma record_spec_witness :
  let t := record latency_new 40000000 in
  average (record t 20000000) = Some 34000000.
Proof.
  intros t.
  destruct (proj2 (record_spec t 20000000 ltac:(vm_compute; split; discriminate))
              ltac:(vm_compute; split; discriminate)) as (avg & Ha & H1 & _).
  rewrite Ha. change (avg_micros t) with 40000 in H1.
  change (as_micros 20000000) with 20000 in H1. f_equal. lia.
Defined.
End Properties.
