(* ===== verification/Bootstrap.v ===== *)
(** * Bootstrap resolution and dialing

    [src/client/bootstrap.rs]: the resolvers that turn an upstream's host name
    into addresses, and the dialer that connects to the addresses in order. The
    [Resolver] trait object is a function into the effect monad; the DoH
    resolver takes the exchange of the upstream it wraps. *)
From S2P Require Import Prelude RustStr RustNet Io Dns Errors.

Implicit Type P : forall X, eff X -> Prop.

Inductive Network := Tcp | Udp.
#[export] Instance Network_eq_dec : EqDecision Network.
Proof. solve_decision. Defined.

Inductive Conn :=
| ConnTcp (s : handle)
| ConnUdp (s : handle) (a : SocketAddr).

Definition Resolver (S : Type) : Type := string -> io S (res (list IpAddr) DohError).
Definition DialHandler (S : Type) : Type := Network -> io S (res Conn DohError).

Definition local_for (addr : SocketAddr) : string :=
  if sock_is_ipv4 addr then "0.0.0.0:0" else "[::]:0".

(** ** Resolvers *)
Section Resolvers.
Context {S : Type}.

Definition SystemResolver : Resolver S := fun host => io_map_err Bootstrap (call (Getaddrinfo host)).

Definition StaticResolver (addrs : list IpAddr) : Resolver S := fun _ => IoRet (Ok addrs).

(** The end of both [lookup]s: the addresses of the two answers in order, or
    the later error when there are none. *)
Definition merge_lookups (a aaaa : res (list IpAddr) DohError) : res (list IpAddr) DohError :=
  match a, aaaa with
  | Panic, _ | _, Panic => Panic
  | _, _ =>
      let ips := default [] (res_ok a) ++ default [] (res_ok aaaa) in
      let last_err := match aaaa, a with
                      | Err e, _ => Some e | _, Err e => Some e | _, _ => None
                      end in
      match ips, last_err with
      | [], Some e => Err e
      | _, _ => Ok ips
      end
  end.

Context `{HL : DnsLib} {HC : DnsCodec}.

(** The query message both [query]s build. *)
Definition bootstrap_query (id : Z) (name : Name) (qtype : RecordType) : Message :=
  add_query (set_recursion_desired (Message_new id Query_ OpCode_Query) true)
    (Query_query name qtype).
Definition answer_ips (resp : Message) : list IpAddr :=
  omap (fun rec => rdata_ip_addr (record_data rec)) (answers resp).

Record PlainResolver := { pr_addr : SocketAddr; pr_timeout : option Z }.

Definition plain_resolver_query (r : PlainResolver) (host : string) (qtype : RecordType)
  : io S (res (list IpAddr) DohError) :=
  try* name := IoRet (from_sum Bootstrap (Name_from_ascii host)) in
  let* id := call RandomU16 in
  let msg := bootstrap_query id name qtype in
  try* req_bytes := IoRet (from_sum Bootstrap (to_bytes msg)) in
  let fut :=
    try* sock := io_map_err Bootstrap (call (UdpBind (local_for (pr_addr r)))) in
    try* _ := io_map_err Bootstrap (call (UdpConnect sock (pr_addr r))) in
    try* _ := io_map_err Bootstrap (call (UdpSend sock req_bytes)) in
    try* buf := io_map_err Bootstrap (call (UdpRecv sock 4096)) in
    try* resp := IoRet (from_sum Bootstrap (from_bytes buf)) in
    IoRet (Ok (answer_ips resp)) in
  maybe_timeout (pr_timeout r)
    (fun _ => Bootstrap ("resolving " +:+ host +:+ " via "
                         +:+ show_socket_addr (pr_addr r) +:+ ": timed out")) fut.

Definition plain_resolver_lookup (r : PlainResolver) : Resolver S := fun host =>
  let* (a, aaaa) := io_join (plain_resolver_query r host RT_A)
                            (plain_resolver_query r host RT_AAAA) in
  IoRet (merge_lookups a aaaa).

(** [DohResolver] over the [exchange] of its upstream. *)
Definition doh_resolver_query (exchange : Message -> io S (res Message DohError))
    (host : string) (qtype : RecordType) : io S (res (list IpAddr) DohError) :=
  try* name := IoRet (from_sum Bootstrap (Name_from_ascii host)) in
  let* id := call RandomU16 in
  let msg := bootstrap_query id name qtype in
  try* resp := exchange msg in
  IoRet (Ok (answer_ips resp)).

Definition doh_resolver_lookup (exchange : Message -> io S (res Message DohError))
  : Resolver S := fun host =>
  let* (a, aaaa) := io_join (doh_resolver_query exchange host RT_A)
                            (doh_resolver_query exchange host RT_AAAA) in
  IoRet (merge_lookups a aaaa).

(** [debug_errs] is the derived [Debug] output of the error list. A resolver
    that finds addresses decides; one that fails adds its error. *)
Definition ParallelResolver (debug_errs : list DohError -> string)
    (resolvers : list (Resolver S)) : Resolver S := fun host =>
  match resolvers with
  | [] => IoRet (Err (Bootstrap "no resolvers configured"))
  | _ =>
      let attempt (r : Resolver S)
          : io (S * list DohError) (option (res (list IpAddr) DohError)) :=
        let* result := lift_fst (r host) in
        match result with
        | Ok (ip :: ips) => IoRet (Some (Ok (ip :: ips)))
        | Ok [] => IoRet None
        | Err e => let* _ := atomically (fun s => (tt, (s.1, s.2 ++ [e]))) in IoRet None
        | Panic => IoRet (Some Panic)
        end in
      let* (found, errs) := with_local [] (io_first_of (attempt <$> resolvers)) in
      IoRet (match found with
             | Some r => r
             | None => Err (Bootstrap ("all resolvers failed: " +:+ debug_errs errs))
             end)
  end.
End Resolvers.

(** ** Dialing *)
Section Dial.
Context {S : Type}.

Definition dial_one (addr : SocketAddr) (network : Network) (timeout : option Z)
  : io S (res Conn DohError) :=
  let fut :=
    match network with
    | Tcp =>
        try* s := io_map_err Bootstrap (call (TcpConnect addr)) in IoRet (Ok (ConnTcp s))
    | Udp =>
        try* sock := io_map_err Bootstrap (call (UdpBind (local_for addr))) in
        try* _ := io_map_err Bootstrap (call (UdpConnect sock addr)) in
        IoRet (Ok (ConnUdp sock addr))
    end in
  maybe_timeout timeout
    (fun _ => Bootstrap ("dialing " +:+ show_socket_addr addr +:+ ": timed out")) fut.

Fixpoint dial_loop (timeout : option Z) (network : Network) (addrs : list SocketAddr)
    (last_err : option DohError) : io S (res Conn DohError) :=
  match addrs with
  | [] => IoRet (Err (default (Bootstrap "no addresses") last_err))
  | addr :: rest =>
      let* attempt := dial_one addr network timeout in
      match attempt with
      | Ok conn => IoRet (Ok conn)
      | Err e => dial_loop timeout network rest (Some e)
      | Panic => IoRet Panic
      end
  end.

Definition new_dial_context (timeout : option Z) (addrs : list SocketAddr) : DialHandler S :=
  fun network =>
    match addrs with
    | [] => IoRet (Err (Bootstrap "no addresses to dial"))
    | _ => dial_loop timeout network addrs None
    end.

Definition prefer_key (prefer_v6 : bool) (ip : IpAddr) : Z :=
  Z.b2z (if prefer_v6 then negb (is_ipv6 ip) else is_ipv6 ip).

Definition resolve_addrs (host : string) (port : Z) (timeout : option Z)
    (resolver : Resolver S) (prefer_v6 : bool) : io S (res (list SocketAddr) DohError) :=
  try* ips :=
    match parse_ip_addr host with
    | Some ip => IoRet (Ok [ip])
    | None =>
        maybe_timeout timeout (fun _ => Bootstrap ("resolving " +:+ host +:+ ": timed out"))
          (resolver host)
    end in
  match ips with
  | [] => IoRet (Err (Bootstrap ("no addresses for " +:+ host)))
  | _ =>
      IoRet (Ok ((fun ip => socket_addr_new ip port) <$> sort_by_key (prefer_key prefer_v6) ips))
  end.

Definition resolve_dial_context (host : string) (port : Z) (timeout : option Z)
    (resolver : Resolver S) (prefer_v6 : bool) : io S (res (DialHandler S) DohError) :=
  try* addrs := resolve_addrs host port timeout resolver prefer_v6 in
  IoRet (Ok (new_dial_context timeout addrs)).
End Dial.

(** ** Resolving *)
Lemma sorted_fmap_key {A B} (f : A -> B) (key : B -> Z) (l : list A) :
  sorted_by (fun a => key (f a)) l -> sorted_by key (f <$> l).
Proof.
  induction 1 as [|a l Hs IH Hall]; simpl; constructor; [done|].
  by apply Forall_fmap.
Qed.

Lemma sorted_by_ext {A} (key key' : A -> Z) l :
  (forall a, key a = key' a) -> sorted_by key l -> sorted_by key' l.
Proof.
  intros Hk. induction 1 as [|a l Hs IH Hall]; constructor; [done|].
  eapply Forall_impl; [|exact Hall]. intros b. by rewrite !Hk.
Qed.

Lemma fmap_sock_ip port (ips : list IpAddr) :
  sock_ip <$> ((fun ip => socket_addr_new ip port) <$> ips) = ips.
Proof.
  induction ips as [|ip ips IH]; [done|]. cbn [fmap list_fmap]. rewrite sock_ip_new. by f_equal.
Qed.

(** What [resolve_addrs] makes of a lookup's addresses. *)
Definition resolved (port : Z) (prefer_v6 : bool) (ips : list IpAddr) (addrs : list SocketAddr)
  : Prop :=
  addrs <> [] /\ Forall (fun a => sock_port a = port) addrs
  /\ sock_ip <$> addrs ≡ₚ ips
  /\ sorted_by (fun a => prefer_key prefer_v6 (sock_ip a)) addrs
  /\ forall k, filter (fun ip => prefer_key prefer_v6 ip = k) (sock_ip <$> addrs)
             = filter (fun ip => prefer_key prefer_v6 ip = k) ips.

Lemma resolved_sort port prefer_v6 ips :
  ips <> [] ->
  resolved port prefer_v6 ips
    ((fun ip => socket_addr_new ip port) <$> sort_by_key (prefer_key prefer_v6) ips).
Proof.
  intros Hne. set (key := prefer_key prefer_v6). split_and!.
  - intros Hnil%fmap_nil_inv. apply Hne, Permutation_nil.
    rewrite <- Hnil. apply sort_by_key_perm.
  - apply Forall_fmap, Forall_true. intros ip. apply sock_port_new.
  - rewrite fmap_sock_ip. apply sort_by_key_perm.
  - apply sorted_fmap_key.
    eapply sorted_by_ext; [|apply sort_by_key_sorted].
    intros ip. by rewrite sock_ip_new.
  - intros k. rewrite fmap_sock_ip. apply sort_by_key_stable.
Qed.

Lemma resolve_addrs_safe {S} P (I : S -> Prop) host port timeout (resolver : Resolver S) v6
    (R : res (list IpAddr) DohError -> Prop) :
  P _ InstantNow -> (forall e, R (Err e)) -> (parse_ip_addr host = None -> safe P I (resolver host) R) ->
  safe P I (resolve_addrs host port timeout resolver v6)
    (fun r => match r with
              | Ok addrs =>
                  exists ips, resolved port v6 ips addrs
                  /\ match parse_ip_addr host with Some ip => ips = [ip] | None => R (Ok ips) end
              | Err _ => True
              | Panic => R Panic
              end).
Proof.
  intros HP HE Hr. unfold resolve_addrs.
  eapply (safe_try _ _ _ _ (fun r => match parse_ip_addr host with
                                     | Some ip => r = Ok [ip] | None => R r end)).
  - destruct (parse_ip_addr host); [done|]. apply safe_maybe_timeout; auto.
  - intros ips Hips. destruct ips as [|ip ips]; [done|].
    exists (ip :: ips). split; [by apply resolved_sort|].
    destruct (parse_ip_addr host); [congruence|done].
  - done.
  - by destruct (parse_ip_addr host).
Qed.

(** ** Dialing in order *)




(** ** Properties *)
Section Properties.
Context {S : Type}.

(** Resolving a host name yields every address of the lookup (or just the
    literal IP), each on the requested port, the preferred family first and
    in lookup order within a family; it never succeeds with no address and
    never unwinds unless the lookup does. *)
Theorem resolve_addrs_spec (I : S -> Prop) host port timeout (resolver : Resolver S) v6
    (R : res (list IpAddr) DohError -> Prop) :
  (forall e, R (Err e)) -> (parse_ip_addr host = None -> safe any_call I (resolver host) R) ->
  safe any_call I (resolve_addrs host port timeout resolver v6)
    (fun r => match r with
              | Ok addrs =>
                  exists ips, resolved port v6 ips addrs
                  /\ match parse_ip_addr host with Some ip => ips = [ip] | None => R (Ok ips) end
              | Err _ => True
              | Panic => R Panic
              end).
Proof. by apply resolve_addrs_safe. Qed.


Lemma parallel_lookup_safe P debug_errs (I : S -> Prop) (resolvers : list (Resolver S)) host
    (R : Resolver S -> res (list IpAddr) DohError -> Prop) :
  quiet P -> Forall (fun r => safe P I (r host) (R r)) resolvers ->
  safe P I (ParallelResolver debug_errs resolvers host)
    (fun out => match out with
                | Ok ips => ips <> [] /\ exists r, r ∈ resolvers /\ R r (Ok ips)
                | Err _ => Forall (fun r => R r (Ok []) \/ exists e, R r (Err e)) resolvers
                | Panic => exists r, r ∈ resolvers /\ R r Panic
                end).
Proof.
  intros HP Hall. unfold ParallelResolver. destruct resolvers as [|r0 rs]; [constructor|].
  set (resolvers := r0 :: rs) in *. eapply safe_bind.
  - apply (safe_with_local _ I (fun _ => True)); [done|].
    apply (safe_first_of _ _ _ (fun r out =>
             match out with
             | Some (Ok ips) => ips <> [] /\ R r (Ok ips)
             | Some Panic => R r Panic
             | Some (Err _) => False
             | None => R r (Ok []) \/ exists e, R r (Err e)
             end) resolvers); [by apply HP|].
    apply Forall2_fmap_l, Forall_Forall2_diag. eapply Forall_impl; [|exact Hall].
    intros r Hr. simpl. eapply safe_bind; [by apply (safe_lift_fst _ I (fun _ => True)), Hr|].
    intros [[|ip ips]|e|] Hx; [by left|done| |done].
    intros s' Hs'. simpl. split; [done|]. by eauto.
  - intros [[[ips|e|]|] errs] [H _]; simpl in *.
    + destruct H as (r & ? & ? & ?). eauto.
    + by destruct H as (r & ? & ?).
    + destruct H as (r & ? & ?). eauto.
    + done.
Qed.
(** Querying several resolvers concurrently returns a non-empty address
    list that one of them answered, whatever the order they finish in, and
    fails only when every one of them failed or found nothing. *)
Theorem parallel_lookup_spec debug_errs (I : S -> Prop) (resolvers : list (Resolver S)) host
    (R : Resolver S -> res (list IpAddr) DohError -> Prop) :
  Forall (fun r => safe any_call I (r host) (R r)) resolvers ->
  safe any_call I (ParallelResolver debug_errs resolvers host)
    (fun out => match out with
                | Ok ips => ips <> [] /\ exists r, r ∈ resolvers /\ R r (Ok ips)
                | Err _ => Forall (fun r => R r (Ok []) \/ exists e, R r (Err e)) resolvers
                | Panic => exists r, r ∈ resolvers /\ R r Panic
                end).
Proof. by apply parallel_lookup_safe. Qed.
End Properties.

(** ** Witnesses *)
Section Witnesses.
Definition w_v4 : IpAddr := V4 (Ipv4 x01 x01 x01 x01).
Definition w_v6 : IpAddr := V6 (Ipv6 [8193; 18528; 18528; 0; 0; 0; 0; 34952]).
Definition w_lookup (r : res (list IpAddr) DohError) : Prop :=
  r = Ok [w_v6; w_v4] \/ exists e, r = Err e.

Lemma resolve_addrs_spec_witness :
  safe any_call (fun _ : unit => True)
    (resolve_addrs "dns.example" 53 None (StaticResolver [w_v6; w_v4]) false)
    (fun r => match r with
              | Ok addrs =>
                  exists ips, resolved 53 false ips addrs
                  /\ match parse_ip_addr "dns.example" with
                     | Some ip => ips = [ip] | None => w_lookup (Ok ips) end
              | Err _ => True
              | Panic => w_lookup Panic
              end).
Proof.
  apply (resolve_addrs_spec (fun _ => True) "dns.example" 53 None
           (StaticResolver [w_v6; w_v4]) false w_lookup); [right; eauto|by left].
Defined.


Definition w_empty : Resolver unit := StaticResolver [].
Definition w_full : Resolver unit := StaticResolver [w_v4].
Lemma parallel_lookup_spec_witness :
  let R := fun (r : Resolver unit) (out : res (list IpAddr) DohError) => out = Ok [] \/ out = Ok [w_v4] in
  safe any_call (fun _ => True) (ParallelResolver (fun _ => "") [w_empty; w_full] "dns.example")
    (fun out => match out with
                | Ok ips => ips <> [] /\ exists r, r ∈ [w_empty; w_full] /\ R r (Ok ips)
                | Err _ => Forall (fun r => R r (Ok []) \/ exists e, R r (Err e)) [w_empty; w_full]
                | Panic => exists r, r ∈ [w_empty; w_full] /\ R r Panic
                end).
Proof.
  intros R. apply (parallel_lookup_spec (fun _ => "") (fun _ => True) [w_empty; w_full]
                     "dns.example" R).
  repeat first [apply List.Forall_cons | apply List.Forall_nil]; [by left|by right].
Defined.
End Witnesses.
