(* ===== verification/Framing.v ===== *)
(** * What the client transports share

    The two-byte length framing of DNS over a stream (RFC 1035 section 4.2.2),
    the final check every transport makes on what came back, and the contract
    every transport's [exchange] meets. *)
From S2P Require Import Prelude RustStr RustNet Io Dns Errors WebLib Wire Bootstrap.
Implicit Type P : forall X, eff X -> Prop.

(** [write_all(&len).await?; write_all(&req_bytes).await?] under the error
    conversion [f]. *)
Definition write_framed {S E} (f : io_err -> E) (h : handle) (b : bytes) : io S (res unit E) :=
  try* _ := io_map_err f (call (WriteAll h (to_be 2 (as_u16 (Z.of_nat (length b)))))) in
  io_map_err f (call (WriteAll h b)).

(** [read_exact(&mut len_buf).await?; read_exact(&mut resp_buf).await?]. *)
Definition read_framed {S E} (f : io_err -> E) (h : handle) : io S (res bytes E) :=
  try* len_buf := io_map_err f (call (ReadExact h 2)) in
  let resp_len := Z.to_nat (from_be len_buf) in
  io_map_err f (call (ReadExact h resp_len)).

(** A message with its length in front. *)
Definition frame (b : bytes) : bytes := to_be 2 (Z.of_nat (length b)) ++ b.

Definition MAX_MSG_SIZE : nat := Z.to_nat 65535.
#[global] Opaque MAX_MSG_SIZE.
Lemma MAX_MSG_SIZE_eq : Z.of_nat MAX_MSG_SIZE = u16_max.
Proof. rewrite <- (Z2Nat.id u16_max) by done. reflexivity. Qed.

(** A message longer than the length prefix can say. *)
Definition too_large (b : bytes) : bool := u16_max <? Z.of_nat (length b).

Section Framing.
Context `{HL : DnsLib} {HC : DnsCodec}.

(** [Message::from_bytes(..).map_err(..)?], [validate_response(req, &resp)?]. *)
Definition check_response (body : bytes) (req : Message) : res Message DohError :=
  let? resp := from_sum (invalid "unpacking response: ") (from_bytes body) in
  let? _ := validate_response req resp in
  Ok resp.

(** What every transport guarantees about its outcome: a response answers
    the question asked, and the one way to unwind is a request without a
    question. *)
Definition exchange_ok (req : Message) (r : res Message DohError) : Prop :=
  match r with
  | Ok resp => answers_question req resp
  | Err _ => True
  | Panic => queries req = []
  end.
Definition exchange_contract {S} P (I : S -> Prop)
    (exchange : Message -> io S (res Message DohError)) : Prop :=
  forall req, safe P I (exchange req) (exchange_ok req).
(** The lookup of [host], which only a host that is not an address needs. *)
Definition resolver_ok {S} P (I : S -> Prop) (host : string) (r : Resolver S) : Prop :=
  parse_ip_addr host = None -> safe P I (r host) (fun out => out <> Panic).

Lemma validate_response_ok req resp :
  match validate_response req resp with
  | Ok _ => answers_question req resp
  | Err _ => True
  | Panic => queries req = []
  end.
Proof.
  pose proof (validate_response_Ok req resp) as Hv.
  destruct (validate_response req resp) as [[]|e|] eqn:E; [by apply Hv|done|].
  unfold validate_response in E. repeat case_match; done.
Qed.

Lemma check_response_ok body req : exchange_ok req (check_response body req).
Proof.
  unfold check_response. destruct (from_bytes body) as [e|resp]; simpl; [done|].
  pose proof (validate_response_ok req resp) as Hv.
  by destruct (validate_response req resp) as [[]| |].
Qed.

Lemma decode_response_exchange_ok body req oid :
  exchange_ok req (decode_response body req oid).
Proof.
  unfold decode_response. destruct (from_bytes body) as [e|resp]; simpl; [done|].
  destruct (negb _); simpl; [done|].
  pose proof (validate_response_ok req (set_id resp oid)) as Hv.
  by destruct (validate_response req (set_id resp oid)) as [[]| |].
Qed.

Lemma encode_request_not_panic `{HB : Base64} req : encode_request req <> Panic.
Proof. unfold encode_request. by destruct (to_bytes _). Qed.
End Framing.

(** Pure steps of a [?] chain. *)
Lemma safe_try_pure {S A B E} P (I : S -> Prop) (r : res A E) (k : A -> io S (res B E))
    (Q : res B E -> Prop) :
  r <> Panic -> (forall a, r = Ok a -> safe P I (k a) Q) -> (forall e, Q (Err e)) ->
  safe P I (io_try (IoRet r) k) Q.
Proof. unfold io_try. simpl. destruct r; simpl; auto. done. Qed.

(** What [write_framed] puts on the wire for the message [m]. *)
Definition frames_ok `{DnsCodec} P (m : Message) : Prop :=
  forall h b, to_bytes m = inr b -> Z.of_nat (length b) <= u16_max ->
    P _ (WriteAll h (to_be 2 (Z.of_nat (length b)))) /\ P _ (WriteAll h b).

Lemma too_large_false b :
  too_large b = false -> Z.of_nat (length b) <= u16_max /\ as_u16 (Z.of_nat (length b)) = Z.of_nat (length b).
Proof.
  unfold too_large, as_u16, u16_max. intros Hb. split; [lia|]. apply Z.mod_small. lia.
Qed.

Lemma safe_try_write_framed {S E B} P (I : S -> Prop) (f : io_err -> E) h b
    (k : unit -> io S (res B E)) Q :
  P _ (WriteAll h (to_be 2 (Z.of_nat (length b)))) -> P _ (WriteAll h b) -> too_large b = false ->
  safe P I (k tt) Q -> (forall x, Q (Err (f x))) ->
  safe P I (io_try (write_framed f h b) k) Q.
Proof.
  intros H1 H2 [Hl Hmod]%too_large_false Hk HE.
  eapply (safe_try _ _ _ _ (fun r => match r with
      | Ok _ => True | Err e => exists x, e = f x | Panic => False end)); [|by intros []| |done].
  - unfold write_framed. rewrite Hmod. eapply safe_try_call; [done| |intros ? ?|eauto].
    + intros ? Hok; exact Hok.
    + unfold io_map_err, call. simpl. split; [done|]. intros [?|?|] Hx; simpl; eauto.
  - intros e [x ->]. auto.
Qed.

Lemma safe_try_framed `{DnsCodec} {S E B} P (I : S -> Prop) (f : io_err -> E) h m b
    (k : unit -> io S (res B E)) Q :
  frames_ok P m -> to_bytes m = inr b -> too_large b = false ->
  safe P I (k tt) Q -> (forall x, Q (Err (f x))) ->
  safe P I (io_try (write_framed f h b) k) Q.
Proof.
  intros HP Hb Hl. destruct (HP h b Hb) as [? ?]; [by apply too_large_false|].
  by apply safe_try_write_framed.
Qed.

Definition framed_result {E} (f : io_err -> E) (r : res bytes E) : Prop :=
  match r with
  | Ok b => (length b <= MAX_MSG_SIZE)%nat
  | Err e => exists x, e = f x
  | Panic => False
  end.
Lemma read_framed_safe {S E} P (I : S -> Prop) (f : io_err -> E) h :
  (forall n, P _ (ReadExact h n)) -> safe P I (read_framed f h) (framed_result f).
Proof.
  intros HP. unfold read_framed. eapply safe_try_call; [done|intros ? Hok; exact Hok| |by eexists].
  intros l Hl. unfold io_map_err, call. simpl. split; [done|].
  intros [b|?|] Hx; simpl in *; [|eauto|done].
  pose proof (from_be_range l) as Hr. rewrite Hl in Hr.
  pose proof MAX_MSG_SIZE_eq. unfold u16_max in *. lia.
Qed.

Lemma safe_try_read_framed {S E B} P (I : S -> Prop) (f : io_err -> E) h
    (k : bytes -> io S (res B E)) Q :
  (forall n, P _ (ReadExact h n)) ->
  (forall b, (length b <= MAX_MSG_SIZE)%nat -> safe P I (k b) Q) -> (forall x, Q (Err (f x))) ->
  safe P I (io_try (read_framed f h) k) Q.
Proof.
  intros HP Hk HE. eapply safe_try; [by apply (read_framed_safe _ _ f)|auto| |done].
  intros e [x ->]. auto.
Qed.

(** The resolution and dialing steps of a [?] chain. *)
Lemma safe_try_resolve {S B} P (I : S -> Prop) host port timeout (resolver : Resolver S) v6
    (k : list SocketAddr -> io S (res B DohError)) Q :
  quiet P -> resolver_ok P I host resolver ->
  (forall addrs, addrs <> [] -> safe P I (k addrs) Q) -> (forall e, Q (Err e)) ->
  safe P I (io_try (resolve_addrs host port timeout resolver v6) k) Q.
Proof.
  intros HP Hr Hk HE. eapply safe_try;
    [by apply (resolve_addrs_safe _ _ _ _ _ _ _ (fun out => out <> Panic)); [call_ok|..] | |auto|done].
  intros addrs (ips & (Hne & _) & _). auto.
Qed.

Lemma safe_dial {S} P (I : S -> Prop) timeout (addrs : list SocketAddr) network :
  quiet P ->
  safe P I (new_dial_context timeout addrs network)
    (fun r => match r with
              | Ok (ConnTcp _) => network = Tcp
              | Ok (ConnUdp _ _) => network = Udp
              | Err _ => True
              | Panic => False
              end).
Proof.
  intros HP. unfold new_dial_context. destruct addrs as [|a0 addrs0]; [done|].
  set (addrs := a0 :: addrs0). generalize (@None DohError) as last. clearbody addrs.
  induction addrs as [|a addrs IH]; intros last; [done|].
  cbn [dial_loop]. eapply safe_bind.
  - unfold dial_one. apply (safe_maybe_timeout _ _ _ _ _ (fun r => match r with
              | Ok (ConnTcp _) => network = Tcp
              | Ok (ConnUdp _ _) => network = Udp
              | Err _ => True
              | Panic => False
              end)); [call_ok|done|].
    destruct network; (eapply safe_try_call; [call_ok|intros ? Hok; exact Hok|intros h _|done]); [done|].
    eapply safe_try_call; [call_ok|intros ? Hok; exact Hok|done|done].
  - intros [c|e|] Hc; simpl; [done|apply IH|done].
Qed.

(** [resolve_dial_context(..).await?] followed by [(dial)(Tcp).await?]. *)
Lemma safe_try_dial_tcp {S B} P (I : S -> Prop) host port timeout (resolver : Resolver S) v6
    (k : Conn -> io S (res B DohError)) Q :
  quiet P ->
  resolver_ok P I host resolver -> (forall h, safe P I (k (ConnTcp h)) Q) -> (forall e, Q (Err e)) ->
  safe P I (io_try (resolve_dial_context host port timeout resolver v6)
                   (fun dial => io_try (dial Tcp) k)) Q.
Proof.
  intros HP Hr Hk HE.
  apply (safe_try _ _ _ _ (fun r => match r with
      | Ok dial => exists addrs, dial = new_dial_context timeout addrs
      | Err _ => True | Panic => False end)); [| |auto|done].
  - unfold resolve_dial_context. apply safe_try_resolve; auto. simpl. eauto.
  - intros dial [addrs ->]. eapply safe_try; [by apply safe_dial| |auto|done].
    intros [h|h a]; [auto|done].
Qed.

(** The lookups of a bootstrap resolver never unwind. *)
Section Lookups.
Context {S : Type} `{HL : DnsLib} {HC : DnsCodec}.
Lemma merge_lookups_not_Panic a aaaa :
  a <> Panic -> aaaa <> Panic -> merge_lookups a aaaa <> Panic.
Proof.
  unfold merge_lookups. destruct a, aaaa; intros ??; try done; repeat case_match; discriminate.
Qed.
Lemma safe_lookups P (I : S -> Prop) (p q : io S (res (list IpAddr) DohError)) :
  quiet P -> safe P I p (fun r => r <> Panic) -> safe P I q (fun r => r <> Panic) ->
  safe P I (let* (a, aaaa) := io_join p q in IoRet (merge_lookups a aaaa)) (fun r => r <> Panic).
Proof.
  intros HP Hp Hq. eapply safe_bind; [apply safe_join; [call_ok|exact Hp|exact Hq]|].
  intros [a aaaa] [? ?]. by apply merge_lookups_not_Panic.
Qed.
Lemma plain_lookup_safe P (I : S -> Prop) r host :
  quiet P -> (forall h b, P _ (UdpSend h b)) ->
  safe P I (plain_resolver_lookup r host) (fun r => r <> Panic).
Proof.
  intros HP Hs. apply safe_lookups; [done|..]; unfold plain_resolver_query.
  all: apply safe_try_pure; [apply from_sum_not_Panic| |done]; intros name _.
  all: io_simpl; split; [call_ok|]; intros id _.
  all: apply safe_try_pure; [apply from_sum_not_Panic| |done]; intros b _.
  all: apply safe_maybe_timeout; [call_ok|done|].
  all: io_try_call; io_try_call; (eapply safe_try_call; [by apply Hs|intros ? Hok; exact Hok|intros ? ?|done]).
  all: io_try_call; apply safe_try_pure; [apply from_sum_not_Panic| |done]; done.
Qed.
End Lookups.
