(* ===== verification/Network.v ===== *)
(** * A network with servers behind it

    The theorems about [safe] and [exec] hold whatever the network does, so
    they say nothing on whether an answer ever comes. Here the other side is a
    network ([Servers]): which addresses are up, what each server answers, how
    long its clock runs. [net_step] is what every call may answer on it and what
    that does to the sockets ([Net]); [delivers] says that a program, run on it
    among other tasks that keep an invariant of the store, returns with a
    given outcome; [reaches] that it can, alone; [delivers_exec] that it does
    run. *)
From S2P Require Import Prelude RustStr RustNet Io Dns Errors WebLib Wire Bootstrap Framing.
Implicit Type P : forall X, eff X -> Prop.

(** [alive a]: a server runs at [a]. [reply_udp a] answers datagrams,
    [reply_stream a] framed messages, [reply_http a] requests. [conn_addr] is where a TCP, TLS
    or QUIC connection, an HTTP client or an HTTP/3 sender leads: each handle
    the libraries ever give out has one for good. All readings of the clock lie
    in the window from [clock_lo] to [clock_hi], those of the calendar from
    [unix_lo] to [unix_hi]. *)
Record Servers := {
  alive : SocketAddr -> bool;
  reply_udp : SocketAddr -> bytes -> bytes;
  reply_stream : SocketAddr -> bytes -> bytes;
  reply_http : SocketAddr -> HttpRequest -> bytes;
  conn_addr : handle -> SocketAddr;
  lookup_host : string -> list IpAddr;
  clock_lo : Z;
  clock_hi : Z;
  unix_lo : Z;
  unix_hi : Z;
}.
Record servers_ok (N : Servers) : Prop := {
  udp_fits a m : Z.of_nat (length (reply_udp N a m)) <= u16_max;
  stream_fits a m : Z.of_nat (length (reply_stream N a m)) <= u16_max;
  http_fits a r : Z.of_nat (length (reply_http N a r)) <= u16_max;
  conn_exists a : alive N a = true -> exists h, conn_addr N h = a;
  conn_nowhere : exists h, alive N (conn_addr N h) = false;
  clock_window : 0 <= clock_lo N <= clock_hi N;
  unix_window : unix_lo N <= unix_hi N;
}.

(** The sockets and streams of a task: the address a UDP socket is connected
    to, the bytes waiting to be read, the bytes of a frame written so far, and
    the datagrams sent from the listening sockets. *)
Record Net := {
  udp_peer : gmap handle SocketAddr;
  inbox : gmap handle bytes;
  outbox : gmap handle bytes;
  replies : list (handle * bytes * SocketAddr);
}.
Definition set_inbox (h : handle) (b : bytes) (w : Net) : Net :=
  {| udp_peer := udp_peer w; inbox := <[h := b]> (inbox w); outbox := outbox w;
     replies := replies w |}.
Definition set_outbox (h : handle) (b : bytes) (w : Net) : Net :=
  {| udp_peer := udp_peer w; inbox := inbox w; outbox := <[h := b]> (outbox w);
     replies := replies w |}.
Definition connect_udp (h : handle) (a : SocketAddr) (w : Net) : Net :=
  {| udp_peer := <[h := a]> (udp_peer w); inbox := delete h (inbox w); outbox := outbox w;
     replies := replies w |}.
Definition take_datagram (h : handle) (w : Net) : Net :=
  {| udp_peer := udp_peer w; inbox := delete h (inbox w); outbox := outbox w;
     replies := replies w |}.
Definition add_reply (m : handle * bytes * SocketAddr) (w : Net) : Net :=
  {| udp_peer := udp_peer w; inbox := inbox w; outbox := outbox w;
     replies := replies w ++ [m] |}.
Definition open_stream (h : handle) (w : Net) : Net := set_inbox h [] (set_outbox h [] w).
Definition pending (h : handle) (w : Net) : bytes := default [] (inbox w !! h).
Definition written_so_far (h : handle) (w : Net) : bytes := default [] (outbox w !! h).

(** A whole frame, as a server reads it. *)
Definition whole_frame (out : bytes) : option bytes :=
  match out with
  | a :: b :: m => if from_be [a; b] =? Z.of_nat (length m) then Some m else None
  | _ => None
  end.

Section Steps.
Context (N : Servers).

Definition net_write (h : handle) (b : bytes) (w : Net) : Net :=
  let out := written_so_far h w ++ b in
  match whole_frame out with
  | Some m =>
      set_inbox h (pending h w ++ frame (reply_stream N (conn_addr N h) m)) (set_outbox h [] w)
  | None => set_outbox h out w
  end.
Definition net_datagram (h : handle) (b : bytes) (w : Net) : Net :=
  match udp_peer w !! h with
  | Some a => if alive N a then set_inbox h (reply_udp N a b) w else w
  | None => w
  end.

(** A connection attempt: refused by an address that is down. *)
Definition connects_to {E} (a : SocketAddr) (w : Net) (r : res handle E) (w' : Net) : Prop :=
  if alive N a then exists h, r = Ok h /\ conn_addr N h = a /\ w' = open_stream h w
  else exists e, r = Err e /\ w' = w.
(** A new stream or session over a connection. *)
Definition carried_by {E} (c : handle) (w : Net) (r : res handle E) (w' : Net) : Prop :=
  exists h, r = Ok h /\ conn_addr N h = conn_addr N c /\ w' = open_stream h w.
Definition done_unit {E} (f : Net -> Net) (w : Net) (r : res unit E) (w' : Net) : Prop :=
  r = Ok tt /\ w' = f w.

(** A dial goes to the first address that is up, and so does the client of an
    HTTP connector. *)
Definition first_alive (addrs : list SocketAddr) : option SocketAddr :=
  head (filter (fun a => alive N a = true) addrs).
Lemma first_alive_Some addrs a : first_alive addrs = Some a -> alive N a = true.
Proof.
  unfold first_alive. intros E.
  assert (a ∈ filter (fun a => alive N a = true) addrs) as [? _]%list_elem_of_filter; [|done].
  destruct (filter _ addrs); [done|]. injection E as ->. by left.
Qed.

Definition net_step {X} (e : eff X) : Net -> X -> Net -> Prop :=
  match e in eff X return Net -> X -> Net -> Prop with
  | UdpBind _ => fun w r w' => exists h, r = Ok h /\ w' = w
  | UdpConnect h a => done_unit (connect_udp h a)
  | UdpSend h b => done_unit (net_datagram h b)
  | UdpRecv h cap => fun w r w' =>
      match inbox w !! h with
      | None => exists e, r = Err e /\ w' = w
      | Some b => r = Ok (take cap b) /\ w' = take_datagram h w
      end
  | UdpSendTo h b peer => done_unit (add_reply (h, b, peer))
  | TcpConnect a => connects_to a
  | TlsConnect _ _ tcp => carried_by tcp
  | WriteAll h b => done_unit (net_write h b)
  | ReadExact h n => fun w r w' =>
      if (n <=? length (pending h w))%nat
      then r = Ok (take n (pending h w)) /\ w' = set_inbox h (drop n (pending h w)) w
      else exists e, r = Err e /\ w' = w
  | QuicEndpoint _ => fun w r w' => exists h, r = Ok h /\ w' = w
  | QuicConnect _ _ _ a => connects_to a
  | QuicOpenBi c => carried_by c
  | QuicFinish _ => done_unit id
  | HttpClientBuild c => fun w h w' =>
      w' = w /\ match first_alive (hc_addrs c) with
                | Some a => conn_addr N h = a | None => alive N (conn_addr N h) = false
                end
  | HttpSend c req => fun w r w' =>
      if alive N (conn_addr N c)
      then exists h, r = Ok (200, h) /\ w' = set_inbox h (reply_http N (conn_addr N c) req) w
      else exists e, r = Err e /\ w' = w
  | HttpBody h => fun w r w' => r = Ok (pending h w) /\ w' = w
  | H3Client c => carried_by c
  | H3Send c req => fun w r w' =>
      exists h, r = Ok h /\ w' = set_inbox h (reply_http N (conn_addr N c) req) w
  | H3Finish _ => done_unit id
  | H3RecvResponse _ => fun w r w' => r = Ok 200 /\ w' = w
  | H3RecvData h => fun w r w' =>
      match pending h w with
      | [] => r = Ok None /\ w' = w
      | _ => exists n, (0 < n <= length (pending h w))%nat
               /\ r = Ok (Some (take n (pending h w))) /\ w' = set_inbox h (drop n (pending h w)) w
      end
  | Getaddrinfo host => fun w r w' => r = Ok (lookup_host N host) /\ w' = w
  | InstantNow => fun w t w' => clock_lo N <= t <= clock_hi N /\ w' = w
  | UnixNow => fun w t w' => unix_lo N <= t <= unix_hi N /\ w' = w
  | e => fun w x w' => eff_ok e x /\ w' = w
  end.

(** The contract of every call is met, and every call is answered. *)
Lemma net_step_eff_ok X (e : eff X) w x w' : servers_ok N -> net_step e w x w' -> eff_ok e x.
Proof.
  intros HN. destruct e; simpl; unfold connects_to, carried_by, done_unit; intros H;
    try (destruct (alive N _)); try (destruct (_ !! _) eqn:Ei);
    try (destruct (pending _ _) eqn:Ep); try (destruct (_ <=? _)%nat eqn:El); try naive_solver.
  - destruct H as [-> _]. simpl. rewrite length_firstn. lia.
  - destruct H as [-> _]. simpl. rewrite length_firstn. apply Nat.leb_le in El. simpl in *. lia.
  - destruct H as [-> _]. simpl. rewrite length_firstn. apply Nat.leb_le in El. simpl in *. lia.
  - destruct H as (n & Hn & -> & _). simpl. rewrite length_firstn. simpl in *. lia.
  - pose proof (clock_window _ HN). lia.
Qed.

(** Every call is answered. *)
Lemma net_step_total X (e : eff X) w : servers_ok N -> exists x w', net_step e w x w'.
Proof.
  intros HN. pose proof (conn_exists _ HN) as Hc. pose proof (clock_window _ HN) as Hw.
  assert (forall X (e : eff X), exists x, eff_ok e x) as Hd by (intros; eexists; apply benign_ok).
  destruct e; cbn [net_step]; unfold connects_to, carried_by, done_unit; repeat case_match;
    try match goal with H : first_alive _ = Some _ |- _ => apply first_alive_Some in H end;
    try match goal with H : alive N _ = true |- _ => destruct (Hc _ H) end;
    try (match goal with |- context [@eff_ok ?X ?e] => destruct (Hd X e) as [x Hx] end; by exists x, w);
    try (exists (Ok 0%nat); eexists; by eauto); try (eexists (Ok _), _; by eauto);
    try (eexists (Err ""), _; by eauto); try (eexists _, _; by eauto).
  - destruct (conn_nowhere _ HN) as [h Hh]. by exists h, w.
  - eexists _, _, (length (b :: l)). split; [simpl; lia|done].
  - exists (clock_lo N), w. split; [lia|done].
  - pose proof (unix_window _ HN). exists (unix_lo N), w. split; [lia|done].
  Unshelve. all: first [exact 0%nat|exact []].
Qed.

(** ** Running on the network *)
Fixpoint delivers {S A} (I : S -> Prop) (p : io S A) (Q : A -> Net -> Prop) (w : Net) : Prop :=
  match p with
  | IoRet a => Q a w
  | IoDo e k => forall x w', net_step e w x w' -> delivers I (k x) Q w'
  | IoState f k => forall s, I s -> I (f s).2 /\ delivers I (k (f s).1) Q w
  end.

(** The datagrams a trace has sent, which are the [replies] it adds. *)
Definition datagrams_sent (tr : list event) : list (handle * bytes * SocketAddr) :=
  omap (fun ev => match ev with
                  | Event e _ =>
                      match e with UdpSendTo h b peer => Some (h, b, peer) | _ => None end
                  end) tr.
Lemma net_step_replies X (e : eff X) w x w' :
  net_step e w x w' -> replies w' = replies w ++ datagrams_sent [Event e x].
Proof.
  intros Hx. destruct e; revert Hx;
    cbn [net_step datagrams_sent omap list_omap]; unfold connects_to, carried_by, done_unit, net_datagram, net_write, open_stream;
    rewrite ?app_nil_r; repeat case_match; naive_solver.
Qed.

(** [reaches p Q w s]: alone on the network, from [s], [p] can come to a return
    that meets [Q]. *)
Fixpoint reaches {S A} (p : io S A) (Q : A -> Net -> S -> Prop) (w : Net) (s : S) : Prop :=
  match p with
  | IoRet a => Q a w s
  | IoDo e k => exists x w', net_step e w x w' /\ reaches (k x) Q w' s
  | IoState f k => reaches (k (f s).1) Q w (f s).2
  end.
Lemma reaches_exec {S A} (p : io S A) Q w s :
  servers_ok N -> reaches p Q w s ->
  exists tr a s' w', exec p s tr a s' /\ Q a w' s' /\ replies w' = replies w ++ datagrams_sent tr.
Proof.
  intros HN. revert w s. induction p as [a|X e k IH|X f k IH]; intros w s.
  - intros HQ. exists [], a, s, w. by rewrite app_nil_r.
  - intros (x & w1 & Hx & Hk). destruct (IH _ _ _ Hk) as (tr & a & s' & w' & ? & ? & Hw).
    exists (Event e x :: tr), a, s', w'. split; [|split; [done|]].
    + exists x, tr. split; [by eapply net_step_eff_ok|done].
    + rewrite Hw, (net_step_replies _ _ _ _ _ Hx), <- app_assoc. f_equal. symmetry. exact (omap_app _ [Event e x] tr).
  - apply IH.
Qed.
Lemma reaches_mono {S A} (p : io S A) (Q Q' : A -> Net -> S -> Prop) w s :
  (forall a w' s', Q a w' s' -> Q' a w' s') -> reaches p Q w s -> reaches p Q' w s.
Proof. intros HQ. revert w s. induction p as [a|X e j IH|X f j IH]; intros w s; simpl; [auto|naive_solver|auto]. Qed.
Lemma reaches_bind {S A B} (p : io S A) (k : A -> io S B) Q w s :
  reaches p (fun a w' s' => reaches (k a) Q w' s') w s -> reaches (io_bind p k) Q w s.
Proof. revert w s. induction p as [a|X e j IH|X f j IH]; intros w s; simpl; [done|naive_solver|auto]. Qed.
Lemma reaches_try {S A B E} (p : io S (res A E)) (k : A -> io S (res B E)) Q w s :
  reaches p (fun r w' s' => exists a, r = Ok a /\ reaches (k a) Q w' s') w s -> reaches (io_try p k) Q w s.
Proof. intros Hp. apply reaches_bind. eapply reaches_mono; [|exact Hp]. by intros r w' s' (a & -> & ?). Qed.
Lemma reaches_zoom {S T A} (get : T -> S) (put : S -> T -> T) (p : io S A) Q w t :
  (forall s t, get (put s t) = s) -> (forall s s' t, put s (put s' t) = put s t) -> (forall t, put (get t) t = t) ->
  reaches p (fun a w' s' => Q a w' (put s' t)) w (get t) -> reaches (zoom get put p) Q w t.
Proof.
  intros Hgp Hpp Hpg. revert w t. induction p as [a|X e j IH|X f j IH]; intros w t; simpl.
  - by rewrite Hpg.
  - intros (x & w' & Hx & Hk). exists x, w'. split; [done|]. by apply IH.
  - destruct (f (get t)) as [x s] eqn:E. cbn. intros H. apply IH. rewrite Hgp.
    eapply reaches_mono; [|exact H]. intros a w' s' HQ. by rewrite Hpp.
Qed.
(** What holds of every run alone, or of every run among others that keep an
    invariant, holds of this one. *)
Lemma reaches_wp {S A} P (p : io S A) R Q w s :
  servers_ok N -> wp P p R s -> reaches p Q w s -> reaches p (fun a w' s' => R a s' /\ Q a w' s') w s.
Proof.
  intros HN. revert w s. induction p as [a|X e j IH|X f j IH]; intros w s; simpl; [done| |auto].
  intros [_ Hp] (x & w' & Hx & Hk). exists x, w'. split; [done|]. apply IH; [|done].
  apply Hp. by eapply net_step_eff_ok.
Qed.
Lemma reaches_safe {S A} P (K : S -> Prop) (p : io S A) R Q w s :
  servers_ok N -> (forall h b a, ~ P _ (UdpSendTo h b a)) -> safe P K p R -> K s -> reaches p Q w s ->
  reaches p (fun a w' s' => R a /\ K s' /\ Q a w' s' /\ replies w' = replies w) w s.
Proof.
  intros HN HP. revert w s. induction p as [a|X e j IH|X f j IH]; intros w s; simpl; [done| |].
  - intros [He Hs] HK (x & w' & Hx & Hk). exists x, w'. split; [done|].
    eapply reaches_mono; [|apply IH; [|done|exact Hk]].
    + simpl. intros a w'' s' (? & ? & ? & ->). split_and!; try done.
      rewrite (net_step_replies _ _ _ _ _ Hx). destruct e; try by destruct (HP _ _ _ He).
      all: apply app_nil_r.
    + apply Hs. by eapply net_step_eff_ok.
  - intros Hs HK. destruct (Hs s HK). by apply IH.
Qed.
Lemma delivers_reaches {S A} (I : S -> Prop) (p : io S A) Q w s :
  servers_ok N -> delivers I p Q w -> I s -> reaches p (fun a w' s' => Q a w' /\ I s') w s.
Proof.
  intros HN. revert w s. induction p as [a|X e k IH|X f k IH]; intros w s; simpl; [done| |].
  - intros Hp Hs. destruct (net_step_total _ e w HN) as (x & w1 & Hx). exists x, w1. split; [done|].
    apply IH; [by apply Hp|done].
  - intros Hp Hs. destruct (Hp s Hs). by apply IH.
Qed.
(** Some execution exists, and it ends as [delivers] says. *)
Lemma delivers_exec {S A} (I : S -> Prop) (p : io S A) Q w s :
  servers_ok N -> delivers I p Q w -> I s ->
  exists tr a s' w', exec p s tr a s' /\ I s' /\ Q a w' /\ replies w' = replies w ++ datagrams_sent tr.
Proof.
  intros HN Hp Hs. destruct (reaches_exec p _ w s HN (delivers_reaches I p Q w s HN Hp Hs))
    as (tr & a & s' & w' & ? & [? ?] & ?). by exists tr, a, s', w'.
Qed.

Lemma delivers_bind {S A B} (I : S -> Prop) (p : io S A) (k : A -> io S B) Q w :
  delivers I p (fun a w' => delivers I (k a) Q w') w -> delivers I (io_bind p k) Q w.
Proof.
  revert w. induction p as [a|X e j IH|X f j IH]; intros w; simpl; [done|eauto|].
  intros Hp s Hs. destruct (Hp s Hs). split; [done|]. by apply IH.
Qed.

Lemma delivers_mono {S A} (I : S -> Prop) (p : io S A) (Q Q' : A -> Net -> Prop) w :
  (forall a w', Q a w' -> Q' a w') -> delivers I p Q w -> delivers I p Q' w.
Proof.
  intros HQ. revert w. induction p as [a|X e j IH|X f j IH]; intros w; simpl; [auto|eauto|].
  intros Hp s Hs. destruct (Hp s Hs). split; [done|]. by apply IH.
Qed.

(** What holds of every run on every network, under an invariant of its own,
    holds here too; without a reply among the calls allowed, none is sent. *)
Lemma delivers_safe {S A} P (I K : S -> Prop) (p : io S A) R Q w :
  servers_ok N -> (forall h b a, ~ P _ (UdpSendTo h b a)) -> safe P K p R -> delivers I p Q w ->
  delivers (fun s => I s /\ K s) p (fun a w' => R a /\ Q a w' /\ replies w' = replies w) w.
Proof.
  intros HN HP. revert w. induction p as [a|X e j IH|X f j IH]; intros w; simpl; [done| |].
  - intros [He Hs] Hp x w' Hx. eapply delivers_mono; [|apply IH; [|by apply Hp]].
    + simpl. intros a w'' (? & ? & ->). split; [done|]. split; [done|].
      rewrite (net_step_replies _ _ _ _ _ Hx). destruct e; try by destruct (HP _ _ _ He).
      all: apply app_nil_r.
    + apply Hs. by eapply net_step_eff_ok.
  - intros Hs Hp s [HI HK]. destruct (Hs s HK), (Hp s HI). split; [done|]. by apply IH.
Qed.
Lemma delivers_any {S A} (I : S -> Prop) (p : io S A) R w :
  servers_ok N -> safe any_call I p R -> delivers I p (fun a _ => R a) w.
Proof.
  intros HN. revert w. induction p as [a|X e j IH|X f j IH]; intros w; simpl; [done| |].
  - intros [_ Hs] x w' Hx. apply IH, Hs. by eapply net_step_eff_ok.
  - intros Hs s HI. destruct (Hs s HI). split; [done|]. by apply IH.
Qed.
(** Calls that do not touch the network. *)
Definition offline {X} (e : eff X) : Prop := forall w x w', net_step e w x w' -> w' = w.
Lemma delivers_offline {S A} (I : S -> Prop) (p : io S A) R w :
  servers_ok N -> safe (@offline) I p R -> delivers I p (fun a w' => R a /\ w' = w) w.
Proof.
  intros HN. revert w. induction p as [a|X e j IH|X f j IH]; intros w; simpl; [done| |].
  - intros [He Hs] x w' Hx. pose proof (He _ _ _ Hx) as ->. apply IH, Hs. by eapply net_step_eff_ok.
  - intros Hs s HI. destruct (Hs s HI). split; [done|]. by apply IH.
Qed.

Lemma delivers_try {S A B E} (I : S -> Prop) (p : io S (res A E)) (k : A -> io S (res B E)) Q w :
  delivers I p (fun r w' => match r with
                            | Ok a => delivers I (k a) Q w'
                            | Err e => Q (Err e) w' | Panic => Q Panic w'
                            end) w ->
  delivers I (io_try p k) Q w.
Proof.
  intros Hp. apply delivers_bind. eapply delivers_mono; [|exact Hp]. by intros [].
Qed.

(** A deadline beyond the window is never missed. *)
Lemma delivers_with_deadline {S A} (I : S -> Prop) dl (p : io S A) Q w :
  clock_hi N <= dl -> delivers I p Q w ->
  delivers I (with_deadline dl p) (fun r w' => exists a, r = Some a /\ Q a w') w.
Proof.
  intros Hdl. revert w. induction p as [a|X e j IH|X f j IH]; intros w; simpl; [eauto| |].
  - intros Hp x w' Hx t w1 [Ht ->]. destruct (Z.ltb_spec dl t); [lia|]. auto.
  - intros Hp s Hs. destruct (Hp s Hs). auto.
Qed.
(** A configured time-out at least as long as the window. *)
Definition patient (t : option Z) : Prop := forall d, t = Some d -> clock_hi N - clock_lo N <= d.
Lemma delivers_maybe_timeout {S A E} (I : S -> Prop) t (e : Z -> E) (p : io S (res A E)) Q w :
  patient t -> delivers I p Q w -> delivers I (maybe_timeout t e p) Q w.
Proof.
  intros Ht Hp. destruct t as [d|]; [|done]. apply delivers_bind. simpl. intros t0 w1 [H0 ->].
  specialize (Ht d eq_refl). eapply delivers_mono; [|apply delivers_with_deadline; [|exact Hp]; lia].
  by intros ? w' (a & -> & ?).
Qed.

Lemma delivers_zoom {S T A} (J : S -> Prop) (I : T -> Prop) (get : T -> S) (put : S -> T -> T)
    (p : io S A) Q w :
  (forall t, I t -> J (get t)) -> (forall s t, I t -> J s -> I (put s t)) ->
  delivers J p Q w -> delivers I (zoom get put p) Q w.
Proof.
  intros Hg Hp. revert w. induction p as [a|X e j IH|X f j IH]; intros w; simpl; [done|eauto|].
  intros H t Ht. destruct (H (get t) (Hg t Ht)) as [HJ Hk].
  destruct (f (get t)) as [x s]. simpl in *. auto.
Qed.

Lemma delivers_read_cell {S T B} (I : S -> Prop) (c : cell S T) (k : T -> io S B) Q w :
  (forall s, I s -> delivers I (k (peek c s)) Q w) -> delivers I (io_bind (read_cell c) k) Q w.
Proof. intros H s Hs. simpl. auto. Qed.
Lemma delivers_write_cell {S T B} (I : S -> Prop) (c : cell S T) v (k : unit -> io S B) Q w :
  (forall s, I s -> I (poke c v s)) -> delivers I (k tt) Q w ->
  delivers I (io_bind (write_cell c v) k) Q w.
Proof. intros HI H s Hs. simpl. auto. Qed.

(** ** One call of a [?] chain *)
Lemma delivers_try_call {S A B E F} (I : S -> Prop) (f : F -> E) (e : eff (res A F))
    (k : A -> io S (res B E)) Q w :
  (forall r w', net_step e w r w' ->
     match r with
     | Ok a => delivers I (k a) Q w' | Err x => Q (Err (f x)) w' | Panic => Q Panic w'
     end) ->
  delivers I (io_try (io_map_err f (call e)) k) Q w.
Proof. intros H r w' Hr. specialize (H r w' Hr). by destruct r. Qed.
Lemma delivers_try_unit {S B E F} (I : S -> Prop) (f : F -> E) (e : eff (res unit F)) g
    (k : unit -> io S (res B E)) Q w :
  net_step e = done_unit g -> delivers I (k tt) Q (g w) ->
  delivers I (io_try (io_map_err f (call e)) k) Q w.
Proof. intros He Hk. apply delivers_try_call. rewrite He. by intros r w' [-> ->]. Qed.
Lemma delivers_try_carried {S B E F} (I : S -> Prop) (f : F -> E) (e : eff (res handle F)) c
    (k : handle -> io S (res B E)) Q w :
  net_step e = carried_by c ->
  (forall h, conn_addr N h = conn_addr N c -> delivers I (k h) Q (open_stream h w)) ->
  delivers I (io_try (io_map_err f (call e)) k) Q w.
Proof. intros He Hk. apply delivers_try_call. rewrite He. intros r w' (h & -> & ? & ->). auto. Qed.
Lemma delivers_try_connect {S B E F} (I : S -> Prop) (f : F -> E) (e : eff (res handle F)) a
    (k : handle -> io S (res B E)) Q w :
  net_step e = connects_to a ->
  (if alive N a then forall h, conn_addr N h = a -> delivers I (k h) Q (open_stream h w)
   else forall x, Q (Err (f x)) w) ->
  delivers I (io_try (io_map_err f (call e)) k) Q w.
Proof.
  intros He Hk. apply delivers_try_call. rewrite He. unfold connects_to.
  intros r w'. destruct (alive N a); [intros (h & -> & ? & ->)|intros (x & -> & ->)]; auto.
Qed.

(** ** Frames *)
Lemma pending_set h b w : pending h (set_inbox h b w) = b.
Proof. unfold pending. simpl. by rewrite lookup_insert_eq. Qed.
Lemma written_set h b w : written_so_far h (set_outbox h b w) = b.
Proof. unfold written_so_far. simpl. by rewrite lookup_insert_eq. Qed.
Lemma whole_frame_app l m :
  length l = 2%nat -> whole_frame (l ++ m) = if from_be l =? Z.of_nat (length m) then Some m else None.
Proof. destruct l as [|x [|y [|]]]; done. Qed.

Lemma from_be_length (b : bytes) :
  Z.of_nat (length b) <= u16_max -> from_be (to_be 2 (Z.of_nat (length b))) = Z.of_nat (length b).
Proof.
  intros Hb. rewrite from_be_to_be. change (256 ^ Z.of_nat 2) with 65536.
  apply Z.mod_small. unfold u16_max in *. lia.
Qed.

Lemma net_write_header h (n : nat) w :
  Z.of_nat n <= u16_max -> (0 < n)%nat -> written_so_far h w = [] ->
  net_write h (to_be 2 (Z.of_nat n)) w = set_outbox h (to_be 2 (Z.of_nat n)) w.
Proof.
  intros Hn Hpos Hw. unfold net_write. rewrite Hw.
  change ([] ++ to_be 2 (Z.of_nat n)) with (to_be 2 (Z.of_nat n)).
  assert (whole_frame (to_be 2 (Z.of_nat n)) = None) as ->; [|done].
  rewrite <- (app_nil_r (to_be _ _)), whole_frame_app by apply length_to_be.
  rewrite from_be_to_be. change (256 ^ Z.of_nat 2) with 65536.
  rewrite Z.mod_small by (unfold u16_max in *; lia).
  by destruct (Z.eqb_spec (Z.of_nat n) (Z.of_nat (length (@nil byte)))) as [->%Nat2Z.inj|]; [apply Nat.lt_irrefl in Hpos|].
Qed.
Lemma net_write_frame h out b w :
  written_so_far h w = out -> whole_frame (out ++ b) = Some b ->
  pending h (net_write h b w) = pending h w ++ frame (reply_stream N (conn_addr N h) b).
Proof. intros Hw Hb. unfold net_write. rewrite Hw, Hb. apply pending_set. Qed.

(** A request framed on a fresh stream is answered with a frame. *)
Lemma delivers_try_write_framed {S B E} (I : S -> Prop) (f : io_err -> E) h b
    (k : unit -> io S (res B E)) Q w :
  too_large b = false -> b <> [] -> written_so_far h w = [] ->
  (forall w', pending h w' = pending h w ++ frame (reply_stream N (conn_addr N h) b) ->
     delivers I (k tt) Q w') ->
  delivers I (io_try (write_framed f h b) k) Q w.
Proof.
  intros [Hl Hmod]%too_large_false Hne Hw Hk. unfold write_framed. rewrite Hmod.
  apply delivers_try. eapply delivers_try_unit; [done|].
  rewrite net_write_header; [|done|by destruct b; [|apply Nat.lt_0_succ]|done].
  intros r w' [-> ->]. simpl. apply Hk.
  rewrite (net_write_frame _ (to_be 2 (Z.of_nat (length b)))); [done|apply written_set|].
  rewrite whole_frame_app by apply length_to_be. by rewrite from_be_length, Z.eqb_refl.
Qed.

Lemma delivers_try_read_exact {S B E} (I : S -> Prop) (f : io_err -> E) h l rest n
    (k : bytes -> io S (res B E)) Q w :
  pending h w = l ++ rest -> length l = n ->
  (forall w', pending h w' = rest -> delivers I (k l) Q w') ->
  delivers I (io_try (io_map_err f (call (ReadExact h n))) k) Q w.
Proof.
  intros Hp <- Hk. apply delivers_try_call. intros r w'. cbn [net_step]. rewrite Hp, length_app.
  rewrite (proj2 (Nat.leb_le _ _)) by lia. intros [-> ->].
  rewrite take_app_length, drop_app_length. apply Hk, pending_set.
Qed.

Lemma delivers_read_framed {S E} (I : S -> Prop) (f : io_err -> E) h b w :
  pending h w = frame b -> Z.of_nat (length b) <= u16_max ->
  delivers I (read_framed f h) (fun r _ => r = Ok b) w.
Proof.
  intros Hp Hb. unfold read_framed.
  eapply delivers_try_read_exact; [exact Hp|apply length_to_be|]. intros w1 Hw1. cbv zeta.
  rewrite from_be_length, Nat2Z.id by done.
  intros r w2. cbn [net_step]. rewrite Hw1, Nat.leb_refl, firstn_all. by intros [-> ->].
Qed.
Lemma delivers_try_read_framed {S B E} (I : S -> Prop) (f : io_err -> E) h b
    (k : bytes -> io S (res B E)) Q w :
  pending h w = frame b -> Z.of_nat (length b) <= u16_max ->
  (forall w', delivers I (k b) Q w') -> delivers I (io_try (read_framed f h) k) Q w.
Proof.
  intros Hp Hb Hk. apply delivers_try. eapply delivers_mono; [|by apply delivers_read_framed].
  intros r w1 ->. apply Hk.
Qed.

(** ** Resolving and dialing *)
Definition resolves {S} (I : S -> Prop) host port timeout (resolver : Resolver S) v6
    (addrs : list SocketAddr) : Prop :=
  forall w, delivers I (resolve_addrs host port timeout resolver v6) (fun r w' => r = Ok addrs) w.

Lemma resolves_literal {S} (I : S -> Prop) host port timeout (resolver : Resolver S) v6 ip :
  parse_ip_addr host = Some ip ->
  resolves I host port timeout resolver v6 [socket_addr_new ip port].
Proof. intros Hip w. unfold resolve_addrs. by rewrite Hip. Qed.
Lemma resolves_system {S} (I : S -> Prop) host port timeout v6 :
  parse_ip_addr host = None -> patient timeout -> lookup_host N host <> [] ->
  resolves (S := S) I host port timeout SystemResolver v6
    ((fun ip => socket_addr_new ip port) <$> sort_by_key (prefer_key v6) (lookup_host N host)).
Proof.
  intros Hip Ht Hne w. unfold resolve_addrs. rewrite Hip. apply delivers_try.
  apply delivers_maybe_timeout; [done|]. intros r w' [-> ->]. simpl.
  by destruct (lookup_host N host).
Qed.
Lemma delivers_try_resolve {S B} (I : S -> Prop) host port timeout (resolver : Resolver S) v6 addrs
    (k : list SocketAddr -> io S (res B DohError)) Q w :
  resolves I host port timeout resolver v6 addrs -> (forall w', delivers I (k addrs) Q w') ->
  delivers I (io_try (resolve_addrs host port timeout resolver v6) k) Q w.
Proof.
  intros Hr Hk. apply delivers_try. eapply delivers_mono; [|apply Hr].
  intros r w' ->. apply Hk.
Qed.

(** A TCP dial reaches the first address that is up. *)
Lemma delivers_dial_tcp {S} (I : S -> Prop) timeout addrs w :
  patient timeout ->
  delivers (S := S) I (new_dial_context timeout addrs Tcp)
    (fun r w' => match first_alive addrs with
                 | Some a => exists h w0, r = Ok (ConnTcp h) /\ conn_addr N h = a /\ w' = open_stream h w0
                 | None => exists e, r = Err e
                 end) w.
Proof.
  intros Ht. unfold new_dial_context. destruct addrs as [|a0 addrs0]; [simpl; eauto|].
  set (addrs := a0 :: addrs0). generalize (@None DohError) as last. clearbody addrs.
  revert w. induction addrs as [|a addrs IH]; intros w last; [simpl; eauto|].
  cbn [dial_loop]. apply delivers_bind. unfold first_alive. rewrite filter_cons. unfold dial_one.
  apply delivers_maybe_timeout; [done|]. eapply delivers_try_connect; [done|].
  destruct (alive N a); simpl.
  - intros h Hh. by exists h, w.
  - intros x. apply IH.
Qed.
Lemma delivers_try_dial_tcp {S B} (I : S -> Prop) host port timeout (resolver : Resolver S) v6 addrs
    (k : Conn -> io S (res B DohError)) Q w :
  resolves I host port timeout resolver v6 addrs -> patient timeout ->
  match first_alive addrs with
  | Some a => forall h w0, conn_addr N h = a -> delivers I (k (ConnTcp h)) Q (open_stream h w0)
  | None => forall e w', Q (Err e) w'
  end ->
  delivers I (io_try (resolve_dial_context host port timeout resolver v6)
                     (fun dial => io_try (dial Tcp) k)) Q w.
Proof.
  intros Hr Ht Hk. apply delivers_try. unfold resolve_dial_context.
  eapply delivers_try_resolve; [exact Hr|]. intros w1. simpl. apply delivers_try.
  eapply delivers_mono; [|by apply delivers_dial_tcp]. simpl. intros r w'.
  destruct (first_alive addrs); [intros (h & w0 & -> & ? & ->); auto|intros [e ->]; apply Hk].
Qed.
End Steps.
Arguments patient N t : simpl never.
