(* ===== verification/PlainUdp.v ===== *)
(** * Plain DNS over UDP

    [src/client/plain_udp.rs]. *)
From S2P Require Import Prelude RustStr RustNet Io Dns Errors WebLib Wire Bootstrap Framing.
Implicit Type P : forall X, eff X -> Prop.

Record PlainUdpUpstream := MkPlainUdp {
  addr : SocketAddr;
  addr_redacted : string;
  timeout : option Z;
}.

Definition new (a : SocketAddr) (t : option Z) : PlainUdpUpstream :=
  {| addr := a; addr_redacted := "udp://" +:+ show_socket_addr a; timeout := t |}.
Definition address (u : PlainUdpUpstream) : string := addr_redacted u.

Section Exchange.
Context {S : Type} `{HL : DnsLib} {HC : DnsCodec}.

Definition exchange (u : PlainUdpUpstream) (req : Message) : io S (res Message DohError) :=
  try* req_bytes := IoRet (from_sum Pack (to_bytes req)) in
  let fut :=
    let local := if sock_is_ipv4 (addr u) then "0.0.0.0:0" else "[::]:0" in
    try* sock := io_map_err IoError (call (UdpBind local)) in
    try* _ := io_map_err IoError (call (UdpConnect sock (addr u))) in
    try* _ := io_map_err IoError (call (UdpSend sock req_bytes)) in
    try* buf := io_map_err IoError (call (UdpRecv sock MAX_MSG_SIZE)) in
    IoRet (check_response buf req) in
  maybe_timeout (timeout u) Timeout fut.

Lemma udp_exchange_safe P (I : S -> Prop) u req :
  quiet P -> (forall h b, to_bytes req = inr b -> P _ (UdpSend h b)) ->
  safe P I (exchange u req) (exchange_ok req).
Proof.
  intros HP Hs. unfold exchange.
  apply safe_try_pure; [apply from_sum_not_Panic| |done]. intros b Hb%from_sum_Ok.
  apply safe_maybe_timeout; [call_ok|done|]. do 4 io_try_call. apply check_response_ok.
Qed.
End Exchange.
