(* ===== verification/PlainTcp.v ===== *)
(** * Plain DNS over TCP

    [src/client/plain_tcp.rs]. *)
From S2P Require Import Prelude RustStr RustNet Io Dns Errors WebLib Wire Bootstrap Framing.
Implicit Type P : forall X, eff X -> Prop.

Definition DEFAULT_PORT_PLAIN : Z := 53.

Record PlainTcpUpstream (S : Type) := MkPlainTcp {
  host : string;
  port : Z;
  addr_redacted : string;
  resolver : Resolver S;
  prefer_ipv6 : bool;
  timeout : option Z;
}.
Arguments MkPlainTcp {S}.
Arguments host {S}.
Arguments port {S}.
Arguments addr_redacted {S}.
Arguments resolver {S}.
Arguments prefer_ipv6 {S}.
Arguments timeout {S}.

Section Exchange.
Context {S : Type} `{HL : DnsLib} {HC : DnsCodec}.

Definition new (h : string) (p : option Z) (opts : Options (Resolver S)) : PlainTcpUpstream S :=
  let p := default DEFAULT_PORT_PLAIN p in
  {| host := h; port := p;
     addr_redacted := "tcp://" +:+ format_host_port h p;
     resolver := default SystemResolver (bootstrap opts);
     prefer_ipv6 := Errors.prefer_ipv6 opts;
     timeout := opt_timeout opts |}.
Definition address (u : PlainTcpUpstream S) : string := addr_redacted u.

Definition exchange (u : PlainTcpUpstream S) (req : Message) : io S (res Message DohError) :=
  try* req_bytes := IoRet (from_sum Pack (to_bytes req)) in
  if too_large req_bytes then IoRet (Err (Pack "message too large for tcp framing")) else
  let fut :=
    try* dial := resolve_dial_context (host u) (port u) (timeout u) (resolver u)
                   (prefer_ipv6 u) in
    try* conn := dial Tcp in
    match conn with
    | ConnUdp _ _ => IoRet (Err (Bootstrap "expected tcp connection"))
    | ConnTcp tcp =>
        try* _ := write_framed IoError tcp req_bytes in
        try* resp_buf := read_framed IoError tcp in
        IoRet (check_response resp_buf req)
    end in
  maybe_timeout (timeout u) Timeout fut.

Lemma tcp_exchange_safe P (I : S -> Prop) u req :
  quiet P -> frames_ok P req -> resolver_ok P I (host u) (resolver u) ->
  safe P I (exchange u req) (exchange_ok req).
Proof.
  intros HP Hf Hr. unfold exchange.
  apply safe_try_pure; [apply from_sum_not_Panic| |done]. intros b Hb%from_sum_Ok.
  destruct (too_large b) eqn:Hl; [done|].
  apply safe_maybe_timeout; [call_ok|done|]. apply safe_try_dial_tcp; try done.
  intros h. eapply safe_try_framed; [done..| |done].
  apply safe_try_read_framed; [call_ok| |done]. intros r _. apply check_response_ok.
Qed.
End Exchange.
