(* ===== verification/Dot.v ===== *)
(** * DNS over TLS

    [src/client/dot.rs], and [build_tls_config] of [src/client/doh.rs]. *)
From S2P Require Import Prelude RustStr RustNet Io Dns Errors WebLib Wire Bootstrap Framing.
Implicit Type P : forall X, eff X -> Prop.

(** The server name is not used; verification is off only when asked for. *)
Definition build_tls_config (server_name : string) (insecure_skip_verify : bool)
    (alpn : list bytes) : TlsConfig :=
  {| alpn_protocols := alpn; skip_verify := insecure_skip_verify |}.

Definition DEFAULT_PORT_DOT : Z := 853.

Record DotUpstream (S : Type) := MkDot {
  host : string;
  port : Z;
  addr_redacted : string;
  resolver : Resolver S;
  prefer_ipv6 : bool;
  timeout : option Z;
  insecure_skip_verify : bool;
}.
Arguments MkDot {S}.
Arguments host {S}.
Arguments port {S}.
Arguments addr_redacted {S}.
Arguments resolver {S}.
Arguments prefer_ipv6 {S}.
Arguments timeout {S}.
Arguments insecure_skip_verify {S}.

Section Exchange.
Context {S : Type} `{HL : DnsLib} {HC : DnsCodec} {HW : WebLib}.

Definition new (h : string) (p : option Z) (opts : Options (Resolver S)) : DotUpstream S :=
  let p := default DEFAULT_PORT_DOT p in
  {| host := h; port := p;
     addr_redacted := "tls://" +:+ format_host_port h p;
     resolver := default SystemResolver (bootstrap opts);
     prefer_ipv6 := Errors.prefer_ipv6 opts;
     timeout := opt_timeout opts;
     insecure_skip_verify := Errors.insecure_skip_verify opts |}.
Definition address (u : DotUpstream S) : string := addr_redacted u.

Definition exchange (u : DotUpstream S) (req : Message) : io S (res Message DohError) :=
  try* req_bytes := IoRet (from_sum Pack (to_bytes req)) in
  if too_large req_bytes then IoRet (Err (Pack "message too large for tcp framing")) else
  let fut :=
    try* dial := resolve_dial_context (host u) (port u) (timeout u) (resolver u)
                   (prefer_ipv6 u) in
    try* conn := dial Tcp in
    match conn with
    | ConnUdp _ _ => IoRet (Err (Bootstrap "expected tcp connection"))
    | ConnTcp tcp =>
        let tls_config := build_tls_config (host u) (insecure_skip_verify u) [] in
        try* name := IoRet (server_name (fun e => Http ("invalid server name: " +:+ e)) (host u)) in
        try* tls := io_map_err (fun e => Http ("tls handshake failed: " +:+ e))
                      (call (TlsConnect tls_config name tcp)) in
        try* _ := write_framed IoError tls req_bytes in
        try* resp_buf := read_framed IoError tls in
        IoRet (check_response resp_buf req)
    end in
  maybe_timeout (timeout u) Timeout fut.

Lemma server_name_not_panic {E} (f : string -> E) n : server_name f n <> Panic.
Proof. unfold server_name. by destruct (server_name_error n). Qed.

Lemma dot_exchange_safe P (I : S -> Prop) u req :
  quiet P -> frames_ok P req -> resolver_ok P I (host u) (resolver u) ->
  safe P I (exchange u req) (exchange_ok req).
Proof.
  intros HP Hf Hr. unfold exchange.
  apply safe_try_pure; [apply from_sum_not_Panic| |done]. intros b Hb%from_sum_Ok.
  destruct (too_large b) eqn:Hl; [done|].
  apply safe_maybe_timeout; [call_ok|done|]. apply safe_try_dial_tcp; try done.
  intros h. apply safe_try_pure; [apply server_name_not_panic| |done]. intros n _.
  io_try_call. eapply safe_try_framed; [done..| |done].
  apply safe_try_read_framed; [call_ok| |done]. intros r _. apply check_response_ok.
Qed.
End Exchange.
