(* ===== verification/Doq.v ===== *)
(** * DNS over QUIC

    [src/client/doq.rs]: one QUIC connection cached in a shared cell, a stream
    per exchange, one retry on a fresh connection. *)
From S2P Require Import Prelude RustStr RustNet Io Dns Errors WebLib Wire Bootstrap Framing.
From S2P Require Import Dot.
Implicit Type P : forall X, eff X -> Prop.

Definition DEFAULT_PORT_DOQ : Z := 853.
Definition DOQ_ALPN : bytes := as_bytes "doq".

Record DoqUpstream (S : Type) := MkDoq {
  host : string;
  port : Z;
  addr_redacted : string;
  resolver : Resolver S;
  prefer_ipv6 : bool;
  timeout : option Z;
  insecure_skip_verify : bool;
  conn : cell S (option handle);
}.
Arguments MkDoq {S}.
Arguments host {S}.
Arguments port {S}.
Arguments addr_redacted {S}.
Arguments resolver {S}.
Arguments prefer_ipv6 {S}.
Arguments timeout {S}.
Arguments insecure_skip_verify {S}.
Arguments conn {S}.

Section Exchange.
Context {S : Type} `{HL : DnsLib} {HC : DnsCodec}.

(** [cell] is where the new object's [Mutex] lives; it starts as [None]. *)
Definition new (h : string) (p : option Z) (opts : Options (Resolver S))
    (c : cell S (option handle)) : DoqUpstream S :=
  let p := default DEFAULT_PORT_DOQ p in
  {| host := h; port := p;
     addr_redacted := "quic://" +:+ format_host_port h p;
     resolver := default SystemResolver (bootstrap opts);
     prefer_ipv6 := Errors.prefer_ipv6 opts;
     timeout := opt_timeout opts;
     insecure_skip_verify := Errors.insecure_skip_verify opts;
     conn := c |}.
Definition address (u : DoqUpstream S) : string := addr_redacted u.

Definition dial_quic (addr : SocketAddr) (server_name : string) (tls_config : TlsConfig)
  : io S (res handle DohError) :=
  let local := if sock_is_ipv4 addr then "0.0.0.0:0" else "[::]:0" in
  try* endpoint := io_map_err Quic (call (QuicEndpoint local)) in
  io_map_err Quic (call (QuicConnect endpoint tls_config server_name addr)).

Definition dial (u : DoqUpstream S) : io S (res handle DohError) :=
  try* addrs := resolve_addrs (host u) (port u) (timeout u) (resolver u) (prefer_ipv6 u) in
  try* addr := IoRet (ok_or (Bootstrap ("no addresses for " +:+ host u)) (head addrs)) in
  let tls_config := build_tls_config (host u) (insecure_skip_verify u) [DOQ_ALPN] in
  dial_quic addr (host u) tls_config.

Definition get_conn (u : DoqUpstream S) : io S (res (handle * bool) DohError) :=
  let* guard := read_cell (conn u) in
  match guard with
  | Some c => IoRet (Ok (c, true))
  | None =>
      try* c := dial u in
      let* _ := write_cell (conn u) (Some c) in
      IoRet (Ok (c, false))
  end.

Definition reset_conn (u : DoqUpstream S) : io S (res handle DohError) :=
  try* c := dial u in
  let* _ := write_cell (conn u) (Some c) in
  IoRet (Ok c).

(** The reply to a zero-identifier query. *)
Definition unzero (body : bytes) (req : Message) (original_id : Z) : res Message DohError :=
  let? resp := from_sum (invalid "unpacking response: ") (from_bytes body) in
  if negb (msg_id resp =? 0) then Err (NonZeroId (msg_id resp))
  else
    let resp := set_id resp original_id in
    let? _ := validate_response req resp in
    Ok resp.

Definition exchange_on (u : DoqUpstream S) (c : handle) (req : Message)
  : io S (res Message DohError) :=
  let original_id := msg_id req in
  let zeroed := set_id req 0 in
  try* req_bytes := IoRet (from_sum Pack (to_bytes zeroed)) in
  if too_large req_bytes then IoRet (Err (Pack "message too large for doq framing")) else
  let fut :=
    try* stream := io_map_err Quic (call (QuicOpenBi c)) in
    try* _ := write_framed Quic stream req_bytes in
    try* _ := io_map_err Quic (call (QuicFinish stream)) in
    try* len_buf := io_map_err Quic (call (ReadExact stream 2)) in
    let resp_len := Z.to_nat (from_be len_buf) in
    if (MAX_MSG_SIZE <? resp_len)%nat
    then IoRet (Err (InvalidResponse "response too large"))
    else
      try* resp_buf := io_map_err Quic (call (ReadExact stream resp_len)) in
      IoRet (unzero resp_buf req original_id) in
  maybe_timeout (timeout u) Timeout fut.

Definition exchange (u : DoqUpstream S) (req : Message) : io S (res Message DohError) :=
  try* (c, was_cached) := get_conn u in
  let* first := exchange_on u c req in
  match first with
  | Ok resp => IoRet (Ok resp)
  | Panic => IoRet Panic
  | Err e =>
      if was_cached && should_retry e then
        try* c := reset_conn u in
        exchange_on u c req
      else
        let* _ := write_cell (conn u) None in
        IoRet (Err e)
  end.

(** ** Lemmas *)
Lemma unzero_ok body req oid : exchange_ok req (unzero body req oid).
Proof. apply decode_response_exchange_ok. Qed.

Lemma exchange_on_safe P (I : S -> Prop) u c req :
  quiet P -> frames_ok P (set_id req 0) ->
  safe P I (exchange_on u c req) (exchange_ok req).
Proof.
  intros HP Hf. unfold exchange_on.
  apply safe_try_pure; [apply from_sum_not_Panic| |done]. intros b Hb%from_sum_Ok.
  destruct (too_large b) eqn:Hl; [done|]. apply safe_maybe_timeout; [call_ok|done|].
  io_try_call. eapply safe_try_framed; [done..| |done]. do 2 io_try_call.
  destruct (_ <? _)%nat; [done|]. io_try_call. apply unzero_ok.
Qed.

Lemma dial_quic_safe P (I : S -> Prop) a n cfg :
  quiet P -> safe P I (dial_quic a n cfg) (fun r => r <> Panic).
Proof.
  intros HP. unfold dial_quic. io_try_call. io_simpl. split; [call_ok|]. by intros [] ?.
Qed.

Lemma dial_safe P (I : S -> Prop) u :
  quiet P -> resolver_ok P I (host u) (resolver u) -> safe P I (dial u) (fun r => r <> Panic).
Proof.
  intros HP Hr. unfold dial. apply safe_try_resolve; [done|done| |done]. intros addrs _.
  apply safe_try_pure; [apply ok_or_not_Panic| |done]. intros a _. by apply dial_quic_safe.
Qed.

(** The cell may be written at any time; its invariant is the caller's. *)
Definition cell_free (I : S -> Prop) {T} (c : cell S T) : Prop :=
  forall v s, I s -> I (poke c v s).

Lemma reset_conn_safe P (I : S -> Prop) u :
  quiet P -> resolver_ok P I (host u) (resolver u) -> cell_free I (conn u) ->
  safe P I (reset_conn u) (fun r => r <> Panic).
Proof.
  intros HP Hr Hc. unfold reset_conn.
  eapply safe_try; [by apply dial_safe| |done|done]. intros c _.
  eapply safe_bind; [by apply (safe_write_cell _ _ _ _ (fun _ => True)); auto|done].
Qed.

Lemma doq_exchange_safe P (I : S -> Prop) u req :
  quiet P -> frames_ok P (set_id req 0) ->
  resolver_ok P I (host u) (resolver u) -> cell_free I (conn u) ->
  safe P I (exchange u req) (exchange_ok req).
Proof.
  intros HP Hf Hr Hc. unfold exchange.
  apply (safe_try _ _ _ _ (fun r => r <> Panic)); [|intros [c was] _|done|done].
  - unfold get_conn. eapply safe_bind; [by apply (safe_read_cell _ _ _ (fun _ => True))|].
    intros [c|] _; [done|].
    eapply safe_try; [by apply dial_safe| |done|done]. intros c _.
    eapply safe_bind; [by apply (safe_write_cell _ _ _ _ (fun _ => True)); auto|done].
  - eapply safe_bind; [by apply exchange_on_safe|]. intros [m|e|] Hm; [done| |done].
    destruct (was && should_retry e).
    + eapply safe_try; [by apply reset_conn_safe| |done|done].
      intros c' _. by apply exchange_on_safe.
    + eapply safe_bind; [by apply (safe_write_cell _ _ _ _ (fun _ => True)); auto|done].
Qed.
End Exchange.

(** ** The retry policy *)
Definition opens X (e : eff X) : nat := match e with QuicOpenBi _ => 1 | _ => 0 end.
Definition connections X (e : eff X) : nat := match e with QuicConnect _ _ _ _ => 1 | _ => 0 end.
(** The calls an attempt makes on its stream weigh nothing. *)
Definition stream_free (cnt : forall X, eff X -> nat) : Prop :=
  cnt _ InstantNow = O /\ (forall h b, cnt _ (WriteAll h b) = O)
  /\ (forall h n, cnt _ (ReadExact h n) = O) /\ (forall h, cnt _ (QuicFinish h) = O).

Section Retry.
Context {S : Type} `{HL : DnsLib} {HC : DnsCodec}.
Implicit Types (u : DoqUpstream S).

Lemma exchange_on_at_most cnt u c req :
  stream_free cnt -> at_most cnt (cnt _ (QuicOpenBi c)) (exchange_on u c req).
Proof.
  intros (H0 & H1 & H2 & H3). unfold exchange_on.
  apply at_most_try_pure. intros b. destruct (too_large b); [exact I|].
  apply at_most_maybe_timeout; [done|]. rewrite <- (Nat.add_0_r (cnt _ (QuicOpenBi c))).
  apply at_most_try; [by apply at_most_map_err, at_most_call|]. intros stream.
  assert (forall X (e : eff (res X io_err)), cnt _ e = O ->
            at_most (S := S) cnt 0 (io_map_err Quic (call e))) as Hc
    by (intros X e He; apply at_most_map_err, at_most_call; lia).
  apply (at_most_try _ 0 0); [apply (at_most_try _ 0 0); auto|]. intros _.
  apply (at_most_try _ 0 0); [auto|]. intros _.
  apply (at_most_try _ 0 0); [auto|]. intros l.
  destruct (_ <? _)%nat; [done|]. apply (at_most_try _ 0 0); [auto|done].
Qed.

Lemma exchange_on_stateless u c req : stateless (exchange_on u c req).
Proof.
  unfold exchange_on. apply stateless_try_pure. intros b.
  destruct (too_large b); [exact I|]. apply stateless_maybe_timeout.
  repeat first [ apply stateless_try; [|intros ?] | apply stateless_bind; [|done]
               | case_match | done ].
Qed.

(** A literal host needs no lookup. *)
Lemma dial_literal u ip :
  parse_ip_addr (host u) = Some ip ->
  dial u = dial_quic (socket_addr_new ip (port u)) (host u)
             (build_tls_config (host u) (insecure_skip_verify u) [DOQ_ALPN]).
Proof. intros Hip. unfold dial, resolve_addrs. by rewrite Hip. Qed.

Lemma dial_counts u ip s tr r s' :
  parse_ip_addr (host u) = Some ip -> exec (dial u) s tr r s' ->
  s' = s /\ total opens tr = O /\ (total connections tr <= 1)%nat.
Proof.
  intros Hip. rewrite (dial_literal u ip Hip). intros Hx. split_and!.
  - eapply stateless_exec; [|exact Hx]. apply stateless_try; [done|]. intros ?. done.
  - enough (total opens tr <= 0)%nat by lia. eapply at_most_exec; [|exact Hx].
    apply (at_most_try _ 0 0); [|intros ?]; apply at_most_map_err, at_most_call; done.
  - eapply at_most_exec; [|exact Hx].
    apply (at_most_try _ 0 1); [|intros ?]; apply at_most_map_err, at_most_call; simpl; lia.
Qed.

Lemma get_conn_exec u ip s tr r s' `{!CellLaws (conn u)} :
  parse_ip_addr (host u) = Some ip -> exec (get_conn u) s tr r s' ->
  total opens tr = O
  /\ match peek (conn u) s with
     | Some c => r = Ok (c, true) /\ s' = s /\ total connections tr = O
     | None => (total connections tr <= 1)%nat
               /\ match r with
                  | Ok (c, was) => was = false /\ peek (conn u) s' = Some c
                  | _ => s' = s
                  end
     end.
Proof.
  intros Hip. unfold get_conn. simpl. destruct (peek (conn u) s) as [c|].
  - simpl. by intros (-> & -> & ->).
  - rewrite exec_try. intros (r0 & s0 & tr1 & tr2 & -> & Hd & Hk).
    apply (dial_counts _ ip) in Hd as (-> & Ho & Hn); [|done]. rewrite !total_app.
    destruct r0 as [c|e|]; simpl in Hk; destruct Hk as (-> & -> & ->);
      (split; [simpl; lia|]); (split; [simpl; lia|]); try done.
    by rewrite peek_poke.
Qed.

Lemma reset_conn_exec u ip s tr r s' `{!CellLaws (conn u)} :
  parse_ip_addr (host u) = Some ip -> exec (reset_conn u) s tr r s' ->
  total opens tr = O /\ (total connections tr <= 1)%nat
  /\ match r with Ok c => peek (conn u) s' = Some c | _ => s' = s end.
Proof.
  intros Hip. unfold reset_conn. rewrite exec_try. intros (r0 & s0 & tr1 & tr2 & -> & Hd & Hk).
  apply (dial_counts _ ip) in Hd as (-> & Ho & Hn); [|done]. rewrite !total_app.
  destruct r0 as [c|e|]; simpl in Hk; destruct Hk as (-> & -> & ->); simpl;
    (split; [lia|]); (split; [lia|]); try done.
  by rewrite peek_poke.
Qed.

Lemma exchange_on_exec u c req s tr r s' :
  exec (exchange_on u c req) s tr r s' ->
  s' = s /\ (total opens tr <= 1)%nat /\ total connections tr = O.
Proof.
  intros Hx. split_and!.
  - eapply stateless_exec; [|exact Hx]. apply exchange_on_stateless.
  - eapply at_most_exec; [|exact Hx]. by apply (exchange_on_at_most opens).
  - enough (total connections tr <= 0)%nat by lia.
    eapply at_most_exec; [|exact Hx]. by apply (exchange_on_at_most connections).
Qed.

(** C28: one exchange over QUIC to an upstream named by address opens at most
    two streams and dials at most once; it uses a second stream only when
    the connection was a cached one. A success leaves a connection cached;
    after a failure on a connection that was not cached, nothing stays
    cached. *)
Theorem doq_retry_policy u ip req s tr r s' `{!CellLaws (conn u)} :
  parse_ip_addr (host u) = Some ip -> exec (exchange u req) s tr r s' ->
  (total opens tr <= 2)%nat /\ (total connections tr <= 1)%nat
  /\ (peek (conn u) s = None -> (total opens tr <= 1)%nat
      /\ forall e, r = Err e -> peek (conn u) s' = None)
  /\ (forall m, r = Ok m -> peek (conn u) s' <> None).
Proof.
  intros Hip. unfold exchange. rewrite exec_try.
  intros (r0 & s0 & tr1 & tr2 & -> & Hg & Hk).
  apply (get_conn_exec _ ip) in Hg as (Ho & Hg); [|done..]. rewrite !total_app.
  destruct r0 as [[c was]|e|].
  2,3: destruct Hk as (-> & -> & ->); simpl; destruct (peek (conn u) s) eqn:Ec;
    [by destruct Hg|destruct Hg as [? ->]; rewrite Ec; split_and!; (done || lia || naive_solver lia)].
  apply exec_bind in Hk as (r1 & s1 & tr3 & tr4 & -> & H1 & H2). rewrite !total_app.
  apply exchange_on_exec in H1 as (-> & Ho1 & Hc1).
  assert (peek (conn u) s0 = Some c) as Hs0.
  { destruct (peek (conn u) s) eqn:Ec; [destruct Hg as (? & -> & _)|]; naive_solver. }
  assert (total connections tr1 <= 1)%nat as Hn1 by (destruct (peek (conn u) s); naive_solver lia).
  destruct r1 as [m|e|].
  1,3: destruct H2 as (-> & -> & ->); simpl; rewrite Hs0; split_and!; (done || lia || naive_solver lia).
  destruct (was && should_retry e) eqn:Ewas.
  - assert (was = true) as -> by (by destruct was).
    destruct (peek (conn u) s) as [c'|] eqn:Ec; [|naive_solver]. destruct Hg as (? & -> & Hz).
    rewrite exec_try in H2. destruct H2 as (r2 & s2 & tr5 & tr6 & -> & H2 & H3).
    rewrite !total_app. apply (reset_conn_exec _ ip) in H2 as (Ho2 & Hc2 & Hs2); [|done..].
    destruct r2 as [c2|e2|].
    + apply exchange_on_exec in H3 as (-> & Ho3 & Hc3). rewrite Hs2.
      split_and!; (done || lia).
    + destruct H3 as (-> & -> & ->). simpl. split_and!; (done || lia).
    + destruct H3 as (-> & -> & ->). simpl. split_and!; (done || lia).
  - simpl in H2. destruct H2 as (-> & -> & ->). simpl. rewrite peek_poke.
    split_and!; (done || lia || naive_solver lia).
Qed.
End Retry.

(** ** Witness: a cached connection refuses 0-RTT, the fresh one closes *)
Section Witnesses.
#[local] Existing Instances Toy.lib Toy.codec.
Definition w_upstream : DoqUpstream (option handle) :=
  {| host := "1.2.3.4"; port := 853; addr_redacted := "quic://1.2.3.4:853";
     resolver := SystemResolver; prefer_ipv6 := false; timeout := None;
     insecure_skip_verify := false; conn := whole |}.
Definition w_addr : SocketAddr := SockV4 (Ipv4 x01 x02 x03 x04) 853.
Definition w_trace : list event :=
  [Event (QuicOpenBi 3%nat) (Err "0-RTT rejected"); Event (QuicEndpoint "0.0.0.0:0") (Ok 4%nat);
   Event (QuicConnect 4%nat (build_tls_config "1.2.3.4" false [DOQ_ALPN]) "1.2.3.4" w_addr) (Ok 5%nat);
   Event (QuicOpenBi 5%nat) (Err "closed")].

Lemma doq_retry_policy_witness :
  (total opens w_trace <= 2)%nat /\ (total connections w_trace <= 1)%nat
  /\ (Some 3%nat = None -> (total opens w_trace <= 1)%nat
      /\ forall e, (Err (Quic "closed") : res (@Message Toy.lib) DohError) = Err e ->
           Some 5%nat = None)
  /\ (forall m, (Err (Quic "closed") : res (@Message Toy.lib) DohError) = Ok m ->
        Some 5%nat <> None).
Proof.
  apply (doq_retry_policy w_upstream (V4 (Ipv4 x01 x02 x03 x04))
           (Toy.query 9 "example.com." 1) (Some 3%nat) w_trace _ (Some 5%nat)); [reflexivity|].
  simpl. do 4 (eexists _, _; split; [|split; [reflexivity|]]; [exact I|]). done.
Defined.
End Witnesses.
