(* ===== verification/Doh3.v ===== *)
(** * HTTP/3 transport

    [src/client/doh3.rs]. A transport is an object with its own mutex; the
    transports of an upstream live in a heap cell ([senders]), indexed by
    [t_id], because a task may still use a transport another task has already
    replaced. *)
From S2P Require Import Prelude RustStr RustNet Io Dns Errors WebLib Wire Bootstrap Framing.
From S2P Require Import Dot Doq.

Implicit Type P : forall X, eff X -> Prop.

Record Http3Transport (S : Type) := MkHttp3 {
  t_id : nat;
  server_addr : SocketAddr;
  t_server_name : string;
  tls_config : TlsConfig;
  t_timeout : option Z;
  t_path : string;
  t_basic_auth_header : option string;
  senders : cell S (list (option handle));
}.
Arguments MkHttp3 {S}.
Arguments t_id {S}.
Arguments server_addr {S}.
Arguments t_server_name {S}.
Arguments tls_config {S}.
Arguments t_timeout {S}.
Arguments t_path {S}.
Arguments t_basic_auth_header {S}.
Arguments senders {S}.

(** The request both HTTP transports build: [Uri] parsing, then the builder
    with its header checks. *)
Definition request_headers (auth : option string) : list (string * string) :=
  [("user-agent", ""); ("accept", "application/dns-message")]
  ++ match auth with Some a => [("authorization", a)] | None => [] end.
Definition build_request `{WebLib} (uri : string) (auth : option string)
  : res HttpRequest DohError :=
  let? _ := from_sum (fun e => Http ("building request uri: " +:+ e)) (Uri_parse uri) in
  let headers := request_headers auth in
  match request_error headers with
  | Some e => Err (Http ("building request: " +:+ e))
  | None => Ok {| hr_uri := uri; hr_headers := headers |}
  end.

(** [StatusCode::is_success]. *)
Definition is_success (status : Z) : bool := (200 <=? status) && (status <? 300).

Section Transport.
Context {S : Type} `{HL : DnsLib} {HC : DnsCodec} {HB : Base64} {HW : WebLib}.
Implicit Types (t : Http3Transport S).

(** [Http3Transport::new] puts an empty mutex on the heap. *)
Definition new_transport (c : cell S (list (option handle))) (a : SocketAddr) (n : string)
    (cfg : TlsConfig) (timeout : option Z) (path : string) (auth : option string)
  : io S (Http3Transport S) :=
  atomically (fun s =>
    let heap := peek c s in
    ({| t_id := length heap; server_addr := a; t_server_name := n; tls_config := cfg;
        t_timeout := timeout; t_path := path; t_basic_auth_header := auth; senders := c |},
     poke c (heap ++ [None]) s)).

Definition inner t : io S (option handle) :=
  let* heap := read_cell (senders t) in IoRet (default None (heap !! t_id t)).
Definition set_inner t (v : option handle) : io S unit :=
  atomically (fun s => (tt, poke (senders t) (<[t_id t := v]> (peek (senders t) s)) s)).

Definition dial_quic (addr : SocketAddr) (server_name : string) (tls_config : TlsConfig)
  : io S (res handle DohError) :=
  let local := if sock_is_ipv4 addr then "0.0.0.0:0" else "[::]:0" in
  try* endpoint := io_map_err Quic (call (QuicEndpoint local)) in
  io_map_err Quic (call (QuicConnect endpoint tls_config server_name addr)).

Definition connect t : io S (res handle DohError) :=
  try* quic_conn := dial_quic (server_addr t) (t_server_name t) (tls_config t) in
  io_map_err Quic (call (H3Client quic_conn)).

Definition get_sender t : io S (res handle DohError) :=
  let* guard := inner t in
  match guard with
  | Some s => IoRet (Ok s)
  | None =>
      try* s := connect t in
      let* _ := set_inner t (Some s) in
      IoRet (Ok s)
  end.

Definition reset t : io S (res handle DohError) :=
  try* s := connect t in
  let* _ := set_inner t (Some s) in
  IoRet (Ok s).

(** The [recv_data] loop, of a response or a request; every chunk has at least one byte, so the fuel of
    [exchange_stream] outlasts the size limit. *)
Fixpoint recv_body (what : string) (fuel : nat) (stream : handle) (body : bytes) : io S (res bytes DohError) :=
  match fuel with
  | O => IoRet Panic
  | Datatypes.S fuel =>
      try* chunk := io_map_err Quic (call (H3RecvData stream)) in
      match chunk with
      | None => IoRet (Ok body)
      | Some chunk =>
          let body := body ++ chunk in
          if (MAX_MSG_SIZE <? length body)%nat
          then IoRet (Err (Http (what +:+ " body too large")))
          else recv_body what fuel stream body
      end
  end.

Definition exchange_stream t (sender : handle) (http_req : HttpRequest)
  : io S (res bytes DohError) :=
  try* stream := io_map_err Quic (call (H3Send sender http_req)) in
  try* _ := io_map_err Quic (call (H3Finish stream)) in
  try* status := io_map_err Quic (call (H3RecvResponse stream)) in
  if negb (is_success status)
  then IoRet (Err (UnexpectedStatus status (t_server_name t)))
  else recv_body "response" (Datatypes.S MAX_MSG_SIZE) stream [].

Definition request_uri t (encoded : string) : string :=
  "https://" +:+ t_server_name t +:+ t_path t +:+ "?dns=" +:+ encoded.

Definition exchange t (req : Message) : io S (res Message DohError) :=
  try* sender := get_sender t in
  try* (encoded, original_id) := IoRet (encode_request req) in
  try* http_req := IoRet (build_request (request_uri t encoded) (t_basic_auth_header t)) in
  try* body := maybe_timeout (t_timeout t) Timeout (exchange_stream t sender http_req) in
  IoRet (decode_response body req original_id).

(** ** The probe *)
Definition probe_tls (addr : SocketAddr) (name : string) : io S (res unit DohError) :=
  try* tcp := io_map_err IoError (call (TcpConnect addr)) in
  let config := {| alpn_protocols := []; skip_verify := false |} in
  try* name := IoRet (server_name (fun e => Http ("invalid server name: " +:+ e)) name) in
  try* _ := io_map_err Http (call (TlsConnect config name tcp)) in
  IoRet (Ok ()).

Definition probe_h3 (addr : SocketAddr) (name : string) (cfg : TlsConfig)
    (timeout : option Z) (http_supported : bool) : io S bool :=
  if negb http_supported then IoRet true else
  let quic_probe := io_map is_ok (dial_quic addr name cfg) in
  let tls_probe := io_map is_ok (probe_tls addr name) in
  let race :=
    io_map (fun r => match r with
                     | inl quic_ok => quic_ok
                     | inr tls_ok => negb tls_ok
                     end) (io_race quic_probe tls_probe) in
  match timeout with
  | Some t => io_map (default false) (Io.timeout t race)
  | None => race
  end.

(** ** Lemmas *)
Lemma encode_request_id req enc oid :
  encode_request req = Ok (enc, oid) -> oid = msg_id req.
Proof. unfold encode_request. intros H. inv_ok H. by simplify_eq. Qed.
Lemma build_request_Ok uri auth r :
  build_request uri auth = Ok r -> r = {| hr_uri := uri; hr_headers := request_headers auth |}.
Proof.
  unfold build_request. intros H. inv_ok H. by destruct (request_error _); simplify_eq.
Qed.
Lemma build_request_not_Panic uri auth : build_request uri auth <> Panic.
Proof. unfold build_request. destruct (Uri_parse uri); simpl; [done|]. by case_match. Qed.

Lemma recv_body_safe P (I : S -> Prop) what fuel stream body :
  quiet P -> (MAX_MSG_SIZE < fuel + length body)%nat -> (length body <= MAX_MSG_SIZE)%nat ->
  safe P I (recv_body what fuel stream body)
    (fun r => match r with
              | Ok b => (length b <= MAX_MSG_SIZE)%nat | Err _ => True | Panic => False end).
Proof.
  intros HP. revert body. induction fuel as [|fuel IH]; intros body Hf Hb; [lia|].
  cbn [recv_body]. io_try_call. destruct a as [chunk|]; [|done].
  destruct (Nat.ltb_spec MAX_MSG_SIZE (length (body ++ chunk))); [done|].
  apply IH; [rewrite length_app; lia|done].
Qed.

Lemma connect_safe P (I : S -> Prop) t :
  quiet P -> safe P I (connect t) (fun r => r <> Panic).
Proof.
  intros HP. unfold connect. eapply safe_try; [by apply dial_quic_safe| |done|done]. intros c _.
  io_simpl. split; [call_ok|]. by intros [] ?.
Qed.

Lemma set_inner_safe P (I : S -> Prop) t v (Q : unit -> Prop) :
  cell_free I (senders t) -> Q tt -> safe P I (set_inner t v) Q.
Proof. intros HI HQ s Hs. simpl. auto. Qed.

Lemma reset_safe P (I : S -> Prop) t :
  quiet P -> cell_free I (senders t) -> safe P I (reset t) (fun r => r <> Panic).
Proof.
  intros HP HI. unfold reset. eapply safe_try; [by apply connect_safe| |done|done]. intros s _.
  eapply safe_bind; [by apply (set_inner_safe _ _ _ _ (fun _ => True))|done].
Qed.

Lemma get_sender_safe P (I : S -> Prop) t :
  quiet P -> cell_free I (senders t) -> safe P I (get_sender t) (fun r => r <> Panic).
Proof.
  intros HP HI. unfold get_sender, inner. simpl. intros s Hs. split; [done|].
  destruct (default None _); [done|]. by apply reset_safe.
Qed.

Lemma doh3_exchange_safe P (I : S -> Prop) t req :
  quiet P ->
  (forall h enc, encode_request req = Ok (enc, msg_id req) ->
     P _ (H3Send h {| hr_uri := request_uri t enc;
                      hr_headers := request_headers (t_basic_auth_header t) |})) ->
  cell_free I (senders t) -> safe P I (exchange t req) (exchange_ok req).
Proof.
  intros HP Hs HI. unfold exchange.
  eapply safe_try; [by apply get_sender_safe| |done|done]. intros sender _.
  apply safe_try_pure; [apply encode_request_not_panic| |done]. intros [enc oid] Henc.
  apply safe_try_pure; [apply build_request_not_Panic| |done].
  intros r ->%build_request_Ok.
  pose proof (encode_request_id _ _ _ Henc) as ->.
  apply (safe_try _ _ _ _ (fun r => r <> Panic)); [| |done|done].
  - apply (safe_maybe_timeout _ _ _ _ _ (fun r => r <> Panic)); [call_ok|done|].
    unfold exchange_stream. do 3 io_try_call. destruct (negb _); [done|].
    eapply safe_mono; [|apply (recv_body_safe P I _ (Datatypes.S MAX_MSG_SIZE) a [])].
    + by intros [].
    + done.
    + rewrite Nat.add_0_r. apply Nat.lt_succ_diag_r.
    + apply Nat.le_0_l.
  - intros b _. apply decode_response_exchange_ok.
Qed.

Lemma probe_tls_safe P (I : S -> Prop) a n :
  quiet P -> safe P I (probe_tls a n) (fun _ => True).
Proof.
  intros HP. unfold probe_tls. io_try_call. apply safe_try_pure; [apply server_name_not_panic| |done].
  intros ? _. by io_try_call.
Qed.

Lemma probe_h3_safe P (I : S -> Prop) a n cfg (limit : option Z) b :
  quiet P -> safe P I (probe_h3 a n cfg limit b) (fun _ => True).
Proof.
  intros HP. unfold probe_h3. destruct (negb b); [done|].
  assert (forall A (p : io S A), safe P I p (fun _ => True) ->
            forall B (f : A -> B), safe P I (io_map f p) (fun _ => True)) as Hmap
    by (intros; by apply safe_map).
  assert (safe P I (io_race (io_map is_ok (dial_quic a n cfg))
                                   (io_map is_ok (probe_tls a n))) (fun _ => True)) as Hr.
  { apply safe_race; [call_ok| |]; apply Hmap; [|by apply probe_tls_safe].
    eapply safe_mono; [|by apply dial_quic_safe]. done. }
  destruct limit as [d|]; [|by apply Hmap]. apply Hmap.
  apply safe_timeout; [call_ok|done|by apply Hmap].
Qed.
End Transport.

(** What a probe's trace shows: whether a QUIC handshake succeeded in it. *)
Definition quic_connected (ev : event) : bool :=
  match ev with
  | Event e x =>
      match e in eff X return X -> bool with
      | QuicConnect _ _ _ _ => is_ok
      | _ => fun _ => false
      end x
  end.
