(* ===== verification/Doh.v ===== *)
(** * The DNS-over-HTTPS upstream

    [src/client/doh.rs]: the lazily created [hyper] client in a shared cell
    with its one retry, and the choice between HTTP/3 and HTTP/2 with its
    cached probe. [hyper]'s connection pool is outside the model: a built client
    is a handle, and [connector_call] is the code the pool calls to connect. *)
From S2P Require Import Prelude RustStr RustNet Io Dns Errors WebLib Wire Bootstrap Framing.
From S2P Require Import Dot Doq Doh3.

Implicit Type P : forall X, eff X -> Prop.
Implicit Type cnt : forall X, eff X -> nat.

Definition DEFAULT_PORT_DOH : Z := 443.

Record DohUpstream (S : Type) := MkDoh {
  host : string;
  port : Z;
  path : string;
  addr_redacted : string;
  http_versions : list HttpVersion;
  resolver : Resolver S;
  prefer_ipv6 : bool;
  timeout : option Z;
  insecure_skip_verify : bool;
  basic_auth_header : option string;
  client : cell S (option handle);
  h3 : cell S (option (Http3Transport S));
  prefer_h3 : cell S (option bool);
  transports : cell S (list (option handle));
}.
Arguments MkDoh {S}.
Arguments host {S}.
Arguments port {S}.
Arguments path {S}.
Arguments addr_redacted {S}.
Arguments http_versions {S}.
Arguments resolver {S}.
Arguments prefer_ipv6 {S}.
Arguments timeout {S}.
Arguments insecure_skip_verify {S}.
Arguments basic_auth_header {S}.
Arguments client {S}.
Arguments h3 {S}.
Arguments prefer_h3 {S}.
Arguments transports {S}.

(** Where a new upstream's three mutexes, and its transports, live. *)
Record DohCells (S : Type) := MkDohCells {
  new_client : cell S (option handle);
  new_h3 : cell S (option (Http3Transport S));
  new_prefer_h3 : cell S (option bool);
  new_transports : cell S (list (option handle));
}.
Arguments new_client {S}.
Arguments new_h3 {S}.
Arguments new_prefer_h3 {S}.
Arguments new_transports {S}.

(** [HttpsConnector::call], what [hyper] runs for a new connection. *)
Definition connector_call `{WebLib} {S} (c : HttpsConnector) : io S (res handle DohError) :=
  try* conn := new_dial_context (hc_dial_timeout c) (hc_addrs c) Tcp in
  match conn with
  | ConnUdp _ _ => IoRet (Err (Http "expected tcp connection"))
  | ConnTcp tcp =>
      try* name := IoRet (server_name (fun e => Http ("invalid server name: " +:+ e))
                                      (hc_server_name c)) in
      io_map_err (fun e => Http ("tls handshake failed: " +:+ e))
        (call (TlsConnect (hc_tls_config c) name tcp))
  end.

(** The loop over [source()]. *)
Definition error_chain (parts : list string) : string := join " -> " parts.

Definition is_http3 (v : HttpVersion) : bool := bool_decide (v = Http3).

Section Exchange.
Context {S : Type} `{HL : DnsLib} {HC : DnsCodec} {HB : Base64} {HW : WebLib}.
Implicit Types (u : DohUpstream S).

Definition new (h : string) (p : option Z) (pa : string) (opts : Options (Resolver S))
    (cells : DohCells S) : DohUpstream S :=
  let p := default DEFAULT_PORT_DOH p in
  {| host := h; port := p; path := pa;
     addr_redacted := "https://" +:+ h +:+ ":" +:+ dec p +:+ pa;
     http_versions := resolved_http_versions opts;
     resolver := default SystemResolver (bootstrap opts);
     prefer_ipv6 := Errors.prefer_ipv6 opts;
     timeout := opt_timeout opts;
     insecure_skip_verify := Errors.insecure_skip_verify opts;
     basic_auth_header :=
       (fun '(user, pass) =>
          "Basic " +:+ b64_encode STANDARD (as_bytes (user +:+ ":" +:+ pass)))
       <$> basic_auth opts;
     client := new_client cells; h3 := new_h3 cells;
     prefer_h3 := new_prefer_h3 cells; transports := new_transports cells |}.
Definition address u : string := addr_redacted u.

Definition http2_supported u : bool := existsb (fun v => negb (is_http3 v)) (http_versions u).

Definition resolve_first u : io S (res SocketAddr DohError) :=
  try* addrs := resolve_addrs (host u) (port u) (timeout u) (resolver u) (prefer_ipv6 u) in
  IoRet (ok_or (Bootstrap ("no addresses for " +:+ host u)) (head addrs)).

Definition should_use_http3 u : io S (res bool DohError) :=
  let allows_http3 := existsb is_http3 (http_versions u) in
  if negb allows_http3 then IoRet (Ok false)
  else if negb (http2_supported u) then IoRet (Ok true)
  else
    let* cached := read_cell (prefer_h3 u) in
    match cached with
    | Some prefer => IoRet (Ok prefer)
    | None =>
        try* addr := resolve_first u in
        let tls_config :=
          build_tls_config (host u) (insecure_skip_verify u) [as_bytes "h2"] in
        let* prefer := probe_h3 addr (host u) tls_config (timeout u) true in
        let* _ := write_cell (prefer_h3 u) (Some prefer) in
        IoRet (Ok prefer)
    end.

Definition create_client u : io S (res handle DohError) :=
  try* addrs := resolve_addrs (host u) (port u) (timeout u) (resolver u) (prefer_ipv6 u) in
  let alpns :=
    (fun v => as_bytes (alpn v)) <$> List.filter (fun v => negb (is_http3 v)) (http_versions u) in
  match alpns with
  | [] => IoRet (Err NoSupportedVersions)
  | _ =>
      let tls_config := build_tls_config (host u) (insecure_skip_verify u) alpns in
      let connector :=
        {| hc_addrs := addrs; hc_dial_timeout := timeout u; hc_tls_config := tls_config;
           hc_server_name := host u |} in
      let* c := call (HttpClientBuild connector) in
      IoRet (Ok c)
  end.

Definition get_client u : io S (res (handle * bool) DohError) :=
  let* guard := read_cell (client u) in
  match guard with
  | Some c => IoRet (Ok (c, true))
  | None =>
      let* start := call InstantNow in
      try* c := create_client u in
      let keep :=
        let* _ := write_cell (client u) (Some c) in
        IoRet (Ok (c, false)) in
      match timeout u with
      | Some t =>
          let* now := call InstantNow in
          if t <? Z.max 0 (now - start) then
            let* now := call InstantNow in
            IoRet (Err (Timeout (Z.max 0 (now - start))))
          else keep
      | None => keep
      end
  end.

Definition reset_client u : io S (res handle DohError) :=
  try* c := create_client u in
  let* _ := write_cell (client u) (Some c) in
  IoRet (Ok c).

Definition reset_client_ignore_err u : io S unit := write_cell (client u) None.

Definition get_h3_transport u : io S (res (Http3Transport S * bool) DohError) :=
  let* guard := read_cell (h3 u) in
  match guard with
  | Some t => IoRet (Ok (t, true))
  | None =>
      try* addr := resolve_first u in
      let tls_config := build_tls_config (host u) (insecure_skip_verify u) [as_bytes "h3"] in
      let* t := new_transport (transports u) addr (host u) tls_config (timeout u) (path u)
                  (basic_auth_header u) in
      let* _ := write_cell (h3 u) (Some t) in
      IoRet (Ok (t, false))
  end.

Definition exchange_h3 u (req : Message) : io S (res Message DohError) :=
  try* (transport, was_cached) := get_h3_transport u in
  let* first := Doh3.exchange transport req in
  match first with
  | Ok resp => IoRet (Ok resp)
  | Panic => IoRet Panic
  | Err e =>
      if was_cached && should_retry e then
        try* _ := reset transport in
        Doh3.exchange transport req
      else
        let* _ := write_cell (h3 u) None in
        IoRet (Err e)
  end.

Definition request_uri u (encoded : string) : string :=
  "https://" +:+ host u +:+ ":" +:+ dec (port u) +:+ path u +:+ "?dns=" +:+ encoded.

(** The time-out covers the response head; the body is read after it. *)
Definition exchange_https u (c : handle) (req : Message) : io S (res Message DohError) :=
  try* (encoded, original_id) := IoRet (encode_request req) in
  try* http_req := IoRet (build_request (request_uri u encoded) (basic_auth_header u)) in
  try* (status, resp) :=
    maybe_timeout (timeout u) Timeout
      (io_map_err (fun parts => Http (error_chain parts)) (call (HttpSend c http_req))) in
  try* body := io_map_err (fun e => Http ("reading body: " +:+ e)) (call (HttpBody resp)) in
  if negb (is_success status) then
    IoRet (Err (UnexpectedStatus status (addr_redacted u)))
  else if (MAX_MSG_SIZE <? length body)%nat then
    IoRet (Err (Http ("response body too large: " +:+ dec (Z.of_nat (length body)) +:+ " bytes")))
  else IoRet (decode_response body req original_id).

Definition exchange u (req : Message) : io S (res Message DohError) :=
  try* use_http3 := should_use_http3 u in
  if (use_http3 : bool) then exchange_h3 u req
  else
    try* (c, was_cached) := get_client u in
    let* first := exchange_https u c req in
    match first with
    | Ok resp => IoRet (Ok resp)
    | Panic => IoRet Panic
    | Err e =>
        if was_cached && should_retry e then
          try* c := reset_client u in
          exchange_https u c req
        else
          let* _ := reset_client_ignore_err u in
          IoRet (Err e)
    end.

Definition into_handler u (req : Message) : io S (res Message DohError) := exchange u req.

(** ** Lemmas *)

(** The requests an exchange may send: the query with a zeroed identifier as
    parameter of this upstream's URL, with its credentials; over HTTP/3, of a
    transport's, where the transports [T] are those it may use. *)
Definition sends_request P u (T : Http3Transport S -> Prop) (req : Message) : Prop :=
  forall enc, encode_request req = Ok (enc, msg_id req) ->
    (forall c, P _ (HttpSend c {| hr_uri := request_uri u enc;
                                  hr_headers := request_headers (basic_auth_header u) |}))
    /\ (forall h t, T t ->
          P _ (H3Send h {| hr_uri := Doh3.request_uri t enc;
                           hr_headers := request_headers (t_basic_auth_header t) |})).
Definition requests_ok P u : Message -> Prop := sends_request P u (fun _ => True).
(** What an invariant must allow: any write to the upstream's cells, as long
    as a transport in the [h3] cell is in [T] and lives in this upstream's heap. *)
Definition home u (T : Http3Transport S -> Prop) (t : option (Http3Transport S)) : Prop :=
  forall x, t = Some x -> senders x = transports u /\ T x.
Definition cells_hold (I : S -> Prop) u (T : Http3Transport S -> Prop) : Prop :=
  cell_free I (client u) /\ cell_free I (prefer_h3 u) /\ cell_free I (transports u)
  /\ (forall t s, home u T t -> I s -> I (poke (h3 u) t s))
  /\ (forall s, I s -> home u T (peek (h3 u) s)).
Definition cells_free (I : S -> Prop) u : Prop := cells_hold I u (fun _ => True).
(** The transports an upstream makes: for its own host, path and credentials. *)
Definition own_transport u (t : Http3Transport S) : Prop :=
  t_server_name t = host u /\ t_path t = path u /\ t_basic_auth_header t = basic_auth_header u.

Lemma resolve_first_safe P (I : S -> Prop) u :
  quiet P -> resolver_ok P I (host u) (resolver u) ->
  safe P I (resolve_first u) (fun r => r <> Panic).
Proof.
  intros HP Hr. unfold resolve_first. apply safe_try_resolve; [done|done| |done].
  intros addrs _. simpl. apply ok_or_not_Panic.
Qed.

Lemma safe_then_write {T A} P (I : S -> Prop) (c : cell S T) v (a : A) Q :
  cell_free I c -> Q a -> safe P I (let* _ := write_cell c v in IoRet a) Q.
Proof. intros Hc HQ s Hs. simpl. auto. Qed.

Lemma create_client_safe P (I : S -> Prop) u :
  quiet P -> resolver_ok P I (host u) (resolver u) ->
  safe P I (create_client u) (fun r => r <> Panic).
Proof.
  intros HP Hr. unfold create_client. apply safe_try_resolve; [done|done| |done].
  intros addrs _. destruct (_ <$> _); [done|]. simpl. split; [call_ok|done].
Qed.

Lemma reset_client_safe P (I : S -> Prop) u :
  quiet P -> resolver_ok P I (host u) (resolver u) -> cell_free I (client u) ->
  safe P I (reset_client u) (fun r => r <> Panic).
Proof.
  intros HP Hr Hc. unfold reset_client.
  eapply safe_try; [by apply create_client_safe| |done|done].
  intros c _. by apply safe_then_write.
Qed.

Lemma get_client_safe P (I : S -> Prop) u :
  quiet P -> resolver_ok P I (host u) (resolver u) -> cell_free I (client u) ->
  safe P I (get_client u) (fun r => r <> Panic).
Proof.
  intros HP Hr Hc. unfold get_client.
  eapply safe_bind; [by apply (safe_read_cell _ _ _ (fun _ => True))|].
  intros [c|] _; [done|]. simpl. split; [call_ok|]. intros start _.
  eapply safe_try; [by apply create_client_safe| |done|done]. intros c _.
  destruct (timeout u) as [t|]; [|by apply safe_then_write].
  simpl. split; [call_ok|]. intros now _. destruct (t <? _); [|by apply safe_then_write].
  simpl. split; [call_ok|done].
Qed.

Lemma should_use_http3_safe P (I : S -> Prop) u :
  quiet P -> resolver_ok P I (host u) (resolver u) -> cell_free I (prefer_h3 u) ->
  safe P I (should_use_http3 u) (fun r => r <> Panic).
Proof.
  intros HP Hr Hc. unfold should_use_http3.
  destruct (negb (existsb _ _)); [done|]. destruct (negb (http2_supported u)); [done|].
  eapply safe_bind; [by apply (safe_read_cell _ _ _ (fun _ => True))|].
  intros [b|] _; [done|]. eapply safe_try; [by apply resolve_first_safe| |done|done].
  intros a _. eapply safe_bind; [by apply probe_h3_safe|]. intros b _.
  by apply safe_then_write.
Qed.

Lemma exchange_https_safe P (I : S -> Prop) u T c req :
  quiet P -> sends_request P u T req ->
  safe P I (exchange_https u c req) (exchange_ok req).
Proof.
  intros HP Hs. unfold exchange_https.
  apply safe_try_pure; [apply encode_request_not_panic| |done]. intros [enc oid] Henc.
  apply safe_try_pure; [apply build_request_not_Panic| |done].
  intros r ->%build_request_Ok. pose proof (encode_request_id _ _ _ Henc) as ->.
  destruct (Hs _ Henc) as [Hs1 _].
  apply (safe_try _ _ _ _ (fun r => r <> Panic)); [| |done|done].
  - apply safe_maybe_timeout; [call_ok|done|]. simpl. split; [apply Hs1|]. by intros [] ?.
  - intros [status resp] _. io_try_call. destruct (negb _); [done|].
    destruct (_ <? _)%nat; [done|]. apply decode_response_exchange_ok.
Qed.

Section Transports.
Context (P : forall X, eff X -> Prop) (I : S -> Prop) (u : DohUpstream S) (T : Http3Transport S -> Prop).
Context (HP : quiet P) (Hr : resolver_ok P I (host u) (resolver u)).
Context (Hc : cells_hold I u T) (HT : forall t, own_transport u t -> T t).
Lemma get_h3_transport_safe :
  safe P I (get_h3_transport u)
    (fun r => match r with Ok (t, _) => senders t = transports u /\ T t | Err _ => True | Panic => False end).
Proof using HP Hr Hc HT.
  destruct Hc as (_ & _ & Ht & Hw & Hinv). unfold get_h3_transport.
  eapply safe_bind; [by apply (safe_read_cell _ _ _ (home u T))|].
  intros [t|] Hg; [by apply Hg|]. eapply safe_try; [by apply resolve_first_safe| |done|done].
  intros a _. simpl. intros s Hs. split; [by apply Ht|]. simpl. intros s' Hs'.
  split; [|by split; [|apply HT]]. apply Hw; [|done]. intros x [= <-]. by split; [|apply HT].
Qed.

Lemma exchange_h3_safe req : sends_request P u T req -> safe P I (exchange_h3 u req) (exchange_ok req).
Proof using HP Hr Hc HT.
  intros Hs. unfold exchange_h3.
  eapply safe_try; [by apply get_h3_transport_safe| |done|done]. intros [t was] [Ht HTt].
  assert (cell_free I (senders t)) as Hct by (rewrite Ht; apply Hc).
  assert (safe P I (Doh3.exchange t req) (exchange_ok req)) as He.
  { apply doh3_exchange_safe; [done| |done]. intros h enc Henc. by apply Hs. }
  eapply safe_bind; [exact He|]. intros [m|e|] Hm; [done| |done].
  destruct (was && should_retry e).
  - eapply safe_try; [by apply reset_safe| |done|done]. by intros _ _.
  - simpl. intros s Hs'. split; [|done]. by apply Hc.
Qed.

Lemma exchange_sends req : sends_request P u T req -> safe P I (exchange u req) (exchange_ok req).
Proof using HP Hr Hc HT.
  intros Hs. unfold exchange.
  eapply safe_try; [by apply should_use_http3_safe; [..|apply Hc]| |done|done].
  intros [|] _; [by apply exchange_h3_safe|].
  eapply safe_try; [by apply get_client_safe; [..|apply Hc]| |done|done]. intros [c was] _.
  eapply safe_bind; [by eapply exchange_https_safe|]. intros [m|e|] Hm; [done| |done].
  destruct (was && should_retry e).
  - eapply safe_try; [by apply reset_client_safe; [..|apply Hc]| |done|done].
    intros c' _. by eapply exchange_https_safe.
  - apply safe_then_write; [apply Hc|done].
Qed.
End Transports.

Lemma doh_exchange_safe P (I : S -> Prop) u req :
  quiet P -> requests_ok P u req -> resolver_ok P I (host u) (resolver u) ->
  cells_free I u -> safe P I (exchange u req) (exchange_ok req).
Proof. intros HP Hs Hr Hc. by eapply exchange_sends. Qed.
End Exchange.

(** ** The retry policy and the choice of version *)
Definition http_sends X (e : eff X) : nat := match e with HttpSend _ _ => 1 | _ => 0 end.
Definition client_builds X (e : eff X) : nat := match e with HttpClientBuild _ => 1 | _ => 0 end.
(** The probe offers only HTTP/2 in its QUIC handshakes. *)
Definition quic_offers_h2 : forall X, eff X -> Prop := fun X e =>
  match e with
  | QuicConnect _ cfg _ _ => alpn_protocols cfg = [as_bytes "h2"]
  | _ => True
  end.

Section Retry.
Context {S : Type} `{HL : DnsLib} {HC : DnsCodec} {HB : Base64} {HW : WebLib}.
Implicit Types (u : DohUpstream S).

Lemma exchange_https_at_most cnt u c req :
  cnt _ InstantNow = O -> (forall h, cnt _ (HttpBody h) = O) ->
  (forall r, cnt _ (HttpSend c r) <= 1)%nat -> at_most cnt 1 (exchange_https u c req).
Proof.
  intros H0 H1 H2. unfold exchange_https.
  apply at_most_try_pure. intros [enc oid]. apply at_most_try_pure. intros r.
  apply (at_most_try _ 1 0).
  - apply at_most_maybe_timeout; [done|]. by apply at_most_map_err, at_most_call.
  - intros [status resp]. apply (at_most_try _ 0 0).
    + apply at_most_map_err, at_most_call. by rewrite H1.
    + intros b. by repeat case_match.
Qed.

Lemma exchange_https_exec u c req s tr r s' :
  exec (exchange_https u c req) s tr r s' ->
  s' = s /\ (total http_sends tr <= 1)%nat /\ total client_builds tr = O.
Proof.
  intros Hx. split_and!.
  - eapply stateless_exec; [|exact Hx]. unfold exchange_https.
    apply stateless_try_pure. intros [enc oid]. apply stateless_try_pure. intros q.
    apply stateless_try; [by apply stateless_maybe_timeout|]. intros [st h].
    apply stateless_try; [done|]. intros b. by repeat case_match.
  - eapply at_most_exec; [|exact Hx]. by apply exchange_https_at_most.
  - enough (at_most client_builds 0 (exchange_https u c req)) as H0.
    { enough (total client_builds tr <= 0)%nat by lia. by eapply at_most_exec. }
    unfold exchange_https. apply at_most_try_pure. intros [enc oid].
    apply at_most_try_pure. intros q. apply (at_most_try _ 0 0).
    + apply at_most_maybe_timeout; [done|]. by apply at_most_map_err, at_most_call.
    + intros [st h]. apply (at_most_try _ 0 0); [by apply at_most_map_err, at_most_call|].
      intros b. by repeat case_match.
Qed.

(** Building a client for a literal host sends nothing and leaves the cells. *)
Lemma create_client_exec u ip s tr r s' :
  parse_ip_addr (host u) = Some ip -> exec (create_client u) s tr r s' ->
  s' = s /\ total http_sends tr = O /\ (total client_builds tr <= 1)%nat /\ r <> Panic.
Proof.
  intros Hip. unfold create_client, resolve_addrs. rewrite Hip. cbn [io_try io_bind].
  destruct (_ <$> _) as [|a l]; simpl.
  - intros (-> & -> & ->). split_and!; (done || apply Nat.le_0_l).
  - intros (x & tr' & _ & -> & -> & -> & ->). unfold total. simpl. split_and!; (done || lia).
Qed.

Lemma get_client_exec u ip s tr r s' `{!CellLaws (client u)} :
  parse_ip_addr (host u) = Some ip -> exec (get_client u) s tr r s' ->
  total http_sends tr = O
  /\ match peek (client u) s with
     | Some c => r = Ok (c, true) /\ s' = s /\ total client_builds tr = O
     | None => (total client_builds tr <= 1)%nat
               /\ match r with
                  | Ok (c, was) => was = false /\ peek (client u) s' = Some c
                  | Err _ => s' = s
                  | Panic => False
                  end
     end.
Proof.
  intros Hip. unfold get_client. simpl. destruct (peek (client u) s) as [c|].
  - simpl. by intros (-> & -> & ->).
  - simpl. intros (start & tr0 & _ & -> & H). rewrite exec_try in H.
    destruct H as (r0 & s0 & tr1 & tr2 & -> & Hd & Hk).
    apply (create_client_exec _ ip) in Hd as (-> & Ho & Hn & HP); [|done].
    unfold total in *. cbn [sum_list_with weight http_sends client_builds].
    rewrite !sum_list_with_app. destruct r0 as [c|e|]; [| |done].
    + destruct (timeout u) as [t|]; simpl in Hk.
      * destruct Hk as (now & tr3 & _ & -> & Hk). destruct (t <? _); simpl in Hk.
        -- destruct Hk as (now' & tr4 & _ & -> & -> & -> & ->). simpl. split_and!; (done || lia).
        -- destruct Hk as (-> & -> & ->). simpl. rewrite peek_poke. split_and!; (done || lia).
      * destruct Hk as (-> & -> & ->). simpl. rewrite peek_poke. split_and!; (done || lia).
    + destruct Hk as (-> & -> & ->). simpl. split_and!; (done || lia).
Qed.

Lemma reset_client_exec u ip s tr r s' `{!CellLaws (client u)} :
  parse_ip_addr (host u) = Some ip -> exec (reset_client u) s tr r s' ->
  total http_sends tr = O /\ (total client_builds tr <= 1)%nat
  /\ match r with Ok c => peek (client u) s' = Some c | _ => s' = s end.
Proof.
  intros Hip. unfold reset_client. rewrite exec_try. intros (r0 & s0 & tr1 & tr2 & -> & Hd & Hk).
  apply (create_client_exec _ ip) in Hd as (-> & Ho & Hn & _); [|done]. rewrite !total_app.
  destruct r0 as [c|e|]; simpl in Hk; destruct Hk as (-> & -> & ->); simpl;
    (split; [lia|]); (split; [lia|]); try done.
  by rewrite peek_poke.
Qed.

(** C27: an upstream without HTTP/3, named by address, sends at most two
    requests per exchange and builds at most one client; the second request
    happens only when the client was a cached one. A success leaves a client
    cached; a failure without a cached client leaves none. *)
Theorem doh_retry_policy u ip req s tr r s' `{!CellLaws (client u)} :
  parse_ip_addr (host u) = Some ip -> existsb is_http3 (http_versions u) = false ->
  exec (exchange u req) s tr r s' ->
  (total http_sends tr <= 2)%nat /\ (total client_builds tr <= 1)%nat
  /\ (peek (client u) s = None -> (total http_sends tr <= 1)%nat
      /\ forall e, r = Err e -> peek (client u) s' = None)
  /\ (forall m, r = Ok m -> peek (client u) s' <> None).
Proof.
  intros Hip Hv. unfold exchange, should_use_http3. rewrite Hv. cbn [negb].
  rewrite exec_try. intros (? & ? & ? & tr0 & -> & (-> & -> & ->) & Hx). rewrite app_nil_l.
  rewrite exec_try in Hx. destruct Hx as (r0 & s0 & tr1 & tr2 & -> & Hg & Hk).
  apply (get_client_exec _ ip) in Hg as (Ho & Hg); [|done..]. rewrite !total_app.
  destruct r0 as [[c was]|e|];
    [| |destruct (peek (client u) s); naive_solver].
  2: destruct Hk as (-> & -> & ->); simpl; destruct (peek (client u) s) eqn:Ec;
    [by destruct Hg|destruct Hg as [? ->]; rewrite Ec; split_and!; (done || lia || naive_solver lia)].
  apply exec_bind in Hk as (r1 & s1 & tr3 & tr4 & -> & H1 & H2). rewrite !total_app.
  apply exchange_https_exec in H1 as (-> & Ho1 & Hc1).
  assert (peek (client u) s0 = Some c) as Hs0.
  { destruct (peek (client u) s) eqn:Ec; [destruct Hg as (? & -> & _)|]; naive_solver. }
  assert (total client_builds tr1 <= 1)%nat as Hn1
    by (destruct (peek (client u) s); naive_solver lia).
  destruct r1 as [m|e|].
  1,3: destruct H2 as (-> & -> & ->); simpl; rewrite Hs0; split_and!; (done || lia || naive_solver lia).
  destruct (was && should_retry e) eqn:Ewas.
  - assert (was = true) as -> by (by destruct was).
    destruct (peek (client u) s) as [c'|] eqn:Ec; [|naive_solver]. destruct Hg as (? & -> & Hz).
    rewrite exec_try in H2. destruct H2 as (r2 & s2 & tr5 & tr6 & -> & H2 & H3).
    rewrite !total_app. apply (reset_client_exec _ ip) in H2 as (Ho2 & Hc2 & Hs2); [|done..].
    destruct r2 as [c2|e2|].
    + apply exchange_https_exec in H3 as (-> & Ho3 & Hc3). rewrite Hs2.
      split_and!; (done || lia).
    + destruct H3 as (-> & -> & ->). simpl. split_and!; (done || lia).
    + destruct H3 as (-> & -> & ->). simpl. split_and!; (done || lia).
  - simpl in H2. destruct H2 as (-> & -> & ->). simpl. rewrite peek_poke.
    split_and!; (done || lia || naive_solver lia).
Qed.

(** HTTP/3 is used exactly when it is the only version allowed, never
    when it is not allowed, and otherwise by the cached verdict of a probe;
    the first verdict is cached and reused without any further call, and a
    failed lookup caches nothing. *)
Theorem http3_choice u s tr r s' `{!CellLaws (prefer_h3 u)} :
  stateless (resolver u (host u)) -> exec (should_use_http3 u) s tr r s' ->
  match existsb is_http3 (http_versions u), http2_supported u with
  | false, _ => r = Ok false /\ tr = [] /\ s' = s
  | true, false => r = Ok true /\ tr = [] /\ s' = s
  | true, true =>
      match peek (prefer_h3 u) s with
      | Some b => r = Ok b /\ tr = [] /\ s' = s
      | None => match r with
                | Ok b => peek (prefer_h3 u) s' = Some b
                | _ => s' = s
                end
      end
  end.
Proof.
  intros Hres. unfold should_use_http3.
  destruct (existsb is_http3 _); cbn [negb]; [|by intros (-> & -> & ->)].
  destruct (http2_supported u); cbn [negb]; [|by intros (-> & -> & ->)].
  simpl. destruct (peek (prefer_h3 u) s) as [b|]; [by intros (-> & -> & ->)|].
  rewrite exec_try. intros (r0 & s0 & tr1 & tr2 & -> & Hr & Hk).
  assert (s0 = s) as ->.
  { eapply stateless_exec; [|exact Hr]. unfold resolve_first, resolve_addrs.
    apply stateless_try; [|done]. apply stateless_try; [|by intros []].
    destruct (parse_ip_addr _); [exact Logic.I|]. by apply stateless_maybe_timeout. }
  destruct r0 as [a|e|]; [|by destruct Hk as (_ & -> & ->)..].
  apply exec_bind in Hk as (b & s1 & t1 & t2 & _ & Hp & Hk). simpl in Hk.
  destruct Hk as (_ & -> & ->). by rewrite peek_poke.
Qed.

Lemma quic_offers_h2_dial (I : S -> Prop) a n cfg :
  alpn_protocols cfg = [as_bytes "h2"] ->
  safe quic_offers_h2 I (dial_quic a n cfg) (fun _ => True).
Proof.
  intros Hcfg. unfold dial_quic. eapply safe_try_call; [done|intros ? Hok; exact Hok| |done].
  intros ep _. by apply safe_bind with (R := fun _ => True); [split|by intros [] _].
Qed.

Lemma quic_offers_h2_probe (I : S -> Prop) a n cfg limit :
  alpn_protocols cfg = [as_bytes "h2"] ->
  safe quic_offers_h2 I (probe_h3 a n cfg limit true) (fun _ => True).
Proof.
  intros Hcfg. unfold probe_h3. cbn [negb].
  assert (safe quic_offers_h2 I (io_race (io_map is_ok (dial_quic a n cfg))
            (io_map is_ok (probe_tls a n))) (fun _ => True)) as Hr.
  { apply safe_race; [done| |]; apply safe_map; [by apply quic_offers_h2_dial|].
    unfold probe_tls. eapply safe_try_call; [done|intros ? Hok; exact Hok|intros tcp _|done].
    apply safe_try_pure; [apply server_name_not_panic| |done]. intros name _.
    by eapply safe_try_call; [done|intros ? Hok; exact Hok|intros tls _|]. }
  destruct limit as [d|]; apply safe_map; [|exact Hr].
  apply safe_timeout; [done|done|]. by apply safe_map.
Qed.

(** Every QUIC handshake made while deciding for or against HTTP/3
    offers the ALPN protocol [h2] and nothing else, whereas the HTTP/3
    transport that a positive verdict leads to offers [h3] and nothing else. *)
Theorem probe_offers_h2 (I : S -> Prop) u :
  safe quic_offers_h2 I (resolver u (host u)) (fun out => out <> Panic) ->
  cells_free I u ->
  safe quic_offers_h2 I (should_use_http3 u) (fun _ => True)
  /\ safe quic_offers_h2 I (get_h3_transport u)
       (fun r => forall t, r = Ok (t, false) ->
          alpn_protocols (tls_config t) = [as_bytes "h3"]).
Proof.
  intros Hr (_ & Hp & Ht & Hh & _).
  assert (safe quic_offers_h2 I (resolve_first u) (fun _ => True)) as Hres.
  { unfold resolve_first. eapply safe_try;
      [by apply (resolve_addrs_safe _ _ _ _ _ _ _ (fun out => out <> Panic))| |done|done].
    done. }
  split.
  - unfold should_use_http3. destruct (negb (existsb _ _)); [done|].
    destruct (negb (http2_supported u)); [done|].
    eapply safe_bind; [by apply (safe_read_cell _ _ _ (fun _ => True))|].
    intros [b|] _; [done|]. eapply safe_try; [exact Hres| |done|done].
    intros a _. eapply safe_bind; [by apply quic_offers_h2_probe|]. intros b _.
    by apply safe_then_write.
  - unfold get_h3_transport. eapply safe_bind; [by apply (safe_read_cell _ _ _ (fun _ => True))|].
    intros [t|] _; [done|]. eapply safe_try; [exact Hres| |done|done].
    intros a _. simpl. intros s Hs. split; [by apply Ht|]. simpl. intros s' Hs'. split.
    + apply Hh; [|done]. by intros x [= <-].
    + by intros t [= <-].
Qed.
End Retry.

(** ** Witnesses *)
Section Witnesses.
#[local] Existing Instances Toy.lib Toy.codec Toy.laws ToyBase64.base64 ToyBase64.laws ToyWeb.web.

Record w_store := {
  w_client : option handle;
  w_prefer : option bool;
  w_heap : list (option handle);
}.
Definition w_client_cell : cell w_store (option handle) :=
  Cell w_client (fun v s => {| w_client := v; w_prefer := w_prefer s; w_heap := w_heap s |}).
Definition w_prefer_cell : cell w_store (option bool) :=
  Cell w_prefer (fun v s => {| w_client := w_client s; w_prefer := v; w_heap := w_heap s |}).
Definition w_heap_cell : cell w_store (list (option handle)) :=
  Cell w_heap (fun v s => {| w_client := w_client s; w_prefer := w_prefer s; w_heap := v |}).
#[local] Instance w_client_laws : CellLaws w_client_cell.
Proof. split; [done|done|by intros []]. Qed.
#[local] Instance w_prefer_laws : CellLaws w_prefer_cell.
Proof. split; [done|done|by intros []]. Qed.

(** No transport is ever stored in this store's [h3] cell. *)
Definition w_upstream (versions : list HttpVersion) : DohUpstream w_store :=
  new "1.2.3.4" None "/dns-query"
    {| bootstrap := None; Errors.http_versions := versions; opt_timeout := None;
       Errors.insecure_skip_verify := false; Errors.prefer_ipv6 := false;
       basic_auth := Some ("user", "pass") |}
    {| new_client := w_client_cell; new_h3 := Cell (fun _ => None) (fun _ s => s);
       new_prefer_h3 := w_prefer_cell; new_transports := w_heap_cell |}.
Definition w_state : w_store := {| w_client := Some 3%nat; w_prefer := None; w_heap := [] |}.
Definition w_query : @Message Toy.lib := Toy.query 9 "example.com." 1.
Definition w_request : HttpRequest :=
  {| hr_uri := request_uri (w_upstream []) (ToyBase64.encode (Toy.encode (set_id w_query 0)));
     hr_headers := request_headers (basic_auth_header (w_upstream [])) |}.
Definition w_trace : list event :=
  [Event (HttpSend 3%nat w_request) (Err ["connection closed"; "reset by peer"])].

Lemma doh_retry_policy_witness :
  (total http_sends w_trace <= 2)%nat /\ (total client_builds w_trace <= 1)%nat
  /\ (Some 3%nat = None -> (total http_sends w_trace <= 1)%nat
      /\ forall e, (Err (Http "connection closed -> reset by peer") : res (@Message Toy.lib) DohError)
                   = Err e -> (None : option handle) = None)
  /\ (forall m, (Err (Http "connection closed -> reset by peer") : res (@Message Toy.lib) DohError)
                = Ok m -> (None : option handle) <> None).
Proof.
  apply (doh_retry_policy (w_upstream []) (V4 (Ipv4 x01 x02 x03 x04)) w_query w_state w_trace _
           {| w_client := None; w_prefer := None; w_heap := [] |}); [reflexivity|reflexivity|].
  eexists _, _. split; [|split; [reflexivity|]]; [exact Logic.I|]. split_and!; vm_refl.
Defined.

Lemma http3_choice_witness :
  (Ok true : res bool DohError) = Ok true /\ ([] : list event) = [] /\ w_state = w_state.
Proof.
  apply (http3_choice (w_upstream [Http3]) w_state [] (Ok true) w_state);
    [exact (fun _ => Logic.I)|done].
Defined.

Lemma probe_offers_h2_witness :
  safe quic_offers_h2 (fun _ => True) (should_use_http3 (w_upstream [Http2; Http3])) (fun _ => True)
  /\ safe quic_offers_h2 (fun _ => True) (get_h3_transport (w_upstream [Http2; Http3]))
       (fun r => forall t, r = Ok (t, false) ->
          alpn_protocols (tls_config t) = [as_bytes "h3"]).
Proof.
  apply (probe_offers_h2 (fun _ => True) (w_upstream [Http2; Http3])).
  - split; [exact Logic.I|]. intros [] ?; done.
  - split_and!; try done.
Defined.
End Witnesses.
