(* ===== verification/TlsClient.v ===== *)
(** * The clients' TLS settings

    The end of [src/client/doh.rs]: the certificate verifier of
    [insecure_skip_verify], and what the HTTP connector tells [hyper] about the
    protocol a connection has negotiated. [rustls]' own verifier and its
    handshake are outside; [completes_spec] states when a handshake completes
    (RFC 8446, sections 4.2.3 and 4.4). *)
From S2P Require Import Prelude RustStr RustNet Io Errors Dot Doh3 Doh.

(** ** Verifiers *)
Inductive SignatureScheme :=
| RSA_PKCS1_SHA256 | RSA_PKCS1_SHA384 | RSA_PKCS1_SHA512
| ECDSA_NISTP256_SHA256 | ECDSA_NISTP384_SHA384 | ECDSA_NISTP521_SHA512
| RSA_PSS_SHA256 | RSA_PSS_SHA384 | RSA_PSS_SHA512
| ED25519 | ED448.
#[export] Instance SignatureScheme_eq_dec : EqDecision SignatureScheme.
Proof. solve_decision. Defined.

Section Verifiers.
(** A certificate chain with the name it is to be valid for, and a signature
    over the handshake. *)
Context {Chain Signature : Type}.

(** The trait; [true] is [Ok(assertion())]. *)
Record ServerCertVerifier := {
  verify_server_cert : Chain -> string -> bool;
  verify_tls12_signature : Signature -> bool;
  verify_tls13_signature : Signature -> bool;
  supported_verify_schemes : list SignatureScheme;
}.
Definition NoVerifier : ServerCertVerifier :=
  {| verify_server_cert _ _ := true;
     verify_tls12_signature _ := true;
     verify_tls13_signature _ := true;
     supported_verify_schemes := [RSA_PKCS1_SHA256; ECDSA_NISTP256_SHA256; RSA_PSS_SHA256; ED25519] |}.

(** [rustls]' verifier over the roots of [webpki_roots]. *)
Context (webpki : ServerCertVerifier).
Definition verifier (cfg : TlsConfig) : ServerCertVerifier := if skip_verify cfg then NoVerifier else webpki.

(** *** Handshakes

    A server: its chain, the schemes it can sign with, and its signature. A TLS
    1.3 handshake completes when some scheme suits both sides, the chain is
    accepted for the name, and the signature is good. *)
Context (Server : Type) (chain : Server -> Chain) (schemes : Server -> list SignatureScheme)
  (signature : Server -> Signature) (completes : ServerCertVerifier -> string -> Server -> Prop).
Context (completes_spec : forall v name s,
  completes v name s <->
  (exists scheme, scheme ∈ supported_verify_schemes v /\ scheme ∈ schemes s)
  /\ verify_server_cert v (chain s) name = true /\ verify_tls13_signature v (signature s) = true).

(** With verification on, only chains that [rustls] accepts for the name. *)
Lemma secure_handshake server_name alpn name s :
  completes (verifier (build_tls_config server_name false alpn)) name s ->
  verify_server_cert webpki (chain s) name = true /\ verify_tls13_signature webpki (signature s) = true.
Proof using completes_spec. by intros (_ & ? & ?)%completes_spec. Qed.
(** With verification off, every server that can sign with one of four schemes,
    whatever its certificate and for whatever name. *)
Lemma insecure_handshake server_name alpn name s :
  completes (verifier (build_tls_config server_name true alpn)) name s <->
  exists scheme, scheme ∈ supported_verify_schemes NoVerifier /\ scheme ∈ schemes s.
Proof using completes_spec. rewrite completes_spec. cbn. naive_solver. Qed.
(** So switching verification off can break a connection: a server whose key
    only makes P-384 signatures is refused, even with a good certificate. *)
Lemma insecure_refuses_p384 server_name alpn name s :
  schemes s = [ECDSA_NISTP384_SHA384] -> ECDSA_NISTP384_SHA384 ∈ supported_verify_schemes webpki ->
  verify_server_cert webpki (chain s) name = true -> verify_tls13_signature webpki (signature s) = true ->
  completes (verifier (build_tls_config server_name false alpn)) name s
  /\ ~ completes (verifier (build_tls_config server_name true alpn)) name s.
Proof using completes_spec.
  intros Hs Hw Hc Hv. rewrite completes_spec, insecure_handshake. cbn. split.
  - split_and!; [|done|done]. exists ECDSA_NISTP384_SHA384. split; [done|]. rewrite Hs. by left.
  - intros (scheme & Hin & Hs'). rewrite Hs in Hs'. apply list_elem_of_singleton in Hs' as ->.
    by apply (bool_decide_eq_true_2 _) in Hin.
Qed.
End Verifiers.

(** The hypothesis can hold, and so can both sides of the last lemma. *)
Lemma insecure_refuses_p384_example :
  let webpki := {| verify_server_cert (c : unit) (n : string) := true; verify_tls12_signature (s : unit) := true;
                   verify_tls13_signature s := true;
                   supported_verify_schemes := [ECDSA_NISTP256_SHA256; ECDSA_NISTP384_SHA384] |} in
  let completes v name (s : list SignatureScheme) :=
    (exists scheme, scheme ∈ supported_verify_schemes v /\ scheme ∈ s)
    /\ verify_server_cert v tt name = true /\ verify_tls13_signature v tt = true in
  let server := [ECDSA_NISTP384_SHA384] in
  completes (verifier webpki (build_tls_config "dns.example" false [])) "dns.example" server
  /\ ~ completes (verifier webpki (build_tls_config "dns.example" true [])) "dns.example" server.
Proof.
  intros webpki completes server.
  apply (insecure_refuses_p384 webpki (list SignatureScheme) (fun _ => tt) (fun s => s) (fun _ => tt));
    [intros v name s; done|done|right; by left|done|done].
Qed.

(** ** ALPN *)

(** [Connected] of a connection: whether [hyper] speaks HTTP/2 on it. *)
Definition connected (alpn_protocol : option bytes) : bool := bool_decide (alpn_protocol = Some (as_bytes "h2")).

(** The protocols an upstream offers on TCP ([create_client]). *)
Definition offered {S} (u : DohUpstream S) : list bytes :=
  (fun v => as_bytes (alpn v)) <$> List.filter (fun v => negb (is_http3 v)) (Doh.http_versions u).
(** A server selects one of them or none (RFC 7301), so HTTP/2 is spoken only
    where the options allow it. *)
Lemma http2_only_if_allowed {S} (u : DohUpstream S) selected :
  match selected with Some p => p ∈ offered u | None => True end ->
  connected selected = true -> Http2 ∈ Doh.http_versions u.
Proof.
  intros Hs Hc%bool_decide_eq_true. subst selected. unfold offered in Hs.
  apply list_elem_of_fmap in Hs as (v & Hv & Hin). apply list_elem_of_In, List.filter_In in Hin as [Hin _].
  apply list_elem_of_In in Hin. by destruct v.
Qed.
