(* ===== verification/CryptoLib.v ===== *)
(** * The cryptography crates

    [ed25519-dalek] and [crypto_box] as an interface: keys, signatures and the
    X25519-XSalsa20Poly1305 box, with the documented laws the protocol relies
    on ([CryptoLaws]). Secrecy and unforgeability are not among them. [ToyCrypto]
    is an executable instance with a checksum for a signature and a one-byte
    tag for a box. *)
From S2P Require Import Prelude RustStr.

Class CryptoLib := {
  VerifyingKey : Type;
  VerifyingKey_from_bytes : bytes -> string + VerifyingKey;
  VerifyingKey_to_bytes : VerifyingKey -> bytes;
  (** [verify(signed, signature).is_ok()] on a 64-byte signature. *)
  verify : VerifyingKey -> bytes -> bytes -> bool;
  SigningKey : Type;
  SigningKey_from_bytes : bytes -> SigningKey;
  SigningKey_to_bytes : SigningKey -> bytes;
  verifying_key : SigningKey -> VerifyingKey;
  sign : SigningKey -> bytes -> bytes;
  SecretKey : Type;
  SecretKey_from_bytes : bytes -> SecretKey;
  SecretKey_to_bytes : SecretKey -> bytes;
  public_key_of : SecretKey -> bytes;
  (** [SalsaBox::new(peer, secret).encrypt(nonce, msg)] and [decrypt]. *)
  box_encrypt : SecretKey -> bytes -> bytes -> bytes -> string + bytes;
  box_decrypt : SecretKey -> bytes -> bytes -> bytes -> string + bytes;
}.

Class CryptoLaws `{CryptoLib} := {
  VerifyingKey_bytes k : VerifyingKey_from_bytes (VerifyingKey_to_bytes k) = inr k;
  length_VerifyingKey k : length (VerifyingKey_to_bytes k) = 32%nat;
  SigningKey_bytes k : SigningKey_from_bytes (SigningKey_to_bytes k) = k;
  length_SigningKey k : length (SigningKey_to_bytes k) = 32%nat;
  SecretKey_bytes k : SecretKey_from_bytes (SecretKey_to_bytes k) = k;
  length_SecretKey k : length (SecretKey_to_bytes k) = 32%nat;
  length_public_key k : length (public_key_of k) = 32%nat;
  length_sign k m : length (sign k m) = 64%nat;
  verify_sign k m : verify (verifying_key k) m (sign k m) = true;
  (** Both sides derive the same box, and decryption inverts encryption. *)
  box_agrees k k' nonce m c :
    box_encrypt k (public_key_of k') nonce m = inr c ->
    box_decrypt k' (public_key_of k) nonce c = inr m;
}.

Module ToyCrypto.
Definition key_of (b : bytes) : bytes := take 32 (b ++ replicate 32 x00).
Record key := Key { key_bytes : bytes; key_ok : length key_bytes = 32%nat }.
Lemma length_key_of b : length (key_of b) = 32%nat.
Proof. unfold key_of. rewrite length_take, length_app, length_replicate. lia. Qed.
Definition mk (b : bytes) : key := Key (key_of b) (length_key_of b).
Lemma key_of_key k : key_of (key_bytes k) = key_bytes k.
Proof.
  destruct k as [b Hb]. unfold key_of. cbn [key_bytes]. rewrite <- Hb at 1.
  apply take_app_length.
Qed.
Lemma mk_key k : mk (key_bytes k) = k.
Proof.
  pose proof (key_of_key k) as E. destruct k as [b Hb]. unfold mk. cbn [key_bytes] in *.
  generalize (length_key_of b). rewrite E. intros Hb'. f_equal.
  apply Eqdep_dec.UIP_dec, Nat.eq_dec.
Qed.

Definition checksum (b : bytes) : Z := fold_left (fun acc x => (acc * 31 + u8 x) mod 2 ^ 32) b 7.
Definition signature (k m : bytes) : bytes := replicate 60 x00 ++ to_be 4 (checksum (k ++ m)).
Definition tag (k k' : bytes) : Byte.byte := as_u8 (checksum k + checksum k').

Definition decrypt (k pk c : bytes) : string + bytes :=
  match c with
  | t :: m => if bool_decide (t = tag k pk) then inr m else inl "bad tag"
  | [] => inl "empty"
  end.
Lemma length_signature k m : length (signature k m) = 64%nat.
Proof. unfold signature. by rewrite length_app, length_replicate, length_to_be. Qed.
Lemma decrypt_tag k k' m : decrypt k' k (tag k k' :: m) = inr m.
Proof.
  unfold decrypt. rewrite bool_decide_eq_true_2; [done|]. unfold tag. f_equal. apply Z.add_comm.
Qed.

#[export] Instance lib : CryptoLib := {
  VerifyingKey := key;
  VerifyingKey_from_bytes b := if (length b =? 32)%nat then inr (mk b) else inl "bad key";
  VerifyingKey_to_bytes := key_bytes;
  verify k m s := bool_decide (s = signature (key_bytes k) m);
  SigningKey := key;
  SigningKey_from_bytes := mk;
  SigningKey_to_bytes := key_bytes;
  verifying_key k := k;
  sign k m := signature (key_bytes k) m;
  SecretKey := key;
  SecretKey_from_bytes := mk;
  SecretKey_to_bytes := key_bytes;
  public_key_of := key_bytes;
  box_encrypt k pk _ m := inr (tag (key_bytes k) pk :: m);
  box_decrypt k pk _ c := decrypt (key_bytes k) pk c;
}.
#[export] Instance laws : CryptoLaws.
Proof.
  constructor.
  - intros k. simpl. rewrite key_ok. simpl. by rewrite mk_key.
  - intros k. apply key_ok.
  - intros k. apply mk_key.
  - intros k. apply key_ok.
  - intros k. apply mk_key.
  - intros k. apply key_ok.
  - intros k. apply key_ok.
  - intros k m. apply length_signature.
  - intros k m. apply bool_decide_eq_true. reflexivity.
  - intros k k' nonce m c Hc. injection Hc as <-. apply decrypt_tag.
Qed.
End ToyCrypto.
