(* ===== verification/Crypto.v ===== *)
(** * The DNSCrypt v2 wire protocol

    [src/client/dnscrypt/crypto.rs]: resolver certificates, padding, and the
    two framings with their boxes. Fixed-size arrays are byte lists; where an
    array's length is its type in the source, it is a hypothesis here. Random
    bytes come from [OsRng], the effect [FillBytes]. *)
From S2P Require Import Prelude RustStr RustNet Io Errors CryptoLib.

Definition CERT_MAGIC : bytes := as_bytes "DNSC".
Definition ES_VERSION_XSALSA20POLY1305 : Z := 1.
Definition RESOLVER_MAGIC : bytes := as_bytes "r6fnvWj8".
Definition PAD_BLOCK_SIZE : nat := 64.

Record Certificate := {
  resolver_public_key : bytes;
  client_magic : bytes;
  serial : Z;
  ts_start : Z;
  ts_end : Z;
}.
Definition is_valid_at (c : Certificate) (now : Z) : bool :=
  (ts_start c <=? now) && (now <? ts_end c).

(** ** Padding *)
Definition pad (msg : bytes) : bytes :=
  let padded := msg ++ [x80] in
  let rem := (length padded mod PAD_BLOCK_SIZE)%nat in
  if (rem =? 0)%nat then padded else padded ++ replicate (PAD_BLOCK_SIZE - rem) x00.

(** [iter().rposition(f)]. *)
Fixpoint rposition {A} (f : A -> bool) (l : list A) : option nat :=
  match l with
  | [] => None
  | x :: l =>
      match rposition f l with
      | Some i => Some (S i)
      | None => if f x then Some O else None
      end
  end.
Definition unpad (padded : bytes) : res bytes DohError :=
  match rposition (fun b => negb (u8 b =? 0)) padded with
  | Some idx =>
      match padded !! idx with
      | Some b => if u8 b =? 128 then Ok (take idx padded)
                  else Err (DnsCrypt "invalid padding in response")
      | None => Panic
      end
  | None => Err (DnsCrypt "invalid padding in response")
  end.

(** ** Certificates *)
Section Crypto.
Context `{HK : CryptoLib}.

Definition signed_fields (resolver_public_key client_magic : bytes) (serial ts_start ts_end : Z)
  : bytes :=
  resolver_public_key ++ client_magic ++ to_be 4 serial ++ to_be 4 ts_start ++ to_be 4 ts_end.

(** The fields of the 52 signed bytes. *)
Definition cert_fields (signed : bytes) : Certificate :=
  {| resolver_public_key := slice 0 32 signed;
     client_magic := slice 32 40 signed;
     serial := from_be (slice 40 44 signed);
     ts_start := from_be (slice 44 48 signed);
     ts_end := from_be (slice 48 52 signed) |}.

Definition parse_one_certificate (b : bytes) (key : VerifyingKey) : option Certificate :=
  if (length b <? 124)%nat then None
  else if negb (bool_decide (slice 0 4 b = CERT_MAGIC)) then None
  else
    let es_version := from_be (slice 4 6 b) in
    if negb (es_version =? ES_VERSION_XSALSA20POLY1305) then None
    else
      let signature := slice 8 72 b in
      let signed := slice 72 124 b in
      if verify key signed signature then
        Some (cert_fields signed)
      else None.

Definition parse_certificates (txt_records : list bytes) (provider_public_key : bytes)
  : res (list Certificate) DohError :=
  let? key := from_sum (fun e => DnsCrypt ("invalid provider public key: " +:+ e))
                (VerifyingKey_from_bytes provider_public_key) in
  let certs := omap (fun txt => parse_one_certificate txt key) txt_records in
  Ok (sort_by_key (fun c => - serial c) certs).

Definition sign_certificate (key : SigningKey) (resolver_public_key client_magic : bytes)
    (serial ts_start ts_end : Z) : bytes :=
  let signed := signed_fields resolver_public_key client_magic serial ts_start ts_end in
  let signature := sign key signed in
  CERT_MAGIC ++ to_be 2 ES_VERSION_XSALSA20POLY1305 ++ [x00; x00] ++ signature ++ signed.

(** ** Boxes *)
Record ClientKeyPair := { secret_key : SecretKey; public_key : bytes }.
Definition generate {S} : io S ClientKeyPair :=
  let* random := call (FillBytes 32) in
  let secret := SecretKey_from_bytes random in
  IoRet {| secret_key := secret; public_key := public_key_of secret |}.

Definition encrypt_query {S} (cert : Certificate) (client : ClientKeyPair) (msg : bytes)
  : io S (res (bytes * bytes) DohError) :=
  let* client_nonce := call (FillBytes 12) in
  let full_nonce := client_nonce ++ replicate 12 x00 in
  let padded := pad msg in
  IoRet (
    let? ciphertext := from_sum (fun e => DnsCrypt ("encrypting query: " +:+ e))
      (box_encrypt (secret_key client) (resolver_public_key cert) full_nonce padded) in
    Ok (client_magic cert ++ public_key client ++ client_nonce ++ ciphertext, client_nonce)).

Definition decrypt_response (cert : Certificate) (client : ClientKeyPair) (client_nonce resp : bytes)
  : res bytes DohError :=
  if (length resp <? 32)%nat then Err (DnsCrypt "response too short")
  else if negb (bool_decide (slice 0 8 resp = RESOLVER_MAGIC)) then
    Err (DnsCrypt "response has wrong resolver magic")
  else if negb (bool_decide (slice 8 20 resp = client_nonce)) then
    Err (DnsCrypt "response echoes a different client nonce")
  else
    let resolver_nonce := slice 20 32 resp in
    let full_nonce := client_nonce ++ resolver_nonce in
    let ciphertext := drop 32 resp in
    let? padded := from_sum (fun e => DnsCrypt ("decrypting response: " +:+ e))
      (box_decrypt (secret_key client) (resolver_public_key cert) full_nonce ciphertext) in
    unpad padded.

Definition decrypt_query (resolver_secret : SecretKey) (expected_client_magic framed : bytes)
  : res (bytes * bytes * bytes) DohError :=
  if (length framed <? 52)%nat then Err (DnsCrypt "query too short")
  else if negb (bool_decide (slice 0 8 framed = expected_client_magic)) then
    Err (DnsCrypt "query has wrong client magic")
  else
    let client_public_key := slice 8 40 framed in
    let client_nonce := slice 40 52 framed in
    let full_nonce := client_nonce ++ replicate 12 x00 in
    let? padded := from_sum (fun e => DnsCrypt ("decrypting query: " +:+ e))
      (box_decrypt resolver_secret client_public_key full_nonce (drop 52 framed)) in
    let? msg := unpad padded in
    Ok (msg, client_public_key, client_nonce).

Definition encrypt_server_response {S} (resolver_secret : SecretKey)
    (client_public_key client_nonce msg : bytes) : io S (res bytes DohError) :=
  let* resolver_nonce := call (FillBytes 12) in
  let full_nonce := client_nonce ++ resolver_nonce in
  let padded := pad msg in
  IoRet (
    let? ciphertext := from_sum (fun e => DnsCrypt ("encrypting response: " +:+ e))
      (box_encrypt resolver_secret client_public_key full_nonce padded) in
    Ok (RESOLVER_MAGIC ++ client_nonce ++ resolver_nonce ++ ciphertext)).
End Crypto.

(** ** Padding lemmas *)
Lemma rposition_zeros n : rposition (fun b => negb (u8 b =? 0)) (replicate n x00) = None.
Proof. induction n as [|n IH]; [done|]. simpl. by rewrite IH. Qed.

Lemma rposition_app_last {A} (f : A -> bool) l x r :
  f x = true -> rposition f r = None -> rposition f (l ++ x :: r) = Some (length l).
Proof.
  intros Hx Hr. induction l as [|y l IH]; simpl; [by rewrite Hr, Hx|]. by rewrite IH.
Qed.

Lemma rposition_Some {A} (f : A -> bool) l i :
  rposition f l = Some i ->
  exists x, l !! i = Some x /\ f x = true /\ Forall (fun y => f y = false) (drop (S i) l).
Proof.
  revert i. induction l as [|y l IH]; intros i; simpl; [done|].
  destruct (rposition f l) as [j|] eqn:E.
  - intros [= <-]. apply IH. done.
  - destruct (f y) eqn:Ey; [|done]. intros [= <-]. exists y. split; [done|]. split; [done|].
    rewrite drop_0. clear IH. induction l as [|z l IH]; [constructor|]. simpl in E.
    destruct (rposition f l); [done|]. destruct (f z) eqn:Ez; [done|]. constructor; auto.
Qed.

Lemma zeros_replicate (l : bytes) :
  Forall (fun b => negb (u8 b =? 0) = false) l -> l = replicate (length l) x00.
Proof.
  induction 1 as [|b l Hb _ IH]; [done|]. simpl. f_equal; [|done].
  apply u8_inj. change (u8 x00) with 0. lia.
Qed.

Lemma pad_shape msg : exists n, pad msg = msg ++ x80 :: replicate n x00.
Proof.
  unfold pad. case_match; [by exists O|]. eexists. by rewrite <- app_assoc.
Qed.

Lemma unpad_shape msg n : unpad (msg ++ x80 :: replicate n x00) = Ok msg.
Proof.
  unfold unpad. rewrite rposition_app_last by (done || apply rposition_zeros).
  rewrite list_lookup_middle by done. change (u8 x80 =? 128) with true. cbv iota.
  by rewrite take_app_length.
Qed.

Lemma unpad_pad msg : unpad (pad msg) = Ok msg.
Proof. destruct (pad_shape msg) as [n ->]. apply unpad_shape. Qed.
#[export] Hint Rewrite unpad_pad : dnsproxy.

Lemma unpad_not_Panic p : unpad p <> Panic.
Proof.
  unfold unpad. destruct (rposition _ p) as [i|] eqn:E; [|done].
  apply rposition_Some in E as (x & -> & _). by case_match.
Qed.

Lemma length_pad msg : exists k, length (pad msg) = (k * PAD_BLOCK_SIZE)%nat
  /\ (length msg < length (pad msg) <= length msg + PAD_BLOCK_SIZE)%nat.
Proof.
  unfold pad, PAD_BLOCK_SIZE. rewrite length_app. cbn [length].
  set (n := (length msg + 1)%nat).
  pose proof (Nat.div_mod n 64 ltac:(lia)). pose proof (Nat.mod_upper_bound n 64 ltac:(lia)).
  destruct (Nat.eqb_spec (n mod 64) 0) as [E|E].
  - exists (n / 64)%nat. rewrite length_app. cbn [length]. unfold n in *. lia.
  - exists (n / 64 + 1)%nat. rewrite !length_app, length_replicate. cbn [length].
    unfold n in *. lia.
Qed.

(** ** Certificate lemmas *)
Section Certificates.
Context `{HK : CryptoLib} {HKL : CryptoLaws}.

Definition cert_ok (c : Certificate) : Prop :=
  length (resolver_public_key c) = 32%nat /\ length (client_magic c) = 8%nat
  /\ 0 <= serial c <= u32_max /\ 0 <= ts_start c <= u32_max /\ 0 <= ts_end c <= u32_max.

Lemma from_be_to_be_u32 z : 0 <= z <= u32_max -> from_be (to_be 4 z) = z.
Proof. intros Hz. rewrite from_be_to_be. apply Z.mod_small. unfold u32_max in Hz. lia. Qed.

Lemma cert_fields_signed c :
  cert_ok c ->
  cert_fields (signed_fields (resolver_public_key c) (client_magic c) (serial c) (ts_start c)
                 (ts_end c)) = c.
Proof.
  destruct c as [pk magic ser t1 t2]. intros (H1 & H2 & H3 & H4 & H5).
  cbn [resolver_public_key client_magic serial ts_start ts_end] in *.
  unfold cert_fields, signed_fields. f_equal.
  - by apply slice_head.
  - apply slice_part; [done|done|lia].
  - rewrite (app_assoc pk magic). rewrite slice_part; rewrite ?length_app, ?length_to_be;
      [by apply from_be_to_be_u32|lia|lia|lia].
  - rewrite (app_assoc magic), (app_assoc pk). rewrite slice_part;
      rewrite ?length_app, ?length_to_be; [by apply from_be_to_be_u32|lia|lia|lia].
  - rewrite (app_assoc (to_be 4 ser)), (app_assoc magic), (app_assoc pk).
    rewrite slice_last; rewrite ?length_app, ?length_to_be; [by apply from_be_to_be_u32|lia|lia|lia].
Qed.

Lemma signed_cert_fields signed :
  length signed = 52%nat ->
  let c := cert_fields signed in
  cert_ok c
  /\ signed_fields (resolver_public_key c) (client_magic c) (serial c) (ts_start c) (ts_end c)
     = signed.
Proof.
  intros Hl. assert (forall i j, (i <= j <= 52)%nat -> length (slice i j signed) = (j - i)%nat) as Hs
    by (intros; apply length_slice; lia).
  assert (forall i j, (i + 4 = j)%nat -> (j <= 52)%nat ->
            to_be 4 (from_be (slice i j signed)) = slice i j signed
            /\ 0 <= from_be (slice i j signed) <= u32_max) as H4.
  { intros i j Hij Hj. split.
    - rewrite <- (to_be_from_be (slice i j signed)) at 2. rewrite Hs by lia. f_equal. lia.
    - pose proof (from_be_range (slice i j signed)) as Hr. rewrite Hs in Hr by lia.
      replace (j - i)%nat with 4%nat in Hr by lia. unfold u32_max. lia. }
  destruct (H4 40%nat 44%nat) as [E1 R1]; [lia..|].
  destruct (H4 44%nat 48%nat) as [E2 R2]; [lia..|].
  destruct (H4 48%nat 52%nat) as [E3 R3]; [lia..|].
  split.
  { unfold cert_ok, cert_fields. cbn [resolver_public_key client_magic serial ts_start ts_end].
    rewrite !Hs by lia. split_and!; lia. }
  unfold signed_fields, cert_fields. cbn [resolver_public_key client_magic serial ts_start ts_end].
  rewrite E1, E2, E3, <- !slice_split by lia. by apply slice_all.
Qed.

(** Any record with the right magic, version and a good signature over the
    52 bytes of fields parses to those fields. *)
Lemma parse_fields (key : VerifyingKey) minor signature c :
  cert_ok c -> length minor = 2%nat -> length signature = 64%nat ->
  let signed := signed_fields (resolver_public_key c) (client_magic c) (serial c) (ts_start c)
                  (ts_end c) in
  parse_one_certificate
    (CERT_MAGIC ++ to_be 2 ES_VERSION_XSALSA20POLY1305 ++ minor ++ signature ++ signed) key
  = if verify key signed signature then Some c else None.
Proof.
  intros (Hpk & Hmagic & Hs & H1 & H2) Hminor Hsig signed.
  assert (length signed = 52%nat) as Hsigned.
  { unfold signed, signed_fields. rewrite !length_app, !length_to_be. lia. }
  unfold parse_one_certificate.
  set (b := CERT_MAGIC ++ _). assert (length b = 124%nat) as Hb.
  { unfold b. rewrite !length_app, length_to_be. simpl. lia. }
  rewrite Hb. cbn [Nat.ltb Nat.leb].
  assert (slice 0 4 b = CERT_MAGIC) as -> by by apply slice_head.
  assert (slice 4 6 b = to_be 2 ES_VERSION_XSALSA20POLY1305) as -> by (apply slice_part; [done|done|lia]).
  rewrite bool_decide_eq_true_2 by done. cbn [negb]. rewrite from_be_to_be.
  change (ES_VERSION_XSALSA20POLY1305 mod 256 ^ Z.of_nat 2 =? ES_VERSION_XSALSA20POLY1305)
    with true. cbn [negb].
  assert (b = (CERT_MAGIC ++ to_be 2 ES_VERSION_XSALSA20POLY1305 ++ minor) ++ signature ++ signed)
    as Hb1 by (unfold b; by rewrite <- !app_assoc).
  assert (slice 8 72 b = signature) as ->
    by (rewrite Hb1; apply slice_part; [rewrite !length_app, length_to_be; simpl; lia|lia|lia]).
  assert (slice 72 124 b = signed) as ->.
  { rewrite Hb1, app_assoc. apply slice_last; [|lia|lia].
    rewrite !length_app, length_to_be. simpl. lia. }
  destruct (verify key signed signature); [|done].
  unfold signed. by rewrite cert_fields_signed.
Qed.

Lemma parse_signed key c :
  cert_ok c ->
  parse_one_certificate
    (sign_certificate key (resolver_public_key c) (client_magic c) (serial c) (ts_start c) (ts_end c))
    (verifying_key key) = Some c.
Proof.
  intros Hc. unfold sign_certificate. rewrite parse_fields; [|done|done|apply length_sign].
  by rewrite verify_sign.
Qed.

(** What an accepted certificate guarantees about the record it came from. *)
Definition certified (key : VerifyingKey) (b : bytes) (c : Certificate) : Prop :=
  cert_ok c /\ (124 <= length b)%nat /\ slice 0 4 b = CERT_MAGIC
  /\ from_be (slice 4 6 b) = ES_VERSION_XSALSA20POLY1305
  /\ slice 72 124 b = signed_fields (resolver_public_key c) (client_magic c) (serial c)
                        (ts_start c) (ts_end c)
  /\ verify key (slice 72 124 b) (slice 8 72 b) = true.

Lemma parse_certified b key c :
  parse_one_certificate b key = Some c <-> certified key b c.
Proof.
  unfold parse_one_certificate, certified.
  destruct (Nat.ltb_spec (length b) 124); [split; [done|intros (_ & ? & _); lia]|].
  case_bool_decide as Hm; cbn [negb]; [|naive_solver].
  destruct (Z.eqb_spec (from_be (slice 4 6 b)) ES_VERSION_XSALSA20POLY1305); cbn [negb];
    [|naive_solver].
  assert (length (slice 72 124 b) = 52%nat) as Hl by (rewrite length_slice; lia).
  destruct (signed_cert_fields _ Hl) as [Hok Hf].
  destruct (verify key (slice 72 124 b) (slice 8 72 b)) eqn:Hv; [|naive_solver].
  split.
  - intros [= <-]. by split_and!.
  - intros (Hc & _ & _ & _ & Hfields & _). f_equal. rewrite Hfields. by apply cert_fields_signed.
Qed.
End Certificates.

(** ** Box lemmas *)
Section Boxes.
Context `{HK : CryptoLib} {HKL : CryptoLaws}.

Definition keypair_ok (client : ClientKeyPair) : Prop :=
  public_key client = public_key_of (secret_key client).

Lemma decrypt_query_framed rs magic pk nonce ct :
  length magic = 8%nat -> length pk = 32%nat -> length nonce = 12%nat ->
  decrypt_query rs magic (magic ++ pk ++ nonce ++ ct)
  = (let? padded := from_sum (fun e => DnsCrypt ("decrypting query: " +:+ e))
       (box_decrypt rs pk (nonce ++ replicate 12 x00) ct) in
     let? msg := unpad padded in Ok (msg, pk, nonce)).
Proof.
  intros Hm Hp Hn. unfold decrypt_query.
  destruct (Nat.ltb_spec (length (magic ++ pk ++ nonce ++ ct)) 52) as [Hl|_];
    [rewrite !length_app in Hl; lia|].
  rewrite slice_head by done. rewrite bool_decide_eq_true_2 by done. cbn [negb].
  rewrite (slice_part magic pk) by (done || lia).
  rewrite (app_assoc magic pk), slice_part by (rewrite ?length_app; lia).
  rewrite app_assoc, drop_app_length' by (rewrite !length_app; lia). done.
Qed.

Lemma decrypt_response_framed cert client nonce rnonce ct :
  length nonce = 12%nat -> length rnonce = 12%nat ->
  decrypt_response cert client nonce (RESOLVER_MAGIC ++ nonce ++ rnonce ++ ct)
  = (let? padded := from_sum (fun e => DnsCrypt ("decrypting response: " +:+ e))
       (box_decrypt (secret_key client) (resolver_public_key cert) (nonce ++ rnonce) ct) in
     unpad padded).
Proof.
  intros Hn Hr. unfold decrypt_response.
  assert (length RESOLVER_MAGIC = 8%nat) as H8 by done.
  destruct (Nat.ltb_spec (length (RESOLVER_MAGIC ++ nonce ++ rnonce ++ ct)) 32) as [Hl|_];
    [rewrite !length_app in Hl; lia|].
  rewrite slice_head by done. rewrite bool_decide_eq_true_2 by done. cbn [negb].
  rewrite (slice_part RESOLVER_MAGIC nonce) by (done || lia).
  rewrite bool_decide_eq_true_2 by done. cbn [negb].
  rewrite (app_assoc RESOLVER_MAGIC nonce), slice_part by (rewrite ?length_app; lia).
  rewrite app_assoc, drop_app_length' by (rewrite !length_app; lia). done.
Qed.

Lemma exec_encrypt_query {S} cert client msg (s : S) tr r s' :
  exec (encrypt_query cert client msg) s tr r s' ->
  exists nonce, length nonce = 12%nat /\ s' = s
  /\ r = (let? ct := from_sum (fun e => DnsCrypt ("encrypting query: " +:+ e))
            (box_encrypt (secret_key client) (resolver_public_key cert)
               (nonce ++ replicate 12 x00) (pad msg)) in
          Ok (client_magic cert ++ public_key client ++ nonce ++ ct, nonce)).
Proof. intros (nonce & tr' & Hn & _ & _ & -> & ->). by exists nonce. Qed.

Lemma exec_encrypt_server_response {S} rs pk nonce msg (s : S) tr r s' :
  exec (encrypt_server_response rs pk nonce msg) s tr r s' ->
  exists rnonce, length rnonce = 12%nat /\ s' = s
  /\ r = (let? ct := from_sum (fun e => DnsCrypt ("encrypting response: " +:+ e))
            (box_encrypt rs pk (nonce ++ rnonce) (pad msg)) in
          Ok (RESOLVER_MAGIC ++ nonce ++ rnonce ++ ct)).
Proof. intros (nonce' & tr' & Hn & _ & _ & -> & ->). by exists nonce'. Qed.

Lemma encrypt_query_decrypts {S} cert client rs msg framed nonce (s : S) tr s' :
  keypair_ok client -> length (client_magic cert) = 8%nat ->
  resolver_public_key cert = public_key_of rs ->
  exec (encrypt_query cert client msg) s tr (Ok (framed, nonce)) s' ->
  length nonce = 12%nat
  /\ decrypt_query rs (client_magic cert) framed = Ok (msg, public_key client, nonce).
Proof.
  intros Hk Hm Hpk (n & Hn & _ & Hr)%exec_encrypt_query. symmetry in Hr. inv_ok Hr.
  rename a into ct. unfold keypair_ok in Hk.
  assert (framed = client_magic cert ++ public_key client ++ n ++ ct) as -> by congruence.
  assert (nonce = n) as -> by congruence. split; [done|].
  rewrite decrypt_query_framed by (rewrite ?Hk; auto using length_public_key).
  rewrite Hpk in E. apply box_agrees in E. rewrite <- Hk in E. rewrite E. simpl.
  by rewrite unpad_pad.
Qed.

Lemma encrypt_query_safe {S} (P : forall X, eff X -> Prop) (I : S -> Prop) cert client msg :
  P _ (FillBytes 12) ->
  safe P I (encrypt_query cert client msg)
    (fun r => match r with
              | Ok (framed, nonce) => exists ct,
                  length nonce = 12%nat
                  /\ box_encrypt (secret_key client) (resolver_public_key cert)
                       (nonce ++ replicate 12 x00) (pad msg) = inr ct
                  /\ framed = client_magic cert ++ public_key client ++ nonce ++ ct
              | Err _ => True
              | Panic => False
              end).
Proof.
  intros HP. simpl. split; [done|]. intros nonce Hn.
  destruct (box_encrypt _ _ _ _) as [e|ct] eqn:E; simpl; [done|]. by exists ct.
Qed.

Lemma parse_certificates_elem txts pk certs :
  parse_certificates txts pk = Ok certs ->
  exists key, VerifyingKey_from_bytes pk = inr key
  /\ forall c, c ∈ certs <-> exists b, b ∈ txts /\ certified key b c.
Proof.
  unfold parse_certificates. intros H. inv_ok H. injection H as <-. exists a.
  split; [done|]. intros c. rewrite sort_by_key_perm, list_elem_of_omap.
  by setoid_rewrite parse_certified.
Qed.
Lemma parse_certificates_sorted txts pk certs :
  parse_certificates txts pk = Ok certs -> sorted_by (fun c => - serial c) certs.
Proof.
  unfold parse_certificates. intros H. inv_ok H. injection H as <-. apply sort_by_key_sorted.
Qed.
Lemma parse_certificates_not_Panic txts pk : parse_certificates txts pk <> Panic.
Proof. unfold parse_certificates. by destruct (VerifyingKey_from_bytes pk). Qed.

Lemma decrypt_query_not_Panic rs magic b : decrypt_query rs magic b <> Panic.
Proof.
  unfold decrypt_query. repeat case_match; try done.
  destruct (box_decrypt _ _ _ _) as [e|p]; simpl; [done|].
  pose proof (unpad_not_Panic p). by destruct (unpad p).
Qed.
Lemma decrypt_response_not_Panic cert client nonce b :
  decrypt_response cert client nonce b <> Panic.
Proof.
  unfold decrypt_response. repeat case_match; try done.
  destruct (box_decrypt _ _ _ _) as [e|p]; simpl; [done|]. apply unpad_not_Panic.
Qed.
End Boxes.

(** ** Properties *)
Section Properties.
Context `{HK : CryptoLib} {HKL : CryptoLaws}.

(** C33: a DNSCrypt exchange is a round trip on both legs. What the client
    encrypts under a certificate, the holder of the certificate's secret key
    decrypts to the same message, key and nonce; and what the resolver
    answers to that key and nonce, the client decrypts to the same answer. *)
Theorem dnscrypt_roundtrip {S T} cert client rs msg reply framed nonce resp
    (s s' : S) (t t' : T) tr tr' :
  keypair_ok client -> length (client_magic cert) = 8%nat ->
  resolver_public_key cert = public_key_of rs ->
  exec (encrypt_query cert client msg) s tr (Ok (framed, nonce)) s' ->
  exec (encrypt_server_response rs (public_key client) nonce reply) t tr' (Ok resp) t' ->
  decrypt_query rs (client_magic cert) framed = Ok (msg, public_key client, nonce)
  /\ decrypt_response cert client nonce resp = Ok reply.
Proof.
  intros Hk Hm Hpk Hq (rn & Hrn & _ & Hr)%exec_encrypt_server_response.
  destruct (encrypt_query_decrypts _ _ rs _ _ _ _ _ _ Hk Hm Hpk Hq) as [Hn Hd].
  split; [exact Hd|]. symmetry in Hr. inv_ok Hr. rename a into ct.
  assert (resp = RESOLVER_MAGIC ++ nonce ++ rn ++ ct) as -> by congruence. unfold keypair_ok in Hk.
  rewrite decrypt_response_framed by done.
  rewrite Hk in E. apply box_agrees in E. rewrite <- Hpk in E. rewrite E. simpl.
  apply unpad_pad.
Qed.

(** [parse_certificates] keeps exactly the records that are certificates
    of the supported suite signed by the provider, with the fields that were
    signed, in descending order of serial number, records of one serial in
    their order of arrival; it fails only on a malformed provider key. *)
Theorem parse_certificates_spec txts provider_public_key :
  match parse_certificates txts provider_public_key with
  | Ok certs =>
      exists key, VerifyingKey_from_bytes provider_public_key = inr key
      /\ (forall c, c ∈ certs <-> exists b, b ∈ txts /\ certified key b c)
      /\ sorted_by (fun c => - serial c) certs
      /\ forall n, filter (fun c => serial c = n) certs
                = filter (fun c => serial c = n)
                    (omap (fun b => parse_one_certificate b key) txts)
  | Err _ => exists e, VerifyingKey_from_bytes provider_public_key = inl e
  | Panic => False
  end.
Proof.
  unfold parse_certificates.
  destruct (VerifyingKey_from_bytes provider_public_key) as [e|key]; simpl; [by exists e|].
  exists key. split; [done|]. split; [|split; [apply sort_by_key_sorted|]].
  - intros c. rewrite sort_by_key_perm, list_elem_of_omap.
    by setoid_rewrite parse_certified.
  - intros n. pose proof (sort_by_key_stable (fun c => - serial c) (- n)
      (omap (fun b => parse_one_certificate b key) txts)) as Hst.
    assert (forall l : list Certificate, filter (fun c => serial c = n) l
              = filter (fun c => - serial c = - n) l) as Hf
      by (intros l; apply list_filter_iff; intros c; lia).
    by rewrite !Hf.
Qed.

(** A certificate signed by [sign_certificate] is 124 bytes long and
    parses back, under the signer's verifying key, to the fields signed. *)
Theorem sign_parse_certificate key c :
  cert_ok c ->
  let b := sign_certificate key (resolver_public_key c) (client_magic c) (serial c)
             (ts_start c) (ts_end c) in
  length b = 124%nat /\ parse_one_certificate b (verifying_key key) = Some c.
Proof.
  intros Hc b. split; [|by apply parse_signed].
  unfold b, sign_certificate, signed_fields. destruct Hc as (H1 & H2 & _).
  rewrite !length_app, !length_to_be, length_sign, H1, H2. done.
Qed.

(** Padding makes a message a positive multiple of 64 bytes, at most 64
    bytes longer, and is undone exactly by [unpad], which accepts a buffer if
    and only if it ends in the 0x80 mark and zeros, and never unwinds. *)
Theorem unpad_spec msg p :
  (exists k, length (pad msg) = (k * PAD_BLOCK_SIZE)%nat
             /\ (length msg < length (pad msg) <= length msg + PAD_BLOCK_SIZE)%nat)
  /\ unpad (pad msg) = Ok msg
  /\ (unpad p = Ok msg <-> exists n, p = msg ++ x80 :: replicate n x00)
  /\ unpad p <> Panic.
Proof.
  split; [apply length_pad|]. split; [apply unpad_pad|]. split; [|apply unpad_not_Panic]. split.
  - unfold unpad. destruct (rposition _ p) as [i|] eqn:E; [|done].
    apply rposition_Some in E as (x & Hx & _ & Hz). rewrite Hx.
    destruct (Z.eqb_spec (u8 x) 128) as [E|]; [|done]. intros [= <-].
    apply zeros_replicate in Hz. exists (length (drop (Datatypes.S i) p)). rewrite <- Hz.
    assert (x = x80) as -> by (apply u8_inj; done).
    by rewrite (take_drop_middle p i x80).
  - intros [n ->]. apply unpad_shape.
Qed.

(** A response decrypts to [msg] exactly when it is the resolver magic,
    the nonce this query used, a resolver nonce and a box of the padded [msg]
    under those nonces: nothing made for another query is accepted. *)
Theorem decrypt_response_spec cert client nonce resp msg :
  length nonce = 12%nat ->
  (decrypt_response cert client nonce resp = Ok msg
   <-> exists rnonce ct n,
         length rnonce = 12%nat /\ resp = RESOLVER_MAGIC ++ nonce ++ rnonce ++ ct
         /\ box_decrypt (secret_key client) (resolver_public_key cert) (nonce ++ rnonce) ct
            = inr (msg ++ x80 :: replicate n x00)).
Proof.
  intros Hn. split.
  - intros H. assert (32 <= length resp)%nat as Hl.
    { unfold decrypt_response in H. destruct (Nat.ltb_spec (length resp) 32); [done|lia]. }
    assert (slice 0 8 resp = RESOLVER_MAGIC /\ slice 8 20 resp = nonce) as [E1 E2].
    { unfold decrypt_response in H. destruct (Nat.ltb_spec (length resp) 32); [done|].
      do 2 (case_bool_decide; [|done]). done. }
    assert (resp = RESOLVER_MAGIC ++ nonce ++ slice 20 32 resp ++ drop 32 resp) as Hresp.
    { rewrite <- E1, <- E2, <- (take_drop 32 resp) at 1.
      replace (take 32 resp) with (slice 0 32 resp) by (unfold slice; by rewrite drop_0).
      rewrite (slice_split resp 0 8 32), (slice_split resp 8 20 32) by lia.
      by rewrite <- !app_assoc. }
    assert (length (slice 20 32 resp) = 12%nat) as Hrn by (rewrite length_slice; lia).
    rewrite Hresp, decrypt_response_framed in H by done. inv_ok H.
    unfold unpad in H. destruct (rposition _ a) as [i|] eqn:Ei; [|done].
    apply rposition_Some in Ei as (x & Hx & _ & Hz). rewrite Hx in H.
    destruct (Z.eqb_spec (u8 x) 128) as [Ex|]; [|done]. injection H as <-.
    apply zeros_replicate in Hz.
    exists (slice 20 32 resp), (drop 32 resp), (length (drop (S i) a)).
    split; [done|]. split; [done|]. rewrite E, <- Hz. f_equal.
    assert (x = x80) as -> by (apply u8_inj; done). by rewrite (take_drop_middle a i x80).
  - intros (rn & ct & n & Hrn & -> & Hb). rewrite decrypt_response_framed by done.
    rewrite Hb. simpl. apply unpad_shape.
Qed.
End Properties.

(** ** Witnesses *)
Section Witnesses.
#[local] Existing Instances ToyCrypto.lib ToyCrypto.laws.
Definition w_resolver : SecretKey := SecretKey_from_bytes [x01; x02; x03].
Definition w_client : ClientKeyPair :=
  let k := SecretKey_from_bytes [x0a; x0b] in
  {| secret_key := k; public_key := public_key_of k |}.
Definition w_cert : Certificate :=
  {| resolver_public_key := public_key_of w_resolver; client_magic := as_bytes "MAGIC123";
     serial := 3; ts_start := 100; ts_end := 200 |}.
Definition w_nonce : bytes := replicate 12 x07.
Definition w_rnonce : bytes := replicate 12 x09.
Definition w_msg : bytes := as_bytes "query".
Definition w_reply : bytes := as_bytes "answer".
Definition w_ok (r : res (bytes * bytes) DohError) : bytes :=
  match r with Ok (b, _) => b | _ => [] end.
Definition w_framed : bytes :=
  client_magic w_cert ++ public_key w_client ++ w_nonce
  ++ ToyCrypto.tag (ToyCrypto.key_bytes (secret_key w_client)) (resolver_public_key w_cert)
  :: pad w_msg.
Definition w_response : bytes :=
  RESOLVER_MAGIC ++ w_nonce ++ w_rnonce
  ++ ToyCrypto.tag (ToyCrypto.key_bytes w_resolver) (public_key w_client) :: pad w_reply.

Lemma dnscrypt_roundtrip_witness :
  decrypt_query w_resolver (client_magic w_cert) w_framed
    = Ok (w_msg, public_key w_client, w_nonce)
  /\ decrypt_response w_cert w_client w_nonce w_response = Ok w_reply.
Proof.
  apply (dnscrypt_roundtrip w_cert w_client w_resolver w_msg w_reply w_framed w_nonce w_response
           () () () () [Event (FillBytes 12) w_nonce] [Event (FillBytes 12) w_rnonce]);
    [reflexivity|vm_refl|vm_refl| |].
  - exists w_nonce, []. split; [reflexivity|]. split; [reflexivity|]. split_and!; vm_refl.
  - exists w_rnonce, []. split; [reflexivity|]. split; [reflexivity|]. split_and!; vm_refl.
Defined.

Lemma sign_parse_certificate_witness :
  let b := sign_certificate (SigningKey_from_bytes [x05]) (resolver_public_key w_cert)
             (client_magic w_cert) 3 100 200 in
  length b = 124%nat
  /\ parse_one_certificate b (verifying_key (SigningKey_from_bytes [x05])) = Some w_cert.
Proof.
  apply (sign_parse_certificate (SigningKey_from_bytes [x05]) w_cert).
  split; [vm_refl|]. split; [vm_refl|]. vm_compute. split_and!; discriminate.
Defined.

Lemma decrypt_response_spec_witness :
  decrypt_response w_cert w_client w_nonce w_response = Ok w_reply
  <-> exists rnonce ct n,
        length rnonce = 12%nat /\ w_response = RESOLVER_MAGIC ++ w_nonce ++ rnonce ++ ct
        /\ box_decrypt (secret_key w_client) (resolver_public_key w_cert) (w_nonce ++ rnonce) ct
           = inr (w_reply ++ x80 :: replicate n x00).
Proof. apply (decrypt_response_spec w_cert w_client w_nonce w_response w_reply). vm_refl. Defined.
End Witnesses.
