(* ===== verification/Stamp.v ===== *)
(** * DNS stamps

    [src/client/dnscrypt/stamp.rs] (parsing [sdns://] URLs) and [build_stamp] of
    [src/client/dnscrypt/keygen.rs] (printing them). *)
From S2P Require Import Prelude RustStr RustNet Errors Wire.

Definition STAMP_PROTO_TYPE_DNSCRYPT : Z := 1.
Definition DEFAULT_PORT_DNSCRYPT : Z := 443.

Record DnsCryptStamp := {
  addr : SocketAddr;
  provider_public_key : bytes;
  provider_name : string;
}.

(** [usize::checked_add]. *)
Definition checked_add (a b : nat) : option nat :=
  if Z.of_nat (a + b) <=? u64_max then Some (a + b)%nat else None.

(** The segment loop; every turn moves [pos] past a byte of [buf], so
    [S (length buf)] turns of fuel are enough ([read_lp_total]). *)
Fixpoint read_lp_loop (fuel : nat) (buf : bytes) (pos : nat) (out : bytes)
  : res (bytes * nat) string :=
  match fuel with
  | O => Panic
  | S fuel =>
      let? len_byte := ok_or "truncated stamp: missing length byte" (buf !! pos) in
      let pos := (pos + 1)%nat in
      let len := Z.to_nat (Z.land (u8 len_byte) 127) in
      let? stop := ok_or "truncated stamp: length overflow" (checked_add pos len) in
      let? seg := ok_or "truncated stamp: segment exceeds buffer" (slice_get pos stop buf) in
      let out := out ++ seg in
      if Z.land (u8 len_byte) 128 =? 0 then Ok (out, stop)
      else read_lp_loop fuel buf stop out
  end.
Definition read_lp (buf : bytes) (pos : nat) : res (bytes * nat) string :=
  read_lp_loop (S (length buf)) buf pos [].

(** [host:port], a bare address, or a bracketed one. *)
Definition parse_stamp_addr (s : string) : option SocketAddr :=
  match parse_socket_addr s with
  | Some a => Some a
  | None =>
      match parse_ip_addr s with
      | Some ip => Some (socket_addr_new ip DEFAULT_PORT_DNSCRYPT)
      | None =>
          let! inner := strip_prefix "[" s in
          let! (host, rest) := split_once_char "]" inner in
          let! ip := parse_ip_addr host in
          match strip_prefix ":" rest with
          | Some port_str =>
              let! port := res_ok (parse_u16 port_str) in Some (socket_addr_new ip port)
          | None =>
              if is_empty rest then Some (socket_addr_new ip DEFAULT_PORT_DNSCRYPT) else None
          end
      end
  end.

(** [{:#04x}] of a byte. *)
Definition hex_byte (b : Byte.byte) : string :=
  "0x" +:+ String (digit_char (u8 b / 16)) (String (digit_char (u8 b mod 16)) "").

Section Stamp.
Context `{HB : Base64}.

Definition parse_dnscrypt_stamp (a : string) : res DnsCryptStamp string :=
  let stamp := "stamp " +:+ debug_str a in
  let? payload :=
    ok_or (stamp +:+ " must start with " +:+ quote +:+ "sdns://" +:+ quote)
      (strip_prefix "sdns://" a) in
  let? b := from_sum (fun e => "invalid " +:+ stamp +:+ ": " +:+ e)
              (b64_decode URL_SAFE_NO_PAD payload) in
  let? proto := ok_or (stamp +:+ " is empty") (head b) in
  if negb (u8 proto =? STAMP_PROTO_TYPE_DNSCRYPT) then
    Err (stamp +:+ " has unsupported protocol type " +:+ hex_byte proto
         +:+ "; only DNSCrypt (0x01) is supported")
  else
    let? pos :=
      ok_or (stamp +:+ " is truncated in properties")
        (let! stop := checked_add 1 8 in
         if (stop <=? length b)%nat then Some stop else None) in
    let? (addr_bytes, pos) := read_lp b pos in
    let? addr_str := from_sum (fun e => stamp +:+ " has invalid address: " +:+ e)
                       (from_utf8 addr_bytes) in
    let? (provider_pk_bytes, pos) := read_lp b pos in
    let? (name_bytes, pos) := read_lp b pos in
    let? name := from_sum (fun e => stamp +:+ " has invalid provider name: " +:+ e)
                   (from_utf8 name_bytes) in
    if negb (length provider_pk_bytes =? 32)%nat then
      Err (stamp +:+ " has a " +:+ dec (Z.of_nat (length provider_pk_bytes))
           +:+ "-byte provider public key; expected 32")
    else
      let? sock_addr :=
        ok_or (stamp +:+ " has invalid server address " +:+ debug_str addr_str)
          (parse_stamp_addr addr_str) in
      Ok {| addr := sock_addr; provider_public_key := provider_pk_bytes; provider_name := name |}.

(** [len() as u8], then the bytes. *)
Definition push_lp (b : bytes) : bytes := as_u8 (Z.of_nat (length b)) :: b.
Definition stamp_bytes (a : SocketAddr) (pk : bytes) (name : string) : bytes :=
  [x01] ++ replicate 8 x00 ++ push_lp (as_bytes (show_socket_addr a)) ++ push_lp pk
  ++ push_lp (as_bytes name).
Definition build_stamp (a : SocketAddr) (pk : bytes) (name : string) : string :=
  "sdns://" +:+ b64_encode URL_SAFE_NO_PAD (stamp_bytes a pk name).
End Stamp.

(** ** Reading segments *)
Lemma land_low b : u8 b < 128 -> Z.land (u8 b) 127 = u8 b /\ Z.land (u8 b) 128 = 0.
Proof. destruct b; vm_compute; intros ?; done. Qed.
Lemma land_high b : 128 <= u8 b -> Z.land (u8 b) 127 = u8 b - 128 /\ Z.land (u8 b) 128 <> 0.
Proof. destruct b; vm_compute; intros ?; done. Qed.
Lemma land_bound b : 0 <= Z.land (u8 b) 127 < 128.
Proof.
  pose proof (u8_range b). destruct (Z.lt_ge_cases (u8 b) 128) as [Hb|Hb].
  - destruct (land_low b Hb). lia.
  - destruct (land_high b Hb). lia.
Qed.

Lemma slice_get_Some {A} i j (l s : list A) :
  slice_get i j l = Some s -> (i <= j <= length l)%nat /\ length s = (j - i)%nat.
Proof.
  unfold slice_get. case_decide; [|done]. intros [= <-]. split; [lia|]. apply length_slice; lia.
Qed.

Lemma read_lp_loop_bounds fuel buf pos out out' pos' :
  read_lp_loop fuel buf pos out = Ok (out', pos') ->
  (pos < pos' <= length buf)%nat /\ (length out' + pos + 1 <= length out + pos')%nat
  /\ (forall b, buf !! pos = Some b -> 128 <= u8 b ->
      (length out' + pos + 2 <= length out + pos')%nat)
  /\ (forall b, buf !! pos = Some b -> u8 b < 128 ->
      (length out' = length out + Z.to_nat (u8 b))%nat).
Proof.
  revert pos out. induction fuel as [|fuel IH]; intros pos out; cbn [read_lp_loop]; [done|].
  intros H. inv_ok H. rename a into b, a0 into stop, a1 into seg.
  unfold checked_add in E0. destruct (Z.of_nat (_ + _) <=? _) in E0; [injection E0 as <-|done].
  apply slice_get_Some in E1 as [Hb Hs].
  destruct (Z.eqb_spec (Z.land (u8 b) 128) 0) as [Hz|Hz].
  - injection H as <- <-. rewrite length_app. split_and!; try lia.
    + intros b' Hb' Hhi. assert (b' = b) as -> by congruence. by destruct (land_high b Hhi).
    + intros b' Hb' Hlo. assert (b' = b) as -> by congruence.
      destruct (land_low b Hlo) as [<- _]. lia.
  - apply IH in H as (H1 & H2 & _). rewrite length_app in H2. split_and!; try lia.
    intros b' Hb' Hlo. assert (b' = b) as -> by congruence. by destruct (land_low b Hlo).
Qed.

(** One turn of the loop. *)
Lemma read_lp_loop_S fuel buf pos out :
  read_lp_loop (S fuel) buf pos out
  = let? len_byte := ok_or "truncated stamp: missing length byte" (buf !! pos) in
    let? stop := ok_or "truncated stamp: length overflow"
                   (checked_add (pos + 1) (Z.to_nat (Z.land (u8 len_byte) 127))) in
    let? seg := ok_or "truncated stamp: segment exceeds buffer"
                  (slice_get (pos + 1) stop buf) in
    if Z.land (u8 len_byte) 128 =? 0 then Ok (out ++ seg, stop)
    else read_lp_loop fuel buf stop (out ++ seg).
Proof. done. Qed.

(** The fuel is enough: the loop always reaches one of its exits. *)
Lemma read_lp_loop_total fuel buf pos out :
  (length buf <= fuel + pos)%nat -> read_lp_loop (S fuel) buf pos out <> Panic.
Proof.
  revert pos out. induction fuel as [|fuel IH]; intros pos out Hf;
    rewrite read_lp_loop_S;
    (destruct (buf !! pos) as [b|] eqn:Eb; simpl; [|done]);
    (destruct (checked_add _ _) as [stop|] eqn:Es; simpl; [|done]);
    (destruct (slice_get _ _ _) as [seg|] eqn:Eg; simpl; [|done]);
    apply slice_get_Some in Eg as [Hg _].
  - apply lookup_lt_Some in Eb. lia.
  - destruct (_ =? 0); [done|]. apply IH. lia.
Qed.
Lemma read_lp_total buf pos : read_lp buf pos <> Panic.
Proof. apply read_lp_loop_total. lia. Qed.

Lemma u8_as_u8_small z : 0 <= z < 256 -> u8 (as_u8 z) = z.
Proof. intros Hz. rewrite u8_as_u8. by apply Z.mod_small. Qed.

Lemma read_lp_push pre seg rest n :
  length pre = n -> (length seg < 128)%nat -> Z.of_nat n <= u32_max ->
  read_lp (pre ++ push_lp seg ++ rest) n = Ok (seg, (n + length (push_lp seg))%nat).
Proof.
  intros <- Hs Hn. unfold read_lp, push_lp. rewrite read_lp_loop_S. cbn [app].
  set (b := as_u8 _). assert (u8 b = Z.of_nat (length seg)) as Hb
    by (apply u8_as_u8_small; lia).
  rewrite list_lookup_middle by done. cbn [res_bind ok_or].
  destruct (land_low b ltac:(lia)) as [-> ->]. rewrite Hb, Nat2Z.id.
  unfold checked_add. cbn [length].
  assert (slice_get (length pre + 1) (length pre + 1 + length seg) (pre ++ b :: seg ++ rest)
          = Some seg) as Hg.
  { unfold slice_get. rewrite decide_True; [|rewrite length_app; cbn [length]; rewrite length_app; lia].
    f_equal. replace (pre ++ b :: seg ++ rest) with ((pre ++ [b]) ++ seg ++ rest)
      by by rewrite <- app_assoc.
    apply slice_part; [rewrite length_app; simpl; lia|lia|lia]. }
  destruct (Z.leb_spec (Z.of_nat (length pre + 1 + length seg)) u64_max) as [Hl|Hl];
    [|unfold u64_max, u32_max in *; lia].
  cbn [res_bind ok_or]. rewrite Hg. cbn [res_bind ok_or Z.eqb]. do 2 f_equal. lia.
Qed.

(** A segment longer than its length byte can say is never read back. *)
Lemma read_lp_push_long pre seg n out pos :
  length pre = n -> (128 <= length seg)%nat ->
  read_lp (pre ++ push_lp seg) n = Ok (out, pos) -> (length out < length seg)%nat.
Proof.
  intros <- Hs Hr. unfold read_lp in Hr.
  apply read_lp_loop_bounds in Hr as (H1 & H2 & H3 & H4).
  rewrite length_app in H1. unfold push_lp in *. cbn [length] in *.
  set (b := as_u8 _) in *.
  assert ((pre ++ b :: seg) !! length pre = Some b) as Hb by by apply list_lookup_middle.
  destruct (Z.lt_ge_cases (u8 b) 128) as [Hlo|Hhi].
  - rewrite (H4 b Hb Hlo). lia.
  - specialize (H3 b Hb Hhi). lia.
Qed.

(** ** A displayed IPv4 address is short and ASCII *)
Definition ascii_bytes (s : string) : Prop := Forall (fun b => u8 b < 128) (as_bytes s).

Lemma ascii_bytes_app a b : ascii_bytes a -> ascii_bytes b -> ascii_bytes (a +:+ b).
Proof. unfold ascii_bytes. rewrite as_bytes_app, Forall_app. done. Qed.

Lemma show_digits_ascii l :
  Forall (fun d => 0 <= d < 10) l ->
  ascii_bytes (show_digits l) /\ length (as_bytes (show_digits l)) = length l.
Proof.
  induction 1 as [|d l Hd Hl [IH1 IH2]]; [by repeat constructor|].
  change (show_digits (d :: l)) with (String (digit_char d) (show_digits l)).
  unfold ascii_bytes in *. rewrite as_bytes_cons. cbn [length]. rewrite IH2.
  split; [|done]. constructor; [|done].
  assert (d = 0 \/ d = 1 \/ d = 2 \/ d = 3 \/ d = 4 \/ d = 5 \/ d = 6 \/ d = 7 \/ d = 8 \/ d = 9)
    as Hc by lia.
  repeat (destruct Hc as [->|Hc]; [done|]). by subst d.
Qed.

Lemma length_digits fuel radix z : (length (digits fuel radix z) <= fuel)%nat.
Proof.
  revert z. induction fuel as [|fuel IH]; intros z; cbn [digits]; [done|].
  destruct (z <? radix); cbn [length]; [lia|].
  rewrite length_app. cbn [length]. specialize (IH (z / radix)). lia.
Qed.

Lemma dec_ascii z : 0 <= z < 10 ^ 20 -> ascii_bytes (dec z) /\ (length (as_bytes (dec z)) <= 20)%nat.
Proof.
  intros Hz. destruct (digits_spec 20 z Hz) as (HF & _). unfold dec.
  destruct (show_digits_ascii _ HF) as [H1 H2]. split; [done|].
  rewrite H2. apply length_digits.
Qed.

Lemma show_socket_v4_ascii ip port :
  0 <= port <= u16_max ->
  let s := show_socket_addr (SockV4 ip port) in
  ascii_bytes s /\ (length (as_bytes s) < 128)%nat.
Proof.
  intros Hp s. unfold s, show_socket_addr, show_ipv4.
  assert (forall b, ascii_bytes (dec (u8 b)) /\ (length (as_bytes (dec (u8 b))) <= 20)%nat) as Hd.
  { intros b. pose proof (u8_range b). apply dec_ascii. lia. }
  destruct (Hd (oct1 ip)), (Hd (oct2 ip)), (Hd (oct3 ip)), (Hd (oct4 ip)).
  destruct (dec_ascii port) as [? ?]; [unfold u16_max in *; lia|].
  split.
  - assert (ascii_bytes "." /\ ascii_bytes ":") as [? ?]
      by (split; apply List.Forall_cons; [done|apply List.Forall_nil|done|apply List.Forall_nil]).
    repeat first [assumption | apply ascii_bytes_app].
  - rewrite !as_bytes_app, !length_app. cbn [length as_bytes]. simpl. lia.
Qed.

(** ** Properties *)
Section Properties.
Context {HB : Base64} {HBL : Base64Laws}.

Lemma parse_build a pk name :
  ascii_bytes (show_socket_addr a) -> (length (as_bytes (show_socket_addr a)) < 128)%nat ->
  parse_socket_addr (show_socket_addr a) = Some a -> length pk = 32%nat ->
  parse_dnscrypt_stamp (build_stamp a pk name)
  = (let b := stamp_bytes a pk name in
     let stamp := "stamp " +:+ debug_str (build_stamp a pk name) in
     let n := (42 + length (as_bytes (show_socket_addr a)) + 1)%nat in
     let? (name_bytes, _) := read_lp b n in
     let? name := from_sum (fun e => stamp +:+ " has invalid provider name: " +:+ e)
                    (from_utf8 name_bytes) in
     Ok {| addr := a; provider_public_key := pk; provider_name := name |}).
Proof.
  intros Hasc Hlen Hparse Hpk. unfold parse_dnscrypt_stamp, build_stamp at 1 2 3.
  rewrite strip_prefix_app. cbn [ok_or res_bind]. rewrite url_safe_roundtrip.
  cbn [from_sum res_bind]. set (b := stamp_bytes a pk name).
  set (A := as_bytes (show_socket_addr a)) in *.
  assert (b = ([x01] ++ replicate 8 x00) ++ push_lp A ++ push_lp pk ++ push_lp (as_bytes name))
    as Hb by (unfold b, stamp_bytes; by rewrite <- app_assoc).
  change (head b) with (Some x01). cbn [ok_or res_bind].
  change (negb (u8 x01 =? STAMP_PROTO_TYPE_DNSCRYPT)) with false. cbv iota.
  change (checked_add 1 8) with (Some 9%nat). cbv iota beta.
  destruct (Nat.leb_spec 9 (length b)) as [_|Hl];
    [|rewrite Hb, !length_app in Hl; simpl in Hl; lia].
  cbn [ok_or res_bind].
  assert (read_lp b 9 = Ok (A, (9 + length (push_lp A))%nat)) as ->
    by (rewrite Hb; apply read_lp_push; [done|done|unfold u32_max; lia]).
  cbn [res_bind]. unfold from_utf8 at 1. rewrite utf8_ascii by done. cbn [from_sum res_bind].
  assert (read_lp b (9 + length (push_lp A)) = Ok (pk, (42 + length A + 1)%nat)) as ->.
  { rewrite Hb, app_assoc. rewrite (read_lp_push _ pk _ (9 + length (push_lp A))).
    - unfold push_lp. cbn [length]. rewrite Hpk. do 2 f_equal. lia.
    - by rewrite length_app.
    - lia.
    - unfold push_lp, u32_max. cbn [length]. lia. }
  cbn [res_bind]. fold A. destruct (read_lp b _) as [[nb p]|e|]; simpl; [|done|done].
  destruct (from_utf8 nb) as [e|nm]; simpl; [done|].
  rewrite Hpk. cbn [Nat.eqb negb]. unfold A. rewrite of_bytes_as_bytes.
  unfold parse_stamp_addr. by rewrite Hparse.
Qed.

(** C36: for a server at an IPv4 address, the stamp [build_stamp] prints parses
    back to the same address, key and provider name exactly when the name
    is shorter than 128 bytes: a longer one sets the continuation bit of its
    length byte (or wraps it) and is never read back. *)
Theorem stamp_roundtrip ip port pk name :
  0 <= port <= u16_max -> length pk = 32%nat -> utf8_error (as_bytes name) 0 = None ->
  (parse_dnscrypt_stamp (build_stamp (SockV4 ip port) pk name)
   = Ok {| addr := SockV4 ip port; provider_public_key := pk; provider_name := name |}
   <-> (length (as_bytes name) < 128)%nat).
Proof.
  intros Hp Hpk Hutf. destruct (show_socket_v4_ascii ip port Hp) as [Hasc Hlen].
  rewrite parse_build by (done || by apply parse_show_socket_v4). cbv zeta.
  set (a := SockV4 ip port) in *. set (n := (42 + _ + 1)%nat).
  assert (exists pre, length pre = n /\ stamp_bytes a pk name = pre ++ push_lp (as_bytes name))
    as (pre & Hpre & ->).
  { exists ([x01] ++ replicate 8 x00 ++ push_lp (as_bytes (show_socket_addr a)) ++ push_lp pk).
    split; [|unfold stamp_bytes; by rewrite <- !app_assoc].
    rewrite !length_app, length_replicate. unfold push_lp, n. cbn [length]. rewrite Hpk. lia. }
  split.
  - intros H. destruct (Nat.lt_ge_cases (length (as_bytes name)) 128) as [|Hge]; [done|].
    inv_ok H. destruct a0 as [nb p]. inv_ok H. injection H as ->.
    apply read_lp_push_long in E; [|done|done].
    unfold from_utf8 in E0. destruct (utf8_error nb 0); [done|]. injection E0 as <-.
    rewrite as_bytes_of_bytes in E. lia.
  - intros Hn. rewrite <- (app_nil_r (push_lp (as_bytes name))).
    rewrite read_lp_push by (done || (unfold n, u32_max; lia)). cbn [res_bind].
    unfold from_utf8. rewrite Hutf. cbn [from_sum res_bind]. by rewrite of_bytes_as_bytes.
Qed.

Lemma parse_stamp_cases a :
  match parse_dnscrypt_stamp a with
  | Ok st => length (provider_public_key st) = 32%nat
  | Err _ => True
  | Panic => False
  end.
Proof.
  unfold parse_dnscrypt_stamp.
  destruct (strip_prefix _ a) as [payload|]; simpl; [|done].
  destruct (b64_decode _ payload) as [e|b]; simpl; [done|].
  destruct (head b) as [proto|]; simpl; [|done]. destruct (negb _); [done|].
  destruct (if (9 <=? length b)%nat then _ else _) as [pos|]; simpl; [|done].
  pose proof (read_lp_total b pos) as T1.
  destruct (read_lp b pos) as [[ab p1]|e|]; simpl; [|done|done].
  destruct (from_utf8 ab) as [e|astr]; simpl; [done|].
  pose proof (read_lp_total b p1) as T2.
  destruct (read_lp b p1) as [[pk p2]|e|]; simpl; [|done|done].
  pose proof (read_lp_total b p2) as T3.
  destruct (read_lp b p2) as [[nb p3]|e|]; simpl; [|done|done].
  destruct (from_utf8 nb) as [e|name]; simpl; [done|].
  destruct (Nat.eqb_spec (length pk) 32); simpl; [|done].
  by destruct (parse_stamp_addr astr).
Qed.
Lemma parse_stamp_not_Panic a : parse_dnscrypt_stamp a <> Panic.
Proof. pose proof (parse_stamp_cases a) as H. by destruct (parse_dnscrypt_stamp a). Qed.

(** C37: parsing a stamp always ends with a stamp or an error message: the
    segment loop runs out of input before it runs out of fuel, and a parsed
    stamp carries a 32-byte key. *)
Theorem parse_stamp_total a :
  match parse_dnscrypt_stamp a with
  | Ok st => length (provider_public_key st) = 32%nat
  | Err _ => True
  | Panic => False
  end.
Proof. apply parse_stamp_cases. Qed.
End Properties.

Section Witnesses.
#[local] Existing Instances ToyBase64.base64 ToyBase64.laws.
Definition w_ip : Ipv4Addr := Ipv4 x7f x00 x00 x01.
Definition w_key : bytes := replicate 32 x2a.

Lemma stamp_roundtrip_witness :
  parse_dnscrypt_stamp (build_stamp (SockV4 w_ip 5443) w_key "2.dnscrypt-cert.example.org")
  = Ok {| addr := SockV4 w_ip 5443; provider_public_key := w_key;
          provider_name := "2.dnscrypt-cert.example.org" |}.
Proof.
  apply (stamp_roundtrip w_ip 5443 w_key "2.dnscrypt-cert.example.org");
    [vm_compute; split; discriminate|vm_refl|vm_refl|].
  vm_compute. lia.
Defined.
End Witnesses.
