(* ===== verification/Keygen.v ===== *)
(** * Resolver key material

    [ResolverConfig] of [src/client/dnscrypt/keygen.rs], and its
    [key = value] file of [src/client/dnscrypt/config.rs]. Paths are given as
    they are displayed. *)
From S2P Require Import Prelude RustStr RustNet Io Errors Wire CryptoLib Crypto Stamp.

Definition DEFAULT_CERT_TTL_SECS : Z := 365 * 24 * 60 * 60.
Definition KEY_PROVIDER_NAME : string := "provider_name".
Definition KEY_PROVIDER_SIGNING_KEY : string := "provider_signing_key".
Definition KEY_RESOLVER_SECRET_KEY : string := "resolver_secret_key".

Section Keygen.
Context `{HK : CryptoLib} {HB : Base64}.

Record ResolverConfig := {
  config_name : string;
  provider_signing_key : SigningKey;
  resolver_secret_key : SecretKey;
}.

Definition generate {S} (name : string) : io S ResolverConfig :=
  let* signing := call (FillBytes 32) in
  let* secret := call (FillBytes 32) in
  IoRet {| config_name := name; provider_signing_key := SigningKey_from_bytes signing;
           resolver_secret_key := SecretKey_from_bytes secret |}.

Definition certificate (c : ResolverConfig) (client_magic : bytes) (serial ts_start ts_end : Z)
  : bytes :=
  sign_certificate (provider_signing_key c) (public_key_of (resolver_secret_key c)) client_magic
    serial ts_start ts_end.

Definition stamp (c : ResolverConfig) (a : SocketAddr) : string :=
  build_stamp a (VerifyingKey_to_bytes (verifying_key (provider_signing_key c))) (config_name c).

(** ** The file *)
Definition entry_line (key value : string) : string := key +:+ " = " +:+ value.
Definition config_text (c : ResolverConfig) : string :=
  entry_line KEY_PROVIDER_NAME (config_name c) +:+ String newline
  (entry_line KEY_PROVIDER_SIGNING_KEY
     (b64_encode STANDARD (SigningKey_to_bytes (provider_signing_key c))) +:+ String newline
  (entry_line KEY_RESOLVER_SECRET_KEY
     (b64_encode STANDARD (SecretKey_to_bytes (resolver_secret_key c))) +:+ String newline "")).

Definition save {S} (path : string) (c : ResolverConfig) : io S (res unit string) :=
  io_map_err (fun e => "writing " +:+ path +:+ ": " +:+ e) (call (FsWrite path (config_text c))).

Definition decode_key (value : string) : res bytes string :=
  let? b := from_sum (fun e => "invalid base64: " +:+ e) (b64_decode STANDARD value) in
  if (length b =? 32)%nat then Ok b
  else Err ("expected 32 bytes, got " +:+ dec (Z.of_nat (length b))).
Definition decode_signing_key (value : string) : res SigningKey string :=
  res_map SigningKey_from_bytes (decode_key value).
Definition decode_secret_key (value : string) : res SecretKey string :=
  res_map SecretKey_from_bytes (decode_key value).

(** The three variables of the loop. *)
Record Partial := {
  p_name : option string;
  p_signing : option SigningKey;
  p_secret : option SecretKey;
}.
Definition empty_partial : Partial := {| p_name := None; p_signing := None; p_secret := None |}.

Definition load_line (path : string) (idx : Z) (line : string) (p : Partial)
  : res Partial string :=
  let line := trim line in
  if is_empty line || starts_with "#" line then Ok p
  else
    let at_line := path +:+ ":" +:+ dec (idx + 1) +:+ ": " in
    let? (key, value) :=
      ok_or (at_line +:+ "expected " +:+ quote +:+ "key = value" +:+ quote)
        (split_once_char "=" line) in
    let key := trim key in
    let value := trim value in
    if String.eqb key KEY_PROVIDER_NAME then
      Ok {| p_name := Some value; p_signing := p_signing p; p_secret := p_secret p |}
    else if String.eqb key KEY_PROVIDER_SIGNING_KEY then
      let? k := map_err (fun e => at_line +:+ KEY_PROVIDER_SIGNING_KEY +:+ ": " +:+ e)
                  (decode_signing_key value) in
      Ok {| p_name := p_name p; p_signing := Some k; p_secret := p_secret p |}
    else if String.eqb key KEY_RESOLVER_SECRET_KEY then
      let? k := map_err (fun e => at_line +:+ KEY_RESOLVER_SECRET_KEY +:+ ": " +:+ e)
                  (decode_secret_key value) in
      Ok {| p_name := p_name p; p_signing := p_signing p; p_secret := Some k |}
    else Err (at_line +:+ "unknown key " +:+ debug_str key).

Fixpoint load_lines (path : string) (idx : Z) (ls : list string) (p : Partial)
  : res Partial string :=
  match ls with
  | [] => Ok p
  | l :: ls => let? p := load_line path idx l p in load_lines path (idx + 1) ls p
  end.

Definition load_text (path text : string) : res ResolverConfig string :=
  let? p := load_lines path 0 (lines text) empty_partial in
  let missing key := path +:+ ": missing " +:+ key in
  let? name := ok_or (missing KEY_PROVIDER_NAME) (p_name p) in
  let? signing := ok_or (missing KEY_PROVIDER_SIGNING_KEY) (p_signing p) in
  let? secret := ok_or (missing KEY_RESOLVER_SECRET_KEY) (p_secret p) in
  Ok {| config_name := name; provider_signing_key := signing; resolver_secret_key := secret |}.

Definition load {S} (path : string) : io S (res ResolverConfig string) :=
  try* text := io_map_err (fun e => "reading " +:+ path +:+ ": " +:+ e) (call (FsRead path)) in
  IoRet (load_text path text).
End Keygen.

(** ** Lemmas *)
Lemma standard_visible c : standard_char c = true -> visible c = true.
Proof.
  unfold standard_char, visible. intros Hc.
  repeat (apply orb_true_iff in Hc as [Hc|Hc]); lia.
Qed.
Lemma all_visible_char_in s :
  (forall c, char_in c s = true -> visible c = true) -> all_visible s = true.
Proof.
  induction s as [|c s IH]; [done|]. intros Hs. simpl. rewrite Hs by (simpl; by rewrite decide_True).
  apply IH. intros d Hd. apply Hs. simpl. by case_decide.
Qed.

Section Lemmas.
Context `{HK : CryptoLib} {HKL : CryptoLaws} {HB : Base64} {HBL : Base64Laws}.

Lemma standard_all_visible b : all_visible (b64_encode STANDARD b) = true.
Proof. apply all_visible_char_in. intros c Hc. eapply standard_visible, standard_alphabet, Hc. Qed.

Lemma standard_nonempty b : length b = 32%nat -> b64_encode STANDARD b <> "".
Proof.
  intros Hb E. pose proof (standard_roundtrip b) as Hr. rewrite E, standard_empty in Hr.
  by injection Hr as <-.
Qed.

(** A line [key = value] with a visible value. *)
Lemma load_entry path idx key value p :
  match key with String c _ => visible c = true /\ c <> "#"%char | EmptyString => False end ->
  char_in "=" key = false -> trim (key +:+ " ") = key ->
  all_visible value = true -> value <> "" ->
  load_line path idx (entry_line key value) p
  = (let at_line := path +:+ ":" +:+ dec (idx + 1) +:+ ": " in
     if String.eqb key KEY_PROVIDER_NAME then
       Ok {| p_name := Some value; p_signing := p_signing p; p_secret := p_secret p |}
     else if String.eqb key KEY_PROVIDER_SIGNING_KEY then
       let? k := map_err (fun e => at_line +:+ KEY_PROVIDER_SIGNING_KEY +:+ ": " +:+ e)
                   (decode_signing_key value) in
       Ok {| p_name := p_name p; p_signing := Some k; p_secret := p_secret p |}
     else if String.eqb key KEY_RESOLVER_SECRET_KEY then
       let? k := map_err (fun e => at_line +:+ KEY_RESOLVER_SECRET_KEY +:+ ": " +:+ e)
                   (decode_secret_key value) in
       Ok {| p_name := p_name p; p_signing := p_signing p; p_secret := Some k |}
     else Err (at_line +:+ "unknown key " +:+ debug_str key)).
Proof.
  intros Hkey Heq Htrim Hv Hne. destruct key as [|c key]; [done|]. destruct Hkey as [Hc Hh].
  unfold load_line.
  assert (trim (entry_line (String c key) value) = entry_line (String c key) value) as ->.
  { unfold entry_line. rewrite app_cons_str.
    replace (String c (key +:+ " = " +:+ value)) with (String c (key +:+ " = ") +:+ value)
      by by rewrite app_cons_str, app_assoc_str.
    by apply trim_prefixed. }
  assert (starts_with "#" (entry_line (String c key) value) = false) as ->.
  { unfold starts_with, entry_line. rewrite app_cons_str. simpl. by rewrite decide_False. }
  cbn [entry_line String.append is_empty orb].
  assert (entry_line (String c key) value = (String c key +:+ " ") +:+ String "="%char (" " +:+ value))
    as Hline by (unfold entry_line; by rewrite app_assoc_str).
  change (String c (key +:+ " = " +:+ value)) with (entry_line (String c key) value).
  rewrite Hline, split_once_char_app by (by rewrite char_in_app, Heq).
  cbn [ok_or res_bind]. rewrite Htrim.
  change (" " +:+ value) with (String " "%char value). by rewrite trim_space_visible.
Qed.

Lemma decode_key_roundtrip b :
  length b = 32%nat -> decode_key (b64_encode STANDARD b) = Ok b.
Proof. intros Hb. unfold decode_key. rewrite standard_roundtrip. simpl. by rewrite Hb. Qed.

Lemma entry_line_clean key value :
  char_in newline key = false -> all_visible value = true -> value <> "" ->
  char_in newline (entry_line key value) = false
  /\ strip_cr (entry_line key value) = entry_line key value.
Proof.
  intros Hk Hv Hne. unfold entry_line. split.
  - rewrite !char_in_app, Hk. by rewrite (char_in_visible newline value).
  - destruct (all_visible_snoc value Hv Hne) as (s & d & -> & Hd).
    rewrite <- !app_assoc_str. by apply strip_cr_visible.
Qed.

Lemma lines_config c :
  all_visible (config_name c) = true -> config_name c <> "" ->
  lines (config_text c)
  = [entry_line KEY_PROVIDER_NAME (config_name c);
     entry_line KEY_PROVIDER_SIGNING_KEY
       (b64_encode STANDARD (SigningKey_to_bytes (provider_signing_key c)));
     entry_line KEY_RESOLVER_SECRET_KEY
       (b64_encode STANDARD (SecretKey_to_bytes (resolver_secret_key c)))].
Proof.
  intros Hv Hne. unfold config_text.
  destruct (entry_line_clean KEY_PROVIDER_NAME (config_name c)) as [H1 H2]; [done..|].
  destruct (entry_line_clean KEY_PROVIDER_SIGNING_KEY
              (b64_encode STANDARD (SigningKey_to_bytes (provider_signing_key c)))) as [H3 H4];
    [done|apply standard_all_visible|apply standard_nonempty, length_SigningKey|].
  destruct (entry_line_clean KEY_RESOLVER_SECRET_KEY
              (b64_encode STANDARD (SecretKey_to_bytes (resolver_secret_key c)))) as [H5 H6];
    [done|apply standard_all_visible|apply standard_nonempty, length_SecretKey|].
  by rewrite !lines_cons.
Qed.
End Lemmas.

(** ** Properties *)
Section Properties.
Context `{HK : CryptoLib} {HKL : CryptoLaws} {HB : Base64} {HBL : Base64Laws}.

(** C38: a configuration whose provider name is visible ASCII survives [save]
    and [load]: the text written loads back to the same name and keys. *)
Theorem config_roundtrip path c :
  all_visible (config_name c) = true -> config_name c <> "" ->
  load_text path (config_text c) = Ok c.
Proof.
  intros Hv Hne. unfold load_text. rewrite lines_config by done. cbn [load_lines].
  rewrite load_entry by (done || vm_refl). cbn [String.eqb].
  change (String.eqb KEY_PROVIDER_NAME KEY_PROVIDER_NAME) with true. cbv iota zeta. cbn [res_bind].
  rewrite load_entry; [|done|done|vm_refl|apply standard_all_visible
                      |apply standard_nonempty, length_SigningKey].
  change (String.eqb KEY_PROVIDER_SIGNING_KEY KEY_PROVIDER_NAME) with false.
  change (String.eqb KEY_PROVIDER_SIGNING_KEY KEY_PROVIDER_SIGNING_KEY) with true.
  cbv iota zeta. unfold decode_signing_key.
  rewrite decode_key_roundtrip by apply length_SigningKey. cbn [res_map map_err res_bind].
  rewrite load_entry; [|done|done|vm_refl|apply standard_all_visible
                      |apply standard_nonempty, length_SecretKey].
  change (String.eqb KEY_RESOLVER_SECRET_KEY KEY_PROVIDER_NAME) with false.
  change (String.eqb KEY_RESOLVER_SECRET_KEY KEY_PROVIDER_SIGNING_KEY) with false.
  change (String.eqb KEY_RESOLVER_SECRET_KEY KEY_RESOLVER_SECRET_KEY) with true.
  cbv iota zeta. unfold decode_secret_key.
  rewrite decode_key_roundtrip by apply length_SecretKey. cbn [res_map map_err res_bind].
  cbn [p_name p_signing p_secret ok_or res_bind empty_partial].
  rewrite SigningKey_bytes, SecretKey_bytes. by destruct c.
Qed.
End Properties.

Section Witnesses.
#[local] Existing Instances ToyBase64.base64 ToyBase64.laws ToyCrypto.lib ToyCrypto.laws.
Definition w_config : ResolverConfig :=
  {| config_name := "2.dnscrypt-cert.example.org";
     provider_signing_key := SigningKey_from_bytes [x01];
     resolver_secret_key := SecretKey_from_bytes [x02] |}.
Lemma config_roundtrip_witness :
  load_text "resolver.conf" (config_text w_config) = Ok w_config.
Proof. apply (config_roundtrip "resolver.conf" w_config); [vm_refl|discriminate]. Defined.
End Witnesses.
