(* ===== verification/DnsCrypt.v ===== *)
(** * The DNSCrypt upstream

    [src/client/dnscrypt.rs]: the certificate cached in a shared cell, fetched
    over plain UDP as TXT records, and the encrypted exchange over UDP with the
    fall-back to TCP on truncation. *)
From S2P Require Import Prelude RustStr RustNet Io Dns Errors WebLib Wire Bootstrap Framing.
From S2P Require Import Doq CryptoLib Crypto Stamp.
Implicit Type P : forall X, eff X -> Prop.

Record DnsCryptUpstream (S : Type) := MkDnsCrypt {
  stamp : DnsCryptStamp;
  addr_redacted : string;
  timeout : option Z;
  cert : cell S (option Certificate);
}.
Arguments MkDnsCrypt {S}.
Arguments stamp {S}.
Arguments addr_redacted {S}.
Arguments timeout {S}.
Arguments cert {S}.

Section DnsCrypt.
Context {S : Type} `{HL : DnsLib} {HC : DnsCodec} {HB : Base64} {HK : CryptoLib}.
Implicit Types (u : DnsCryptUpstream S).

Definition new (stamp_url : string) (opts : Options (Resolver S))
    (c : cell S (option Certificate)) : res (DnsCryptUpstream S) string :=
  let? st := parse_dnscrypt_stamp stamp_url in
  Ok {| stamp := st; addr_redacted := stamp_url; timeout := opt_timeout opts; cert := c |}.
Definition address u : string := addr_redacted u.

(** Seconds since the epoch as [u32]; 0 before it. *)
Definition now_unix : io S Z :=
  let* t := call UnixNow in IoRet (if t <? 0 then 0 else as_u32 t).

Definition exchange_udp u (framed : bytes) : io S (res bytes DohError) :=
  let local := if sock_is_ipv4 (addr (stamp u)) then "0.0.0.0:0" else "[::]:0" in
  try* sock := io_map_err IoError (call (UdpBind local)) in
  try* _ := io_map_err IoError (call (UdpConnect sock (addr (stamp u)))) in
  try* _ := io_map_err IoError (call (UdpSend sock framed)) in
  io_map_err IoError (call (UdpRecv sock MAX_MSG_SIZE)).

Definition exchange_tcp u (framed : bytes) : io S (res bytes DohError) :=
  if too_large framed then IoRet (Err (DnsCrypt "encrypted query too large for tcp framing"))
  else
    try* tcp := io_map_err IoError (call (TcpConnect (addr (stamp u)))) in
    try* _ := write_framed IoError tcp framed in
    read_framed IoError tcp.

Definition exchange_with_cert u (c : Certificate) (req : Message) : io S (res Message DohError) :=
  try* req_bytes := IoRet (from_sum Pack (to_bytes req)) in
  let* client := generate in
  try* (framed, client_nonce) := encrypt_query c client req_bytes in
  try* enc_resp := exchange_udp u framed in
  try* resp_bytes := IoRet (decrypt_response c client client_nonce enc_resp) in
  try* resp := IoRet (from_sum (invalid "unpacking response: ") (from_bytes resp_bytes)) in
  if truncation (metadata resp) then
    try* enc_resp := exchange_tcp u framed in
    try* resp_bytes := IoRet (decrypt_response c client client_nonce enc_resp) in
    IoRet (check_response resp_bytes req)
  else
    IoRet (let? _ := validate_response req resp in Ok resp).

Definition txt_strings (resp : Message) : list bytes :=
  concat (omap (fun rec => rdata_txt (record_data rec)) (answers resp)).

Definition fetch_provider_txt u : io S (res (list bytes) DohError) :=
  try* name := IoRet (from_sum (fun e => DnsCrypt ("invalid provider name: " +:+ e))
                        (Name_from_ascii (provider_name (stamp u)))) in
  let* id := call RandomU16 in
  let msg := bootstrap_query id name RT_TXT in
  try* req_bytes := IoRet (from_sum Pack (to_bytes msg)) in
  let local := if sock_is_ipv4 (addr (stamp u)) then "0.0.0.0:0" else "[::]:0" in
  try* sock := io_map_err IoError (call (UdpBind local)) in
  try* _ := io_map_err IoError (call (UdpConnect sock (addr (stamp u)))) in
  try* _ := io_map_err IoError (call (UdpSend sock req_bytes)) in
  try* buf := io_map_err IoError (call (UdpRecv sock MAX_MSG_SIZE)) in
  try* resp := IoRet (from_sum (invalid "unpacking cert response: ") (from_bytes buf)) in
  IoRet (Ok (txt_strings resp)).

Definition refresh_cert u : io S (res Certificate DohError) :=
  try* txt_records := fetch_provider_txt u in
  try* certs := IoRet (parse_certificates txt_records (provider_public_key (stamp u))) in
  let* now := now_unix in
  let certs := List.filter (fun c => is_valid_at c now) certs in
  try* c := IoRet (ok_or (DnsCrypt ("no valid certificate found for provider "
                                    +:+ debug_str (provider_name (stamp u)))) (head certs)) in
  let* _ := write_cell (cert u) (Some c) in
  IoRet (Ok c).

Definition current_cert u : io S (res Certificate DohError) :=
  let* guard := read_cell (cert u) in
  match guard with
  | Some c =>
      let* now := now_unix in
      if is_valid_at c now then IoRet (Ok c) else refresh_cert u
  | None => refresh_cert u
  end.

Definition exchange u (req : Message) : io S (res Message DohError) :=
  let fut :=
    try* c := current_cert u in
    let* first := exchange_with_cert u c req in
    match first with
    | Ok resp => IoRet (Ok resp)
    | Err (Timeout _) | Err (IoError _) =>
        try* c := refresh_cert u in
        exchange_with_cert u c req
    | Err e => IoRet (Err e)
    | Panic => IoRet Panic
    end in
  maybe_timeout (timeout u) Timeout fut.

(** ** The certificate invariant *)

(** A cached certificate was signed by the provider of the stamp. *)
Definition trusted u (c : Certificate) : Prop :=
  exists key b, VerifyingKey_from_bytes (provider_public_key (stamp u)) = inr key
                /\ certified key b c.
Definition cert_inv u (s : S) : Prop := forall c, peek (cert u) s = Some c -> trusted u c.

(** The query datagrams of an exchange: the certificate request, and
    [encrypt_query] outputs made for a trusted certificate. *)
Definition sealed u (req : Message) (b : bytes) : Prop :=
  exists c client nonce ct m,
    trusted u c /\ to_bytes req = inr m
    /\ box_encrypt (secret_key client) (resolver_public_key c)
         (nonce ++ replicate 12 x00) (pad m) = inr ct
    /\ b = client_magic c ++ public_key client ++ nonce ++ ct.
Definition cert_request u (b : bytes) : Prop :=
  exists id name, Name_from_ascii (provider_name (stamp u)) = inr name
                  /\ to_bytes (bootstrap_query id name RT_TXT) = inr b.
Definition dnscrypt_sends P u (req : Message) : Prop :=
  (forall h b, cert_request u b -> P _ (UdpSend h b))
  /\ (forall h b, sealed u req b -> P _ (UdpSend h b))
  /\ (forall h b, sealed u req b -> Z.of_nat (length b) <= u16_max ->
        P _ (WriteAll h (to_be 2 (Z.of_nat (length b)))) /\ P _ (WriteAll h b)).

Lemma fetch_provider_txt_safe P (I : S -> Prop) u req :
  quiet P -> dnscrypt_sends P u req ->
  safe P I (fetch_provider_txt u) (fun r => r <> Panic).
Proof.
  intros HP (Hs & _). unfold fetch_provider_txt.
  apply safe_try_pure; [apply from_sum_not_Panic| |done]. intros name Hname%from_sum_Ok.
  simpl. split; [call_ok|]. intros id _.
  apply safe_try_pure; [apply from_sum_not_Panic| |done]. intros b Hb%from_sum_Ok.
  do 2 io_try_call.
  eapply safe_try_call; [apply Hs; by exists id, name|intros ? Hok; exact Hok|intros _ _|done].
  io_try_call. apply safe_try_pure; [apply from_sum_not_Panic|done|done].
Qed.

(** What the invariant of the shared store must allow. *)
Definition cert_cell_ok (I : S -> Prop) u : Prop :=
  (forall s, I s -> cert_inv u s)
  /\ (forall c s, trusted u c -> I s -> I (poke (cert u) (Some c) s)).
Definition trusted_result u (r : res Certificate DohError) : Prop :=
  match r with Ok c => trusted u c | Err _ => True | Panic => False end.

Lemma refresh_cert_safe P (I : S -> Prop) u req :
  quiet P -> dnscrypt_sends P u req -> cert_cell_ok I u ->
  safe P I (refresh_cert u) (trusted_result u).
Proof.
  intros HP Hs [_ Hw]. unfold refresh_cert.
  eapply safe_try; [by eapply fetch_provider_txt_safe| |done|done]. intros txts _.
  apply safe_try_pure; [apply parse_certificates_not_Panic| |done]. intros certs Hcerts.
  apply parse_certificates_elem in Hcerts as (key & Hkey & Hall).
  simpl. split; [call_ok|]. intros now _.
  apply safe_try_pure; [apply ok_or_not_Panic| |done]. intros c Hc%ok_or_Ok.
  assert (trusted u c) as Ht.
  { destruct (List.filter _ certs) as [|c' l] eqn:E; [done|]. injection Hc as ->.
    assert (In c certs) as Hin by (eapply List.filter_In; rewrite E; by left).
    apply list_elem_of_In, Hall in Hin as (b & _ & Hb). by exists key, b. }
  intros s Hs'. simpl. split; [by apply Hw|done].
Qed.

Lemma current_cert_safe P (I : S -> Prop) u req :
  quiet P -> dnscrypt_sends P u req -> cert_cell_ok I u ->
  safe P I (current_cert u) (trusted_result u).
Proof.
  intros HP Hs Hc. unfold current_cert.
  eapply safe_bind.
  - apply (safe_read_cell _ _ _ (fun o => forall c, o = Some c -> trusted u c)).
    intros s Hs'. by apply Hc.
  - intros [c|] Ht; [|by eapply refresh_cert_safe].
    simpl. split; [call_ok|]. intros now _.
    destruct (is_valid_at c _); [by apply Ht|by eapply refresh_cert_safe].
Qed.

Lemma exchange_with_cert_safe P (I : S -> Prop) u c req :
  quiet P -> dnscrypt_sends P u req -> trusted u c ->
  safe P I (exchange_with_cert u c req) (exchange_ok req).
Proof.
  intros HP (_ & Hs & Ht) Hc. unfold exchange_with_cert.
  apply safe_try_pure; [apply from_sum_not_Panic| |done]. intros m Hm%from_sum_Ok.
  apply (safe_bind _ _ _ _ keypair_ok); [split; [call_ok|done]|]. intros client Hk.
  eapply safe_try; [apply encrypt_query_safe; call_ok| |done|done].
  intros [framed nonce] (ct & Hn & Hct & ->).
  set (framed := client_magic c ++ _).
  assert (sealed u req framed) as Hsealed by by exists c, client, nonce, ct, m.
  assert (safe P I (exchange_udp u framed) (fun r => r <> Panic)) as Hudp.
  { unfold exchange_udp. do 2 io_try_call.
    eapply safe_try_call; [by apply Hs|intros ? Hok; exact Hok|intros _ _|done].
    simpl. split; [call_ok|]. by intros [] ?. }
  eapply safe_try; [exact Hudp| |done|done]. intros enc _.
  apply safe_try_pure; [apply decrypt_response_not_Panic| |done]. intros b _.
  apply safe_try_pure; [apply from_sum_not_Panic| |done]. intros resp _.
  destruct (truncation (metadata resp)).
  - apply (safe_try _ _ _ _ (fun r => r <> Panic)); [| |done|done].
    + unfold exchange_tcp. destruct (too_large framed) eqn:Hl; [done|].
      pose proof (proj1 (too_large_false _ Hl)) as Hlen.
      io_try_call. rename a into tcp. destruct (Ht tcp framed Hsealed Hlen) as [H1 H2].
      apply safe_try_write_framed; [done..| |done].
      eapply safe_mono; [|apply read_framed_safe; call_ok]. by intros [].
    + intros enc' _. apply safe_try_pure; [apply decrypt_response_not_Panic| |done].
      intros b' _. apply check_response_ok.
  - simpl. pose proof (validate_response_ok req resp) as Hv.
    by destruct (validate_response req resp) as [[]| |].
Qed.

Lemma dnscrypt_exchange_safe P (I : S -> Prop) u req :
  quiet P -> dnscrypt_sends P u req -> cert_cell_ok I u ->
  safe P I (exchange u req) (exchange_ok req).
Proof.
  intros HP Hs Hc. unfold exchange. apply safe_maybe_timeout; [call_ok|done|].
  eapply safe_try; [by eapply current_cert_safe| |done|done]. intros c Ht.
  eapply safe_bind; [by apply exchange_with_cert_safe|]. intros [m|e|] Hm; [done| |done].
  assert (safe P I (try* c := refresh_cert u in exchange_with_cert u c req) (exchange_ok req)).
  { eapply safe_try; [by eapply refresh_cert_safe| |done|done].
    intros c' Hc'. by apply exchange_with_cert_safe. }
  by destruct e.
Qed.
End DnsCrypt.

(** ** Properties *)

(** The only things an exchange may put on the wire. *)
Definition dnscrypt_policy `{DnsLib, DnsCodec, CryptoLib} {S} (u : DnsCryptUpstream S) (req : Message)
  : forall X, eff X -> Prop := fun X e =>
  match e with
  | UdpSend _ b => cert_request u b \/ sealed u req b
  | WriteAll _ b => exists b', sealed u req b' /\ (b = b' \/ b = to_be 2 (Z.of_nat (length b')))
  | UdpSendTo _ _ _ | HttpSend _ _ | H3Send _ _ => False
  | _ => True
  end.

Section Properties.
Context {S : Type} `{HL : DnsLib} {HC : DnsCodec} {HB : Base64} {HK : CryptoLib}.
Implicit Types (u : DnsCryptUpstream S).

(** C16: a query never leaves in the clear. Every byte an exchange sends is
    either the TXT request for the provider's certificates or the query boxed
    for a certificate the provider signed, the certificate cache only ever
    holds such certificates, and the outcome is an answer to the query. *)
Theorem dnscrypt_never_plaintext u req :
  CellLaws (cert u) ->
  safe (dnscrypt_policy u req) (cert_inv u) (exchange u req) (exchange_ok req).
Proof.
  intros Hc. apply dnscrypt_exchange_safe.
  - intros X []; simpl; try done.
  - split_and!; simpl; [by left|by right|].
    intros h b Hb _. split; exists b; auto.
  - split; [done|]. intros c s Ht Hs c'. rewrite peek_poke. by intros [= <-].
Qed.

(** The certificate [refresh_cert] settles on. *)
Definition best_at (now : Z) (c : Certificate) (cs : list Certificate) : Prop :=
  c ∈ cs /\ is_valid_at c now = true
  /\ forall c', c' ∈ cs -> is_valid_at c' now = true -> serial c' <= serial c.

Lemma head_filter_best now certs c :
  sorted_by (fun c => - serial c) certs ->
  head (List.filter (fun c => is_valid_at c now) certs) = Some c -> best_at now c certs.
Proof.
  unfold best_at. induction 1 as [|a l Hs IH Hall]; simpl; [done|].
  destruct (is_valid_at a now) eqn:Ea; simpl.
  - intros [= <-]. split_and!; [by left|done|]. intros c' Hc' _.
    apply elem_of_cons in Hc' as [->|Hc']; [lia|].
    rewrite list.Forall_forall in Hall. specialize (Hall c' Hc'). lia.
  - intros Hc. destruct (IH Hc) as (H1 & H2 & H3). split_and!; [by right|done|].
    intros c' Hc' Hv. apply elem_of_cons in Hc' as [->|Hc']; [congruence|auto].
Qed.

(** C35: a refreshed certificate is the one with the highest serial number
    among the certificates in the received TXT records that the provider
    signed and that are valid now, and it is what the cache holds. *)
Theorem refresh_cert_spec u s tr c s' `{!CellLaws (cert u)} :
  exec (refresh_cert u) s tr (Ok c) s' ->
  exists buf resp key now certs,
    from_bytes buf = inr resp
    /\ (exists h, Event (UdpRecv h MAX_MSG_SIZE) (Ok buf) ∈ tr)
    /\ (exists t, Event UnixNow t ∈ tr /\ now = if t <? 0 then 0 else as_u32 t)
    /\ VerifyingKey_from_bytes (provider_public_key (stamp u)) = inr key
    /\ (forall c, c ∈ certs <-> exists b, b ∈ txt_strings resp /\ certified key b c)
    /\ best_at now c certs /\ peek (cert u) s' = Some c.
Proof.
  unfold refresh_cert. rewrite exec_try. intros (r0 & s0 & tr1 & tr2 & -> & Hf & Hk).
  destruct r0 as [txts|e|]; [|by destruct Hk as (_ & ? & _)..].
  assert (exists buf resp h, from_bytes buf = inr resp /\ txts = txt_strings resp
            /\ Event (UdpRecv h MAX_MSG_SIZE) (Ok buf) ∈ tr1) as (buf & resp & h & Hb & -> & Hin).
  { unfold fetch_provider_txt in Hf.
    destruct (Name_from_ascii _) as [?|name]; simpl in Hf; [naive_solver|].
    destruct Hf as (id & t1 & _ & -> & Hf).
    destruct (to_bytes _) as [?|qb]; simpl in Hf; [naive_solver|].
    destruct Hf as (r1 & t2 & _ & -> & Hf). destruct r1 as [sock|?|]; simpl in Hf; [|naive_solver..].
    destruct Hf as (r2 & t3 & _ & -> & Hf). destruct r2; simpl in Hf; [|naive_solver..].
    destruct Hf as (r3 & t4 & _ & -> & Hf). destruct r3; simpl in Hf; [|naive_solver..].
    destruct Hf as (r4 & t5 & _ & -> & Hf). destruct r4 as [buf|?|]; simpl in Hf; [|naive_solver..].
    destruct (from_bytes buf) as [?|resp] eqn:Eb; simpl in Hf; [naive_solver|].
    destruct Hf as (-> & [= ->] & _). exists buf, resp, sock. split; [done|]. split; [done|].
    rewrite !elem_of_cons. tauto. }
  destruct (parse_certificates _ _) as [certs|?|] eqn:Ecerts; simpl in Hk; [|naive_solver..].
  destruct Hk as (t & t6 & _ & -> & Hk).
  destruct (head _) as [c0|] eqn:Eh; simpl in Hk; [|naive_solver].
  destruct Hk as (-> & [= ->] & ->).
  pose proof (parse_certificates_sorted _ _ _ Ecerts) as Hsort.
  apply parse_certificates_elem in Ecerts as (key & Hkey & Hall).
  eexists buf, resp, key, _, certs. split_and!; [done| | |done|done| |by rewrite peek_poke].
  - exists h. apply elem_of_app. by left.
  - exists t. split; [|done]. apply elem_of_app. right. by left.
  - by apply head_filter_best.
Qed.
End Properties.

Section Witnesses.
#[local] Existing Instances Toy.lib Toy.codec Toy.laws ToyBase64.base64 ToyCrypto.lib ToyCrypto.laws.
Definition w_provider : SigningKey := SigningKey_from_bytes [x05].
Definition w_stamp : DnsCryptStamp :=
  {| addr := SockV4 (Ipv4 x7f x00 x00 x01) 443;
     provider_public_key := VerifyingKey_to_bytes (verifying_key w_provider);
     provider_name := "2.dnscrypt-cert.example.org" |}.
Definition w_upstream : DnsCryptUpstream (option Certificate) :=
  {| stamp := w_stamp; addr_redacted := ""; timeout := None; cert := whole |}.

Lemma dnscrypt_never_plaintext_witness :
  safe (dnscrypt_policy w_upstream (Toy.query 7 "example.com." 1)) (cert_inv w_upstream)
    (exchange w_upstream (Toy.query 7 "example.com." 1))
    (exchange_ok (Toy.query 7 "example.com." 1)).
Proof.
  apply (dnscrypt_never_plaintext w_upstream (Toy.query 7 "example.com." 1)). apply whole_laws.
Defined.

Definition w_cert : Certificate :=
  {| resolver_public_key := replicate 32 x01; client_magic := as_bytes "MAGIC123";
     serial := 3; ts_start := 100; ts_end := 200 |}.
Definition w_cert_bytes : bytes :=
  sign_certificate w_provider (resolver_public_key w_cert) (client_magic w_cert) 3 100 200.
Definition w_response : @Message Toy.lib :=
  add_answer (Message_new 9 Response_ OpCode_Query)
    (Record_from_rdata ("2.dnscrypt-cert.example.org" : @Name Toy.lib) 60
       (txt_from_bytes [w_cert_bytes] : @RData Toy.lib)).
Definition w_buf : bytes := Toy.encode w_response.
Definition w_trace : list event :=
  [Event RandomU16 9; Event (UdpBind "0.0.0.0:0") (Ok 1%nat);
   Event (UdpConnect 1%nat (addr w_stamp)) (Ok ());
   Event (UdpSend 1%nat (Toy.encode (bootstrap_query 9 ("2.dnscrypt-cert.example.org" : @Name Toy.lib) (RT_TXT : @RecordType Toy.lib)))) (Ok ());
   Event (UdpRecv 1%nat MAX_MSG_SIZE) (Ok w_buf); Event UnixNow 150].

Lemma refresh_cert_spec_witness :
  exists buf resp key now certs,
    from_bytes buf = inr resp
    /\ (exists h, Event (UdpRecv h MAX_MSG_SIZE) (Ok buf) ∈ w_trace)
    /\ (exists t, Event UnixNow t ∈ w_trace /\ now = if t <? 0 then 0 else as_u32 t)
    /\ VerifyingKey_from_bytes (provider_public_key (stamp w_upstream)) = inr key
    /\ (forall c, c ∈ certs <-> exists b, b ∈ txt_strings resp /\ certified key b c)
    /\ best_at now w_cert certs /\ Some w_cert = Some w_cert.
Proof.
  apply (refresh_cert_spec w_upstream None w_trace w_cert (Some w_cert)).
  apply exec_try. exists (Ok [w_cert_bytes]), None, (take 5 w_trace), [Event UnixNow 150].
  split; [reflexivity|]. split.
  - exists 9. eexists. split; [vm_compute; split; discriminate|]. split; [reflexivity|].
    exists (Ok 1%nat). eexists. split; [exact Logic.I|]. split; [reflexivity|].
    exists (Ok ()). eexists. split; [exact Logic.I|]. split; [reflexivity|].
    exists (Ok ()). eexists. split; [exact Logic.I|]. split; [reflexivity|].
    exists (Ok w_buf). eexists. split; [|split; [reflexivity|]].
    { apply Nat2Z.inj_le. rewrite MAX_MSG_SIZE_eq. vm_compute. discriminate. }
    apply exec_try. exists (Ok w_response), None, [], []. split; [reflexivity|].
    split; split_and!; vm_refl.
  - apply exec_try. exists (Ok [w_cert]), None, [], [Event UnixNow 150].
    split; [reflexivity|]. split; [split_and!; vm_refl|].
    exists 150. eexists. split; [exact Logic.I|]. split; [reflexivity|].
    apply exec_try. exists (Ok w_cert), None, [], []. split; [reflexivity|].
    split; [split_and!; vm_refl|]. split_and!; reflexivity.
Defined.
End Witnesses.
