(* ===== verification/Upstream.v ===== *)
(** * Upstreams

    [Upstream] and [TrackedUpstream] of [src/client/upstream.rs]: the transports
    behind one type, and the latency recorded on every successful exchange. *)
From S2P Require Import PlainUdp PlainTcp Dot Doq Doh3 Doh DnsCrypt.
From S2P Require Import Prelude RustStr RustNet Io Dns Errors WebLib Wire Bootstrap Framing.
From S2P Require Import CryptoLib Crypto Stamp Latency.
Implicit Type P : forall X, eff X -> Prop.

Inductive Upstream (S : Type) :=
| UDoh (u : Doh.DohUpstream S)
| UDot (u : Dot.DotUpstream S)
| UDoq (u : Doq.DoqUpstream S)
| UDnsCrypt (u : DnsCrypt.DnsCryptUpstream S)
| UPlainUdp (u : PlainUdp.PlainUdpUpstream)
| UPlainTcp (u : PlainTcp.PlainTcpUpstream S).
Arguments UDoh {S}.
Arguments UDot {S}.
Arguments UDoq {S}.
Arguments UDnsCrypt {S}.
Arguments UPlainUdp {S}.
Arguments UPlainTcp {S}.

Definition address {S} (u : Upstream S) : string :=
  match u with
  | UDoh u => Doh.address u
  | UDot u => Dot.address u
  | UDoq u => Doq.address u
  | UDnsCrypt u => DnsCrypt.address u
  | UPlainUdp u => PlainUdp.address u
  | UPlainTcp u => PlainTcp.address u
  end.

Record TrackedUpstream (S : Type) := MkTracked {
  upstream : Upstream S;
  latency : cell S LatencyTracker;
}.
Arguments MkTracked {S}.
Arguments upstream {S}.
Arguments latency {S}.

Section Exchange.
Context {S : Type} `{HL : DnsLib} {HC : DnsCodec} {HB : Base64} {HW : WebLib} {HK : CryptoLib}.

Definition exchange (u : Upstream S) (req : Message) : io S (res Message DohError) :=
  match u with
  | UDoh u => Doh.exchange u req
  | UDot u => Dot.exchange u req
  | UDoq u => Doq.exchange u req
  | UDnsCrypt u => DnsCrypt.exchange u req
  | UPlainUdp u => PlainUdp.exchange u req
  | UPlainTcp u => PlainTcp.exchange u req
  end.

Definition tracked_exchange (t : TrackedUpstream S) (req : Message)
  : io S (res Message DohError) :=
  let* start := call InstantNow in
  let* result := exchange (upstream t) req in
  if is_ok result then
    let* now := call InstantNow in
    let elapsed := Z.max 0 (now - start) in
    let* _ := atomically (fun s => (tt, poke (latency t) (record (peek (latency t) s) elapsed) s)) in
    IoRet result
  else IoRet result.

(** ** The contract of every transport *)

(** What a store invariant must allow for an upstream to run under it. *)
Definition upstream_runs P (I : S -> Prop) (u : Upstream S) : Prop :=
  match u with
  | UDoh u => resolver_ok P I (Doh.host u) (Doh.resolver u) /\ Doh.cells_free I u
  | UDot u => resolver_ok P I (Dot.host u) (Dot.resolver u)
  | UDoq u => resolver_ok P I (Doq.host u) (Doq.resolver u) /\ Doq.cell_free I (Doq.conn u)
  | UDnsCrypt u => DnsCrypt.cert_cell_ok I u
  | UPlainUdp u => True
  | UPlainTcp u => resolver_ok P I (PlainTcp.host u) (PlainTcp.resolver u)
  end.

(** What each transport sends for a query. *)
Definition upstream_sends P (u : Upstream S) (req : Message) : Prop :=
  match u with
  | UDoh u => Doh.requests_ok P u req
  | UDot _ | UPlainTcp _ => frames_ok P req
  | UDoq _ => frames_ok P (set_id req 0)
  | UDnsCrypt u => DnsCrypt.dnscrypt_sends P u req
  | UPlainUdp _ => forall h b, to_bytes req = inr b -> P _ (UdpSend h b)
  end.

Lemma upstream_exchange_safe P (I : S -> Prop) u req :
  quiet P -> upstream_sends P u req -> upstream_runs P I u ->
  safe P I (exchange u req) (exchange_ok req).
Proof.
  intros HP Hs Hr. destruct u as [u|u|u|u|u|u]; simpl in *.
  - destruct Hr. by apply doh_exchange_safe.
  - by apply dot_exchange_safe.
  - destruct Hr. by apply doq_exchange_safe.
  - by apply dnscrypt_exchange_safe.
  - by apply udp_exchange_safe.
  - by apply tcp_exchange_safe.
Qed.

Lemma tracked_exchange_safe P (I : S -> Prop) t req :
  quiet P -> upstream_sends P (upstream t) req -> upstream_runs P I (upstream t) ->
  Doq.cell_free I (latency t) ->
  safe P I (tracked_exchange t req) (exchange_ok req).
Proof.
  intros HP Hs Hr Hl. unfold tracked_exchange. eapply safe_bind.
  { apply (safe_call _ _ _ (fun _ => True)); [call_ok|done]. }
  intros start _. eapply safe_bind; [by apply upstream_exchange_safe|]. intros r Hres.
  destruct (is_ok r); [|done]. simpl. split; [call_ok|]. intros now _ s Hs'.
  split; [by apply Hl|done].
Qed.

(** ** Properties *)

(** Whatever the network answers, in any interleaving with other tasks
    over the shared store, an exchange with an upstream of any transport
    returns either an error or a message that carries exactly one question,
    the first question of the request; it can unwind only when the request
    has no question. *)
Theorem exchange_integrity (I : S -> Prop) (u : Upstream S) req :
  upstream_runs any_call I u ->
  safe any_call I (exchange u req)
    (fun r => match r with
              | Ok resp => answers_question req resp
              | Err _ => True
              | Panic => queries req = []
              end).
Proof.
  intros Hr. apply upstream_exchange_safe; [apply quiet_any| |done].
  by destruct u; simpl; repeat split.
Qed.

(** The calls the upstream's resolver makes itself to look up the host. *)
Definition lookup_calls (u : Upstream S) : forall X, eff X -> Prop := fun X e =>
  let looks_up host (r : Resolver S) := parse_ip_addr host = None /\ makes (r host) X e in
  match u with
  | UDoh u => looks_up (Doh.host u) (Doh.resolver u)
  | UDot u => looks_up (Dot.host u) (Dot.resolver u)
  | UDoq u => looks_up (Doq.host u) (Doq.resolver u)
  | UPlainTcp u => looks_up (PlainTcp.host u) (PlainTcp.resolver u)
  | UDnsCrypt _ | UPlainUdp _ => False
  end.
(** The payloads an exchange of [req] with [u] itself may send: any call that
    sends none, and *)
Definition wire_policy (u : Upstream S) (req : Message) : forall X, eff X -> Prop := fun X e =>
  match e with
  | UdpSend _ b =>
      match u with
      | UPlainUdp _ => to_bytes req = inr b
      | UDnsCrypt d => DnsCrypt.cert_request d b \/ DnsCrypt.sealed d req b
      | _ => False
      end
  | WriteAll _ b =>
      match u with
      | UDot _ | UPlainTcp _ =>
          exists m, to_bytes req = inr m /\ (b = m \/ b = to_be 2 (Z.of_nat (length m)))
      | UDoq _ =>
          exists m, to_bytes (set_id req 0) = inr m /\ (b = m \/ b = to_be 2 (Z.of_nat (length m)))
      | UDnsCrypt d =>
          exists m, DnsCrypt.sealed d req m /\ (b = m \/ b = to_be 2 (Z.of_nat (length m)))
      | _ => False
      end
  | HttpSend _ r =>
      match u with
      | UDoh d => exists enc, encode_request req = Ok (enc, msg_id req)
          /\ hr_uri r = "https://" +:+ Doh.host d +:+ ":" +:+ dec (Doh.port d) +:+ Doh.path d +:+ "?dns=" +:+ enc
          /\ hr_headers r = request_headers (Doh.basic_auth_header d)
      | _ => False
      end
  | H3Send _ r =>
      match u with
      | UDoh d => exists enc, encode_request req = Ok (enc, msg_id req)
          /\ hr_uri r = "https://" +:+ Doh.host d +:+ Doh.path d +:+ "?dns=" +:+ enc
          /\ hr_headers r = request_headers (Doh.basic_auth_header d)
      | _ => False
      end
  | e => is_payload e = false
  end.
(** What a store invariant must allow: as [upstream_runs], but an HTTP/3
    transport in its cell is one the upstream made. *)
Definition upstream_own (I : S -> Prop) (u : Upstream S) : Prop :=
  match u with
  | UDoh d => resolver_ok any_call I (Doh.host d) (Doh.resolver d) /\ Doh.cells_hold I d (Doh.own_transport d)
  | _ => upstream_runs any_call I u
  end.
Lemma resolver_ok_makes P (I : S -> Prop) host r :
  (forall X e, parse_ip_addr host = None /\ makes (r host) X e -> P X e) ->
  resolver_ok any_call I host r -> resolver_ok P I host r.
Proof. intros HP Hr Hip. eapply safe_weaken; [|eapply safe_makes, Hr, Hip]. auto. Qed.

(** C15: on the wire, every transport sends the query and nothing else. Each
    call of an exchange is one the upstream's resolver makes itself to look up
    its host (none when the host is an IP address, or over plain UDP and
    DNSCrypt), or sends nothing, or sends: over UDP, TCP and TLS the packed
    request, with its length prefix on streams; over QUIC the request with a
    zeroed identifier; over HTTPS, the GET of the upstream's own URL with the
    zeroed request in the [dns] parameter, with the fixed headers and the
    upstream's credentials only (over HTTP/3 the URL has no port); over
    DNSCrypt the certificate request and boxed queries. *)
Theorem exchange_wire_format (I : S -> Prop) (u : Upstream S) req :
  upstream_own I u ->
  safe (fun X e => lookup_calls u X e \/ wire_policy u req X e) I (exchange u req) (exchange_ok req).
Proof.
  set (P := fun X e => _ \/ _). intros Hr. assert (quiet P) as HP by (intros X [] ?; by right).
  destruct u as [u| | | | |].
  { destruct Hr as [Hr Hc]. cbn [exchange]. apply (Doh.exchange_sends _ _ _ (Doh.own_transport u)); [done| |done|done|].
    { eapply resolver_ok_makes; [|done]. by left. }
    intros enc Henc. split; [by right; exists enc|]. intros h t (Hn & Hp & Ha). right. exists enc.
    cbn [hr_uri hr_headers]. unfold Doh3.request_uri. by rewrite Hn, Hp, Ha. }
  all: apply upstream_exchange_safe; [done| |]; cbn [upstream_own upstream_runs upstream_sends] in *;
    try (apply (resolver_ok_makes P _ _ _ ltac:(by left)), Hr).
  - intros h b Hb _. split; right; exists b; auto.
  - intros h b Hb _. split; right; exists b; auto.
  - destruct Hr as [Hr Hc]. split; [|done]. eapply resolver_ok_makes; [|done]. by left.
  - split_and!; [by right; left|by right; right|]. intros h b Hb _. split; right; exists b; auto.
  - done.
  - intros h b Hb. by right.
  - done.
  - intros h b Hb _. split; right; exists b; auto.
Qed.
End Exchange.

Section Witnesses.
#[local] Existing Instances Toy.lib Toy.codec Toy.laws ToyBase64.base64 ToyWeb.web ToyCrypto.lib.
Definition w_dot : Upstream unit :=
  UDot (Dot.new "dns.example" None
          {| bootstrap := None; http_versions := []; opt_timeout := None;
             insecure_skip_verify := false; prefer_ipv6 := false; basic_auth := None |}).
Definition w_query : @Message Toy.lib := Toy.query 7 "example.com." 1.

Lemma w_dot_runs P :
  (forall host, P _ (Getaddrinfo host)) -> upstream_runs P (fun _ : unit => True) w_dot.
Proof.
  intros HP _. unfold SystemResolver. simpl. split; [by apply HP|]. by intros [] ?.
Qed.

Definition w_none {A} : cell unit (option A) := Cell (fun _ => None) (fun _ s => s).

Lemma exchange_integrity_witness :
  safe any_call (fun _ => True) (exchange w_dot w_query)
    (fun r => match r with
              | Ok resp => answers_question w_query resp
              | Err _ => True
              | Panic => queries w_query = []
              end).
Proof. apply (exchange_integrity (fun _ => True) w_dot w_query). by apply w_dot_runs. Defined.

(** A DNS-over-TLS and an HTTPS upstream by host name, the latter looked up with
    a query of its own over UDP. *)
Definition w_doh : Upstream unit :=
  UDoh (Doh.new "doh.example" None "/dns-query"
          {| bootstrap := Some (plain_resolver_lookup
               {| pr_addr := SockV4 (Ipv4 x01 x01 x01 x01) 53; pr_timeout := None |});
             http_versions := [Http2]; opt_timeout := None; insecure_skip_verify := false; prefer_ipv6 := false;
             basic_auth := Some ("user", "pass") |}
          {| Doh.new_client := w_none; Doh.new_h3 := w_none; Doh.new_prefer_h3 := w_none;
             Doh.new_transports := Cell (fun _ => []) (fun _ s => s) |}).
Lemma exchange_wire_format_witness :
  safe (fun X e => lookup_calls w_dot X e \/ wire_policy w_dot w_query X e) (fun _ => True)
    (exchange w_dot w_query) (exchange_ok w_query)
  /\ safe (fun X e => lookup_calls w_doh X e \/ wire_policy w_doh w_query X e) (fun _ => True)
       (exchange w_doh w_query) (exchange_ok w_query).
Proof.
  split; [apply (exchange_wire_format (fun _ => True) w_dot w_query); by apply w_dot_runs|].
  apply (exchange_wire_format (fun _ => True) w_doh w_query). split; [|by split_and!].
  intros _. by apply plain_lookup_safe.
Defined.
End Witnesses.
