(* ===== verification/Delivery.v ===== *)
(** * Exchanges that come through

    What the transports of [Upstream] return on the network of [Network]: the
    reply of the server they lead to, decoded and checked, when that server is
    up; an error when it is not. Everything is for every run and every
    interleaving, and a run exists ([delivers_exec]). *)
From S2P Require Import PlainUdp PlainTcp Dot Doq Doh3 Doh DnsCrypt.
From S2P Require Import Prelude RustStr RustNet Io Dns Errors WebLib Wire Bootstrap Framing Network.
From S2P Require Import CryptoLib Crypto Stamp Latency Upstream.
Implicit Type P : forall X, eff X -> Prop.

Section Delivery.
Context {S : Type} `{HL : DnsLib} {HC : DnsCodec} {HB : Base64} {HW : WebLib} {HK : CryptoLib}.
Context (N : Servers) (HN : servers_ok N) (I : S -> Prop).

(** ** Datagrams and streams *)
Lemma take_reply a b : take MAX_MSG_SIZE (reply_udp N a b) = reply_udp N a b.
Proof.
  apply take_ge. pose proof (udp_fits N HN a b). pose proof MAX_MSG_SIZE_eq. lia.
Qed.

(** One request and its answer over a connected datagram socket. *)
Lemma delivers_try_datagram {B E} (f : io_err -> E) h a b (k : bytes -> io S (res B E)) Q w :
  (if alive N a then forall w', delivers N I (k (reply_udp N a b)) Q w'
   else forall x w', Q (Err (f x)) w') ->
  delivers N I
    (try* _ := io_map_err f (call (UdpConnect h a)) in
     try* _ := io_map_err f (call (UdpSend h b)) in
     io_try (io_map_err f (call (UdpRecv h MAX_MSG_SIZE))) k) Q w.
Proof.
  intros Hk. do 2 (eapply delivers_try_unit; [done|]). apply delivers_try_call. intros r w'.
  cbn [net_step]. unfold net_datagram. cbn [udp_peer connect_udp]. rewrite lookup_insert_eq.
  destruct (alive N a); cbn [inbox set_inbox connect_udp].
  - rewrite lookup_insert_eq, take_reply. intros [-> ->]. apply Hk.
  - rewrite lookup_delete_eq. intros (x & -> & ->). apply Hk.
Qed.

Lemma delivers_try_bind {B E} (f : io_err -> E) local (k : handle -> io S (res B E)) Q w :
  (forall h, delivers N I (k h) Q w) -> delivers N I (io_try (io_map_err f (call (UdpBind local))) k) Q w.
Proof. intros Hk. apply delivers_try_call. intros r w' (h & -> & ->). apply Hk. Qed.

Lemma delivers_try_sum {A B E F} (f : F -> E) (m : F + A) a (k : A -> io S (res B E)) Q w :
  m = inr a -> delivers N I (k a) Q w -> delivers N I (io_try (IoRet (from_sum f m)) k) Q w.
Proof. by intros ->. Qed.
Lemma delivers_try_ok {A B E} (r : res A E) a (k : A -> io S (res B E)) Q w :
  r = Ok a -> delivers N I (k a) Q w -> delivers N I (io_try (IoRet r) k) Q w.
Proof. by intros ->. Qed.
Lemma delivers_bind_call {X A} (e : eff X) (k : X -> io S A) Q w :
  (forall x w', net_step N e w x w' -> delivers N I (k x) Q w') ->
  delivers N I (io_bind (call e) k) Q w.
Proof. done. Qed.

(** The outcome at the address that serves the upstream, if one does. *)
Definition outcome_at (oa : option SocketAddr) (replied : SocketAddr -> res Message DohError -> Prop)
    (r : res Message DohError) : Prop :=
  match oa with Some a => replied a r | None => exists e, r = Err e end.
Definition plain_exchange (reply : SocketAddr -> bytes -> bytes) (req : Message) (b : bytes)
    (a : SocketAddr) (r : res Message DohError) : Prop :=
  r = check_response (reply a b) req.

Lemma udp_delivers (u : PlainUdpUpstream) req b w :
  patient N (PlainUdp.timeout u) -> to_bytes req = inr b ->
  delivers N I (PlainUdp.exchange u req)
    (fun r _ => outcome_at (if alive N (PlainUdp.addr u) then Some (PlainUdp.addr u) else None)
                  (plain_exchange (reply_udp N) req b) r) w.
Proof.
  intros Ht Hb. unfold PlainUdp.exchange. eapply delivers_try_sum; [exact Hb|].
  apply delivers_maybe_timeout; [done|]. apply delivers_try_bind. intros h.
  apply delivers_try_datagram. destruct (alive N _); [done|by eexists].
Qed.

(** A request and its answer, framed, over a new stream. *)
Lemma delivers_exchange_framed {E} (f : io_err -> E) h b w :
  too_large b = false -> b <> [] ->
  delivers N I (try* _ := write_framed f h b in read_framed f h)
    (fun r _ => r = Ok (reply_stream N (conn_addr N h) b)) (open_stream h w).
Proof.
  intros Hl Hne. apply delivers_try_write_framed; [done|done| |].
  - unfold open_stream, written_so_far. cbn. by rewrite lookup_insert_eq.
  - intros w1 Hw1. apply delivers_read_framed; [|by apply stream_fits].
    rewrite Hw1. unfold open_stream, pending. cbn. by rewrite lookup_insert_eq.
Qed.
Lemma delivers_framed {B E} (f : io_err -> E) h b (k : bytes -> io S (res B E)) Q w :
  too_large b = false -> b <> [] -> (forall w', delivers N I (k (reply_stream N (conn_addr N h) b)) Q w') ->
  delivers N I (try* _ := write_framed f h b in io_try (read_framed f h) k) Q (open_stream h w).
Proof.
  intros Hl Hne Hk. apply delivers_try_write_framed; [done|done| |].
  - unfold open_stream, written_so_far. cbn. by rewrite lookup_insert_eq.
  - intros w1 Hw1. eapply delivers_try_read_framed; [|by apply stream_fits|exact Hk].
    rewrite Hw1. unfold open_stream, pending. cbn. by rewrite lookup_insert_eq.
Qed.

Lemma tcp_delivers (u : PlainTcpUpstream S) req b addrs w :
  patient N (PlainTcp.timeout u) -> to_bytes req = inr b -> too_large b = false -> b <> [] ->
  resolves N I (PlainTcp.host u) (PlainTcp.port u) (PlainTcp.timeout u) (PlainTcp.resolver u)
    (PlainTcp.prefer_ipv6 u) addrs ->
  delivers N I (PlainTcp.exchange u req)
    (fun r _ => outcome_at (first_alive N addrs) (plain_exchange (reply_stream N) req b) r) w.
Proof.
  intros Ht Hb Hl Hne Hr. unfold PlainTcp.exchange. eapply delivers_try_sum; [exact Hb|].
  rewrite Hl. apply delivers_maybe_timeout; [done|].
  eapply delivers_try_dial_tcp; [exact Hr|done|]. destruct (first_alive N addrs) as [a|]; [|by eexists].
  intros h w0 <-. by apply delivers_framed.
Qed.

Lemma dot_delivers (u : DotUpstream S) req b addrs w :
  patient N (Dot.timeout u) -> to_bytes req = inr b -> too_large b = false -> b <> [] ->
  server_name_error (Dot.host u) = None ->
  resolves N I (Dot.host u) (Dot.port u) (Dot.timeout u) (Dot.resolver u) (Dot.prefer_ipv6 u) addrs ->
  delivers N I (Dot.exchange u req)
    (fun r _ => outcome_at (first_alive N addrs) (plain_exchange (reply_stream N) req b) r) w.
Proof.
  intros Ht Hb Hl Hne Hname Hr. unfold Dot.exchange. eapply delivers_try_sum; [exact Hb|].
  rewrite Hl. apply delivers_maybe_timeout; [done|].
  eapply delivers_try_dial_tcp; [exact Hr|done|]. destruct (first_alive N addrs) as [a|]; [|by eexists].
  intros tcp w0 <-. unfold server_name. rewrite Hname.
  eapply (delivers_try_carried N I _ _ tcp); [done|]. intros h Hh. rewrite <- Hh.
  by apply delivers_framed.
Qed.

(** ** Cached connections

    The connections a cell caches lead to the upstream's server; writing one
    that does keeps the store's invariant. *)
Definition leads_to (oa : option SocketAddr) (v : option handle) : Prop :=
  forall h, v = Some h -> oa = Some (conn_addr N h).
Definition cell_leads_to (oa : option SocketAddr) (c : cell S (option handle)) : Prop :=
  (forall s, I s -> leads_to oa (peek c s))
  /\ (forall v s, leads_to oa v -> I s -> I (poke c v s)).
Lemma leads_to_None oa : leads_to oa None.
Proof. done. Qed.
Lemma leads_to_Some oa h a : oa = Some a -> conn_addr N h = a -> leads_to oa (Some h).
Proof. by intros -> <- ? [= <-]. Qed.

(** QUIC upstreams use the first address of the resolution only. *)
Definition first_address (addrs : list SocketAddr) : option SocketAddr := first_alive N (take 1 addrs).
Definition unzeroed_reply (req : Message) (b : bytes) (a : SocketAddr) (r : res Message DohError) : Prop :=
  r = unzero (reply_stream N a b) req (msg_id req).

Lemma delivers_dial_quic a name cfg w :
  delivers N I (dial_quic a name cfg)
    (fun r w' => if alive N a then exists h, r = Ok h /\ conn_addr N h = a else exists e, r = Err e) w.
Proof.
  unfold dial_quic. apply delivers_try_call. intros r w' (ep & -> & ->).
  intros r2 w2. cbn [net_step]. unfold connects_to.
  destruct (alive N a); [intros (h & -> & ? & ->); simpl; eauto|intros (e & -> & ->); simpl; eauto].
Qed.
Lemma first_address_cons a addrs : first_address (a :: addrs) = if alive N a then Some a else None.
Proof. unfold first_address, first_alive. cbn [take]. rewrite filter_cons. by destruct (alive N a). Qed.

Lemma delivers_try_doq_dial {B} (u : DoqUpstream S) addrs (k : handle -> io S (res B DohError)) Q w :
  addrs <> [] ->
  resolves N I (Doq.host u) (Doq.port u) (Doq.timeout u) (Doq.resolver u) (Doq.prefer_ipv6 u) addrs ->
  (forall h w', leads_to (first_address addrs) (Some h) -> delivers N I (k h) Q w') ->
  (first_address addrs = None -> forall e w', Q (Err e) w') ->
  delivers N I (io_try (Doq.dial u) k) Q w.
Proof.
  intros Hne Hr Hk HE. apply delivers_try. unfold Doq.dial. eapply delivers_try_resolve; [exact Hr|].
  intros w1. destruct addrs as [|a addrs]; [done|]. rewrite first_address_cons in *.
  eapply delivers_mono; [|apply (delivers_dial_quic a)]. simpl. intros r w2.
  destruct (alive N a); [intros (h & -> & <-); by apply Hk; intros ? [= <-]|intros [e ->]; by apply HE].
Qed.

Lemma exchange_on_delivers (u : DoqUpstream S) c req b w :
  patient N (Doq.timeout u) -> to_bytes (set_id req 0) = inr b -> too_large b = false -> b <> [] ->
  delivers N I (exchange_on u c req) (fun r _ => unzeroed_reply req b (conn_addr N c) r) w.
Proof.
  intros Ht Hb Hl Hne. unfold exchange_on. eapply delivers_try_sum; [exact Hb|]. rewrite Hl.
  apply delivers_maybe_timeout; [done|]. eapply (delivers_try_carried N I _ _ c); [done|].
  intros h Hh. apply delivers_try_write_framed; [done|done| |].
  { unfold open_stream, written_so_far. cbn. by rewrite lookup_insert_eq. }
  intros w1 Hw1. eapply delivers_try_unit; [done|].
  eapply delivers_try_read_exact; [|apply length_to_be|].
  { unfold id. rewrite Hw1. unfold open_stream, pending. cbn. by rewrite lookup_insert_eq. }
  intros w2 Hw2. cbv zeta. rewrite Hh, from_be_length, Nat2Z.id by by apply stream_fits.
  pose proof (stream_fits N HN (conn_addr N c) b). pose proof MAX_MSG_SIZE_eq.
  destruct (Nat.ltb_spec MAX_MSG_SIZE (length (reply_stream N (conn_addr N c) b))); [lia|].
  eapply (delivers_try_read_exact N I _ _ _ []); [|done|done]. by rewrite Hw2, Hh, app_nil_r.
Qed.

Lemma doq_delivers (u : DoqUpstream S) req b addrs w :
  patient N (Doq.timeout u) -> to_bytes (set_id req 0) = inr b -> too_large b = false -> b <> [] ->
  addrs <> [] ->
  resolves N I (Doq.host u) (Doq.port u) (Doq.timeout u) (Doq.resolver u) (Doq.prefer_ipv6 u) addrs ->
  cell_leads_to (first_address addrs) (conn u) ->
  delivers N I (Doq.exchange u req)
    (fun r _ => outcome_at (first_address addrs) (unzeroed_reply req b) r) w.
Proof.
  intros Ht Hb Hl Hne Haddrs Hr [Hread Hwrite]. set (oa := first_address addrs) in *.
  assert (forall c w', leads_to oa (Some c) -> delivers N I (exchange_on u c req)
            (fun r _ => outcome_at oa (unzeroed_reply req b) r) w') as Hon.
  { intros c w' Hc. rewrite (Hc c eq_refl). by apply exchange_on_delivers. }
  assert (forall c was w', leads_to oa (Some c) -> delivers N I
     (let* first := exchange_on u c req in
      match first with
      | Ok resp => IoRet (Ok resp) | Panic => IoRet Panic
      | Err e =>
          if was && should_retry e then try* c := reset_conn u in exchange_on u c req
          else let* _ := write_cell (conn u) None in IoRet (Err e)
      end) (fun r _ => outcome_at oa (unzeroed_reply req b) r) w') as Hafter.
  { intros c was w' Hc. apply delivers_bind. eapply delivers_mono; [|by apply Hon].
    intros r w1 Hout. destruct r as [m|e|]; [done| |done]. destruct (was && should_retry e).
    - apply delivers_try. unfold reset_conn. eapply delivers_try_doq_dial; [done|exact Hr| |].
      + intros h w2 Hh. apply delivers_write_cell; [intros s; by apply Hwrite|]. simpl. by apply Hon.
      + intros E. unfold oa. rewrite E. simpl. by eexists.
    - by apply delivers_write_cell; [intros s; by apply Hwrite|]. }
  unfold Doq.exchange. apply delivers_try. unfold get_conn. apply delivers_read_cell.
  intros s Hs. destruct (peek (conn u) s) as [c|] eqn:Ec.
  - simpl. apply (Hafter c true). rewrite <- Ec. by apply Hread.
  - eapply delivers_try_doq_dial; [done|exact Hr| |].
    + intros h w1 Hh. apply delivers_write_cell; [intros s'; by apply Hwrite|]. simpl. by apply (Hafter h false).
    + intros E. unfold oa. rewrite E. simpl. by eexists.
Qed.

(** ** HTTP *)
Definition http_request (uri : string) (auth : option string) : HttpRequest :=
  {| hr_uri := uri; hr_headers := request_headers auth |}.
Definition h3_uri (u : DohUpstream S) (enc : string) : string :=
  "https://" +:+ Doh.host u +:+ Doh.path u +:+ "?dns=" +:+ enc.
Definition http_reply (u : DohUpstream S) uri req (a : SocketAddr) (r : res Message DohError) : Prop :=
  r = decode_response (reply_http N a (http_request uri (basic_auth_header u))) req (msg_id req).
(** Both libraries accept the request. *)
Definition acceptable (u : DohUpstream S) (uri : string) : Prop :=
  request_error (request_headers (basic_auth_header u)) = None /\ exists x, Uri_parse uri = inr x.
Lemma acceptable_build u uri :
  acceptable u uri -> build_request uri (basic_auth_header u) = Ok (http_request uri (basic_auth_header u)).
Proof. intros [He [x Hx]]. unfold build_request. rewrite Hx. simpl. by rewrite He. Qed.

Definition client_leads (addrs : list SocketAddr) (v : option handle) : Prop :=
  forall c, v = Some c -> first_alive N addrs = if alive N (conn_addr N c) then Some (conn_addr N c) else None.

Lemma exchange_https_delivers (u : DohUpstream S) c req enc addrs w :
  patient N (Doh.timeout u) -> encode_request req = Ok (enc, msg_id req) ->
  acceptable u (Doh.request_uri u enc) -> client_leads addrs (Some c) ->
  delivers N I (exchange_https u c req)
    (fun r _ => outcome_at (first_alive N addrs) (http_reply u (Doh.request_uri u enc) req) r) w.
Proof.
  intros Ht Henc Hacc Hc. rewrite (Hc c eq_refl).
  unfold exchange_https. rewrite Henc. cbn [io_try io_bind]. rewrite (acceptable_build u _ Hacc).
  cbn [io_bind]. apply delivers_try. apply delivers_maybe_timeout; [done|].
  intros r w1. cbn [net_step]. destruct (alive N _).
  - intros (h & -> & ->). cbn [io_bind map_err delivers]. apply delivers_try_call. intros r w2 [-> ->].
    change (is_success 200) with true. cbn [negb]. rewrite pending_set.
    pose proof (http_fits N HN (conn_addr N c) (http_request (Doh.request_uri u enc) (basic_auth_header u))).
    pose proof MAX_MSG_SIZE_eq.
    match goal with |- context [(MAX_MSG_SIZE <? ?n)%nat] => destruct (Nat.ltb_spec MAX_MSG_SIZE n) end;
      [lia|done].
  - intros (x & -> & ->). simpl. by eexists.
Qed.

(** The chunks of a body, whatever their sizes, add up to it. *)
Lemma recv_body_delivers what fuel h acc w :
  (length (pending h w) < fuel)%nat -> (length acc + length (pending h w) <= MAX_MSG_SIZE)%nat ->
  delivers N I (recv_body what fuel h acc) (fun r _ => r = Ok (acc ++ pending h w)) w.
Proof.
  revert acc w. induction fuel as [|fuel IH]; intros acc w Hf Hl; [lia|].
  cbn [recv_body]. apply delivers_try_call. intros r w'. cbn [net_step].
  destruct (pending h w) as [|b l] eqn:Ep.
  - intros [-> ->]. simpl. by rewrite app_nil_r.
  - intros (n & Hn & -> & ->).
    destruct (Nat.ltb_spec MAX_MSG_SIZE (length (acc ++ take n (b :: l)))) as [Hx|Hx];
      [rewrite length_app, length_take in Hx; lia|].
    eapply delivers_mono; [|apply IH]; rewrite pending_set.
    + intros r w' ->. by rewrite <- app_assoc, take_drop.
    + rewrite length_drop. lia.
    + rewrite length_app, length_take, length_drop. lia.
Qed.

(** What the cells of a DoH upstream hold: a client of its addresses,
    transports to the first of them, senders of those. *)
Definition transport_of (u : DohUpstream S) (addrs : list SocketAddr) (t : Http3Transport S) : Prop :=
  head addrs = Some (server_addr t) /\ t_server_name t = Doh.host u /\ patient N (t_timeout t)
  /\ t_path t = Doh.path u /\ t_basic_auth_header t = basic_auth_header u
  /\ senders t = transports u.
Record doh_cells_lead (u : DohUpstream S) (addrs : list SocketAddr) (oa : option SocketAddr) : Prop := {
  client_read s : I s -> client_leads addrs (peek (client u) s);
  client_write v s : client_leads addrs v -> I s -> I (poke (client u) v s);
  prefer_write v s : I s -> I (poke (prefer_h3 u) v s);
  h3_read s t : I s -> peek (h3 u) s = Some t -> transport_of u addrs t;
  h3_write v s : (forall t, v = Some t -> transport_of u addrs t) -> I s -> I (poke (h3 u) v s);
  senders_read s : I s -> Forall (leads_to oa) (peek (transports u) s);
  senders_write v s : Forall (leads_to oa) v -> I s -> I (poke (transports u) v s);
}.

Lemma delivers_try_connect_h3 {B} u addrs t (k : handle -> io S (res B DohError)) Q w :
  transport_of u addrs t ->
  (forall h w', leads_to (first_address addrs) (Some h) -> delivers N I (k h) Q w') ->
  (first_address addrs = None -> forall e w', Q (Err e) w') ->
  delivers N I (io_try (Doh3.connect t) k) Q w.
Proof.
  intros (Ha & _) Hk HE. destruct addrs as [|a addrs]; [done|]. injection Ha as ->.
  rewrite first_address_cons in *. apply delivers_try. unfold Doh3.connect. apply delivers_try.
  eapply delivers_mono; [|apply (delivers_dial_quic (server_addr t))]. simpl. intros r w1.
  destruct (alive N _); [intros (c & -> & Hc)|intros [e ->]; simpl; by apply HE].
  intros r w2 (h & -> & Hh & ->). simpl. apply Hk. rewrite <- Hc, <- Hh. by intros ? [= <-].
Qed.

(** Sending on a fresh or cached sender. *)
Lemma h3_exchange_delivers u addrs t req enc w :
  doh_cells_lead u addrs (first_address addrs) -> transport_of u addrs t ->
  encode_request req = Ok (enc, msg_id req) -> acceptable u (h3_uri u enc) ->
  delivers N I (Doh3.exchange t req)
    (fun r _ => outcome_at (first_address addrs) (http_reply u (h3_uri u enc) req) r) w.
Proof.
  intros Hcells Ht Henc Hacc. pose proof Ht as (_ & Hname & Hpat & Hpath & Hauth & Hsend).
  set (Q := fun (r : res Message DohError) (_ : Net) => outcome_at _ _ r).
  assert (forall h w', leads_to (first_address addrs) (Some h) -> delivers N I
     (try* (encoded, original_id) := IoRet (encode_request req) in
      try* http_req := IoRet (build_request (Doh3.request_uri t encoded) (t_basic_auth_header t)) in
      try* body := maybe_timeout (t_timeout t) Timeout (exchange_stream t h http_req) in
      IoRet (decode_response body req original_id)) Q w') as Hsent.
  { intros h w' Hh. subst Q. rewrite (Hh h eq_refl), Henc. cbn [io_try io_bind].
    unfold Doh3.request_uri. rewrite Hname, Hpath, Hauth. fold (h3_uri u enc).
    rewrite (acceptable_build u _ Hacc). cbn [io_bind]. apply delivers_try.
    apply delivers_maybe_timeout; [done|]. unfold exchange_stream.
    apply delivers_try_call. intros r w1 (st & -> & ->).
    eapply delivers_try_unit; [done|]. apply delivers_try_call. intros r w2 [-> ->].
    change (is_success 200) with true. cbn [negb]. unfold id.
    eapply delivers_mono; [|apply recv_body_delivers; rewrite pending_set].
    - intros r w3 ->. simpl. by rewrite pending_set.
    - pose proof (http_fits N HN (conn_addr N h) (http_request (h3_uri u enc) (basic_auth_header u))).
      pose proof MAX_MSG_SIZE_eq. unfold http_request in *. lia.
    - pose proof (http_fits N HN (conn_addr N h) (http_request (h3_uri u enc) (basic_auth_header u))).
      pose proof MAX_MSG_SIZE_eq. unfold http_request in *. simpl length. lia. }
  unfold Doh3.exchange. apply delivers_try. unfold get_sender, inner. simpl. intros s HI.
  split; [done|]. rewrite Hsend. pose proof (senders_read _ _ _ Hcells s HI) as Hheap.
  destruct (default None (peek (transports u) s !! t_id t)) as [h|] eqn:El; simpl.
  - destruct (_ !! _) as [v|] eqn:Ev in El; [|done]. simpl in El. subst v.
    apply Hsent. by apply (Forall_lookup_1 _ _ _ _ Hheap Ev).
  - eapply delivers_try_connect_h3; [done| |].
    + intros h w1 Hh s1 HI1. simpl. split; [|by apply Hsent].
      eapply senders_write; [done| |done]. apply Forall_insert; [by eapply senders_read|done].
    + intros E e w'. subst Q. simpl. rewrite E. by eexists.
Qed.

Lemma delivers_resolve_first (u : DohUpstream S) a addrs w :
  resolves N I (Doh.host u) (Doh.port u) (Doh.timeout u) (Doh.resolver u) (Doh.prefer_ipv6 u) (a :: addrs) ->
  delivers N I (resolve_first u) (fun r _ => r = Ok a) w.
Proof. intros Hr. unfold resolve_first. eapply delivers_try_resolve; [exact Hr|]. by intros w1. Qed.

Lemma exchange_h3_delivers u addrs req enc w :
  patient N (Doh.timeout u) -> addrs <> [] ->
  resolves N I (Doh.host u) (Doh.port u) (Doh.timeout u) (Doh.resolver u) (Doh.prefer_ipv6 u) addrs ->
  doh_cells_lead u addrs (first_address addrs) ->
  encode_request req = Ok (enc, msg_id req) -> acceptable u (h3_uri u enc) ->
  delivers N I (exchange_h3 u req)
    (fun r _ => outcome_at (first_address addrs) (http_reply u (h3_uri u enc) req) r) w.
Proof.
  intros Hpat Hne Hr Hcells Henc Hacc. set (Q := fun (r : res Message DohError) (_ : Net) => outcome_at _ _ r).
  assert (forall t w', transport_of u addrs t -> delivers N I (Doh3.exchange t req) Q w') as Hex
    by (intros; by eapply h3_exchange_delivers).
  assert (forall t was w', transport_of u addrs t -> delivers N I
     (let* first := Doh3.exchange t req in
      match first with
      | Ok resp => IoRet (Ok resp) | Panic => IoRet Panic
      | Err e =>
          if was && should_retry e then try* _ := reset t in Doh3.exchange t req
          else let* _ := write_cell (h3 u) None in IoRet (Err e)
      end) Q w') as Hafter.
  { intros t was w' Ht. apply delivers_bind. eapply delivers_mono; [|by apply Hex].
    intros r w1 Hout. destruct r as [m|e|]; [done| |done]. destruct (was && should_retry e).
    - apply delivers_try. unfold reset. eapply delivers_try_connect_h3; [done| |].
      + intros h w2 Hh s HI. simpl. split; [|by apply Hex].
        pose proof Ht as (_ & _ & _ & _ & _ & ->). eapply senders_write; [done| |done].
        apply Forall_insert; [by eapply senders_read|done].
      + intros E e' w2. subst Q. simpl. rewrite E. by eexists.
    - apply delivers_write_cell; [|done]. intros s. by eapply h3_write. }
  unfold exchange_h3. apply delivers_try. unfold get_h3_transport. apply delivers_read_cell.
  intros s HI. destruct (peek (h3 u) s) as [t|] eqn:Et.
  - simpl. apply (Hafter t true). by eapply h3_read.
  - destruct addrs as [|a addrs]; [done|]. apply delivers_try.
    eapply delivers_mono; [|by eapply delivers_resolve_first]. intros r w1 ->. simpl. intros s1 HI1.
    set (t := {| t_id := _; server_addr := a |}).
    assert (transport_of u (a :: addrs) t) as Ht by done. split.
    { eapply senders_write; [done| |done]. apply Forall_app. split; [by eapply senders_read|].
      by apply Forall_singleton. }
    intros s2 HI2. split; [eapply h3_write; [done| |done]; by intros ? [= <-]|]. by apply (Hafter t false).
Qed.

(** ** The whole DoH exchange *)
Lemma create_client_delivers u addrs w :
  addrs <> [] -> http2_supported u = true ->
  resolves N I (Doh.host u) (Doh.port u) (Doh.timeout u) (Doh.resolver u) (Doh.prefer_ipv6 u) addrs ->
  delivers N I (create_client u) (fun r _ => exists c, r = Ok c /\ client_leads addrs (Some c)) w.
Proof.
  intros Hne H2 Hr. unfold create_client. eapply delivers_try_resolve; [exact Hr|]. intros w1.
  destruct (_ <$> _) as [|x l] eqn:E.
  - apply fmap_nil_inv in E. unfold http2_supported in H2. apply existsb_exists in H2 as (v & Hv & Hb).
    assert (In v (List.filter (fun v => negb (is_http3 v)) (Doh.http_versions u))) as Hin
      by by apply List.filter_In.
    by rewrite E in Hin.
  - intros c w2 [-> Hc]. simpl in *. exists c. split; [done|]. intros c' [= <-].
    destruct (first_alive N addrs) as [a|] eqn:Ea; [|by rewrite Hc].
    by rewrite Hc, (first_alive_Some _ _ _ Ea).
Qed.

Lemma get_client_delivers u addrs w :
  patient N (Doh.timeout u) -> addrs <> [] -> http2_supported u = true ->
  resolves N I (Doh.host u) (Doh.port u) (Doh.timeout u) (Doh.resolver u) (Doh.prefer_ipv6 u) addrs ->
  doh_cells_lead u addrs (first_address addrs) ->
  delivers N I (get_client u) (fun r _ => exists c was, r = Ok (c, was) /\ client_leads addrs (Some c)) w.
Proof.
  intros Hpat Hne H2 Hr Hcells. unfold get_client. apply delivers_read_cell. intros s HI.
  destruct (peek (client u) s) as [c|] eqn:Ec.
  { simpl. exists c, true. split; [done|]. rewrite <- Ec. by eapply client_read. }
  intros start w1 [Hstart ->]. apply delivers_try. eapply delivers_mono; [|by apply create_client_delivers].
  intros r w2 (c & -> & Hc).
  assert (delivers N I (let* _ := write_cell (client u) (Some c) in IoRet (Ok (c, false)))
     (fun (r : res (handle * bool) DohError) _ => exists c was, r = Ok (c, was) /\ client_leads addrs (Some c)) w2)
    as Hkeep.
  { apply delivers_write_cell; [intros s1; by eapply client_write|]. simpl. eauto. }
  cbv zeta. destruct (Doh.timeout u) as [d|]; [|exact Hkeep]. intros now w3 [Hnow ->].
  specialize (Hpat d eq_refl). cbn [io_bind].
  destruct (Z.ltb_spec d (Z.max 0 (now - start))); [lia|exact Hkeep].
Qed.

Definition doh_reply (u : DohUpstream S) req enc (a : SocketAddr) (r : res Message DohError) : Prop :=
  (http2_supported u = true /\ http_reply u (Doh.request_uri u enc) req a r)
  \/ (Http3 ∈ Doh.http_versions u /\ http_reply u (h3_uri u enc) req a r).

Lemma should_use_http3_delivers u addrs w :
  addrs <> [] -> Doh.http_versions u <> [] ->
  resolves N I (Doh.host u) (Doh.port u) (Doh.timeout u) (Doh.resolver u) (Doh.prefer_ipv6 u) addrs ->
  doh_cells_lead u addrs (first_address addrs) ->
  delivers N I (should_use_http3 u)
    (fun r _ => (r = Ok true /\ Http3 ∈ Doh.http_versions u) \/ (r = Ok false /\ http2_supported u = true)) w.
Proof.
  intros Hne Hv Hr Hcells. unfold should_use_http3.
  destruct (existsb is_http3 (Doh.http_versions u)) eqn:E3; simpl.
  - apply existsb_exists in E3 as (v & Hin & ->%bool_decide_eq_true). apply list_elem_of_In in Hin.
    destruct (http2_supported u) eqn:E2; [|by left]. apply delivers_read_cell. intros s HI.
    destruct (peek (prefer_h3 u) s) as [[]|]; [by left|by right|].
    destruct addrs as [|a addrs]; [done|]. apply delivers_try.
    eapply delivers_mono; [|by eapply delivers_resolve_first]. intros r w1 ->. apply delivers_bind.
    eapply delivers_mono; [|apply delivers_any; [done|by apply probe_h3_safe]]. intros b w2 _.
    apply delivers_write_cell; [intros s1; by eapply prefer_write|]. destruct b; [by left|by right].
  - right. split; [done|]. unfold http2_supported. destruct (Doh.http_versions u) as [|v vs]; [done|].
    simpl in *. apply orb_false_iff in E3 as [-> _]. done.
Qed.

Lemma doh_delivers u addrs req enc w :
  patient N (Doh.timeout u) -> addrs <> [] -> Doh.http_versions u <> [] ->
  resolves N I (Doh.host u) (Doh.port u) (Doh.timeout u) (Doh.resolver u) (Doh.prefer_ipv6 u) addrs ->
  doh_cells_lead u addrs (first_address addrs) -> first_alive N addrs = first_address addrs ->
  encode_request req = Ok (enc, msg_id req) ->
  acceptable u (Doh.request_uri u enc) -> acceptable u (h3_uri u enc) ->
  delivers N I (Doh.exchange u req)
    (fun r _ => outcome_at (first_address addrs) (doh_reply u req enc) r) w.
Proof.
  intros Hpat Hne Hv Hr Hcells Hfirst Henc Hacc Hacc3.
  set (Q := fun (r : res Message DohError) (_ : Net) => outcome_at _ _ r).
  unfold Doh.exchange. apply delivers_try.
  eapply delivers_mono; [|by apply (should_use_http3_delivers u addrs)]. intros r w1 [[-> H3]|[-> H2]].
  - eapply delivers_mono; [|by apply exchange_h3_delivers]. intros r w2. subst Q.
    unfold outcome_at. destruct (first_address addrs); [by right|done].
  - assert (forall c w', client_leads addrs (Some c) -> delivers N I (exchange_https u c req) Q w') as Hex.
    { intros c w' Hc. eapply delivers_mono; [|by apply exchange_https_delivers].
      intros r w2. subst Q. rewrite Hfirst. unfold outcome_at. destruct (first_address addrs); [by left|done]. }
    apply delivers_try. eapply delivers_mono; [|by apply (get_client_delivers u addrs)].
    intros r w2 (c & was & -> & Hc). apply delivers_bind. eapply delivers_mono; [|by apply Hex].
    intros r w3 Hout. destruct r as [m|e|]; [done| |done]. destruct (was && should_retry e).
    + apply delivers_try. unfold reset_client. apply delivers_try.
      eapply delivers_mono; [|by apply create_client_delivers]. intros r w4 (c' & -> & Hc').
      apply delivers_write_cell; [intros s; by eapply client_write|]. simpl. by apply Hex.
    + apply delivers_write_cell; [intros s; by eapply client_write|done].
Qed.

(** ** DNSCrypt *)

(** What a client makes of the server's replies to a boxed query, over UDP
    and, when that answer is truncated, over TCP. *)
Definition boxed_outcome (c : Certificate) client nonce framed req (a : SocketAddr) : res Message DohError :=
  let? resp_bytes := decrypt_response c client nonce (reply_udp N a framed) in
  let? resp := from_sum (invalid "unpacking response: ") (from_bytes resp_bytes) in
  if truncation (metadata resp) then
    if too_large framed then Err (DnsCrypt "encrypted query too large for tcp framing")
    else let? resp_bytes := decrypt_response c client nonce (reply_stream N a framed) in
         check_response resp_bytes req
  else let? _ := validate_response req resp in Ok resp.
Definition sealed_query (c : Certificate) client nonce b framed : Prop :=
  keypair_ok client /\ length nonce = 12%nat
  /\ exists ct, box_encrypt (secret_key client) (resolver_public_key c)
                  (nonce ++ replicate 12 x00) (pad b) = inr ct
     /\ framed = client_magic c ++ public_key client ++ nonce ++ ct.
Definition boxed_reply (c : Certificate) (req : Message) (b : bytes) (a : SocketAddr)
    (r : res Message DohError) : Prop :=
  exists client nonce framed, sealed_query c client nonce b framed
    /\ r = boxed_outcome c client nonce framed req a.
(** Every query can be boxed for the certificate, in a box that is not empty. *)
Definition boxes (c : Certificate) (b : bytes) : Prop :=
  client_magic c <> [] /\
  forall client nonce, keypair_ok client -> length nonce = 12%nat ->
    exists ct, box_encrypt (secret_key client) (resolver_public_key c)
                 (nonce ++ replicate 12 x00) (pad b) = inr ct.

Lemma exchange_udp_delivers (u : DnsCryptUpstream S) framed w :
  delivers N I (exchange_udp u framed)
    (fun r _ => if alive N (addr (stamp u)) then r = Ok (reply_udp N (addr (stamp u)) framed)
                else exists e, r = Err e) w.
Proof.
  unfold exchange_udp. apply delivers_try_bind. intros h.
  do 2 (eapply delivers_try_unit; [done|]). intros r w'.
  cbn [net_step]. unfold net_datagram. cbn [udp_peer connect_udp]. rewrite lookup_insert_eq.
  destruct (alive N _); cbn [inbox set_inbox connect_udp].
  - rewrite lookup_insert_eq, take_reply. by intros [-> ->].
  - rewrite lookup_delete_eq. intros (x & -> & ->). by eexists.
Qed.

Lemma exchange_with_cert_delivers (u : DnsCryptUpstream S) c req b w :
  to_bytes req = inr b -> boxes c b ->
  delivers N I (exchange_with_cert u c req)
    (fun r _ => outcome_at (if alive N (addr (stamp u)) then Some (addr (stamp u)) else None)
                  (boxed_reply c req b) r) w.
Proof.
  intros Hb [Hmagic Hbox]. unfold exchange_with_cert. eapply delivers_try_sum; [exact Hb|].
  apply delivers_bind. intros random w1 [Hr ->]. cbn [delivers io_bind].
  set (client := {| secret_key := _ |}). apply delivers_try. intros nonce w2 [Hn ->].
  assert (keypair_ok client) as Hk by done.
  destruct (Hbox client nonce Hk Hn) as [ct Hct]. cbn [io_bind delivers]. rewrite Hct.
  cbn [from_sum res_bind]. set (framed := client_magic c ++ _).
  assert (sealed_query c client nonce b framed) as Hsealed by (split_and!; [done..|by exists ct]).
  apply delivers_try. eapply delivers_mono; [|apply exchange_udp_delivers].
  intros r w3. destruct (alive N (addr (stamp u))) eqn:Ea; [intros ->|intros [e ->]; simpl; by eexists].
  cbn [outcome_at]. set (out := boxed_outcome c client nonce framed req (addr (stamp u))).
  assert (forall r, r = out -> boxed_reply c req b (addr (stamp u)) r) as Hout by (intros ? ->; by eexists _, _, _).
  unfold out, boxed_outcome in Hout. clear out.
  destruct (decrypt_response _ _ _ (reply_udp _ _ _)) as [rb|e|];
    cbn [io_try io_bind res_bind delivers] in *; [|by apply Hout..].
  destruct (from_bytes rb) as [e|resp]; cbn [io_bind from_sum res_bind delivers] in *; [by apply Hout|].
  destruct (truncation (metadata resp)); [|by apply Hout].
  apply delivers_try. unfold exchange_tcp. destruct (too_large framed) eqn:El; [by apply Hout|].
  eapply delivers_try_connect; [done|]. rewrite Ea. intros h Hh.
  assert (framed <> []) as Hne by (unfold framed; by intros [? _]%app_eq_nil).
  eapply delivers_mono; [|by apply delivers_exchange_framed]. intros r w4 ->. simpl. rewrite Hh.
  destruct (decrypt_response _ _ _ (reply_stream _ _ _)) as [rb'|e|]; by apply Hout.
Qed.

(** With no server there, whatever the certificate. *)
Lemma exchange_with_cert_dead (u : DnsCryptUpstream S) c req w :
  alive N (addr (stamp u)) = false ->
  delivers N I (exchange_with_cert u c req) (fun r _ => exists e, r = Err e) w.
Proof.
  intros Ha. unfold exchange_with_cert. destruct (to_bytes req) as [e|b]; [by eexists|].
  apply delivers_bind. intros random w1 [_ ->]. cbn [delivers io_bind].
  apply delivers_try. intros nonce w2 [_ ->]. cbn [io_bind delivers].
  destruct (box_encrypt _ _ _ _) as [e|ct]; cbn [from_sum res_bind]; [by eexists|].
  apply delivers_try. eapply delivers_mono; [|apply exchange_udp_delivers].
  rewrite Ha. intros r w3 [e ->]. by eexists.
Qed.

(** The provider publishes one certificate that is valid all the time, and it
    is the only one the upstream has. *)
Definition in_force (c : Certificate) (certs : list Certificate) : Prop :=
  forall t, unix_lo N <= t <= unix_hi N ->
    head (List.filter (fun c => is_valid_at c (if t <? 0 then 0 else as_u32 t)) certs) = Some c.
Definition publishes (u : DnsCryptUpstream S) (c : Certificate) : Prop :=
  exists name, Name_from_ascii (provider_name (stamp u)) = inr name /\
  forall id, 0 <= id <= u16_max -> exists b resp certs,
    to_bytes (bootstrap_query id name RT_TXT) = inr b
    /\ from_bytes (reply_udp N (addr (stamp u)) b) = inr resp
    /\ parse_certificates (txt_strings resp) (provider_public_key (stamp u)) = Ok certs
    /\ in_force c certs.
Definition cert_cell_holds (u : DnsCryptUpstream S) (c : Certificate) : Prop :=
  (forall s c', I s -> peek (cert u) s = Some c' -> c' = c)
  /\ (forall s, I s -> I (poke (cert u) (Some c) s)).

Definition fetched (u : DnsCryptUpstream S) (c : Certificate) (r : res (list bytes) DohError) : Prop :=
  if alive N (addr (stamp u)) then
    exists txts certs, r = Ok txts
    /\ parse_certificates txts (provider_public_key (stamp u)) = Ok certs /\ in_force c certs
  else exists e, r = Err e.
Lemma fetch_delivers (u : DnsCryptUpstream S) c w :
  (alive N (addr (stamp u)) = true -> publishes u c) ->
  delivers N I (fetch_provider_txt u) (fun r _ => fetched u c r) w.
Proof.
  intros Hpub. unfold fetch_provider_txt, fetched.
  destruct (alive N (addr (stamp u))) eqn:Ea.
  - destruct Hpub as (name & Hname & Hid); [done|]. eapply delivers_try_sum; [exact Hname|].
    apply delivers_bind_call. intros id w1 [Hrange ->].
    destruct (Hid id Hrange) as (b & resp & certs & Hb & Hresp & Hcerts & Hc).
    eapply delivers_try_sum; [exact Hb|]. apply delivers_try_bind. intros h.
    apply delivers_try_datagram. rewrite Ea. intros w2. eapply delivers_try_sum; [exact Hresp|]. by eexists _, _.
  - destruct (Name_from_ascii _) as [e|name]; [by eexists|]. eapply delivers_try_sum; [done|].
    apply delivers_bind_call. intros id w1 _. destruct (to_bytes _) as [e|b]; [by eexists|].
    eapply delivers_try_sum; [done|]. apply delivers_try_bind. intros h.
    apply delivers_try_datagram. rewrite Ea. intros x w2. by eexists.
Qed.
Definition cert_or_dead (u : DnsCryptUpstream S) (c : Certificate) (r : res Certificate DohError) : Prop :=
  if alive N (addr (stamp u)) then r = Ok c else exists e, r = Err e.
Lemma refresh_cert_delivers (u : DnsCryptUpstream S) c w :
  (alive N (addr (stamp u)) = true -> publishes u c /\ cert_cell_holds u c) ->
  delivers N I (refresh_cert u) (fun r _ => cert_or_dead u c r) w.
Proof.
  intros Hpub. unfold refresh_cert. apply delivers_try.
  eapply delivers_mono; [|apply (fetch_delivers u c); intros Ha; by apply Hpub].
  unfold fetched, cert_or_dead. intros r w1.
  destruct (alive N (addr (stamp u))); [|intros [e ->]; by eexists].
  intros (txts & certs & -> & Hcerts & Hc). eapply delivers_try_ok; [exact Hcerts|].
  intros t w2 [Ht ->]. eapply delivers_try_ok; [by rewrite (Hc t Ht)|].
  apply delivers_write_cell; [|done]. by apply Hpub.
Qed.

(** Errors that a fresh certificate would not cure. *)
Definition final {A} (r : res A DohError) : Prop :=
  match r with Err (Timeout _) | Err (IoError _) => False | _ => True end.
Lemma final_bind {A B} (r : res A DohError) (k : A -> res B DohError) :
  final r -> (forall a, final (k a)) -> final (res_bind r k).
Proof. destruct r; simpl; auto. Qed.
Lemma final_decrypt c client nonce b : final (decrypt_response c client nonce b).
Proof.
  unfold decrypt_response. destruct (length b <? 32)%nat; [done|].
  destruct (negb _); [done|]. destruct (negb _); [done|].
  apply final_bind; [by destruct (box_decrypt _ _ _ _)|]. intros p. unfold unpad.
  destruct (rposition _ _) as [i|]; [|done]. destruct (p !! i) as [x|]; [|done]. by destruct (u8 x =? 128).
Qed.
Lemma final_validated req resp : final (let? _ := validate_response req resp in Ok resp).
Proof.
  apply final_bind; [|done]. unfold validate_response. destruct (negb _); [done|].
  destruct (queries req); [done|]. destruct (queries resp); [done|].
  destruct (negb _); [done|]. by destruct (negb _).
Qed.
Lemma boxed_outcome_final c client nonce framed req a : final (boxed_outcome c client nonce framed req a).
Proof.
  apply final_bind; [apply final_decrypt|]. intros rb. apply final_bind; [by destruct (from_bytes rb)|].
  intros resp. destruct (truncation _); [|apply final_validated]. destruct (too_large framed); [done|].
  apply final_bind; [apply final_decrypt|]. intros rb'. apply final_bind; [by destruct (from_bytes rb')|].
  intros resp'. apply final_validated.
Qed.

Lemma current_cert_delivers (u : DnsCryptUpstream S) c w :
  (alive N (addr (stamp u)) = true -> publishes u c /\ cert_cell_holds u c) ->
  delivers N I (current_cert u) (fun r _ => match r with
      | Ok c' => alive N (addr (stamp u)) = true -> c' = c
      | Err _ => alive N (addr (stamp u)) = false | Panic => False end) w.
Proof.
  intros Hpub. assert (forall w', delivers N I (refresh_cert u) (fun r _ => match r with
            | Ok c' => alive N (addr (stamp u)) = true -> c' = c
            | Err _ => alive N (addr (stamp u)) = false | Panic => False end) w') as Href.
  { intros w'. eapply delivers_mono; [|by apply refresh_cert_delivers]. unfold cert_or_dead.
    intros r w1. destruct (alive N _); [by intros ->|by intros [e ->]]. }
  unfold current_cert. apply delivers_read_cell. intros s HI.
  destruct (peek (cert u) s) as [c'|] eqn:Ec; [|apply Href].
  intros t w1 _. cbn [io_bind]. destruct (is_valid_at c' _); [|apply Href]. cbn [delivers].
  intros Ha. destruct Hpub as [_ [Hread _]]; [done|]. by eapply Hread.
Qed.
Lemma dnscrypt_delivers (u : DnsCryptUpstream S) c req b w :
  patient N (DnsCrypt.timeout u) -> to_bytes req = inr b ->
  (alive N (addr (stamp u)) = true -> boxes c b /\ publishes u c /\ cert_cell_holds u c) ->
  delivers N I (DnsCrypt.exchange u req)
    (fun r _ => outcome_at (if alive N (addr (stamp u)) then Some (addr (stamp u)) else None)
                  (boxed_reply c req b) r) w.
Proof.
  intros Hpat Hb Hup. unfold DnsCrypt.exchange. apply delivers_maybe_timeout; [done|].
  apply delivers_try. eapply delivers_mono; [|apply current_cert_delivers; by intros []%Hup].
  intros r w1 Hc. destruct r as [c'|e|]; [|rewrite Hc; by eexists|done].
  apply delivers_bind. unfold outcome_at. destruct (alive N (addr (stamp u))) eqn:Ea.
  - rewrite (Hc eq_refl). destruct (Hup eq_refl) as [Hbox _].
    eapply delivers_mono; [|by apply exchange_with_cert_delivers]. rewrite Ea.
    intros r w2 (client & nonce & framed & Hs & ->).
    pose proof (boxed_outcome_final c client nonce framed req (addr (stamp u))) as Hf.
    assert (boxed_reply c req b (addr (stamp u)) (boxed_outcome c client nonce framed req (addr (stamp u))))
      as Hr by (by eexists _, _, _).
    destruct (boxed_outcome _ _ _ _ _ _) as [m|e|]; [done| |done]. by destruct e.
  - eapply delivers_mono; [|by apply exchange_with_cert_dead]. intros r w2 [e ->].
    assert (delivers N I (try* c := refresh_cert u in exchange_with_cert u c req)
              (fun r _ => exists e, r = Err e) w2) as Hagain.
    { apply delivers_try. eapply delivers_mono; [|apply (refresh_cert_delivers u c); by rewrite Ea].
      unfold cert_or_dead. rewrite Ea. intros r w3 [e' ->]. by eexists. }
    destruct e; try exact Hagain; by eexists.
Qed.

(** ** Every transport

    [serves req u oa replied]: when a query [req] goes to the upstream [u], the
    server at [oa] answers it, with an outcome in [replied], or no server is
    up. The upstream's time-out outlasts the window, its name resolves, and
    what its cells cache belongs to that server. *)
Definition resolves_as host port timeout (resolver : Resolver S) v6 addrs : Prop :=
  addrs <> [] /\ resolves N I host port timeout resolver v6 addrs.
Definition framed_query (m : Message) (b : bytes) : Prop :=
  to_bytes m = inr b /\ too_large b = false /\ b <> [].
Definition up (a : SocketAddr) : option SocketAddr := if alive N a then Some a else None.
Inductive serves (req : Message)
  : Upstream S -> option SocketAddr -> (SocketAddr -> res Message DohError -> Prop) -> Prop :=
| serves_udp u b :
    patient N (PlainUdp.timeout u) -> to_bytes req = inr b ->
    serves req (UPlainUdp u) (up (PlainUdp.addr u)) (plain_exchange (reply_udp N) req b)
| serves_tcp u b addrs :
    patient N (PlainTcp.timeout u) -> framed_query req b ->
    resolves_as (PlainTcp.host u) (PlainTcp.port u) (PlainTcp.timeout u) (PlainTcp.resolver u)
      (PlainTcp.prefer_ipv6 u) addrs ->
    serves req (UPlainTcp u) (first_alive N addrs) (plain_exchange (reply_stream N) req b)
| serves_dot u b addrs :
    patient N (Dot.timeout u) -> framed_query req b -> server_name_error (Dot.host u) = None ->
    resolves_as (Dot.host u) (Dot.port u) (Dot.timeout u) (Dot.resolver u) (Dot.prefer_ipv6 u) addrs ->
    serves req (UDot u) (first_alive N addrs) (plain_exchange (reply_stream N) req b)
| serves_doq u b addrs :
    patient N (Doq.timeout u) -> framed_query (set_id req 0) b ->
    resolves_as (Doq.host u) (Doq.port u) (Doq.timeout u) (Doq.resolver u) (Doq.prefer_ipv6 u) addrs ->
    cell_leads_to (first_address addrs) (conn u) ->
    serves req (UDoq u) (first_address addrs) (unzeroed_reply req b)
| serves_doh u enc addrs :
    patient N (Doh.timeout u) -> encode_request req = Ok (enc, msg_id req) ->
    acceptable u (Doh.request_uri u enc) -> acceptable u (h3_uri u enc) -> Doh.http_versions u <> [] ->
    resolves_as (Doh.host u) (Doh.port u) (Doh.timeout u) (Doh.resolver u) (Doh.prefer_ipv6 u) addrs ->
    first_alive N addrs = first_address addrs -> doh_cells_lead u addrs (first_address addrs) ->
    serves req (UDoh u) (first_address addrs) (doh_reply u req enc)
| serves_dnscrypt u c b :
    patient N (DnsCrypt.timeout u) -> to_bytes req = inr b ->
    (alive N (addr (stamp u)) = true -> boxes c b /\ publishes u c /\ cert_cell_holds u c) ->
    serves req (UDnsCrypt u) (up (addr (stamp u))) (boxed_reply c req b).

Lemma exchange_serves req u oa replied w :
  serves req u oa replied -> delivers N I (exchange u req) (fun r _ => outcome_at oa replied r) w.
Proof.
  destruct 1 as [u b Ht Hb|u b addrs Ht (Hb & Hl & Hne) [_ Hr]|u b addrs Ht (Hb & Hl & Hne) Hname [_ Hr]
    |u b addrs Ht (Hb & Hl & Hne) [Ha Hr] Hc|u enc addrs Ht Henc H2 H3 Hv [Ha Hr] Hf Hc|u c b Ht Hb Hp].
  - by apply udp_delivers.
  - by apply tcp_delivers.
  - by apply dot_delivers.
  - by apply doq_delivers.
  - by apply doh_delivers.
  - by apply dnscrypt_delivers.
Qed.

(** What a server makes an upstream return meets the contract of every
    transport. *)
Lemma boxed_outcome_ok c client nonce framed req a : exchange_ok req (boxed_outcome c client nonce framed req a).
Proof.
  assert (forall b, decrypt_response c client nonce b <> Panic) as Hd by (intros; apply decrypt_response_not_Panic).
  unfold boxed_outcome. pose proof (Hd (reply_udp N a framed)).
  destruct (decrypt_response _ _ _ _) as [rb|e|]; cbn [res_bind]; [|done|done].
  destruct (from_bytes rb) as [e|resp]; cbn [res_bind from_sum]; [done|].
  destruct (truncation _).
  - destruct (too_large framed); [done|]. pose proof (Hd (reply_stream N a framed)).
    destruct (decrypt_response _ _ _ _) as [rb'|e|]; cbn [res_bind]; [apply check_response_ok|done|done].
  - pose proof (validate_response_ok req resp) as Hv. by destruct (validate_response req resp) as [[]| |].
Qed.
Lemma serves_ok req u oa replied a r : serves req u oa replied -> replied a r -> exchange_ok req r.
Proof.
  destruct 1; unfold plain_exchange, unzeroed_reply, doh_reply, http_reply, boxed_reply.
  - intros ->. apply check_response_ok.
  - intros ->. apply check_response_ok.
  - intros ->. apply check_response_ok.
  - intros ->. apply Doq.unzero_ok.
  - intros [[_ ->]|[_ ->]]; apply decode_response_exchange_ok.
  - intros (client & nonce & framed & _ & ->). apply boxed_outcome_ok.
Qed.
(** An upstream whose server is up has something to return. *)
Lemma serves_replies req u a replied (s : S) :
  serves req u (Some a) replied -> I s -> exists r, replied a r.
Proof.
  intros Hs HI. destruct (delivers_exec N I _ _ {| udp_peer := ∅; inbox := ∅; outbox := ∅; replies := [] |} s
    HN (exchange_serves _ _ _ _ _ Hs) HI) as (_ & r & _ & _ & _ & _ & Hr & _). by exists r.
Qed.

Lemma tracked_serves req (t : TrackedUpstream S) oa replied w :
  serves req (upstream t) oa replied -> Doq.cell_free I (latency t) ->
  delivers N I (tracked_exchange t req) (fun r _ => outcome_at oa replied r) w.
Proof.
  intros Hs Hl. unfold tracked_exchange. apply delivers_bind_call. intros start w1 [_ ->]. apply delivers_bind.
  eapply delivers_mono; [|by apply exchange_serves]. intros r w2 Hr. destruct (is_ok r); [|done].
  intros now w3 [_ ->] s HI. split; [by apply Hl|done].
Qed.

(** C10: an exchange comes through: over each transport, with or without a cached
    connection, client or certificate, whatever the sizes of the chunks of the
    stream, and however other tasks use the cells in between, an exchange on a
    network whose clock does not outrun the time-out returns exactly the reply,
    decoded and checked, of the server that is up, and an error when none is;
    and it does return. That server is the configured address for plain UDP and
    DNSCrypt; the first resolved address that is up for plain TCP and DoT; the
    first resolved address, and no other, for DoQ, and for DoH, where it must
    be up if any is. A DNSCrypt server that is up publishes one certificate in
    force, for which the query can be boxed, and answers over UDP and, when
    that answer is truncated, over TCP. *)
Theorem exchange_comes_through req (u : Upstream S) oa replied w :
  serves req u oa replied ->
  delivers N I (exchange u req) (fun r _ => outcome_at oa replied r) w
  /\ forall s, I s -> exists tr r s', exec (exchange u req) s tr r s' /\ I s' /\ outcome_at oa replied r.
Proof.
  intros Hs. split; [by apply exchange_serves|]. intros s HI.
  destruct (delivers_exec N I _ _ w s HN (exchange_serves _ _ _ _ w Hs) HI) as (tr & r & s' & w' & ? & ? & ? & _).
  eauto 6.
Qed.
End Delivery.

(** ** Witness: DoQ and DoH over cached connections, and DNSCrypt without a
    certificate yet *)
Section Witnesses.
#[local] Existing Instances Toy.lib Toy.codec Toy.laws ToyBase64.base64 ToyWeb.web ToyCrypto.lib ToyCrypto.laws.
Definition w_req : @Message Toy.lib := Toy.query 7 "example.com." 1.
Definition w_reply : bytes := Toy.encode (Toy.reply (set_id w_req 0) 60).
Definition w_net : Net := {| udp_peer := ∅; inbox := ∅; outbox := ∅; replies := [] |}.
(** One server is up; every message it sends is [datagram] or [stream]. *)
Definition w_servers (a : SocketAddr) (datagram stream : bytes) : Servers :=
  {| alive b := bool_decide (b = a);
     reply_udp _ _ := datagram; reply_stream _ _ := stream; reply_http _ _ := [];
     conn_addr h := match h with O => SockV4 (Ipv4 x00 x00 x00 x00) 0 | _ => a end;
     lookup_host _ := []; clock_lo := 5; clock_hi := 7; unix_lo := 0; unix_hi := 9 |}.
Lemma w_servers_ok a datagram stream :
  a <> SockV4 (Ipv4 x00 x00 x00 x00) 0 -> Z.of_nat (length datagram) <= u16_max ->
  Z.of_nat (length stream) <= u16_max -> servers_ok (w_servers a datagram stream).
Proof.
  intros Ha Hd Hs. split; simpl; try done.
  - intros b ->%bool_decide_eq_true. by exists 1%nat.
  - exists O. apply bool_decide_eq_false. congruence.
Qed.

(** A DNSCrypt server with the certificate [Crypto.w_cert]: it publishes it,
    and boxes [w_answer] for whoever sends a box. *)
Definition w_answer : bytes := Toy.encode (Toy.reply w_req 60).
Definition w_certificates : @Message Toy.lib :=
  add_answer (Message_new 9 Response_ OpCode_Query)
    (Record_from_rdata ("2.dnscrypt-cert.example.org" : @Name Toy.lib) 60
       (txt_from_bytes [sign_certificate w_provider (resolver_public_key Crypto.w_cert)
                          (client_magic Crypto.w_cert) 3 100 200] : @RData Toy.lib)).
Definition w_dnscrypt (query : bytes) : bytes :=
  match decrypt_query Crypto.w_resolver (client_magic Crypto.w_cert) query with
  | Ok (_, pk, nonce) =>
      match box_encrypt Crypto.w_resolver pk (nonce ++ replicate 12 x00) (pad w_answer) with
      | inr ct => RESOLVER_MAGIC ++ nonce ++ replicate 12 x00 ++ ct
      | inl _ => []
      end
  | _ => Toy.encode w_certificates
  end.
Definition w_here : SocketAddr := Doq.w_addr.
Definition w_https : SocketAddr := SockV4 (Ipv4 x01 x02 x03 x04) 443.
Definition w_box : SocketAddr := addr DnsCrypt.w_stamp.
Definition w_world : Servers :=
  {| alive b := bool_decide (b = w_here \/ b = w_https \/ b = w_box);
     reply_udp _ := w_dnscrypt; reply_stream _ _ := w_reply; reply_http _ _ := w_reply;
     conn_addr h := match h with
                    | 0%nat => SockV4 (Ipv4 x00 x00 x00 x00) 0 | 1%nat => w_box | 2%nat => w_https | _ => w_here
                    end;
     lookup_host _ := []; clock_lo := 5; clock_hi := 7; unix_lo := 120; unix_hi := 150 |}.
(** A query that does not start with the magic is not a box. *)
Lemma w_dnscrypt_other query : query !! 2%nat = Some x04 -> w_dnscrypt query = Toy.encode w_certificates.
Proof.
  intros H2. unfold w_dnscrypt, decrypt_query. destruct (_ <? _)%nat; [done|].
  destruct (bool_decide _) eqn:E; [|done]. exfalso. apply bool_decide_eq_true in E.
  apply (f_equal (fun l => l !! 2%nat)) in E. unfold slice in E.
  rewrite lookup_take_lt in E by lia. change (drop 0 query) with query in E. rewrite H2 in E. discriminate E.
Qed.
Lemma w_dnscrypt_fits query : Z.of_nat (length (w_dnscrypt query)) <= u16_max.
Proof.
  unfold w_dnscrypt. destruct (decrypt_query _ _ _) as [[[m pk] nonce]| |] eqn:E; [|vm_compute; discriminate..].
  assert (length nonce <= 12)%nat as Hn.
  { unfold decrypt_query in E. destruct (_ <? _)%nat; [done|]. destruct (negb _); [done|].
    inv_ok E. inv_ok E. injection E as _ _ <-. unfold slice. rewrite length_take. lia. }
  cbn [box_encrypt ToyCrypto.lib]. rewrite !length_app, length_replicate.
  cbn [length]. replace (length (pad w_answer)) with 64%nat by vm_refl.
  replace (length RESOLVER_MAGIC) with 8%nat by done. unfold u16_max. lia.
Qed.
Lemma w_world_ok : servers_ok w_world.
Proof.
  split; simpl; try done.
  - intros _ m. apply w_dnscrypt_fits.
  - intros b H. apply bool_decide_eq_true in H as [->|[->| ->]]; [by exists 3%nat|by exists 2%nat|by exists 1%nat].
  - by exists 0%nat.
Qed.

Definition w_inv (s : option handle) : Prop := leads_to w_world (Some w_here) s.
Lemma w_doq_up :
  serves w_world w_inv w_req (UDoq Doq.w_upstream) (Some w_here)
    (unzeroed_reply w_world w_req (Toy.encode (set_id w_req 0))).
Proof.
  apply (serves_doq w_world w_inv w_req Doq.w_upstream (Toy.encode (set_id w_req 0)) [w_here]).
  - by intros d [=].
  - split; [reflexivity|]. split; [vm_refl|discriminate].
  - split; [done|]. apply (resolves_literal w_world w_inv "1.2.3.4" 853 None _ false
      (V4 (Ipv4 x01 x02 x03 x04))). vm_refl.
  - by split; [intros s|intros v s].
Qed.

Definition w_h2 : DohUpstream Doh.w_store := Doh.w_upstream [Http2].
Definition w_enc : string := ToyBase64.encode (Toy.encode (set_id w_req 0)).
Definition w_doh_state : Doh.w_store := {| Doh.w_client := Some 2%nat; Doh.w_prefer := None; Doh.w_heap := [] |}.
Definition w_doh_inv (s : Doh.w_store) : Prop :=
  client_leads w_world [w_https] (Doh.w_client s) /\ Forall (leads_to w_world (Some w_https)) (Doh.w_heap s).
Lemma w_doh_serves :
  serves w_world w_doh_inv w_req (UDoh w_h2) (Some w_https) (doh_reply w_world w_h2 w_req w_enc).
Proof.
  apply (serves_doh w_world w_doh_inv w_req w_h2 w_enc [w_https]).
  - by intros d [=].
  - vm_refl.
  - split; [done|]. eexists. vm_compute. reflexivity.
  - split; [done|]. eexists. vm_compute. reflexivity.
  - done.
  - split; [done|]. apply (resolves_literal w_world w_doh_inv "1.2.3.4" 443 None _ false
      (V4 (Ipv4 x01 x02 x03 x04))). vm_refl.
  - done.
  - split; simpl; try done; [by intros s []|by intros v s ? []|by intros s []|by intros v s ? []].
Qed.

Lemma w_no_http3 : Http3 ∉ Doh.http_versions w_h2.
Proof. by intros ?%list_elem_of_singleton. Qed.

Lemma w_dnscrypt_serves :
  serves w_world (fun s => forall c, s = Some c -> c = Crypto.w_cert) w_req (UDnsCrypt DnsCrypt.w_upstream)
    (Some w_box) (boxed_reply w_world Crypto.w_cert w_req (Toy.encode w_req)).
Proof.
  apply (serves_dnscrypt w_world _ w_req DnsCrypt.w_upstream Crypto.w_cert (Toy.encode w_req)); [by intros d [=]|done|].
  intros _. split; [|split].
  - split; [done|]. intros client nonce _ _. by eexists.
  - exists "2.dnscrypt-cert.example.org"%string. split; [done|]. intros id _. exists (Toy.encode (bootstrap_query id ("2.dnscrypt-cert.example.org" : @Name Toy.lib) (RT_TXT : @RecordType Toy.lib))), w_certificates, [Crypto.w_cert].
    split; [reflexivity|]. split; [|split; [vm_refl|]].
    + change (from_bytes (w_dnscrypt (Toy.encode (bootstrap_query id "2.dnscrypt-cert.example.org" 16))) = inr w_certificates).
      rewrite w_dnscrypt_other; [vm_refl|done].
    + intros t Ht. simpl in Ht. destruct (Z.ltb_spec t 0); [lia|].
      assert (is_valid_at Crypto.w_cert (as_u32 t) = true) as Hv; [|simpl; by rewrite Hv].
      unfold as_u32. rewrite Z.mod_small by lia.
      apply andb_true_iff. split; [apply Z.leb_le|apply Z.ltb_lt]; simpl; lia.
  - by split; [intros s c' H Hc; apply H|intros s H c' [= <-]].
Qed.
(** The client opens the box to the answer. *)
Lemma w_boxed_answer r :
  boxed_reply w_world Crypto.w_cert w_req (Toy.encode w_req) w_box r -> r = Ok (Toy.reply w_req 60).
Proof.
  intros (client & nonce & framed & (Hk & Hn & ct & Hct & ->) & ->).
  unfold boxed_outcome. change (reply_udp w_world w_box) with w_dnscrypt. unfold w_dnscrypt.
  change (resolver_public_key Crypto.w_cert) with (public_key_of Crypto.w_resolver) in Hct.
  apply box_agrees in Hct. rewrite <- Hk in Hct.
  rewrite decrypt_query_framed, Hct by (done || (rewrite Hk; apply length_public_key)).
  cbn [from_sum res_bind]. rewrite unpad_pad. cbn [res_bind].
  destruct (box_encrypt Crypto.w_resolver _ _ _) as [e|ct'] eqn:Hct'; [done|].
  rewrite Hk in Hct'. apply box_agrees in Hct'.
  rewrite decrypt_response_framed by done.
  change (resolver_public_key Crypto.w_cert) with (public_key_of Crypto.w_resolver). rewrite Hct'.
  cbn [from_sum res_bind]. rewrite unpad_pad. vm_refl.
Qed.

Lemma exchange_comes_through_witness :
  (exists tr s', exec (exchange (UDoq Doq.w_upstream) w_req) (Some 3%nat) tr (Ok (Toy.reply w_req 60)) s')
  /\ (exists tr s', exec (exchange (UDoh w_h2) w_req) w_doh_state
       tr (Ok (Toy.reply w_req 60)) s')
  /\ exists tr s', exec (exchange (UDnsCrypt DnsCrypt.w_upstream) w_req) None tr (Ok (Toy.reply w_req 60)) s'.
Proof.
  split; [|split].
  - destruct (proj2 (exchange_comes_through w_world w_world_ok w_inv w_req _ _ _ w_net w_doq_up) (Some 3%nat))
      as (tr & r & s' & Hx & _ & Hr); [by intros h [= <-]|].
    exists tr, s'. assert (r = Ok (Toy.reply w_req 60)) as <-; [|exact Hx].
    cbv [outcome_at unzeroed_reply] in Hr. rewrite Hr. vm_refl.
  - destruct (proj2 (exchange_comes_through w_world w_world_ok w_doh_inv w_req _ _ _ w_net w_doh_serves)
      w_doh_state) as (tr & r & s' & Hx & _ & Hr).
    { split; [by intros h [= <-]|constructor]. }
    exists tr, s'. assert (r = Ok (Toy.reply w_req 60)) as <-; [|exact Hx].
    destruct Hr as [[_ Hr]|[H3 _]]; [cbv [http_reply] in Hr; rewrite Hr; vm_refl|].
    exact (match w_no_http3 H3 with end).
  - destruct (proj2 (exchange_comes_through w_world w_world_ok _ w_req _ _ _ w_net w_dnscrypt_serves) None)
      as (tr & r & s' & Hx & _ & Hr); [done|].
    exists tr, s'. rewrite (w_boxed_answer r Hr) in Hx. exact Hx.
Defined.
End Witnesses.
