(* ===== verification/UpstreamUrl.v ===== *)
(** * Upstream addresses

    [src/client/upstream_url.rs]: from an address string to an [Upstream]. A new
    object's mutexes live in the cells the caller provides ([Cells]). *)
From S2P Require Import PlainUdp PlainTcp Dot Doq Doh3 Doh DnsCrypt.
From S2P Require Import Prelude RustStr RustNet Io Dns Errors WebLib Wire Bootstrap CryptoLib.
From S2P Require Import Crypto Stamp Latency Upstream.

Definition DEFAULT_PORT_PLAIN : Z := 53.

(** Store for the locks and atomics of one new upstream. *)
Record Cells (S : Type) := MkCells {
  doh_cells : Doh.DohCells S;
  doq_conn : cell S (option handle);
  dnscrypt_cert : cell S (option Certificate);
  tracker : cell S LatencyTracker;
}.
Arguments doh_cells {S}.
Arguments doq_conn {S}.
Arguments dnscrypt_cert {S}.
Arguments tracker {S}.

(** The credentials in front of the last [@], and the URL without them. *)
Definition extract_userinfo (url : string) : res (option (string * string) * string) string :=
  let? (scheme_sep, rest) := ok_or "upstream must be an absolute URL" (split_once "://" url) in
  match rsplit_once_char "@" rest with
  | None => Ok (None, url)
  | Some (userinfo, host_and_path) =>
      let? (user, pass) := ok_or "userinfo in upstream must be user:pass"
                             (split_once_char ":" userinfo) in
      Ok (Some (user, pass), scheme_sep +:+ "://" +:+ host_and_path)
  end.

Definition split_host_port (rest : string) : res (string * option Z) string :=
  match strip_prefix "[" rest with
  | Some stripped =>
      let? (host, after) :=
        ok_or ("invalid host " +:+ debug_str rest +:+ ": unterminated " +:+ quote +:+ "[" +:+ quote)
          (split_once_char "]" stripped) in
      let? port :=
        match strip_prefix ":" after with
        | Some p =>
            res_map Some (map_err (fun e => "invalid port in " +:+ debug_str rest +:+ ": "
                                            +:+ show_int_error e) (parse_u16 p))
        | None => if is_empty after then Ok None
                  else Err ("invalid host " +:+ debug_str rest)
        end in
      Ok (host, port)
  | None =>
      match rsplit_once_char ":" rest with
      | Some (host, port) =>
          if negb (char_in ":" host) then
            let? port := map_err (fun e => "invalid port in " +:+ debug_str rest +:+ ": "
                                           +:+ show_int_error e) (parse_u16 port) in
            Ok (host, Some port)
          else Ok (rest, None)
      | None => Ok (rest, None)
      end
  end.

(** [Options] for the transports other than DoH. *)
Definition clone_opts {R} (base : Options R) : Options R :=
  {| bootstrap := bootstrap base; http_versions := []; opt_timeout := opt_timeout base;
     insecure_skip_verify := insecure_skip_verify base; prefer_ipv6 := prefer_ipv6 base;
     basic_auth := None |}.

Section Parse.
Context {S : Type} `{HB : Base64} {HW : WebLib}.

Definition parse_upstream (addr : string) (base_opts : Options (Resolver S)) (cells : Cells S)
  : res (Doh.DohUpstream S) string :=
  let? (scheme, _) := ok_or ("upstream " +:+ debug_str addr +:+ " must be an absolute URL")
                        (split_once "://" addr) in
  let? versions :=
    if String.eqb scheme "https" then Ok None
    else if String.eqb scheme "h3" then Ok (Some [Http3])
    else Err ("unsupported upstream scheme " +:+ debug_str scheme +:+ " in " +:+ debug_str addr) in
  let? (auth, stripped) := extract_userinfo addr in
  let? normalized :=
    if String.eqb scheme "h3" then
      match split_once "://" stripped with
      | Some (_, r) => Ok ("https://" +:+ r)
      | None => Panic
      end
    else Ok stripped in
  let? uri := from_sum (fun e => "invalid upstream " +:+ debug_str addr +:+ ": " +:+ e)
                (Uri_parse normalized) in
  let? host := ok_or ("upstream " +:+ debug_str addr +:+ " must include a host") (uri_host uri) in
  let path := uri_path uri in
  let port := uri_port uri in
  let opts :=
    {| bootstrap := bootstrap base_opts;
       http_versions := default (http_versions base_opts) versions;
       opt_timeout := opt_timeout base_opts;
       insecure_skip_verify := insecure_skip_verify base_opts;
       prefer_ipv6 := prefer_ipv6 base_opts; basic_auth := auth |} in
  Ok (Doh.new host port path opts (doh_cells cells)).

Definition parse_any_upstream (addr : string) (base_opts : Options (Resolver S)) (cells : Cells S)
  : res (Upstream S) string :=
  let '(scheme, rest) := default ("udp", addr) (split_once "://" addr) in
  if String.eqb scheme "udp" then
    let? sock_addr :=
      match parse_socket_addr rest with
      | Some a => Ok a
      | None =>
          match parse_ip_addr rest with
          | Some ip => Ok (socket_addr_new ip DEFAULT_PORT_PLAIN)
          | None => Err ("plain upstream " +:+ debug_str addr +:+ " must use a literal IP host")
          end
      end in
    Ok (UPlainUdp (PlainUdp.new sock_addr (opt_timeout base_opts)))
  else if String.eqb scheme "tcp" then
    let? (host, port) := split_host_port rest in
    Ok (UPlainTcp (PlainTcp.new host port (clone_opts base_opts)))
  else if String.eqb scheme "tls" then
    let? (host, port) := split_host_port rest in
    Ok (UDot (Dot.new host port (clone_opts base_opts)))
  else if String.eqb scheme "quic" then
    let? (host, port) := split_host_port rest in
    Ok (UDoq (Doq.new host port (clone_opts base_opts) (doq_conn cells)))
  else if String.eqb scheme "sdns" then
    let? u := DnsCrypt.new addr (clone_opts base_opts) (dnscrypt_cert cells) in
    Ok (UDnsCrypt u)
  else
    let? u := parse_upstream addr base_opts cells in
    Ok (UDoh u).
End Parse.

(** ** Lemmas *)
Lemma split_host_port_not_Panic s : split_host_port s <> Panic.
Proof.
  unfold split_host_port, parse_u16. destruct (strip_prefix "[" s) as [r|].
  - destruct (split_once_char "]" r) as [[h a]|]; cbn [ok_or res_bind]; [|done].
    destruct (strip_prefix ":" a) as [p|]; [|by destruct (is_empty a)].
    pose proof (parse_uint_not_Panic u16_max p). by destruct (parse_uint u16_max p).
  - destruct (rsplit_once_char ":" s) as [[h p]|]; [|done]. destruct (negb _); [|done].
    pose proof (parse_uint_not_Panic u16_max p). by destruct (parse_uint u16_max p).
Qed.

Lemma extract_userinfo_not_Panic url : extract_userinfo url <> Panic.
Proof.
  unfold extract_userinfo. destruct (split_once _ url) as [[sc rest]|]; simpl; [|done].
  destruct (rsplit_once_char "@" rest) as [[ui hp]|]; [|done].
  by destruct (split_once_char ":" ui) as [[us pw]|].
Qed.

(** The scheme separator survives the removal of credentials. *)
Lemma split_once_sep_exists a b : exists x y, split_once "://" (a +:+ "://" +:+ b) = Some (x, y).
Proof.
  induction a as [|c a (x & y & IH)]; [by exists "", b|]. rewrite app_cons_str. cbn [split_once].
  destruct (strip_prefix _ _) as [r|]; [by exists "", r|].
  rewrite IH. by exists (String c x), y.
Qed.
Lemma extract_userinfo_sep url auth stripped :
  extract_userinfo url = Ok (auth, stripped) -> exists a b, split_once "://" stripped = Some (a, b).
Proof.
  unfold extract_userinfo. intros H. inv_ok H. destruct a as [sc rest].
  destruct (rsplit_once_char "@" rest) as [[ui hp]|].
  - inv_ok H. destruct a as [us pw]. injection H as <- <-. apply split_once_sep_exists.
  - injection H as <- <-. eauto.
Qed.

Lemma extract_userinfo_app scheme user pass rest :
  char_in ":" scheme = false -> char_in ":" user = false -> char_in "@" rest = false ->
  extract_userinfo (scheme +:+ "://" +:+ user +:+ ":" +:+ pass +:+ "@" +:+ rest)
  = Ok (Some (user, pass), scheme +:+ "://" +:+ rest).
Proof.
  intros Hs Hu Hr. unfold extract_userinfo.
  rewrite split_once_app by done. cbn [ok_or res_bind].
  replace (user +:+ ":" +:+ pass +:+ "@" +:+ rest)
    with ((user +:+ ":" +:+ pass) +:+ String "@"%char rest) by by rewrite !app_assoc_str.
  rewrite rsplit_once_char_app by done.
  change (user +:+ ":" +:+ pass) with (user +:+ String ":"%char pass).
  by rewrite split_once_char_app.
Qed.
Lemma extract_userinfo_none scheme rest :
  char_in ":" scheme = false -> char_in "@" rest = false ->
  extract_userinfo (scheme +:+ "://" +:+ rest) = Ok (None, scheme +:+ "://" +:+ rest).
Proof.
  intros Hs Hr. unfold extract_userinfo. rewrite split_once_app by done. cbn [ok_or res_bind].
  destruct (rsplit_once_char "@" rest) as [p|] eqn:E; [|done].
  by apply rsplit_once_char_None in Hr as Hr'; rewrite Hr' in E.
Qed.

(** An [@] in the path of a URL with a port is taken for the end of
    credentials, and the query goes to what follows it. *)
Lemma at_sign_in_path :
  extract_userinfo "https://dns.example:443/u@other.example/q"
  = Ok (Some ("dns.example", "443/u"), "https://other.example/q").
Proof. reflexivity. Qed.

Section Lemmas.
Context {S : Type} {HB : Base64} {HW : WebLib}.

Lemma parse_upstream_not_Panic addr (o : Options (Resolver S)) cells :
  parse_upstream addr o cells <> Panic.
Proof.
  unfold parse_upstream. destruct (split_once "://" addr) as [[scheme rest]|]; simpl; [|done].
  destruct (String.eqb scheme "https") eqn:E1; cbn [res_bind].
  - destruct (extract_userinfo addr) as [[auth stripped]|e|] eqn:E; simpl; [|done|].
    + destruct (String.eqb scheme "h3") eqn:E3; simpl.
      * apply extract_userinfo_sep in E as (a & b & ->). simpl.
        destruct (Uri_parse _) as [e|uri]; simpl; [done|]. by destruct (uri_host uri).
      * destruct (Uri_parse _) as [e|uri]; simpl; [done|]. by destruct (uri_host uri).
    + by apply extract_userinfo_not_Panic in E.
  - destruct (String.eqb scheme "h3") eqn:E3; cbn [res_bind]; [|done].
    destruct (extract_userinfo addr) as [[auth stripped]|e|] eqn:E; simpl; [|done|].
    + apply extract_userinfo_sep in E as (a & b & ->). simpl.
      destruct (Uri_parse _) as [e|uri]; simpl; [done|]. by destruct (uri_host uri).
    + by apply extract_userinfo_not_Panic in E.
Qed.

(** A new DoH upstream lives in the cells it is given. *)
Lemma parse_upstream_cells addr (o : Options (Resolver S)) c u :
  parse_upstream addr o c = Ok u ->
  Doh.client u = Doh.new_client (doh_cells c) /\ Doh.h3 u = Doh.new_h3 (doh_cells c)
  /\ Doh.prefer_h3 u = Doh.new_prefer_h3 (doh_cells c)
  /\ Doh.transports u = Doh.new_transports (doh_cells c)
  /\ Doh.resolver u = default SystemResolver (bootstrap o).
Proof.
  unfold parse_upstream. intros H. inv_ok H. destruct a as [scheme rest]. inv_ok H.
  destruct a0 as [auth stripped]. inv_ok H. by injection H as <-.
Qed.

Lemma parse_any_upstream_not_Panic addr (o : Options (Resolver S)) cells :
  parse_any_upstream addr o cells <> Panic.
Proof.
  unfold parse_any_upstream. destruct (default _ _) as [scheme rest].
  pose proof (split_host_port_not_Panic rest) as Hs.
  destruct (String.eqb scheme "udp"); [by repeat case_match|].
  repeat match goal with
  | |- (if ?c then _ else _) <> _ => destruct c
  end; try (destruct (split_host_port rest) as [[h p]| |]; done).
  - unfold DnsCrypt.new. pose proof (parse_stamp_not_Panic addr) as Hst.
    by destruct (parse_dnscrypt_stamp addr).
  - pose proof (parse_upstream_not_Panic addr o cells).
    by destruct (parse_upstream addr o cells).
Qed.

(** The error message of an address, if it has one, whatever the cells. *)
Definition res_err {A E} (r : res A E) : option E :=
  match r with Err e => Some e | _ => None end.
Lemma parse_upstream_err addr (o : Options (Resolver S)) c c' :
  res_err (parse_upstream addr o c) = res_err (parse_upstream addr o c').
Proof.
  unfold parse_upstream.
  repeat match goal with
  | |- res_err (res_bind ?m _) = res_err (res_bind ?m _) =>
      destruct m as [?|?|] eqn:?; cbn [res_bind]; [|reflexivity..]
  | |- res_err (match ?p with (_, _) => _ end) = _ => destruct p
  end. reflexivity.
Qed.
Lemma parse_any_upstream_err addr (o : Options (Resolver S)) c c' :
  res_err (parse_any_upstream addr o c) = res_err (parse_any_upstream addr o c').
Proof.
  pose proof (parse_upstream_err addr o c c') as Hd.
  unfold parse_any_upstream. destruct (default _ _) as [scheme rest].
  repeat match goal with
  | |- context [if ?b then _ else _] => destruct b
  end; try reflexivity.
  - by destruct (split_host_port rest) as [[]| |].
  - unfold DnsCrypt.new. by destruct (parse_dnscrypt_stamp addr).
  - destruct (parse_upstream addr o c), (parse_upstream addr o c'); simpl in *; congruence.
Qed.
End Lemmas.

(** ** Properties *)
Section Properties.
Context {S : Type} {HB : Base64} {HW : WebLib}.

(** C39: credentials written as [user:pass@] in an [https://] or [h3://] address
    end up in the [Authorization] header and nowhere else: the upstream has the
    address for the logs, host, port, path and HTTP versions of the one of the
    address without them, which has no such header, and its header is [Basic]
    with the base64 of [user:pass]; the user may not contain a colon, the
    password may contain anything. *)
Theorem userinfo_only_in_header scheme user pass rest (o : Options (Resolver S)) cells u :
  scheme = "https" \/ scheme = "h3" -> char_in ":" user = false -> char_in "@" rest = false ->
  parse_upstream (scheme +:+ "://" +:+ user +:+ ":" +:+ pass +:+ "@" +:+ rest) o cells = Ok u ->
  exists u', parse_upstream (scheme +:+ "://" +:+ rest) o cells = Ok u'
  /\ Doh.address u = Doh.address u' /\ Doh.host u = Doh.host u' /\ Doh.port u = Doh.port u'
  /\ Doh.path u = Doh.path u' /\ Doh.http_versions u = Doh.http_versions u'
  /\ Doh.basic_auth_header u' = None
  /\ Doh.basic_auth_header u
     = Some ("Basic " +:+ b64_encode STANDARD (as_bytes (user +:+ ":" +:+ pass))).
Proof.
  intros Hscheme Hu Hr H.
  assert (char_in ":" scheme = false) as Hs by (destruct Hscheme as [-> | ->]; done).
  unfold parse_upstream in H |- *.
  rewrite split_once_app, extract_userinfo_app in H by done.
  rewrite split_once_app, extract_userinfo_none by done.
  assert (exists v, forall e : string,
            (if String.eqb scheme "https" then Ok None
             else if String.eqb scheme "h3" then Ok (Some [Http3]) else Err e) = Ok v)
    as [v Hv] by (destruct Hscheme as [-> | ->]; by eexists).
  cbn [ok_or res_bind] in H |- *. rewrite Hv in H |- *. cbn [res_bind] in H |- *.
  destruct (if String.eqb scheme "h3" then _ else _) as [norm|e|] eqn:En; [|done..].
  cbn [res_bind] in H |- *. destruct (Uri_parse norm) as [?|uri]; [done|].
  cbn [from_sum res_bind] in H |- *. destruct (uri_host uri) as [h|]; [|done].
  cbn [ok_or res_bind] in H |- *. injection H as <-. eexists. split; [reflexivity|]. by split_and!.
Qed.

(** [split_host_port] undoes [format_host_port]: for every port, and every
    host that is an IPv6 literal or has no colon and does not start with a
    bracket, the printed authority splits into that host and port. *)
Theorem host_port_roundtrip host port :
  0 <= port <= u16_max ->
  match parse_ipv6_addr host with
  | Some _ => char_in "]" host = false
  | None => char_in ":" host = false /\ strip_prefix "[" host = None /\ host <> ""
  end ->
  split_host_port (format_host_port host port) = Ok (host, Some port).
Proof.
  intros Hp Hh. unfold format_host_port, split_host_port.
  destruct (parse_ipv6_addr host) as [a|].
  - rewrite strip_prefix_app. change ("]:" +:+ dec port) with (String "]"%char (":" +:+ dec port)).
    rewrite split_once_char_app by done. cbn [ok_or res_bind].
    rewrite strip_prefix_app. unfold parse_u16. by rewrite parse_uint_dec.
  - destruct Hh as (Hc & Hb & Hne).
    assert (strip_prefix "[" (host +:+ ":" +:+ dec port) = None) as ->.
    { destruct host as [|c host]; [done|]. rewrite app_cons_str. simpl in *.
      by case_decide. }
    change (":" +:+ dec port) with (String ":"%char (dec port)).
    rewrite rsplit_once_char_app
      by (apply dec_char_in; [unfold u16_max in *; lia|done]).
    rewrite Hc. cbn [negb]. unfold parse_u16. by rewrite parse_uint_dec.
Qed.

(** Parsing an upstream address always ends with an upstream or an error
    message, and an address without a scheme means the same as with [udp://]
    in front. *)
Theorem parse_any_upstream_total addr (o : Options (Resolver S)) cells :
  parse_any_upstream addr o cells <> Panic
  /\ (split_once "://" addr = None ->
      forall u, parse_any_upstream addr o cells = Ok u
           <-> parse_any_upstream ("udp://" +:+ addr) o cells = Ok u).
Proof.
  split; [apply parse_any_upstream_not_Panic|].
  intros Hn u. unfold parse_any_upstream. rewrite Hn. cbn [default].
  change ("udp://" +:+ addr) with ("udp" +:+ "://" +:+ addr).
  rewrite split_once_app by done. cbn [from_option id].
  change (String.eqb "udp" "udp") with true. cbv iota.
  destruct (parse_socket_addr addr); [tauto|]. destruct (parse_ip_addr addr); [tauto|].
  split; discriminate.
Qed.
End Properties.

Section Witnesses.
#[local] Existing Instances ToyBase64.base64 ToyWeb.web.
Definition w_opts : Options (Resolver unit) := default_options.
Definition w_none {T} : cell unit (option T) := Cell (fun _ => None) (fun _ s => s).
Definition w_cells : Cells unit :=
  {| doh_cells := {| Doh.new_client := w_none; Doh.new_h3 := w_none; Doh.new_prefer_h3 := w_none;
                     Doh.new_transports := Cell (fun _ => []) (fun _ s => s) |};
     doq_conn := w_none; dnscrypt_cert := w_none;
     tracker := Cell (fun _ => latency_new) (fun _ s => s) |}.
Definition w_url : string := "https://user:p@ss:word@dns.example:8443/dns-query".

Definition w_doh : Doh.DohUpstream unit :=
  match parse_upstream w_url w_opts w_cells with
  | Ok u => u
  | _ => Doh.new "" None "" w_opts (doh_cells w_cells)
  end.
Lemma userinfo_only_in_header_witness :
  exists u', parse_upstream "https://dns.example:8443/dns-query" w_opts w_cells = Ok u'
  /\ Doh.address w_doh = Doh.address u'.
Proof.
  destruct (userinfo_only_in_header "https" "user" "p@ss:word" "dns.example:8443/dns-query"
    w_opts w_cells w_doh (or_introl eq_refl) eq_refl eq_refl ltac:(vm_refl)) as (u' & Hu' & Ha & _).
  exists u'. split; [exact Hu'|exact Ha].
Defined.

Lemma host_port_roundtrip_witness :
  split_host_port (format_host_port "2001:db8::1" 853) = Ok ("2001:db8::1", Some 853).
Proof.
  apply (host_port_roundtrip "2001:db8::1" 853); [vm_compute; split; discriminate|vm_compute; reflexivity].
Defined.
End Witnesses.
