(* ===== verification/UpstreamConfig.v ===== *)
(** * Upstream rules

    [src/client/upstream_config.rs]: parsing of the rules file, lookup of the
    most specific domain rule, ordering of a group's upstreams, and failover.

    A shared [Arc<TrackedUpstream>] is a value that carries its cells, so two
    groups that hold the same upstream share its latency. [alloc] gives the
    cells of the [n]-th upstream built and [cursor_of] the round-robin counter
    of a group. *)
From S2P Require Import Prelude RustStr RustNet Io Dns Errors WebLib Wire Bootstrap Framing.
From S2P Require Import CryptoLib Crypto Stamp Latency Upstream UpstreamUrl.
Implicit Type P : forall X, eff X -> Prop.

Inductive UpstreamMode := Ordered | RoundRobin | LoadBalance.
#[export] Instance UpstreamMode_eq_dec : EqDecision UpstreamMode.
Proof. solve_decision. Defined.

Record UpstreamGroup (S : Type) := MkGroup {
  upstreams : list (TrackedUpstream S);
  round_robin_cursor : cell S Z;
}.
Arguments MkGroup {S}.
Arguments upstreams {S}.
Arguments round_robin_cursor {S}.

Record UpstreamConfig (S : Type) := MkConfig {
  domain_upstreams : gmap string (UpstreamGroup S);
  default_upstreams : UpstreamGroup S;
  mode : UpstreamMode;
}.
Arguments MkConfig {S}.
Arguments domain_upstreams {S}.
Arguments default_upstreams {S}.
Arguments mode {S}.

Definition LABEL_SEP : ascii := "."%char.

(** ** Lines *)
Fixpoint rule_domains (hosts : list string) : res (list string) string :=
  match hosts with
  | [] => Ok []
  | host :: hosts =>
      if is_empty host then Err "wrong upstream format: empty domain in rule"
      else
        let? rest := rule_domains hosts in
        Ok ((to_ascii_lowercase host +:+ String LABEL_SEP "") :: rest)
  end.
Definition split_config_line (line : string) : res (list string * list string) string :=
  match strip_prefix "[/" line with
  | None => Ok ([line], [])
  | Some rest =>
      let? (domains_part, upstreams_part) :=
        ok_or ("wrong upstream format: missing closing " +:+ quote +:+ "/]" +:+ quote)
          (split_once "/]" rest) in
      if is_empty upstreams_part then
        Err ("wrong upstream format: no upstreams after " +:+ quote +:+ "/]" +:+ quote)
      else
        let? domains := rule_domains (split_char "/" domains_part) in
        Ok (split_whitespace upstreams_part, domains)
  end.

Section Config.
Context {S : Type} `{HB : Base64} {HW : WebLib}.
Context (alloc : nat -> Cells S) (cursor_of : option string -> cell S Z).
Context (base_opts : Options (Resolver S)).

Definition push (g : UpstreamGroup S) (u : TrackedUpstream S) : UpstreamGroup S :=
  {| upstreams := upstreams g ++ [u]; round_robin_cursor := round_robin_cursor g |}.
Definition new_group (key : option string) : UpstreamGroup S :=
  {| upstreams := []; round_robin_cursor := cursor_of key |}.

Record ParseState := {
  upstream_index : gmap string (TrackedUpstream S);
  domain_groups : gmap string (UpstreamGroup S);
  default_group : UpstreamGroup S;
  errors : list (nat * string);
}.
Definition add_error (st : ParseState) (idx : nat) (e : string) : ParseState :=
  {| upstream_index := upstream_index st; domain_groups := domain_groups st;
     default_group := default_group st; errors := errors st ++ [(idx, e)] |}.

(** The upstream of a string: the one built before, or a new one. *)
Definition intern (st : ParseState) (u : string) : res (TrackedUpstream S * ParseState) string :=
  match upstream_index st !! u with
  | Some existing => Ok (existing, st)
  | None =>
      let cells := alloc (size (upstream_index st)) in
      let? built := parse_any_upstream u base_opts cells in
      let t := {| upstream := built; latency := tracker cells |} in
      Ok (t, {| upstream_index := <[u := t]> (upstream_index st);
                domain_groups := domain_groups st; default_group := default_group st;
                errors := errors st |})
  end.

(** [domain_upstreams.entry(domain).or_default().push(upstream)]. *)
Definition push_domain (t : TrackedUpstream S) (m : gmap string (UpstreamGroup S)) (domain : string)
  : gmap string (UpstreamGroup S) :=
  <[domain := push (default (new_group (Some domain)) (m !! domain)) t]> m.

Definition add_upstream (domains : list string) (t : TrackedUpstream S) (st : ParseState)
  : ParseState :=
  match domains with
  | [] => {| upstream_index := upstream_index st; domain_groups := domain_groups st;
             default_group := push (default_group st) t; errors := errors st |}
  | _ => {| upstream_index := upstream_index st;
            domain_groups := fold_left (push_domain t) domains (domain_groups st);
            default_group := default_group st; errors := errors st |}
  end.

Definition parse_str (idx : nat) (domains : list string) (st : ParseState) (u : string)
  : res ParseState (list (nat * string)) :=
  match intern st u with
  | Ok (t, st) => Ok (add_upstream domains t st)
  | Err e => Ok (add_error st idx ("upstream " +:+ debug_str u +:+ ": " +:+ e))
  | Panic => Panic
  end.

Definition parse_line (st : ParseState) (il : nat * string)
  : res ParseState (list (nat * string)) :=
  let '(idx, line) := il in
  let line := trim line in
  if is_empty line || starts_with "#" line then Ok st
  else
    match split_config_line line with
    | Ok (strs, domains) => fold_res (parse_str idx domains) st strs
    | Err e => Ok (add_error st idx e)
    | Panic => Panic
    end.

Definition parse_start : ParseState :=
  {| upstream_index := ∅; domain_groups := ∅; default_group := new_group None; errors := [] |}.
Definition parse_with_mode (lines : list string) (m : UpstreamMode)
  : res (UpstreamConfig S) (list (nat * string)) :=
  let? st := fold_res parse_line parse_start (imap pair lines) in
  match errors st with
  | [] => Ok {| domain_upstreams := domain_groups st; default_upstreams := default_group st;
                mode := m |}
  | errs => Err errs
  end.
Definition parse (lines : list string) : res (UpstreamConfig S) (list (nat * string)) :=
  parse_with_mode lines Ordered.
End Config.

(** ** Lookup *)
Section Lookup.
Context {S : Type}.
Implicit Types (cfg : UpstreamConfig S).

(** The loop over suffixes; each turn shortens the suffix. *)
Fixpoint group_loop (fuel : nat) cfg (suffix : string) : UpstreamGroup S :=
  match fuel with
  | O => default_upstreams cfg
  | Datatypes.S fuel =>
      match domain_upstreams cfg !! suffix with
      | Some group => group
      | None =>
          match split_once_char LABEL_SEP suffix with
          | Some (_, rest) =>
              if is_empty rest then default_upstreams cfg else group_loop fuel cfg rest
          | None => default_upstreams cfg
          end
      end
  end.
Definition group_for cfg (fqdn : string) : UpstreamGroup S :=
  if bool_decide (domain_upstreams cfg = ∅) then default_upstreams cfg
  else
    let lower := to_ascii_lowercase fqdn in
    group_loop (Datatypes.S (String.length lower)) cfg lower.

(** ** Ordering *)
Definition average_key (a : option Z) : Z := match a with Some d => d | None => -1 end.
Definition read_average (t : TrackedUpstream S) : io S (option Z) :=
  let* l := read_cell (latency t) in IoRet (average l).
Fixpoint split_tested (ts : list (TrackedUpstream S))
  : io S (list (TrackedUpstream S) * list (TrackedUpstream S)) :=
  match ts with
  | [] => IoRet ([], [])
  | t :: ts =>
      let* a := read_average t in
      let* (tested, untested) := split_tested ts in
      IoRet (match a with
             | Some _ => (t :: tested, untested)
             | None => (tested, t :: untested)
             end)
  end.
(** [shuffle]: the list in the order of a random permutation. *)
Definition shuffle {A} (l : list A) : io S (list A) :=
  let* order := call (ShuffleOrder (length l)) in
  IoRet (omap (fun i => l !! i) order).

(** [sort_by_key(|u| u.latency().average())]: every comparison of the sort loads
    the averages of its two elements again, while other tasks may record
    latencies. *)
Definition load_key (ts : list (TrackedUpstream S)) (i : nat) : io S Z :=
  match ts !! i with
  | Some t => let* a := read_average t in IoRet (average_key a)
  | None => IoRet (average_key None)
  end.
Fixpoint sort_with (ts : list (TrackedUpstream S)) (plan : sorting)
  : io S (res (list nat) DohError) :=
  match plan with
  | Compare i j next =>
      let* a := load_key ts i in
      let* b := load_key ts j in
      sort_with ts (next (a <? b))
  | Sorted order => IoRet (Ok order)
  | Unwinds => IoRet Panic
  end.
Definition sort_tested (ts : list (TrackedUpstream S)) : io S (res (list (TrackedUpstream S)) DohError) :=
  let* plan := call (SortPlan (length ts)) in
  try* order := sort_with ts plan in
  IoRet (Ok (omap (fun i => ts !! i) order)).
Definition ordered (g : UpstreamGroup S) (m : UpstreamMode)
  : io S (res (list (TrackedUpstream S)) DohError) :=
  match m with
  | Ordered => IoRet (Ok (upstreams g))
  | RoundRobin =>
      match upstreams g with
      | [] => IoRet (Ok [])
      | _ =>
          let us := upstreams g in
          let len := Z.of_nat (length us) in
          let* cursor := atomically (fun s =>
            let c := peek (round_robin_cursor g) s in
            (c, poke (round_robin_cursor g) ((c + 1) mod 2 ^ 64) s)) in
          let start := Z.to_nat (cursor mod len) in
          IoRet (Ok (drop start us ++ take start us))
      end
  | LoadBalance =>
      let* (tested, untested) := split_tested (upstreams g) in
      try* tested := sort_tested tested in
      let* untested := shuffle untested in
      IoRet (Ok (untested ++ tested))
  end.
Definition upstreams_for cfg (fqdn : string) : io S (res (list (TrackedUpstream S)) DohError) :=
  ordered (group_for cfg fqdn) (mode cfg).

(** ** Failover *)
Context `{HL : DnsLib} {HC : DnsCodec} {HB : Base64} {HW : WebLib} {HK : CryptoLib}.

Fixpoint try_upstreams (name : string) (req : Message) (us : list (TrackedUpstream S))
    (last_err : option DohError) : io S (res Message DohError) :=
  match us with
  | [] => IoRet (Err (default (Bootstrap ("no upstreams configured for " +:+ debug_str name))
                              last_err))
  | u :: us =>
      let* r := tracked_exchange u req in
      match r with
      | Ok resp => IoRet (Ok resp)
      | Err e => try_upstreams name req us (Some e)
      | Panic => IoRet Panic
      end
  end.
Definition request_name (req : Message) : string :=
  match queries req with q :: _ => Name_to_ascii (query_name q) | [] => "" end.
Definition exchange cfg (req : Message) : io S (res Message DohError) :=
  let name := request_name req in
  try* us := upstreams_for cfg name in
  try_upstreams name req us None.
Definition into_handler cfg (req : Message) : io S (res Message DohError) := exchange cfg req.
End Lookup.

(** ** Reference semantics of a rules file *)
Section Reference.
Context {S : Type} {HB : Base64} {HW : WebLib}.
Context (alloc : nat -> Cells S) (cursor_of : option string -> cell S Z).
Context (base_opts : Options (Resolver S)).

(** A line of the file: nothing, an error, or upstreams for some domains. *)
Inductive item :=
| Bad (idx : nat) (e : string)
| Use (idx : nat) (domains : list string) (u : string).
Definition line_items (il : nat * string) : list item :=
  let '(idx, line) := il in
  let line := trim line in
  if is_empty line || starts_with "#" line then []
  else match split_config_line line with
       | Ok (strs, domains) => Use idx domains <$> strs
       | Err e => [Bad idx e]
       | Panic => []
       end.
Definition items (lines : list string) : list item := imap pair lines ≫= line_items.

(** Its errors, each with the index of its line. *)
Definition item_errors (i : item) : list (nat * string) :=
  match i with
  | Bad idx e => [(idx, e)]
  | Use idx _ u =>
      match res_err (parse_any_upstream u base_opts (alloc 0)) with
      | Some e => [(idx, "upstream " +:+ debug_str u +:+ ": " +:+ e)]
      | None => []
      end
  end.
(** The upstream strings of a group ([None] is the default group), in the
    order of the file. *)
Definition item_strings (key : option string) (i : item) : list string :=
  match i, key with
  | Bad _ _, _ => []
  | Use _ [] u, None => [u]
  | Use _ domains u, Some d => (fun _ => u) <$> filter (fun d' => d' = d) domains
  | Use _ _ _, None => []
  end.

(** [t] is the upstream built for [u], the [n]-th distinct string. *)
Definition built_as (order : list string) (u : string) (t : TrackedUpstream S) : Prop :=
  exists n, order !! n = Some u
  /\ parse_any_upstream u base_opts (alloc n) = Ok (upstream t)
  /\ latency t = tracker (alloc n).

Definition step (st : ParseState) (i : item) : ParseState :=
  match i with
  | Bad idx e => add_error st idx e
  | Use idx domains u =>
      match parse_str alloc cursor_of base_opts idx domains st u with Ok st => st | _ => st end
  end.

Lemma split_config_line_not_Panic l : split_config_line l <> Panic.
Proof.
  assert (forall hs, rule_domains hs <> Panic) as Hr.
  { induction hs as [|h hs IH]; simpl; [done|]. destruct (is_empty h); [done|].
    by destruct (rule_domains hs). }
  unfold split_config_line. destruct (strip_prefix _ l) as [r|]; [|done].
  destruct (split_once _ r) as [[d u]|]; simpl; [|done]. destruct (is_empty u); [done|].
  pose proof (Hr (split_char "/" d)). by destruct (rule_domains _).
Qed.

Lemma parse_str_step idx domains st u :
  parse_str alloc cursor_of base_opts idx domains st u = Ok (step st (Use idx domains u)).
Proof.
  simpl. unfold parse_str, intern. destruct (upstream_index st !! u); [done|].
  pose proof (parse_any_upstream_not_Panic u base_opts (alloc (size (upstream_index st)))).
  by destruct (parse_any_upstream u base_opts _).
Qed.
Lemma parse_line_steps st il :
  parse_line alloc cursor_of base_opts st il = Ok (fold_left step (line_items il) st).
Proof.
  destruct il as [idx line]. unfold parse_line, line_items.
  destruct (is_empty (trim line) || starts_with "#" (trim line)); [done|].
  pose proof (split_config_line_not_Panic (trim line)) as H.
  destruct (split_config_line (trim line)) as [[strs domains]|e|]; [|done|done].
  rewrite (fold_res_pure _ (fun st u => step st (Use idx domains u)))
    by (intros; apply parse_str_step). clear H.
  apply (f_equal Ok). revert st. induction strs as [|u strs IH]; intros st; simpl; [done|apply IH].
Qed.
Lemma parse_lines_steps st ils :
  fold_res (parse_line alloc cursor_of base_opts) st ils
  = Ok (fold_left step (ils ≫= line_items) st).
Proof.
  rewrite (fold_res_pure _ (fun st il => fold_left step (line_items il) st))
    by (intros; apply parse_line_steps).
  apply (f_equal Ok). revert st. induction ils as [|il ils IH]; intros st; simpl; [done|].
  by rewrite fold_left_app.
Qed.

(** *** The invariant of the loop *)
Record index_ok (order : list string) (index : gmap string (TrackedUpstream S)) : Prop := {
  order_nodup : NoDup order;
  order_indexed u : u ∈ order -> is_Some (index !! u);
  index_size : size index = length order;
  index_built u t : index !! u = Some t -> built_as order u t;
}.
Definition group_ok (order strs : list string) (g : UpstreamGroup S) : Prop :=
  Forall2 (built_as order) strs (upstreams g).
Definition groups_ok (order : list string) (its : list item)
    (m : gmap string (UpstreamGroup S)) (g : UpstreamGroup S) : Prop :=
  (group_ok order (its ≫= item_strings None) g /\ round_robin_cursor g = cursor_of None)
  /\ forall d, match m !! d with
               | Some g => its ≫= item_strings (Some d) <> []
                   /\ group_ok order (its ≫= item_strings (Some d)) g
                   /\ round_robin_cursor g = cursor_of (Some d)
               | None => its ≫= item_strings (Some d) = []
               end.
Definition state_ok (its : list item) (st : ParseState) : Prop :=
  errors st = its ≫= item_errors
  /\ exists order, index_ok order (upstream_index st)
     /\ (errors st = [] -> groups_ok order its (domain_groups st) (default_group st)).

Lemma built_as_app order more u t : built_as order u t -> built_as (order ++ more) u t.
Proof.
  intros (n & Hn & ?). exists n. split; [|done]. by apply lookup_app_l_Some.
Qed.
Lemma group_ok_app order more strs g : group_ok order strs g -> group_ok (order ++ more) strs g.
Proof. intros H. revert H. apply Forall2_impl. intros. by apply built_as_app. Qed.
Lemma groups_ok_app order more its m g :
  groups_ok order its m g -> groups_ok (order ++ more) its m g.
Proof.
  intros [[? ?] Hm]. split; [split; [by apply group_ok_app|done]|].
  intros d. specialize (Hm d). destruct (m !! d); [|done].
  destruct Hm as (? & ? & ?). split_and!; [done|by apply group_ok_app|done].
Qed.

Lemma group_ok_push order strs g u t :
  group_ok order strs g -> built_as order u t -> group_ok order (strs ++ [u]) (push g t).
Proof. intros Hg Ht. apply Forall2_app; [done|]. by constructor. Qed.

Lemma push_domains t ds m d :
  fold_left (push_domain cursor_of t) ds m !! d
  = match filter (fun d' => d' = d) ds with
    | [] => m !! d
    | l => let g := default (new_group cursor_of (Some d)) (m !! d) in
           Some {| upstreams := upstreams g ++ ((fun _ => t) <$> l);
                   round_robin_cursor := round_robin_cursor g |}
    end.
Proof.
  revert m. induction ds as [|d0 ds IH]; intros m; [done|]. cbn [fold_left].
  rewrite IH. unfold push_domain at 1 2. destruct (decide (d0 = d)) as [->|Hne].
  - rewrite filter_cons_True by done. rewrite lookup_insert_eq. cbn [from_option].
    destruct (filter _ ds) as [|x l]; [done|]. unfold push. cbn. by rewrite <- app_assoc.
  - rewrite filter_cons_False by done. by rewrite lookup_insert_ne.
Qed.

Lemma add_upstream_groups order its st idx domains u t :
  built_as order u t -> groups_ok order its (domain_groups st) (default_group st) ->
  let st' := add_upstream cursor_of domains t st in
  groups_ok order (its ++ [Use idx domains u]) (domain_groups st') (default_group st').
Proof.
  intros Ht [[Hd Hc] Hm]. unfold groups_ok. rewrite bind_app. cbn [mbind list_bind app].
  destruct domains as [|d0 ds]; cbn -[push_domain fold_left filter].
  - split; [split; [by apply group_ok_push|done]|]. intros d. specialize (Hm d).
    rewrite bind_app. cbn. by rewrite !app_nil_r.
  - rewrite app_nil_r. split; [done|]. intros d. specialize (Hm d). rewrite push_domains.
    rewrite bind_app. cbn -[filter]. rewrite app_nil_r.
    destruct (filter _ (d0 :: ds)) as [|x l]; cbn [fmap list_fmap].
    { by rewrite app_nil_r. }
    assert (forall l : list string, Forall2 (built_as order) ((fun _ => u) <$> l) ((fun _ => t) <$> l))
      as Hall by (induction l0; constructor; auto).
    split; [by intros [_ ?]%app_eq_nil|].
    destruct (domain_groups st !! d) as [g|]; cbn -[fmap].
    + destruct Hm as (_ & Hg & Hcur). split; [|done].
      apply Forall2_app; [done|]. apply (Hall (x :: l)).
    + rewrite Hm. split; [|done]. apply (Hall (x :: l)).
Qed.

Lemma state_ok_error its st i idx e :
  item_errors i = [(idx, e)] -> state_ok its st -> state_ok (its ++ [i]) (add_error st idx e).
Proof.
  intros Hi (Herr & order & Hix & _). split.
  - simpl. rewrite bind_app. cbn. by rewrite Hi, Herr, app_nil_r.
  - exists order. split; [done|]. simpl. by destruct (errors st).
Qed.
Lemma state_ok_use its st idx domains u t order :
  errors st = its ≫= item_errors -> item_errors (Use idx domains u) = [] ->
  index_ok order (upstream_index st) -> built_as order u t ->
  (errors st = [] -> groups_ok order its (domain_groups st) (default_group st)) ->
  state_ok (its ++ [Use idx domains u]) (add_upstream cursor_of domains t st).
Proof.
  intros Herr Hi Hix Ht Hg. split.
  - rewrite bind_app. cbn [mbind list_bind]. rewrite Hi, !app_nil_r. by destruct domains.
  - exists order. split; [by destruct domains|]. intros E. apply add_upstream_groups; [done|].
    apply Hg. by destruct domains.
Qed.

Lemma index_ok_insert order index u t :
  index_ok order index -> index !! u = None ->
  parse_any_upstream u base_opts (alloc (size index)) = Ok (upstream t) ->
  latency t = tracker (alloc (size index)) ->
  index_ok (order ++ [u]) (<[u := t]> index) /\ built_as (order ++ [u]) u t.
Proof.
  intros [Hnd Hin Hsz Hb] Hu Hp Hl.
  assert (built_as (order ++ [u]) u t) as Ht.
  { exists (length order). rewrite list_lookup_middle by done. rewrite <- Hsz. done. }
  split; [|done]. constructor.
  - apply list.NoDup_app. split_and!; [done| |apply NoDup_singleton].
    intros x Hx ->%list_elem_of_singleton. apply Hin in Hx as [? Hx]. by rewrite Hu in Hx.
  - intros u' [Hu'| ->%list_elem_of_singleton]%elem_of_app.
    + destruct (decide (u = u')) as [->|]; [rewrite lookup_insert_eq; by eexists|].
      rewrite lookup_insert_ne by done. by apply Hin.
    + rewrite lookup_insert_eq. by eexists.
  - rewrite map_size_insert_None, length_app by done. simpl. lia.
  - intros u' t'. rewrite lookup_insert_Some. intros [[<- <-]|[? ?]]; [done|].
    by apply built_as_app, Hb.
Qed.

Lemma step_ok its st i : state_ok its st -> state_ok (its ++ [i]) (step st i).
Proof.
  intros Hst. destruct i as [idx e|idx domains u]; [by apply state_ok_error|].
  cbn [step]. unfold parse_str, intern. destruct Hst as (Herr & order & Hix & Hg) eqn:Hst'.
  destruct (upstream_index st !! u) as [t|] eqn:Hu; cbn [res_bind].
  - pose proof (index_built _ _ Hix _ _ Hu) as Ht. apply (state_ok_use its st idx domains u t order); try done.
    destruct Ht as (n & _ & Hp & _). simpl.
    by rewrite (parse_any_upstream_err u base_opts (alloc 0) (alloc n)), Hp.
  - pose proof (parse_any_upstream_err u base_opts (alloc 0) (alloc (size (upstream_index st)))) as He.
    pose proof (parse_any_upstream_not_Panic u base_opts (alloc (size (upstream_index st)))).
    destruct (parse_any_upstream u base_opts (alloc (size (upstream_index st)))) as [built|e|] eqn:Hp;
      cbn [res_bind]; [|by apply state_ok_error; [simpl; rewrite He|]|done].
    destruct (index_ok_insert order _ u (MkTracked built (tracker (alloc (size (upstream_index st)))))
                Hix Hu Hp eq_refl) as [Hix' Ht'].
    eapply state_ok_use; [exact Herr|simpl; by rewrite He|exact Hix'|exact Ht'|].
    intros E. by apply groups_ok_app, Hg.
Qed.

Lemma steps_ok its its' st : state_ok its st -> state_ok (its ++ its') (fold_left step its' st).
Proof.
  revert its st. induction its' as [|i its' IH]; intros its st Hst; simpl; [by rewrite app_nil_r|].
  replace (its ++ i ::its') with ((its ++ [i]) ++ its') by by rewrite <- app_assoc.
  by apply IH, step_ok.
Qed.
Lemma parse_start_ok : state_ok [] (parse_start cursor_of).
Proof.
  split; [done|]. exists []. split.
  - constructor; [constructor|by intros ? ?%not_elem_of_nil|done|done].
  - intros _. split; [split; [constructor|done]|]. intros d. cbn -[lookup]. by rewrite lookup_empty.
Qed.
Lemma parse_with_mode_cases lines m :
  let its := items lines in
  let all_errors := its ≫= item_errors in
  match parse_with_mode alloc cursor_of base_opts lines m with
  | Ok cfg =>
      all_errors = [] /\ mode cfg = m /\
      exists order, NoDup order /\
        groups_ok order its (domain_upstreams cfg) (default_upstreams cfg)
  | Err errs => errs = all_errors /\ errs <> []
  | Panic => False
  end.
Proof.
  intros its all_errors. unfold parse_with_mode. rewrite parse_lines_steps. cbn [res_bind].
  destruct (steps_ok [] its _ parse_start_ok)
    as (Herr & order & Hix & Hg). fold its. cbn [app] in Herr, Hg.
  destruct (errors _) as [|e es]; [|done].
  split; [done|]. split; [done|]. exists order. split; [apply Hix|]. by apply Hg.
Qed.
End Reference.

(** ** Lemmas on lookup, ordering and failover *)

(** [d] is [s], or what follows one of its label separators. *)
Definition label_suffix (s d : string) : Prop :=
  d = s \/ (d <> "" /\ exists labels, s = labels +:+ String LABEL_SEP d).

Lemma label_suffix_cut a b d :
  char_in LABEL_SEP a = false ->
  label_suffix (a +:+ String LABEL_SEP b) d <->
  d = a +:+ String LABEL_SEP b \/ (b <> "" /\ label_suffix b d).
Proof.
  intros Ha. unfold label_suffix. split.
  - intros [?|(Hd & l & Hl)]; [by left|]. right.
    assert (b = d \/ exists l', b = l' +:+ String LABEL_SEP d) as Hb.
    { clear Hd. revert l Hl. induction a as [|c a IH]; intros l Hl.
      - destruct l as [|c' l]; rewrite ?app_cons_str, ?app_nil_l_str in Hl.
        + injection Hl as ->. by left.
        + injection Hl as _ ->. right. by exists l.
      - destruct l as [|c' l]; rewrite ?app_cons_str, ?app_nil_l_str in Hl.
        + injection Hl as -> _. done.
        + injection Hl as <- Hl. simpl in Ha. case_decide; [done|]. by apply (IH Ha l). }
    destruct Hb as [->|[l' ->]]; [by eauto|].
    split; [|right; eauto]. by destruct l'.
  - intros [?|(Hb & [->|(Hd & l & ->)])]; [by left|right; eauto|]. right. split; [done|].
    exists (a +:+ String LABEL_SEP l). by rewrite app_assoc_str, app_cons_str.
Qed.
Lemma label_suffix_one s d : char_in LABEL_SEP s = false -> label_suffix s d <-> d = s.
Proof.
  intros Hs. split; [|by left]. intros [?|(_ & l & ->)]; [done|].
  exfalso. induction l as [|c l IH]; [done|]. rewrite app_cons_str in Hs. simpl in Hs.
  case_decide; [done|auto].
Qed.
Lemma label_suffix_length s d : label_suffix s d -> (String.length d <= String.length s)%nat.
Proof. intros [->|(_ & l & ->)]; [done|]. rewrite length_app_str. simpl. lia. Qed.

(** The rule that decides for [s]. *)
Definition most_specific {S} (cfg : UpstreamConfig S) (s : string) (g : UpstreamGroup S) : Prop :=
  (exists d, domain_upstreams cfg !! d = Some g /\ label_suffix s d
   /\ forall d', label_suffix s d' -> is_Some (domain_upstreams cfg !! d') ->
            (String.length d' <= String.length d)%nat)
  \/ ((forall d, label_suffix s d -> domain_upstreams cfg !! d = None) /\ g = default_upstreams cfg).

Lemma group_loop_spec {S} (cfg : UpstreamConfig S) fuel s :
  (String.length s < fuel)%nat -> most_specific cfg s (group_loop fuel cfg s).
Proof.
  revert s. induction fuel as [|fuel IH]; intros s Hf; [lia|]. simpl.
  destruct (domain_upstreams cfg !! s) as [g|] eqn:Hs.
  { left. exists s. split; [done|]. split; [by left|]. intros d' Hd' _. by apply label_suffix_length. }
  destruct (split_once_char LABEL_SEP s) as [[a b]|] eqn:Hsp.
  - apply split_once_char_Some in Hsp as [-> Ha].
    destruct b as [|c b].
    + simpl. right. split; [|done]. by intros d [->|[? _]]%label_suffix_cut.
    + cbn [is_empty]. destruct (IH (String c b)) as [(d & Hd & Hl & Hmax)|[Hnone ->]].
      { rewrite length_app_str in Hf. simpl in Hf |- *. lia. }
      * left. exists d. split; [done|]. split; [by apply label_suffix_cut; auto|].
        intros d' [->|[_ ?]]%label_suffix_cut [g' Hg']; [congruence|eauto|done].
      * right. split; [|done]. intros d [->|[_ ?]]%label_suffix_cut; [done|auto|done].
  - apply split_once_char_None in Hsp. right. split; [|done].
    by intros d ->%label_suffix_one.
Qed.

Lemma group_for_most_specific {S} (cfg : UpstreamConfig S) fqdn :
  most_specific cfg (to_ascii_lowercase fqdn) (group_for cfg fqdn).
Proof.
  unfold group_for. case_bool_decide as Hm; [|apply group_loop_spec; lia].
  right. split; [|done]. intros d _. by rewrite Hm, lookup_empty.
Qed.

Lemma omap_lookup_seq {A} (l : list A) : omap (fun i => l !! i) (seq 0 (length l)) = l.
Proof.
  assert (forall pre, omap (fun i => (pre ++ l) !! i) (seq (length pre) (length l)) = l) as H.
  { induction l as [|a l IH]; intros pre; [done|]. cbn [length seq omap list_omap].
    rewrite list_lookup_middle by done. f_equal.
    specialize (IH (pre ++ [a])). rewrite length_app, <- app_assoc in IH. simpl in IH.
    by rewrite Nat.add_1_r in IH. }
  apply (H []).
Qed.

(** Sorting by the position of the elements is sorting the elements. *)
Lemma omap_insert_by {A} (f : nat -> option A) (key : A -> Z) (pos : nat -> Z) i a ps :
  f i = Some a -> pos i = key a ->
  Forall (fun i => exists a, f i = Some a /\ pos i = key a) ps ->
  omap f (insert_by pos i ps) = insert_by key a (omap f ps).
Proof.
  intros Hi Hk. induction 1 as [|j ps (b & Hj & Hb) Hjs IH]; cbn [insert_by].
  - cbn [omap list_omap]. by rewrite Hi.
  - rewrite Hk, Hb. cbn [omap list_omap]. rewrite Hj. cbn [insert_by].
    destruct (key a <=? key b); cbn [omap list_omap]; rewrite Hj; [by rewrite Hi|].
    f_equal. exact IH.
Qed.
Lemma omap_sort_by_key {A} (f : nat -> option A) (key : A -> Z) (pos : nat -> Z) ps :
  Forall (fun i => exists a, f i = Some a /\ pos i = key a) ps ->
  omap f (sort_by_key pos ps) = sort_by_key key (omap f ps).
Proof.
  induction 1 as [|i ps (a & Hi & Ha) His IH]; [done|].
  transitivity (insert_by key a (omap f (sort_by_key pos ps))).
  2: { rewrite IH. cbn [omap list_omap]. by rewrite Hi. }
  apply omap_insert_by; [done|done|]. by rewrite sort_by_key_perm.
Qed.
Lemma sort_positions {A} (key : A -> Z) (pos : nat -> Z) (l : list A) :
  (forall i a, l !! i = Some a -> pos i = key a) ->
  omap (fun i => l !! i) (sort_by_key pos (seq 0 (length l))) = sort_by_key key l.
Proof.
  intros Hpos. rewrite (omap_sort_by_key _ key), omap_lookup_seq; [done|].
  apply list.Forall_forall. intros i Hi%elem_of_seq.
  destruct (lookup_lt_is_Some_2 l i) as [a Ha]; [lia|]. exists a. split; [done|by apply Hpos].
Qed.

Section Ordering.
Context {S : Type}.
Implicit Types (t : TrackedUpstream S) (ts : list (TrackedUpstream S)) (I : S -> Prop).

Lemma shuffle_safe {A} P I (l : list A) :
  quiet P -> safe P I (shuffle l) (fun l' => l' ≡ₚ l).
Proof.
  intros HP. split; [call_ok|]. intros order Ho. simpl in *.
  rewrite Ho. by rewrite omap_lookup_seq.
Qed.
Lemma read_average_safe P I t : safe P I (read_average t) (fun _ => True).
Proof. by intros s Hs. Qed.
Lemma split_tested_safe P I ts :
  safe P I (split_tested ts) (fun '(tested, untested) => untested ++ tested ≡ₚ ts).
Proof.
  induction ts as [|t ts IH]; [constructor|]. cbn [split_tested].
  eapply safe_bind; [apply read_average_safe|]. intros a _.
  eapply safe_bind; [exact IH|]. intros [tested untested] Hp.
  destruct a; cbn; rewrite <- Hp; [|done]. by rewrite Permutation_middle.
Qed.
Lemma load_key_safe P I ts i : safe P I (load_key ts i) (fun _ => True).
Proof. unfold load_key. destruct (ts !! i); [by intros s Hs|done]. Qed.
Lemma sort_with_safe P I ts n plan :
  keeps_elements n plan ->
  safe P I (sort_with ts plan)
    (fun r => match r with Ok order => order ≡ₚ seq 0 n | Err _ => False | Panic => True end).
Proof.
  induction plan as [i j next IH|order|]; [intros (_ & _ & Hn)|done|done]. cbn [sort_with].
  eapply safe_bind; [apply load_key_safe|]. intros a _.
  eapply safe_bind; [apply load_key_safe|]. auto.
Qed.
Lemma sort_tested_safe P I ts :
  quiet P ->
  safe P I (sort_tested ts)
    (fun r => match r with Ok us => us ≡ₚ ts | Err _ => False | Panic => True end).
Proof.
  intros HP. split; [call_ok|]. intros plan [Hk _].
  eapply safe_try; [by eapply sort_with_safe| |by intros e []|done].
  intros order Ho. simpl. rewrite Ho. by rewrite omap_lookup_seq.
Qed.

(** A mode keeps every upstream; only a sort by averages can unwind. *)
Definition ordered_ok (m : UpstreamMode) (us : list (TrackedUpstream S))
    (r : res (list (TrackedUpstream S)) DohError) : Prop :=
  match r with Ok us' => us' ≡ₚ us | Err _ => False | Panic => m = LoadBalance end.
Lemma ordered_safe P I (g : UpstreamGroup S) m :
  quiet P -> Doq.cell_free I (round_robin_cursor g) ->
  safe P I (ordered g m) (ordered_ok m (upstreams g)).
Proof.
  intros HP Hc. destruct m; unfold ordered; [by apply Permutation_refl| |].
  - destruct (upstreams g) as [|u us]; [constructor|]. intros s Hs. split; [by apply Hc|].
    cbn -[drop take]. etransitivity; [apply Permutation_app_comm|]. by rewrite take_drop.
  - eapply safe_bind; [apply split_tested_safe|]. intros [tested untested] Hp.
    eapply safe_try; [by apply sort_tested_safe| |by intros e []|done]. intros te Hte.
    eapply safe_bind; [by apply shuffle_safe|]. intros un Hun. simpl.
    rewrite Hun, Hte. done.
Qed.

(** The averages as the store has them. *)
Definition avg (s : S) t : option Z := average (peek (latency t) s).
Lemma exec_split_tested ts s tr tested untested s' :
  exec (split_tested ts) s tr (tested, untested) s' ->
  s' = s /\ tested = filter (fun t => avg s t <> None) ts
  /\ untested = filter (fun t => avg s t = None) ts.
Proof.
  revert tr tested untested s'. induction ts as [|t ts IH]; intros tr tested untested s'.
  - simpl. naive_solver.
  - simpl. rewrite exec_bind. intros ([te un] & s1 & tr1 & tr2 & -> & (-> & -> & ->)%IH & H).
    rewrite !filter_cons. fold (avg s t) in H. destruct (avg s t) eqn:E; simpl in H.
    + rewrite decide_True, decide_False by congruence. naive_solver.
    + rewrite decide_False, decide_True by congruence. naive_solver.
Qed.
(** Alone, a task finds the same keys at every comparison. *)
Definition key_of (s : S) ts (i : nat) : Z := average_key (ts !! i ≫= avg s).
Lemma wp_load_key P ts i Q s : Q (key_of s ts i) s -> wp P (load_key ts i) Q s.
Proof. unfold load_key, key_of. by destruct (ts !! i). Qed.
Lemma wp_sort_with P ts plan s :
  wp P (sort_with ts plan)
    (fun r s' => s' = s /\ forall o, follow (key_of s ts) plan = Some o -> r = Ok o) s.
Proof.
  induction plan as [i j next IH|order|].
  - cbn [sort_with]. apply wp_bind, wp_load_key, wp_bind, wp_load_key, IH.
  - split; [done|]. by intros o [= <-].
  - by split.
Qed.
Lemma wp_sort_tested P ts s :
  quiet P ->
  wp P (sort_tested ts)
    (fun r s' => s' = s /\ r = Ok (sort_by_key (fun t => average_key (avg s t)) ts)) s.
Proof.
  intros HP. split; [call_ok|]. intros plan [_ Hf]. cbn [io_bind]. apply wp_bind.
  eapply wp_mono; [done| |apply wp_sort_with]. intros r s' [-> Hr]. rewrite (Hr _ (Hf _)).
  split; [done|]. f_equal. apply sort_positions. intros i t Ht. unfold key_of. by rewrite Ht.
Qed.
Lemma exec_sort_tested ts s tr r s' :
  exec (sort_tested ts) s tr r s' ->
  s' = s /\ r = Ok (sort_by_key (fun t => average_key (avg s t)) ts).
Proof. intros Hx. exact (wp_exec any_call _ _ _ _ _ _ (wp_sort_tested any_call ts s quiet_any) Hx). Qed.
(** Alone, a query is given its whole group, in every mode. *)
Lemma wp_split_tested P ts s :
  wp P (split_tested ts) (fun '(tested, untested) s' => s' = s /\ untested ++ tested ≡ₚ ts) s.
Proof.
  induction ts as [|t ts IH]; [done|]. cbn [split_tested]. apply wp_bind. simpl. apply wp_bind.
  eapply wp_mono; [done| |exact IH]. simpl. intros [te un] s' [-> Hp].
  destruct (average _); cbn; (split; [done|]); rewrite <- Hp; [|done]. by rewrite Permutation_middle.
Qed.
Lemma wp_ordered P (g : UpstreamGroup S) m s :
  quiet P -> wp P (ordered g m) (fun r _ => exists us, r = Ok us /\ us ≡ₚ upstreams g) s.
Proof.
  intros HP. destruct m; unfold ordered; [by eexists| |].
  - destruct (upstreams g) as [|u us]; [by eexists|]. eexists. split; [done|].
    etransitivity; [apply Permutation_app_comm|]. by rewrite take_drop.
  - apply wp_bind. eapply wp_mono; [done| |apply wp_split_tested]. simpl. intros [te un] s1 [-> Hp].
    apply wp_bind. eapply wp_mono; [done| |by apply wp_sort_tested]. intros r s2 [-> ->].
    split; [call_ok|]. intros order Ho. eexists. split; [done|]. simpl in Ho.
    by rewrite Ho, omap_lookup_seq, sort_by_key_perm.
Qed.
Lemma exec_ordered (g : UpstreamGroup S) m s tr r s' :
  exec (ordered g m) s tr r s' -> exists us, r = Ok us /\ us ≡ₚ upstreams g.
Proof. intros Hx. exact (wp_exec any_call _ _ _ _ _ _ (wp_ordered any_call g m s quiet_any) Hx). Qed.
Lemma exec_shuffle {A} (l l' : list A) (s s' : S) tr :
  exec (shuffle l) s tr l' s' -> s' = s /\ l' ≡ₚ l.
Proof.
  intros (order & tr' & Ho & _ & _ & -> & ->). split; [done|]. simpl in Ho.
  rewrite Ho. by rewrite omap_lookup_seq.
Qed.

(** The first choice of [n] queries in a row. *)
Fixpoint first_choices (n : nat) (g : UpstreamGroup S) (m : UpstreamMode)
  : io S (res (list (option (TrackedUpstream S))) DohError) :=
  match n with
  | O => IoRet (Ok [])
  | Datatypes.S n =>
      try* us := ordered g m in
      try* rest := first_choices n g m in
      IoRet (Ok (head us :: rest))
  end.

Lemma head_rotate {A} (l : list A) k : (k < length l)%nat -> head (drop k l ++ take k l) = l !! k.
Proof.
  intros Hk. rewrite <- (Nat.add_0_r k) at 3. rewrite <- lookup_drop.
  destruct (drop k l) as [|x d] eqn:E; [|done].
  apply (f_equal length) in E. rewrite length_drop in E. simpl in E. lia.
Qed.
Lemma exec_round_robin (g : UpstreamGroup S) s tr us s' :
  upstreams g <> [] -> exec (ordered g RoundRobin) s tr us s' ->
  let c := peek (round_robin_cursor g) s in
  let start := Z.to_nat (c mod Z.of_nat (length (upstreams g))) in
  us = Ok (drop start (upstreams g) ++ take start (upstreams g))
  /\ s' = poke (round_robin_cursor g) ((c + 1) mod 2 ^ 64) s.
Proof.
  intros Hne. unfold ordered. destruct (upstreams g) as [|u l]; [done|].
  by intros (_ & -> & ->).
Qed.
Lemma first_choices_rotate n (g : UpstreamGroup S) s tr hs s' :
  `{CellLaws (round_robin_cursor g)} -> upstreams g <> [] ->
  let c := peek (round_robin_cursor g) s in
  0 <= c -> c + Z.of_nat n <= 2 ^ 64 ->
  exec (first_choices n g RoundRobin) s tr hs s' ->
  hs = Ok $ (fun i => upstreams g !! Z.to_nat ((c + Z.of_nat i) mod Z.of_nat (length (upstreams g))))
       <$> seq 0 n.
Proof.
  intros HC Hne. assert (0 < Z.of_nat (length (upstreams g))) as Hlen.
  { destruct (upstreams g); [done|]. simpl. lia. }
  revert s tr hs s'. induction n as [|n IH]; intros s tr hs s'; cbn zeta; intros Hc Hb.
  { by intros (_ & -> & _). }
  cbn [first_choices]. rewrite exec_try. intros (us & s1 & tr1 & tr2 & _ & [-> ->]%exec_round_robin & H); [|done].
  revert H. rewrite exec_try. intros (rest & s2 & tr3 & tr4 & _ & Hrest & H).
  set (c := peek (round_robin_cursor g) s) in *.
  pose proof (Z.mod_pos_bound c (Z.of_nat (length (upstreams g))) Hlen).
  rewrite head_rotate in H by lia. cbn [seq fmap list_fmap].
  destruct n as [|n]; [destruct Hrest as (_ & -> & _), H as (_ & -> & _); by rewrite Z.add_0_r|].
  assert ((c + 1) mod 2 ^ 64 = c + 1) as Hmod by (apply Z.mod_small; lia).
  rewrite Hmod in Hrest. apply IH in Hrest; rewrite ?peek_poke; [|lia..].
  rewrite Hrest in H. destruct H as (_ & -> & _). f_equal. f_equal; [by rewrite Z.add_0_r|].
  rewrite <- fmap_S_seq, <- list_fmap_compose, peek_poke.
  apply list_fmap_ext. intros i x _. simpl. do 2 f_equal. f_equal. lia.
Qed.
End Ordering.

Lemma lookup_seq_all {A} (l : list A) : (fun i => l !! i) <$> seq 0 (length l) = Some <$> l.
Proof.
  apply list_eq. intros i. rewrite !list_lookup_fmap.
  destruct (decide (i < length l)%nat) as [Hi|Hi].
  - rewrite lookup_seq_lt by done. simpl. destruct (lookup_lt_is_Some_2 l i Hi) as [x Hx]. by rewrite Hx.
  - rewrite lookup_seq_ge, lookup_ge_None_2 by lia. done.
Qed.

(** Adding a constant modulo [n] permutes the indices. *)
Lemma rotate_seq_perm c n :
  (0 < n)%nat -> (fun i => Z.to_nat ((c + Z.of_nat i) mod Z.of_nat n)) <$> seq 0 n ≡ₚ seq 0 n.
Proof.
  intros Hn. symmetry. apply NoDup_Permutation; [apply NoDup_seq| |].
  - apply NoDup_fmap_2_strong; [|apply NoDup_seq]. intros i j Hi%elem_of_seq Hj%elem_of_seq E.
    apply Z2Nat.inj in E; [|apply Z.mod_pos_bound; lia..].
    assert ((Z.of_nat i - Z.of_nat j) mod Z.of_nat n = 0) as Hm.
    { replace (Z.of_nat i - Z.of_nat j) with ((c + Z.of_nat i) - (c + Z.of_nat j)) by lia.
      by rewrite Zminus_mod, E, Z.sub_diag. }
    apply Z.mod_divide in Hm as [q Hq]; [|lia].
    assert (q = 0) by nia. subst q. lia.
  - intros x. rewrite elem_of_seq, list_elem_of_fmap. split.
    + intros Hx. exists (Z.to_nat ((Z.of_nat x - c) mod Z.of_nat n)).
      pose proof (Z.mod_pos_bound (Z.of_nat x - c) (Z.of_nat n) ltac:(lia)).
      rewrite elem_of_seq, Z2Nat.id by lia. split; [|lia].
      rewrite Zplus_mod_idemp_r. replace (c + (Z.of_nat x - c)) with (Z.of_nat x) by lia.
      rewrite Z.mod_small; lia.
    + intros (i & -> & _). pose proof (Z.mod_pos_bound (c + Z.of_nat i) (Z.of_nat n) ltac:(lia)). lia.
Qed.

Section Properties.
Context {S : Type} {HB : Base64} {HW : WebLib}.

(** C8: parsing a rules file never unwinds. It fails exactly when some line
    or address is malformed, with every error of the file, in order and
    tagged with the index of its line. Otherwise each group holds the
    upstreams of its lines in file order, one per mention; a domain has a
    group exactly when a line names it; and equal upstream strings share one
    upstream with one latency tracker, different ones never do. *)
Theorem parse_spec (alloc : nat -> Cells S) cursor_of base_opts lines m :
  let its := items lines in
  let all_errors := its ≫= item_errors alloc base_opts in
  match parse_with_mode alloc cursor_of base_opts lines m with
  | Ok cfg =>
      all_errors = [] /\ mode cfg = m /\
      exists order, NoDup order /\
        groups_ok alloc cursor_of base_opts order its (domain_upstreams cfg) (default_upstreams cfg)
  | Err errs => errs = all_errors /\ errs <> []
  | Panic => False
  end.
Proof. apply parse_with_mode_cases. Qed.

(** C12: a query is handled by the most specific rule: the group of the longest
    registered suffix of the lowercased name that starts at a label, and the
    default upstreams when no suffix is registered; the case of the name does
    not matter. *)
Theorem group_for_spec (cfg : UpstreamConfig S) (fqdn : string) :
  most_specific cfg (to_ascii_lowercase fqdn) (group_for cfg fqdn)
  /\ forall other, to_ascii_lowercase other = to_ascii_lowercase fqdn ->
       group_for cfg other = group_for cfg fqdn.
Proof.
  split.
  - apply group_for_most_specific.
  - intros other Ho. unfold group_for. by rewrite Ho.
Qed.

(** C29: round robin is fair: until the 64-bit cursor wraps, of any [n]
    successive queries to a group of [n] upstreams each upstream is the first
    choice of exactly one, and a query goes on through the group in order
    from its first choice. *)
Theorem round_robin_fair (g : UpstreamGroup S) s tr hs s' :
  CellLaws (round_robin_cursor g) ->
  let c := peek (round_robin_cursor g) s in
  let n := length (upstreams g) in
  0 <= c -> c + Z.of_nat n <= 2 ^ 64 ->
  exec (first_choices n g RoundRobin) s tr hs s' ->
  (exists firsts, hs = Ok firsts /\ firsts ≡ₚ Some <$> upstreams g)
  /\ forall s tr us s', exec (ordered g RoundRobin) s tr us s' ->
       exists k, us = Ok (drop k (upstreams g) ++ take k (upstreams g)).
Proof.
  intros HC c n Hc Hb H. split.
  - destruct (decide (upstreams g = [])) as [Hn|Hn].
    { subst n. rewrite Hn in H |- *. destruct H as (_ & -> & _). by exists []. }
    apply first_choices_rotate in H; [|done..]. rewrite H. fold c n.
    eexists. split; [reflexivity|].
    rewrite <- lookup_seq_all. fold n.
    rewrite <- (rotate_seq_perm c n) at 2 by (subst n; destruct (upstreams g); simpl; lia || done).
    by rewrite <- list_fmap_compose.
  - intros s0 tr0 us s1. destruct (decide (upstreams g = [])) as [Hn|Hn].
    + unfold ordered. rewrite Hn. intros (_ & -> & _). by exists 0%nat.
    + intros [-> _]%exec_round_robin; [|done]. eauto.
Qed.

(** C30: load balancing, when no other task records a latency meanwhile, puts
    the untested upstreams first, in any order, then the tested ones by
    ascending average, equal averages in configured order; it does not
    unwind. *)
Theorem load_balance_order (g : UpstreamGroup S) s tr r s' :
  exec (ordered g LoadBalance) s tr r s' ->
  exists untested tested, r = Ok (untested ++ tested)
  /\ untested ≡ₚ filter (fun t => avg s t = None) (upstreams g)
  /\ tested ≡ₚ filter (fun t => avg s t <> None) (upstreams g)
  /\ sorted_by (fun t => average_key (avg s t)) tested
  /\ (forall d, filter (fun t => average_key (avg s t) = d) tested
           = filter (fun t => average_key (avg s t) = d)
               (filter (fun t => avg s t <> None) (upstreams g)))
  /\ s' = s.
Proof.
  unfold ordered. rewrite exec_bind.
  intros ([te un] & s1 & tr1 & tr2 & _ & (-> & -> & ->)%exec_split_tested & H).
  revert H. rewrite exec_try. intros (r0 & s2 & tr3 & tr4 & _ & [-> ->]%exec_sort_tested & H).
  revert H. rewrite exec_bind. intros (un & s3 & tr5 & tr6 & _ & [-> Hun]%exec_shuffle & _ & -> & ->).
  eexists _, _. split; [reflexivity|]. split; [exact Hun|].
  split_and!; [apply sort_by_key_perm|apply sort_by_key_sorted|intros; apply sort_by_key_stable|done].
Qed.
End Properties.

(** ** Failover *)
Section Failover.
Context {S : Type} `{HL : DnsLib} {HC : DnsCodec} {HB : Base64} {HW : WebLib} {HK : CryptoLib}.

(** Every upstream of a list is tried in order and fails; [last] is the error
    carried along. *)
Inductive all_fail (req : Message)
  : list (TrackedUpstream S) -> option DohError -> S -> list event -> option DohError -> S -> Prop :=
| all_fail_nil last s : all_fail req [] last s [] last s
| all_fail_cons u us last s tr1 e s1 tr2 last' s' :
    exec (tracked_exchange u req) s tr1 (Err e) s1 ->
    all_fail req us (Some e) s1 tr2 last' s' ->
    all_fail req (u :: us) last s (tr1 ++ tr2) last' s'.

Lemma exec_try_upstreams name req us last s tr r s' :
  exec (try_upstreams name req us last) s tr r s' <->
  (exists last', all_fail req us last s tr last' s'
   /\ r = Err (default (Bootstrap ("no upstreams configured for " +:+ debug_str name)) last'))
  \/ (exists before u after tr1 last1 s1 tr2,
      us = before ++ u :: after /\ tr = tr1 ++ tr2 /\ all_fail req before last s tr1 last1 s1
      /\ exec (tracked_exchange u req) s1 tr2 r s' /\ forall e, r <> Err e).
Proof.
  revert last s tr. induction us as [|u us IH]; intros last s tr.
  - split.
    + intros (-> & -> & ->). left. eexists. split; [constructor|done].
    + intros [(last' & H & ->)|(before & u & after & ? & ? & ? & ? & H & _)].
      * by inversion H.
      * by destruct before.
  - cbn [try_upstreams]. rewrite exec_bind. split.
    + intros (r0 & s1 & tr1 & tr2 & -> & Hu & H). destruct r0 as [m|e|].
      * destruct H as (-> & -> & ->). right. exists [], u, us, [], last, s, tr1.
        rewrite app_nil_r. split_and!; try done; constructor.
      * apply IH in H as [(last' & Hf & ->)|(before & v & after & tr3 & last1 & s2 & tr4 & -> & -> & Hf & Hv & Hr)].
        { left. eexists. split; [eapply all_fail_cons; eassumption|done]. }
        right. exists (u :: before), v, after, (tr1 ++ tr3), last1, s2, tr4.
        rewrite <- app_assoc. split_and!; try done. exact (all_fail_cons _ _ _ _ _ _ _ _ _ _ _ Hu Hf).
      * destruct H as (-> & -> & ->). right. exists [], u, us, [], last, s, tr1.
        rewrite app_nil_r. split_and!; try done; constructor.
    + intros [(last' & Hf & ->)|(before & v & after & tr3 & last1 & s2 & tr4 & E & -> & Hf & Hv & Hr)].
      * inversion Hf; subst. eexists (Err e), _, _, _. split; [done|]. split; [done|].
        apply IH. left. eauto.
      * destruct before as [|u' before].
        { injection E as <- <-. inversion Hf; subst. exists r, s', tr4, []. rewrite app_nil_r.
          split; [done|]. split; [done|]. destruct r; [done|by destruct (Hr e)|done]. }
        injection E as <- ->. inversion Hf; subst. eexists (Err e), _, _, _.
        rewrite <- app_assoc. split; [done|]. split; [done|]. apply IH. right.
        exists before, v, after, tr2, last1, s2, tr4. by split_and!.
Qed.

Lemma try_upstreams_safe P (I : S -> Prop) name req us last :
  quiet P ->
  Forall (fun t => upstream_sends P (upstream t) req /\ upstream_runs P I (upstream t)
               /\ Doq.cell_free I (latency t)) us ->
  safe P I (try_upstreams name req us last) (exchange_ok req).
Proof.
  intros HP Hus. revert last. induction Hus as [|u us (Hs & Hr & Hl) Hus IH]; intros last; [done|].
  cbn [try_upstreams]. eapply safe_bind; [by apply tracked_exchange_safe|].
  intros [m|e|] Hok; [exact Hok|apply IH|exact Hok].
Qed.

(** Everything a store invariant must allow for the groups of a configuration. *)
Definition group_runs P (I : S -> Prop) (req : Message) (g : UpstreamGroup S) : Prop :=
  Doq.cell_free I (round_robin_cursor g)
  /\ Forall (fun t => upstream_sends P (upstream t) req /\ upstream_runs P I (upstream t)
                  /\ Doq.cell_free I (latency t)) (upstreams g).
Definition config_runs P (I : S -> Prop) (req : Message) (cfg : UpstreamConfig S) : Prop :=
  group_runs P I req (default_upstreams cfg)
  /\ forall d g, domain_upstreams cfg !! d = Some g -> group_runs P I req g.

Lemma group_for_cases (cfg : UpstreamConfig S) fqdn :
  group_for cfg fqdn = default_upstreams cfg
  \/ exists d, domain_upstreams cfg !! d = Some (group_for cfg fqdn).
Proof.
  unfold group_for. case_bool_decide; [by left|].
  destruct (group_loop_spec cfg (Datatypes.S (String.length (to_ascii_lowercase fqdn)))
              (to_ascii_lowercase fqdn)) as [(d & ? & _)|[_ ?]]; [lia|right; eauto|by left].
Qed.

(** What a routed query comes to: it unwinds when the query has no question,
    or when the sort of load balancing, whose keys change under it, does. *)
Definition config_ok (m : UpstreamMode) (req : Message) (r : res Message DohError) : Prop :=
  match r with
  | Ok resp => answers_question req resp
  | Err _ => True
  | Panic => queries req = [] \/ m = LoadBalance
  end.
Lemma config_exchange_safe P (I : S -> Prop) cfg req :
  quiet P -> config_runs P I req cfg -> safe P I (exchange cfg req) (config_ok (mode cfg) req).
Proof.
  intros HP [Hd Hm]. unfold exchange, upstreams_for.
  assert (group_runs P I req (group_for cfg (request_name req))) as [Hc Hus].
  { destruct (group_for_cases cfg (request_name req)) as [->|[d Hg]]; [done|by apply (Hm d)]. }
  eapply safe_try; [by apply ordered_safe| |by intros e []|by right]. intros us Hp. simpl in Hp.
  eapply safe_mono; [|apply try_upstreams_safe; [done|by rewrite Hp]].
  intros [resp|e|] Hr; [done|done|by left].
Qed.

(** C13: a query runs its group in the chosen order until the first upstream
    that answers, whose answer is returned, and the later ones are never
    contacted; when all fail the last error is returned, and an empty group
    is an error of its own. *)
Theorem failover_spec (cfg : UpstreamConfig S) req s tr r s' :
  exec (exchange cfg req) s tr r s' <->
  exists us s0 tr0 tr1,
    exec (ordered (group_for cfg (request_name req)) (mode cfg)) s tr0 (Ok us) s0 /\ tr = tr0 ++ tr1 /\
    ((exists last, all_fail req us None s0 tr1 last s' /\
       r = Err (default (Bootstrap ("no upstreams configured for " +:+ debug_str (request_name req))) last))
     \/ (exists before u after tr2 last s1 tr3,
           us = before ++ u :: after /\ tr1 = tr2 ++ tr3 /\ all_fail req before None s0 tr2 last s1
           /\ exec (tracked_exchange u req) s1 tr3 r s' /\ forall e, r <> Err e)).
Proof.
  unfold exchange, upstreams_for. rewrite exec_try. split.
  - intros (o & s0 & tr0 & tr1 & -> & Ho & Ht). destruct (exec_ordered _ _ _ _ _ _ Ho) as (us & -> & _).
    apply exec_try_upstreams in Ht. exists us, s0, tr0, tr1. auto.
  - intros (us & s0 & tr0 & tr1 & Ho & -> & Ht). exists (Ok us), s0, tr0, tr1.
    split; [done|]. split; [done|]. by apply exec_try_upstreams.
Qed.

(** C4: the routed query, with every rule, mode and failover, in any
    interleaving with other queries, whose latencies change the sort keys
    between two comparisons of the load balancing, returns an error or a
    message with exactly one question, of the name and type of the first
    question it was asked (the class is not compared). It can unwind only when
    it was asked no question, or in the load-balancing mode, whose sort may
    when the averages change while it compares them. *)
Theorem config_exchange_integrity (I : S -> Prop) (cfg : UpstreamConfig S) req :
  config_runs any_call I req cfg ->
  safe any_call I (into_handler cfg req)
    (fun r => match r with
              | Ok resp => answers_question req resp
              | Err _ => True
              | Panic => queries req = [] \/ mode cfg = LoadBalance
              end).
Proof. intros Hr. apply config_exchange_safe; [apply quiet_any|done]. Qed.
End Failover.

Section Witnesses.
#[local] Existing Instances Toy.lib Toy.codec Toy.laws ToyBase64.base64 ToyWeb.web ToyCrypto.lib.

(** Three plain upstreams, with averages of 40 ms, 20 ms and none, over a
    store that is the cursor of their group. *)
Definition w_udp (port : Z) (l : LatencyTracker) : TrackedUpstream Z :=
  {| upstream := UPlainUdp (PlainUdp.new (socket_addr_new (V4 (Ipv4 x7f x00 x00 x01)) port) None);
     latency := Cell (fun _ => l) (fun _ s => s) |}.
Definition w_slow : TrackedUpstream Z := w_udp 53 (record latency_new 40000000).
Definition w_fast : TrackedUpstream Z := w_udp 54 (record latency_new 20000000).
Definition w_new : TrackedUpstream Z := w_udp 55 latency_new.
Definition w_group : UpstreamGroup Z :=
  {| upstreams := [w_slow; w_new; w_fast]; round_robin_cursor := whole |}.
Definition w_config : UpstreamConfig Z :=
  {| domain_upstreams := ∅; default_upstreams := w_group; mode := RoundRobin |}.
Definition w_req : @Message Toy.lib := Toy.query 7 "example.com." 1.

(** From cursor 4 the three queries start at the second, third and first. *)
Lemma round_robin_fair_witness :
  [Some w_new; Some w_fast; Some w_slow] ≡ₚ Some <$> upstreams w_group.
Proof.
  destruct (round_robin_fair w_group 4 [] (Ok [Some w_new; Some w_fast; Some w_slow]) 7 whole_laws)
    as [(firsts & E & Hp) _];
    [vm_compute; discriminate|vm_compute; discriminate|vm_compute; auto|].
  injection E as ->. exact Hp.
Defined.

(** The sort compares the two tested upstreams once. *)
Definition w_plan : sorting := sort_plan (seq 0 2) Sorted.
Lemma load_balance_order_witness :
  exists untested tested, Ok [w_new; w_fast; w_slow] = Ok (E := DohError) (untested ++ tested)
  /\ untested ≡ₚ [w_new] /\ sorted_by (fun t => average_key (avg 0 t)) tested.
Proof.
  destruct (load_balance_order w_group 0 [Event (SortPlan 2) w_plan; Event (ShuffleOrder 1) [0%nat]]
              (Ok [w_new; w_fast; w_slow]) 0) as (un & te & E & Hu & _ & Hs & _).
  - exists w_plan, [Event (ShuffleOrder 1) [0%nat]]. split; [apply sort_plan_ok|]. split; [reflexivity|].
    exists [0%nat], []. split; [exact (Permutation_refl _)|]. vm_compute. auto.
  - exists un, te. split; [exact E|]. split; [exact Hu|exact Hs].
Defined.

Lemma config_exchange_integrity_witness :
  safe any_call (fun _ => True) (into_handler w_config w_req)
    (fun r => match r with
              | Ok resp => answers_question w_req resp
              | Err _ => True
              | Panic => queries w_req = [] \/ mode w_config = LoadBalance
              end).
Proof.
  apply (config_exchange_integrity (fun _ => True) w_config w_req).
  split; [|intros d g Hd; exact (match lookup_empty_Some (M := gmap string) d g Hd with end)].
  split; [done|]. by repeat constructor.
Defined.
End Witnesses.
