(* ===== verification/WellFormed.v ===== *)
(** * The types of the parsers' results

    A [u16] of the program is an integer of the model and an [Ipv6Addr] a list
    of them. That the parsers of [RustStr] and [RustNet] keep to the ranges of
    the types, and what holds of every upstream and every configuration that
    [UpstreamUrl] and [UpstreamConfig] build. *)
From S2P Require Import PlainUdp PlainTcp Dot Doq Doh3 Doh DnsCrypt.
From S2P Require Import Prelude RustStr RustNet Io Dns Errors WebLib Wire Bootstrap Framing.
From S2P Require Import CryptoLib Crypto Stamp Latency Upstream UpstreamUrl UpstreamConfig.

(** ** The types *)
Definition u16_ok (z : Z) : Prop := 0 <= z <= u16_max.
Definition ipv6_ok (a : Ipv6Addr) : Prop := length (segments a) = 8%nat /\ Forall u16_ok (segments a).
Definition ip_ok (a : IpAddr) : Prop := match a with V4 _ => True | V6 a => ipv6_ok a end.
Definition sock_ok (a : SocketAddr) : Prop :=
  match a with
  | SockV4 _ port => u16_ok port
  | SockV6 a port flowinfo scope_id => ipv6_ok a /\ u16_ok port /\ flowinfo = 0 /\ 0 <= scope_id <= u32_max
  end.

Lemma socket_addr_new_ok ip port : ip_ok ip -> u16_ok port -> sock_ok (socket_addr_new ip port).
Proof. destruct ip; simpl; [done|]. unfold u32_max. intros. split_and!; by try lia. Qed.

(** ** The integer parsers *)
Lemma to_digit_range radix c d : to_digit radix c = Some d -> 0 <= d < radix.
Proof.
  unfold to_digit. intros H. repeat case_match; simplify_eq; lia.
Qed.
Lemma parse_digits_range maxv s acc z : 0 <= acc <= maxv -> parse_digits maxv s acc = Ok z -> 0 <= z <= maxv.
Proof.
  revert acc. induction s as [|c s IH]; intros acc Ha H; simpl in H; [by injection H as <-|].
  destruct (to_digit 10 c) as [d|] eqn:Ed; [|done]. apply to_digit_range in Ed.
  destruct (Z.ltb_spec maxv (acc * 10 + d)); [done|]. eapply IH; [|exact H]. lia.
Qed.
Lemma parse_u16_ok s z : parse_u16 s = Ok z -> u16_ok z.
Proof.
  unfold parse_u16, parse_uint. intros H.
  assert (exists s', parse_digits u16_max s' 0 = Ok z) as [s' Hs] by (repeat case_match; eauto; done).
  eapply parse_digits_range; [|exact Hs]. unfold u16_max. lia.
Qed.
Lemma read_digits_range radix maxv maxd s acc cnt z n r :
  0 < radix -> 0 <= acc <= maxv -> read_digits radix maxv maxd s acc cnt = Some (z, n, r) -> 0 <= z <= maxv.
Proof.
  intros Hr. revert acc cnt. induction s as [|c s IH]; intros acc cnt Ha H; simpl in H; [by injection H as <- <- <-|].
  destruct (to_digit radix c) as [d|] eqn:Ed; [|by injection H as <- <- <-]. apply to_digit_range in Ed.
  destruct (Z.ltb_spec maxv (acc * radix + d)); [done|]. destruct (match maxd with Some _ => _ | None => _ end); [done|].
  eapply IH; [|exact H]. nia.
Qed.
Lemma read_number_range radix maxv maxd zero s z r :
  0 < radix -> 0 <= maxv -> read_number radix maxv maxd zero s = Some (z, r) -> 0 <= z <= maxv.
Proof.
  intros Hr Hm H. unfold read_number in H. destruct (read_digits _ _ _ _ _ _) as [[[v n] r']|] eqn:E; [|done].
  apply read_digits_range in E; [|done|lia]. repeat case_match; simplify_eq; lia.
Qed.

(** ** The address parsers *)
Lemma read_separator_inner {A} c i (inner : string -> option (A * string)) s a r :
  read_separator c i inner s = Some (a, r) -> exists s', inner s' = Some (a, r).
Proof. destruct i; simpl; [by eauto|]. destruct (read_given_char c s); [by eauto|done]. Qed.
Lemma read_groups_ok limit n acc s l v4 r :
  (length acc + n = limit)%nat -> Forall u16_ok acc -> read_groups n limit acc s = (l, v4, r) ->
  Forall u16_ok l /\ (length l <= limit)%nat.
Proof.
  revert acc s. induction n as [|n IH]; intros acc s Hn Hacc H; simpl in H.
  { injection H as <- <- <-. split; [done|lia]. }
  destruct (if (length acc <? limit - 1)%nat then _ else None) as [[ip s']|] eqn:E.
  - injection H as <- <- <-. destruct (Nat.ltb_spec (length acc) (limit - 1)); [|done].
    rewrite length_app. split; [|simpl; lia]. apply Forall_app. split; [done|].
    assert (forall a b, u16_ok (from_be [a; b])) as Hbe.
    { intros a b. unfold u16_ok, from_be, u16_max. simpl. pose proof (u8_range a). pose proof (u8_range b). lia. }
    by repeat constructor; apply Hbe.
  - destruct (read_separator ":"%char (length acc) (read_number 16 65535 (Some 4%nat) true) s) as [[g s']|] eqn:Eg.
    + apply read_separator_inner in Eg as [s1 Eg]. apply read_number_range in Eg; [|lia..].
      eapply IH; [|  |exact H]; [rewrite length_app; simpl; lia|]. apply Forall_app. split; [done|].
      by apply Forall_singleton.
    + injection H as <- <- <-. split; [done|lia].
Qed.
Lemma read_ipv6_ok s a r : read_ipv6_addr s = Some (a, r) -> ipv6_ok a.
Proof.
  unfold read_ipv6_addr. destruct (read_groups 8 8 [] s) as [[head v4] s1] eqn:Eh. intros H.
  apply read_groups_ok in Eh as [Hh Hl]; [|done|constructor].
  destruct (Nat.eqb_spec (length head) 8) as [H8|H8]; [by injection H as <- <-|]. destruct v4; [done|].
  destruct (read_given_char _ s1) as [s2|]; [|done]. destruct (read_given_char _ s2) as [s3|]; [|done].
  destruct (read_groups _ _ [] s3) as [[tail v4'] s4] eqn:Et. injection H as <- <-.
  apply read_groups_ok in Et as [Ht Htl]; [|done|constructor].
  split; simpl segments; [rewrite !length_app, length_replicate; lia|].
  apply Forall_app. split; [done|]. apply Forall_app. split; [|done].
  apply Forall_replicate. unfold u16_ok, u16_max. lia.
Qed.
Lemma parse_ip_ok s ip : parse_ip_addr s = Some ip -> ip_ok ip.
Proof.
  unfold parse_ip_addr, parse_with, read_ip_addr. intros H.
  destruct (read_ipv4_addr s) as [[a r]|]; [destruct (is_empty r); [by injection H as <-|done]|].
  destruct (read_ipv6_addr s) as [[a r]|] eqn:E; [|done]. apply read_ipv6_ok in E.
  destruct (is_empty r); [by injection H as <-|done].
Qed.
Lemma read_port_ok s z r : read_port s = Some (z, r) -> u16_ok z.
Proof.
  unfold read_port. destruct (read_given_char _ s) as [s'|]; [|done]. intros H%read_number_range; done.
Qed.
Lemma parse_socket_ok s a : parse_socket_addr s = Some a -> sock_ok a.
Proof.
  unfold parse_socket_addr, parse_with. intros H.
  destruct (read_socket_addr_v4 s) as [[x r]|] eqn:E.
  - unfold read_socket_addr_v4 in E. destruct (read_ipv4_addr s) as [[ip s1]|]; [|done].
    destruct (read_port s1) as [[port s2]|] eqn:Ep; [|done]. apply read_port_ok in Ep. injection E as <- <-.
    destruct (is_empty s2); [by injection H as <-|done].
  - destruct (read_socket_addr_v6 s) as [[x r]|] eqn:E6; [|done]. unfold read_socket_addr_v6 in E6.
    destruct (read_given_char _ s) as [s1|]; [|done]. destruct (read_ipv6_addr s1) as [[ip s2]|] eqn:Ei; [|done].
    apply read_ipv6_ok in Ei. destruct (default (0, s2) (read_scope_id s2)) as [scope s3] eqn:Es.
    destruct (read_given_char _ s3) as [s4|]; [|done]. destruct (read_port s4) as [[port s5]|] eqn:Ep; [|done].
    apply read_port_ok in Ep. injection E6 as <- <-. destruct (is_empty s5); [|done]. injection H as <-.
    do 3 (split; [done|]). unfold read_scope_id in Es. destruct (read_given_char "%" s2) as [s6|];
      [|simpl in Es; simplify_eq; unfold u32_max; lia].
    destruct (read_number 10 u32_max None true s6) as [[z r]|] eqn:En;
      simpl in Es; simplify_eq; [by apply read_number_range in En|unfold u32_max; lia].
Qed.
Lemma split_host_port_ok s h p : split_host_port s = Ok (h, p) -> forall z, p = Some z -> u16_ok z.
Proof.
  unfold split_host_port. intros H z ->. destruct (strip_prefix "[" s) as [r|].
  - inv_ok H. destruct a as [host after]. destruct (strip_prefix ":" after) as [q|].
    + destruct (parse_u16 q) eqn:Eq; simpl in H; simplify_eq. by eapply parse_u16_ok.
    + by destruct (is_empty after).
  - destruct (rsplit_once_char ":" s) as [[host port]|]; [|done]. destruct (negb _); [|done].
    inv_ok H. simplify_eq. by eapply parse_u16_ok.
Qed.
Lemma parse_stamp_addr_ok s a : parse_stamp_addr s = Some a -> sock_ok a.
Proof.
  unfold parse_stamp_addr. intros H.
  assert (u16_ok DEFAULT_PORT_DNSCRYPT) as Hd by by vm_compute.
  destruct (parse_socket_addr s) eqn:Es; [simplify_eq; by eapply parse_socket_ok|].
  destruct (parse_ip_addr s) eqn:Ei; [simplify_eq; apply socket_addr_new_ok; [by eapply parse_ip_ok|done]|].
  destruct (strip_prefix "[" s) as [inner|]; [|done]. destruct (split_once_char "]" inner) as [[host rest]|]; [|done].
  destruct (parse_ip_addr host) as [ip|] eqn:Eh; [|done]. apply parse_ip_ok in Eh.
  destruct (strip_prefix ":" rest) as [ps|].
  - destruct (parse_u16 ps) eqn:Ep; simpl in H; simplify_eq. apply parse_u16_ok in Ep. by apply socket_addr_new_ok.
  - destruct (is_empty rest); simplify_eq. by apply socket_addr_new_ok.
Qed.

(** ** Upstreams and configurations *)
Section WellFormed.
Context {S : Type} {HB : Base64} {HW : WebLib}.
Context (alloc : nat -> Cells S) (cursor_of : option string -> cell S Z) (o : Options (Resolver S)).
(** The [http] crate gives ports as [u16]. *)
Context (Huri : forall s u p, Uri_parse s = inr u -> uri_port u = Some p -> u16_ok p).

(** An upstream built with the options [o]. *)
Definition upstream_ok (u : Upstream S) : Prop :=
  match u with
  | UPlainUdp u => sock_ok (PlainUdp.addr u) /\ PlainUdp.timeout u = opt_timeout o
  | UPlainTcp u =>
      u16_ok (PlainTcp.port u) /\ PlainTcp.timeout u = opt_timeout o
      /\ PlainTcp.resolver u = default SystemResolver (bootstrap o)
  | UDot u =>
      u16_ok (Dot.port u) /\ Dot.timeout u = opt_timeout o
      /\ Dot.resolver u = default SystemResolver (bootstrap o)
      /\ Dot.insecure_skip_verify u = insecure_skip_verify o
  | UDoq u =>
      u16_ok (Doq.port u) /\ Doq.timeout u = opt_timeout o
      /\ Doq.resolver u = default SystemResolver (bootstrap o)
      /\ Doq.insecure_skip_verify u = insecure_skip_verify o
  | UDnsCrypt u =>
      sock_ok (addr (DnsCrypt.stamp u)) /\ length (provider_public_key (DnsCrypt.stamp u)) = 32%nat
      /\ DnsCrypt.timeout u = opt_timeout o
  | UDoh u =>
      u16_ok (Doh.port u) /\ Doh.timeout u = opt_timeout o
      /\ Doh.resolver u = default SystemResolver (bootstrap o)
      /\ Doh.insecure_skip_verify u = insecure_skip_verify o /\ Doh.http_versions u <> []
  end.
(** The key of a rule: a lowercase name, absolute, other than the root. *)
Definition domain_ok (d : string) : Prop :=
  to_ascii_lowercase d = d /\ exists name, name <> "" /\ d = name +:+ ".".
Definition wf_group (g : UpstreamGroup S) : Prop := Forall (fun t => upstream_ok (upstream t)) (upstreams g).
Definition wf_domains (m : gmap string (UpstreamGroup S)) : Prop :=
  forall d g, m !! d = Some g -> domain_ok d /\ upstreams g <> [] /\ wf_group g.
Definition wf_config (cfg : UpstreamConfig S) : Prop :=
  wf_group (default_upstreams cfg) /\ wf_domains (domain_upstreams cfg).
Record wf_state (st : ParseState (S := S)) : Prop := {
  wf_index u t : upstream_index st !! u = Some t -> upstream_ok (upstream t);
  wf_default : wf_group (default_group st);
  wf_groups : wf_domains (domain_groups st);
}.

Lemma default_port_ok d (p : option Z) : u16_ok d -> (forall z, p = Some z -> u16_ok z) -> u16_ok (default d p).
Proof. destruct p; simpl; auto. Qed.
Lemma parse_dnscrypt_stamp_ok s st :
  parse_dnscrypt_stamp s = Ok st -> sock_ok (addr st) /\ length (provider_public_key st) = 32%nat.
Proof.
  unfold parse_dnscrypt_stamp. intros H. inv_ok H. destruct (negb _); [done|]. inv_ok H.
  repeat match type of H with (match ?x with (_, _) => _ end) = _ => destruct x; inv_ok H end.
  destruct (length _ =? 32)%nat eqn:E32; cbn [negb] in H; [|done]. inv_ok H. injection H as <-.
  split; [by eapply parse_stamp_addr_ok|by apply Nat.eqb_eq].
Qed.
Lemma parse_upstream_ok s c u : parse_upstream s o c = Ok u -> upstream_ok (UDoh u).
Proof using Huri.
  unfold parse_upstream. intros H. inv_ok H. destruct a as [scheme rest]. inv_ok H.
  destruct a0 as [auth stripped]. inv_ok H. injection H as <-.
  split_and!; [|done..|apply resolved_http_versions_nonempty].
  apply default_port_ok; [by vm_compute|]. intros z. by eapply Huri.
Qed.
Lemma parse_any_upstream_ok s c u : parse_any_upstream s o c = Ok u -> upstream_ok u.
Proof using Huri.
  unfold parse_any_upstream. destruct (default _ _) as [scheme rest]. intros H.
  destruct (String.eqb scheme "udp").
  { inv_ok H. injection H as <-. split; [|done]. simpl.
    destruct (parse_socket_addr rest) eqn:Es; simplify_eq; [by eapply parse_socket_ok|].
    destruct (parse_ip_addr rest) eqn:Ei; simplify_eq. apply socket_addr_new_ok; [by eapply parse_ip_ok|by vm_compute]. }
  destruct (String.eqb scheme "tcp"); [|destruct (String.eqb scheme "tls"); [|destruct (String.eqb scheme "quic")]].
  1-3: inv_ok H; destruct a as [h p]; injection H as <-; split_and!; try done;
    (apply default_port_ok; [by vm_compute|by eapply split_host_port_ok]).
  destruct (String.eqb scheme "sdns"); inv_ok H; injection H as <-; [|by eapply parse_upstream_ok].
  unfold DnsCrypt.new in E. inv_ok E. injection E as <-. simpl. apply parse_dnscrypt_stamp_ok in E0. by destruct E0.
Qed.

(** *** Rules *)
Lemma rule_domains_ok hosts ds : rule_domains hosts = Ok ds -> Forall domain_ok ds.
Proof.
  revert ds. induction hosts as [|h hosts IH]; intros ds H; simpl in H; [by injection H as <-|].
  destruct (is_empty h) eqn:Eh; [done|]. inv_ok H. injection H as <-. constructor; [|by apply IH].
  split; [rewrite to_ascii_lowercase_app, to_ascii_lowercase_idem; done|].
  exists (to_ascii_lowercase h). split; [by destruct h|done].
Qed.
Lemma split_config_line_ok l us ds : split_config_line l = Ok (us, ds) -> Forall domain_ok ds.
Proof.
  unfold split_config_line. destruct (strip_prefix "[/" l) as [rest|]; intros H; [|by injection H as <- <-].
  inv_ok H. destruct a as [d u]. destruct (is_empty u); [done|]. inv_ok H. injection H as <- <-.
  by eapply rule_domains_ok.
Qed.
Lemma wf_push g t : upstream_ok (upstream t) -> wf_group g -> wf_group (push g t).
Proof. intros Ht Hg. apply Forall_app. split; [done|]. by apply Forall_singleton. Qed.
Lemma push_domain_wf t m d :
  upstream_ok (upstream t) -> domain_ok d -> wf_domains m -> wf_domains (push_domain cursor_of t m d).
Proof.
  intros Ht Hd Hm d' g. unfold push_domain. destruct (decide (d = d')) as [<-|Hne].
  - rewrite lookup_insert_eq. intros [= <-]. split; [done|].
    split; [by intros [_ ?]%app_eq_nil|]. apply wf_push; [done|].
    destruct (m !! d) as [g|] eqn:E; [by apply (Hm d)|constructor].
  - rewrite lookup_insert_ne by done. apply Hm.
Qed.
Lemma parse_str_wf idx ds st s st' :
  Forall domain_ok ds -> wf_state st -> parse_str alloc cursor_of o idx ds st s = Ok st' -> wf_state st'.
Proof using Huri.
  intros Hds [Hi Hd Hg] H. unfold parse_str, intern in H.
  assert (forall t st1, upstream_ok (upstream t) -> wf_state st1 -> wf_state (add_upstream cursor_of ds t st1)) as Hadd.
  { intros t st1 Ht [Hi1 Hd1 Hg1]. destruct Hds as [|d ds Hd0 Hds]; [by split; [|apply wf_push|]|].
    split; [done|done|]. simpl. apply (push_domain_wf t _ d) in Hg1; [|done..].
    revert Hg1. generalize (push_domain cursor_of t (domain_groups st1) d). clear Hd0 H.
    induction Hds as [|d' ds Hd' _ IH]; intros m Hm; [done|]. simpl. by apply IH, push_domain_wf. }
  destruct (upstream_index st !! s) as [t|] eqn:E.
  { injection H as <-. apply Hadd; [by eapply Hi|done]. }
  destruct (parse_any_upstream s o (alloc (size (upstream_index st)))) as [u|e|] eqn:Eu; simpl in H; [|by injection H as <-|done].
  injection H as <-. apply parse_any_upstream_ok in Eu. apply Hadd; [done|]. split; [|done..].
  intros s' t. simpl. destruct (decide (s = s')) as [<-|Hne]; [rewrite lookup_insert_eq|rewrite lookup_insert_ne by done].
  - by intros [= <-].
  - apply Hi.
Qed.
Lemma fold_res_keeps {A B E} (f : A -> B -> res A E) (J : A -> Prop) l a a' :
  (forall a b a', J a -> f a b = Ok a' -> J a') -> J a -> fold_res f a l = Ok a' -> J a'.
Proof.
  intros Hf. revert a. induction l as [|b l IH]; intros a Ha H; simpl in H; [by injection H as <-|].
  destruct (f a b) eqn:Ef; [|done..]. eapply IH; [|exact H]. by eapply Hf.
Qed.
Lemma parse_line_wf st il st' : wf_state st -> parse_line alloc cursor_of o st il = Ok st' -> wf_state st'.
Proof using Huri.
  destruct il as [idx line]. unfold parse_line. intros Hst. destruct (_ || _); [by intros [= <-]|].
  destruct (split_config_line (trim line)) as [[us ds]|e|] eqn:E; [|by destruct Hst; intros [= <-]|done].
  apply split_config_line_ok in E. apply fold_res_keeps; [|done]. intros. by eapply parse_str_wf.
Qed.
Lemma parse_start_wf : wf_state (parse_start cursor_of).
Proof. split; [done|constructor|done]. Qed.

(** C14: everything the rules parser builds is well-formed, line by line: from
    the empty state, a line leads from well-formed states to such; and in a
    configuration, every upstream has a port in the range of [u16] (and a
    literal address of eight 16-bit segments), the timeout, resolver and
    certificate checking of the options, a 32-byte provider key, at least one
    HTTP version; every rule's key is a lowercase name with its final dot and
    has an upstream; so that the group chosen for a query is empty only if it
    is the default group and no upstream was given for it. *)
Theorem parsed_well_formed :
  wf_state (parse_start cursor_of)
  /\ (forall st il st', wf_state st -> parse_line alloc cursor_of o st il = Ok st' -> wf_state st')
  /\ forall lines m cfg, parse_with_mode alloc cursor_of o lines m = Ok cfg ->
       wf_config cfg /\ mode cfg = m
       /\ forall name, wf_group (group_for cfg name)
          /\ (upstreams (group_for cfg name) = [] -> group_for cfg name = default_upstreams cfg).
Proof using Huri.
  split; [apply parse_start_wf|]. split; [apply parse_line_wf|]. intros lines m cfg H.
  unfold parse_with_mode in H. inv_ok H.
  apply (fold_res_keeps _ wf_state) in E; [|apply parse_line_wf|apply parse_start_wf]. destruct E as [_ Hd Hg].
  destruct (errors a); [|done]. injection H as <-. split; [done|]. split; [done|]. intros name.
  destruct (group_for_cases {| domain_upstreams := domain_groups a; default_upstreams := default_group a; mode := m |} name)
    as [-> | [d Hin]]; [done|]. apply Hg in Hin as (_ & Hne & Hwf). by split.
Qed.
End WellFormed.

Section Witnesses.
#[local] Existing Instances ToyBase64.base64 ToyWeb.web.
Lemma toy_uri_ports s u p : Uri_parse s = inr u -> uri_port u = Some p -> u16_ok p.
Proof.
  change (ToyWeb.parse s = inr u -> ToyWeb.t_port u = Some p -> u16_ok p). unfold ToyWeb.parse.
  destruct (match split_once_char "?" _ with Some _ => _ | None => _ end) as [before query].
  destruct (match split_once_char "/" before with Some _ => _ | None => _ end) as [authority path].
  destruct (is_empty authority); [done|]. destruct (rsplit_once_char ":" authority) as [[h q]|].
  - destruct (parse_u16 q) eqn:E; [|done..]. intros [= <-] [= <-]. by eapply parse_u16_ok.
  - by intros [= <-].
Qed.
(** A rule with two upstreams, and no default. *)
Definition w_none_cursor : cell unit Z := Cell (fun _ => 0) (fun _ s => s).
Definition w_rule : string := "[/Example.COM/]tls://dns.example:8853 9.9.9.9".
Lemma parsed_well_formed_witness :
  exists cfg g, parse_with_mode (fun _ => w_cells) (fun _ => w_none_cursor) w_opts [w_rule] Ordered = Ok cfg
  /\ domain_upstreams cfg !! "example.com." = Some g /\ length (upstreams g) = 2%nat
  /\ wf_group w_opts g /\ domain_ok "example.com.".
Proof.
  destruct (parse_with_mode (fun _ => w_cells) (fun _ => w_none_cursor) w_opts [w_rule] Ordered) as [cfg| |] eqn:E;
    [|discriminate E..].
  destruct (proj2 (proj2 (parsed_well_formed (fun _ => w_cells) (fun _ => w_none_cursor) w_opts toy_uri_ports)) _ _ _ E)
    as ((_ & Hm) & _ & _).
  vm_compute in E. injection E as <-. eexists _, _. split; [reflexivity|]. split; [reflexivity|]. split; [reflexivity|].
  destruct (Hm "example.com." _ eq_refl) as (Hd & _ & Hg). split; [exact Hg|exact Hd].
Defined.
End Witnesses.
