(* ===== verification/ListenerIo.v ===== *)
(** * Plain listeners

    [src/listener/io.rs]: the sockets of the UDP and TCP listeners and what
    they do with a packet or a connection. The accept loops spawn one task per
    packet or connection: [udp_turn] and [tcp_turn] are one turn of them, and
    [udp_task] the tasks that may arrive. The query loop of a connection runs
    for [n] queries; [None] means that the connection is still open. *)
From S2P Require Import Prelude RustStr RustNet Io Dns Errors WebLib Wire Bootstrap Framing.
Implicit Type P : forall X, eff X -> Prop.

Definition UDP_MAX_MSG_SIZE : nat := 512.
Definition Handler (S : Type) `{DnsLib} : Type := Message -> io S (res Message DohError).

(** ** Sockets *)
Section Sockets.
Context {S : Type}.

(** [Socket::new] for the family of [addr]; [stream] is [Type::STREAM]. *)
Definition new_socket (addr : SocketAddr) (stream : bool) : io S (res handle io_err) :=
  let v6 := negb (sock_is_ipv4 addr) in
  try* socket := call (SocketNew v6 stream) in
  try* _ := if v6 then call (SetOnlyV6 socket true) else IoRet (Ok tt) in
  try* _ := call (SetReuseAddress socket true) in
  try* _ := call (SocketBind socket addr) in
  try* _ := call (SetNonblocking socket true) in
  IoRet (Ok socket).
(** [from_std] registers the socket with the runtime, which may fail. *)
Definition bind_udp (addr : SocketAddr) : io S (res handle io_err) :=
  try* socket := new_socket addr false in
  try* _ := call (FromStd socket) in
  IoRet (Ok socket).
Definition bind_tcp (addr : SocketAddr) : io S (res handle io_err) :=
  try* socket := new_socket addr true in
  try* _ := call (Listen socket 1024) in
  try* _ := call (FromStd socket) in
  IoRet (Ok socket).

(** The two bound listeners; their loops run from then on. *)
Definition serve (addr : SocketAddr) : io S (res (handle * handle) DohError) :=
  try* udp := io_map_err IoError (bind_udp addr) in
  try* tcp := io_map_err IoError (bind_tcp addr) in
  IoRet (Ok (udp, tcp)).
Fixpoint serve_all (addrs : list SocketAddr) : io S (res (list (handle * handle)) DohError) :=
  match addrs with
  | [] => IoRet (Ok [])
  | addr :: addrs =>
      try* h := serve addr in
      try* hs := serve_all addrs in
      IoRet (Ok (h :: hs))
  end.

(** One turn of [udp_loop]: the packet to handle, if one was received. *)
Definition udp_turn (socket : handle) : io S (option (bytes * SocketAddr)) :=
  let* r := call (RecvFrom socket (Z.to_nat 65535)) in
  IoRet (match r with Ok m => Some m | _ => None end).
Definition tcp_turn (listener : handle) : io S (option handle) :=
  let* r := call (Accept listener) in
  IoRet (match r with Ok (stream, _) => Some stream | _ => None end).
End Sockets.

(** ** Framing *)
Definition read_prefixed {S} (stream : handle) : io S (res bytes DohError) := read_framed IoError stream.
Definition write_prefixed {S} (stream : handle) (body : bytes) : io S (res unit DohError) :=
  if u16_max <? Z.of_nat (length body) then
    IoRet (Err (Pack "response too large for 2-byte length prefix"))
  else write_framed IoError stream body.

Section Handlers.
Context {S : Type} `{HL : DnsLib} {HC : DnsCodec}.
Implicit Type handler : Handler S.

Definition handle_udp_packet (socket : handle) (packet : bytes) (peer : SocketAddr) handler
  : io S (res unit DohError) :=
  try* req := IoRet (from_sum (invalid "unpacking udp packet: ") (from_bytes packet)) in
  try* resp := handler req in
  try* bytes := IoRet (from_sum Pack (to_bytes resp)) in
  try* bytes :=
    if (UDP_MAX_MSG_SIZE <? length bytes)%nat
    then IoRet (from_sum Pack (to_bytes (truncate resp)))
    else IoRet (Ok bytes) in
  try* _ := io_map_err IoError (call (UdpSendTo socket bytes peer)) in
  IoRet (Ok tt).

(** The query loop of a TCP connection, and of a TLS one: [label] is the
    prefix of the error for a message that does not parse. *)
Definition answer_packet (label : string) (stream : handle) handler (packet : bytes)
  : io S (res unit DohError) :=
  try* req := IoRet (from_sum (invalid label) (from_bytes packet)) in
  try* resp := handler req in
  try* bytes := IoRet (from_sum Pack (to_bytes resp)) in
  write_prefixed stream bytes.
Fixpoint answer_loop (n : nat) (label : string) (stream : handle) handler
  : io S (option (res unit DohError)) :=
  match n with
  | O => IoRet None
  | Datatypes.S n =>
      let* packet := read_prefixed stream in
      match packet with
      | Ok packet =>
          let* r := answer_packet label stream handler packet in
          match r with
          | Ok _ => answer_loop n label stream handler
          | r => IoRet (Some r)
          end
      | Err _ => IoRet (Some (Ok tt))
      | Panic => IoRet (Some Panic)
      end
  end.
Definition handle_tcp_connection (n : nat) (stream : handle) handler
  : io S (option (res unit DohError)) :=
  answer_loop n "unpacking tcp message: " stream handler.

(** The tasks [udp_loop] spawns. *)
Definition udp_task (socket : handle) handler (p : io S (res unit DohError)) : Prop :=
  exists packet peer, p = handle_udp_packet socket packet peer handler.
End Handlers.

(** ** What goes over one connection

    The bytes written to and read from a stream in a trace. *)
Definition written_ev (h : handle) (ev : event) : bytes :=
  match ev with
  | Event e x =>
      match e in eff X return X -> bytes with
      | WriteAll h' b => fun r => if decide (h' = h) then match r with Ok _ => b | _ => [] end else []
      | _ => fun _ => []
      end x
  end.
Definition consumed_ev (h : handle) (ev : event) : bytes :=
  match ev with
  | Event e x =>
      match e in eff X return X -> bytes with
      | ReadExact h' _ => fun r => if decide (h' = h) then match r with Ok b => b | _ => [] end else []
      | _ => fun _ => []
      end x
  end.
Definition written (h : handle) (tr : list event) : bytes := tr ≫= written_ev h.
Definition consumed (h : handle) (tr : list event) : bytes := tr ≫= consumed_ev h.
Lemma written_app h tr1 tr2 : written h (tr1 ++ tr2) = written h tr1 ++ written h tr2.
Proof. apply bind_app. Qed.
Lemma consumed_app h tr1 tr2 : consumed h (tr1 ++ tr2) = consumed h tr1 ++ consumed h tr2.
Proof. apply bind_app. Qed.

(** The two reads of a frame. *)
Lemma from_be_2 l : length l = 2%nat -> 0 <= from_be l <= u16_max /\ to_be 2 (from_be l) = l.
Proof.
  intros Hl. pose proof (from_be_range l) as Hr. rewrite Hl in Hr. change (256 ^ Z.of_nat 2) with 65536 in Hr.
  split; [unfold u16_max; lia|]. rewrite <- Hl. apply to_be_from_be.
Qed.
Lemma consumed_frame h l b tr :
  length l = 2%nat -> length b = Z.to_nat (from_be l) ->
  consumed h (Event (ReadExact h 2) (Ok l) :: Event (ReadExact h (Z.to_nat (from_be l))) (Ok b) :: tr)
  = frame b ++ consumed h tr.
Proof.
  intros [Hr Hl]%from_be_2 Hb. unfold frame. rewrite Hb, Z2Nat.id, Hl by lia.
  cbn. rewrite !decide_True by done. by rewrite app_assoc.
Qed.

Section Wire.
Context {S : Type}.

(** Reading a frame consumes exactly its bytes. *)
Lemma exec_read_prefixed h (s : S) tr r s' :
  exec (read_prefixed h) s tr r s' ->
  s' = s /\ written h tr = [] /\
  match r with
  | Ok b => consumed h tr = frame b /\ Z.of_nat (length b) <= u16_max
  | Err _ => True
  | Panic => False
  end.
Proof.
  unfold read_prefixed, read_framed. rewrite exec_try_call. intros (x & tr1 & Hx & -> & H).
  destruct x as [l|e|]; [|by destruct H as (-> & -> & ->)|done].
  destruct H as (y & tr2 & Hy & -> & -> & -> & ->). simpl in Hx, Hy.
  destruct y as [b|e|]; [|done..]. split; [done|]. split; [done|].
  pose proof (consumed_frame h l b [] Hx Hy) as Hc. rewrite app_nil_r in Hc.
  split; [exact Hc|]. apply from_be_2 in Hx as [? _]. simpl in Hy. lia.
Qed.

Lemma frame_inj (b b' l l' : bytes) :
  Z.of_nat (length b) <= u16_max -> Z.of_nat (length b') <= u16_max ->
  frame b ++ l = frame b' ++ l' -> b = b'.
Proof.
  unfold frame, u16_max. intros Hb Hb' E. rewrite <- !app_assoc in E.
  apply app_inj_1 in E as [El E]; [|by rewrite !length_to_be].
  apply (f_equal from_be) in El. rewrite !from_be_to_be in El.
  change (256 ^ Z.of_nat 2) with 65536 in El. rewrite !Z.mod_small in El by lia.
  apply app_inj_1 in E as [-> _]; [done|lia].
Qed.

Lemma exec_write_framed {E} (f : io_err -> E) h b (s : S) tr r s' :
  Z.of_nat (length b) <= u16_max -> exec (write_framed f h b) s tr r s' ->
  s' = s /\ (forall h', consumed h' tr = []) /\ r <> Panic /\ (r = Ok tt -> written h tr = frame b).
Proof.
  intros Hb. unfold write_framed. rewrite exec_try.
  intros (r0 & s1 & tr1 & tr2 & -> & H1 & H2). simpl in H1.
  destruct H1 as (x & tr' & Hx & -> & -> & -> & ->).
  destruct x as [[]|e|]; simpl in *; [|by destruct H2 as (-> & -> & ->)|done].
  destruct H2 as (y & tr'' & Hy & -> & -> & -> & ->). split; [done|]. split; [done|].
  destruct y as [[]|e|]; simpl in *; [|done|done]. split; [done|]. intros _. rewrite !decide_True by done.
  unfold frame, as_u16. rewrite Z.mod_small by (unfold u16_max in *; lia).
  by rewrite app_nil_r.
Qed.

Lemma exec_write_prefixed h b (s : S) tr r s' :
  exec (write_prefixed h b) s tr r s' ->
  s' = s /\ consumed h tr = [] /\
  match r with
  | Ok _ => written h tr = frame b /\ Z.of_nat (length b) <= u16_max
  | Err _ => True
  | Panic => False
  end.
Proof.
  unfold write_prefixed. destruct (Z.ltb_spec u16_max (Z.of_nat (length b))).
  { by intros (-> & -> & ->). }
  intros (-> & Hc & Hp & Hw)%exec_write_framed; [|done]. split; [done|]. split; [done|].
  destruct r as [[]| |]; [auto|done..].
Qed.

(** A deadline that is met adds nothing to what goes over a connection. *)
Lemma exec_with_deadline {A} dl (p : io S A) s tr a s' :
  exec (with_deadline dl p) s tr (Some a) s' ->
  exists tr0, exec p s tr0 a s'
  /\ (forall h, written h tr = written h tr0 /\ consumed h tr = consumed h tr0)
  /\ forall ev, ev ∈ tr0 -> ev ∈ tr.
Proof.
  revert s tr. induction p as [b|X e j IH|X f j IH]; intros s tr; simpl.
  - intros (-> & [= ->] & ->). by exists [].
  - intros (x & tr1 & Hx & -> & t & tr2 & _ & -> & H).
    destruct (dl <? t); [by destruct H as (_ & ? & _)|].
    apply IH in H as (tr0 & H & Hsame & Hin). exists (Event e x :: tr0).
    split; [by exists x, tr0|]. split.
    + intros h. destruct (Hsame h) as [Hw Hc]. unfold written, consumed in *. cbn. by rewrite <- Hw, <- Hc.
    + intros ev. rewrite !elem_of_cons. intros [->|?%Hin]; auto.
  - intros H. by apply IH in H.
Qed.
Lemma exec_maybe_timeout {A E} t (e : Z -> E) (p : io S (res A E)) s tr a s' :
  exec (maybe_timeout t e p) s tr (Ok a) s' ->
  exists tr0, exec p s tr0 (Ok a) s'
  /\ (forall h, written h tr = written h tr0 /\ consumed h tr = consumed h tr0)
  /\ forall ev, ev ∈ tr0 -> ev ∈ tr.
Proof.
  destruct t as [d|]; [|intros H; by exists tr]. unfold maybe_timeout. rewrite exec_bind.
  intros (r & s1 & tr1 & tr2 & -> & H & -> & Hr & ->). rewrite app_nil_r.
  unfold timeout in H. simpl in H. destruct H as (t0 & tr3 & _ & -> & H).
  destruct r as [r|]; [|done]. subst r. apply exec_with_deadline in H as (tr0 & H & Hsame & Hin).
  exists tr0. split; [done|]. split; [apply Hsame|]. intros ev ?%Hin. by right.
Qed.
End Wire.

(** ** Sessions *)
Section Session.
Context {S : Type} `{HL : DnsLib} {HC : DnsCodec}.
Context (handler : Handler S) (R : Message -> res Message DohError -> Prop) (stream : handle).
(** The handler answers within [R] and leaves the connection alone. *)
Definition handler_within : Prop :=
  forall req s tr r s', exec (handler req) s tr r s' ->
    R req r /\ written stream tr = [] /\ consumed stream tr = [].

(** [b] is the packed answer to the query in [packet]. *)
Definition answer_of (packet b : bytes) : Prop :=
  exists req resp, from_bytes packet = inr req /\ R req (Ok resp) /\ to_bytes resp = inr b
  /\ Z.of_nat (length b) <= u16_max.

Lemma exec_answer_packet label packet s tr r s' :
  handler_within -> exec (answer_packet label stream handler packet) s tr r s' ->
  consumed stream tr = [] /\
  match r with
  | Ok _ => exists b, answer_of packet b /\ written stream tr = frame b
  | Err _ => True
  | Panic => exists req, from_bytes packet = inr req /\ R req Panic
  end.
Proof.
  intros Hh. unfold answer_packet. rewrite exec_try.
  intros (r0 & s0 & tr0 & tr1 & -> & (-> & -> & ->) & H).
  destruct (from_bytes packet) as [e|req] eqn:Hp; simpl in H; [by destruct H as (-> & -> & _)|].
  revert H. rewrite exec_try. intros (r1 & s1 & tr2 & tr3 & -> & (HR & Hw & Hc)%Hh & H).
  cbn [app]. rewrite consumed_app, Hc, written_app, Hw. cbn [app].
  destruct r1 as [resp|e|]; [|by destruct H as (-> & -> & _)|destruct H as (-> & -> & _); eauto].
  revert H. rewrite exec_try. intros (r2 & s2 & tr4 & tr5 & -> & (-> & -> & ->) & H).
  cbn [app]. destruct (to_bytes resp) as [e|b] eqn:Hb; simpl in H; [by destruct H as (-> & -> & _)|].
  apply exec_write_prefixed in H as (_ & Hc' & H). split; [done|].
  destruct r as [[]|e|]; [|done|done]. destruct H as [? ?]. exists b. split; [|done].
  by exists req, resp.
Qed.

Lemma answer_loop_in_order n label s tr out s' :
  handler_within -> exec (answer_loop n label stream handler) s tr out s' ->
  exists packets answers rest tail,
    Forall2 answer_of packets answers
    /\ consumed stream tr = (packets ≫= frame) ++ rest
    /\ written stream tr = (answers ≫= frame) ++ tail
    /\ match out with
       | None => length answers = n /\ tail = [] /\ rest = []
       | Some (Ok _) => tail = []
       | Some (Err _) => True
       | Some Panic => exists req, R req Panic
       end.
Proof.
  intros Hh. revert s tr. induction n as [|n IH]; intros s tr.
  { intros (-> & -> & _). by exists [], [], [], []. }
  cbn [answer_loop]. rewrite exec_bind.
  intros (r & s1 & tr1 & tr2 & -> & (-> & Hw1 & Hr)%exec_read_prefixed & H).
  rewrite written_app, Hw1, consumed_app. cbn [app].
  destruct r as [packet|e|]; [| |done].
  2: { destruct H as (-> & -> & _). exists [], [], (consumed stream tr1), [].
       rewrite app_nil_r. by split_and!. }
  destruct Hr as [Hc1 _]. rewrite Hc1. revert H. rewrite exec_bind.
  intros (r & s2 & tr3 & tr4 & -> & (Hc2 & Hr)%exec_answer_packet & H); [|done].
  rewrite written_app, consumed_app, Hc2. cbn [app]. destruct r as [[]|e|].
  - destruct Hr as (b & Hb & Hw). apply IH in H as (ps & bs & rest & tail & Hall & -> & -> & Hout).
    exists (packet :: ps), (b :: bs), rest, tail. rewrite Hw. cbn.
    rewrite <- !app_assoc. split_and!; [by constructor|done|done|].
    destruct out as [[| |]|]; [done..|]. destruct Hout as (<- & ? & ?). done.
  - destruct H as (-> & -> & _). exists [], [], (frame packet), (written stream tr3).
    rewrite !app_nil_r. by split_and!.
  - destruct H as (-> & -> & _). exists [], [], (frame packet), (written stream tr3).
    rewrite !app_nil_r. split_and!; [constructor|done|done|]. naive_solver.
Qed.
End Session.

Section Properties.
Context {S : Type} `{HL : DnsLib} {HC : DnsCodec}.

(** Framing round trip: whatever one side writes with [write_prefixed],
    the other side reads back with [read_prefixed] from the same bytes, and
    the two consume and produce the same stream; a message too long for the
    prefix is refused and nothing is written. *)
Theorem prefixed_roundtrip h h' (b b' : bytes) (s1 s1' s2 s2' : S) tr1 tr2 :
  exec (write_prefixed h b) s1 tr1 (Ok tt) s1' ->
  exec (read_prefixed h') s2 tr2 (Ok b') s2' ->
  (exists l l', written h tr1 ++ l = consumed h' tr2 ++ l') ->
  b' = b /\ consumed h' tr2 = written h tr1
  /\ forall long : bytes, u16_max < Z.of_nat (length long) ->
       forall (s : S) tr r s', exec (write_prefixed h long) s tr r s' -> tr = [] /\ r <> Ok tt.
Proof.
  intros (_ & _ & Hw & Hlb)%exec_write_prefixed (_ & _ & Hc & Hlb')%exec_read_prefixed (l & l' & E).
  rewrite Hw, Hc in E. apply frame_inj in E as ->; [|done..]. split; [done|]. split; [congruence|].
  intros long Hlong s tr r s'. unfold write_prefixed.
  destruct (Z.ltb_spec u16_max (Z.of_nat (length long))); [|unfold u16_max in *; lia].
  by intros (-> & -> & _).
Qed.

(** C26: a TCP connection is served strictly in order: the i-th message written
    is the framed answer to the i-th message read, every one complete and
    within the length prefix, whatever comes between; only an error can leave
    a partial message, and after [n] turns an open connection has answered
    exactly [n] queries. *)
Theorem tcp_in_order (handler : Handler S) R stream n s tr out s' :
  handler_within handler R stream ->
  exec (handle_tcp_connection n stream handler) s tr out s' ->
  exists packets answers rest tail,
    Forall2 (answer_of R) packets answers
    /\ consumed stream tr = (packets ≫= frame) ++ rest
    /\ written stream tr = (answers ≫= frame) ++ tail
    /\ match out with
       | None => length answers = n /\ tail = [] /\ rest = []
       | Some (Ok _) => tail = []
       | Some (Err _) => True
       | Some Panic => exists req, R req Panic
       end.
Proof. intros Hh. by apply answer_loop_in_order. Qed.

(** [b] is the datagram for the response [resp]. *)
Definition datagram (resp : Message) (b : bytes) : Prop :=
  exists full, to_bytes resp = inr full /\
  if (UDP_MAX_MSG_SIZE <? length full)%nat then to_bytes (truncate resp) = inr b else b = full.
(** The outcome of a UDP packet. *)
Definition udp_done (R : Message -> res Message DohError -> Prop) (packet : bytes)
    (r : res unit DohError) : Prop :=
  match r with
  | Ok _ => exists req resp, from_bytes packet = inr req /\ R req (Ok resp)
  | Err _ => True
  | Panic => exists req, from_bytes packet = inr req /\ R req Panic
  end.
Lemma udp_packet_safe P (I : S -> Prop) (handler : Handler S) R socket packet peer :
  (forall req, safe P I (handler req) (R req)) ->
  (forall req resp b, from_bytes packet = inr req -> R req (Ok resp) -> datagram resp b ->
     P _ (UdpSendTo socket b peer)) ->
  safe P I (handle_udp_packet socket packet peer handler)
    (udp_done R packet).
Proof.
  intros Hh HP. unfold handle_udp_packet.
  apply safe_try_pure; [apply from_sum_not_Panic| |done]. intros req Hreq%from_sum_Ok.
  eapply safe_try; [apply Hh| |done|simpl; eauto]. intros resp HR.
  apply safe_try_pure; [apply from_sum_not_Panic| |done]. intros b Hb%from_sum_Ok.
  assert (forall b', datagram resp b' ->
    safe P I (io_try (io_map_err IoError (call (UdpSendTo socket b' peer))) (fun _ => IoRet (Ok tt)))
      (udp_done R packet)) as Hsend.
  { intros b' Hd. eapply safe_try_call; [by eapply HP|intros ? Hok; exact Hok| |done].
    intros _ _. by exists req, resp. }
  destruct (UDP_MAX_MSG_SIZE <? length b)%nat eqn:Hlen.
  - apply safe_try_pure; [apply from_sum_not_Panic| |done]. intros b' Hb'%from_sum_Ok.
    apply Hsend. exists b. by rewrite Hlen.
  - apply safe_try_pure; [done| |done]. intros b' [= <-]. apply Hsend. exists b. by rewrite Hlen.
Qed.

Definition udp_policy (R : Message -> res Message DohError -> Prop) (socket : handle)
    (packet : bytes) (peer : SocketAddr) : forall X, eff X -> Prop := fun X e =>
  match e with
  | UdpSendTo h b a =>
      h = socket /\ a = peer /\
      exists req resp, from_bytes packet = inr req /\ R req (Ok resp) /\ datagram resp b
  | _ => True
  end.

(** A UDP packet is answered, if at all, with one datagram to its sender:
    the handler's answer to the query in it, or the truncated answer when the
    full one exceeds 512 bytes; a packet that is not a message, or a handler
    error, sends nothing. *)
Theorem udp_packet_spec (I : S -> Prop) (handler : Handler S) R socket packet peer :
  (forall req, safe (udp_policy R socket packet peer) I (handler req) (R req)) ->
  safe (udp_policy R socket packet peer) I (handle_udp_packet socket packet peer handler)
    (udp_done R packet).
Proof.
  intros Hh. apply udp_packet_safe; [done|]. intros req resp b Hreq HR Hd.
  split; [done|]. split; [done|]. by exists req, resp.
Qed.

(** The UDP server: all tasks of the receive loop over the shared store. *)
Lemma udp_server_safe P (I : S -> Prop) (handler : Handler S) R socket c c' :
  (forall req, safe P I (handler req) (R req)) ->
  (forall h b a, P _ (UdpSendTo h b a)) -> (forall req, ~ R req Panic) ->
  rtc (pool_step (udp_task socket handler)) c c' -> I c.1 -> c.2 = [] ->
  I c'.1 /\ forall r, IoRet r ∈ c'.2 -> r <> Panic.
Proof.
  intros Hh Hsend Hp Hsteps Hi Hnil.
  assert (I c'.1 /\ Forall (fun p => safe P I p (fun r => r <> Panic)) c'.2) as [? Hall].
  { eapply (pool_safe P); [| exact Hsteps | done | by rewrite Hnil].
    intros p (packet & peer & ->). eapply safe_mono; [|by apply udp_packet_safe].
    intros [[]|e|]; simpl; [done..|]. by intros (req & _ & ?%Hp). }
  split; [done|]. intros r Hr.
  exact (proj1 (list.Forall_forall _ _) Hall _ Hr).
Qed.
End Properties.

Section Witnesses.
#[local] Existing Instances Toy.lib Toy.codec Toy.laws.
Definition w_body : bytes := [x01; x02; x03].
Lemma prefixed_roundtrip_witness : w_body = w_body /\ frame w_body = [x00; x03; x01; x02; x03].
Proof.
  split; [|vm_compute; reflexivity].
  apply (prefixed_roundtrip 1%nat 2%nat w_body w_body tt tt tt tt
    [Event (WriteAll 1%nat [x00; x03]) (Ok tt); Event (WriteAll 1%nat w_body) (Ok tt)]
    [Event (ReadExact 2%nat 2) (Ok [x00; x03]); Event (ReadExact 2%nat 3) (Ok w_body)]).
  - exists (Ok tt), [Event (WriteAll 1%nat w_body) (Ok tt)].
    split; [exact Logic.I|]. split; [reflexivity|].
    exists (Ok tt), []. split; [exact Logic.I|]. split; [reflexivity|]. by split_and!.
  - exists (Ok [x00; x03]), [Event (ReadExact 2%nat 3) (Ok w_body)].
    split; [reflexivity|]. split; [reflexivity|].
    exists (Ok w_body), []. split; [reflexivity|]. split; [reflexivity|]. by split_and!.
  - by exists [], [].
Defined.

(** A handler that answers every query with one record. *)
Definition w_handler : Handler unit := fun req => IoRet (Ok (Toy.reply req 60)).
Definition w_R (req : Message) (r : res Message DohError) : Prop := r = Ok (Toy.reply req 60).
Definition w_query : @Message Toy.lib := Toy.query 7 "example.com." 1.
Definition w_packet : bytes := Toy.encode w_query.
Definition w_answer : bytes := Toy.encode (Toy.reply w_query 60).
Definition w_len (b : bytes) : bytes := to_be 2 (Z.of_nat (length b)).
Lemma w_handler_within stream : handler_within w_handler w_R stream.
Proof. by intros req s tr r s' (-> & -> & _). Qed.

Lemma tcp_in_order_witness :
  exists packets answers, Forall2 (answer_of w_R) packets answers /\ length answers = 1%nat.
Proof.
  destruct (tcp_in_order w_handler w_R 5%nat 1%nat tt
    [Event (ReadExact 5%nat 2) (Ok (w_len w_packet));
     Event (ReadExact 5%nat (length w_packet)) (Ok w_packet);
     Event (WriteAll 5%nat (w_len w_answer)) (Ok tt);
     Event (WriteAll 5%nat w_answer) (Ok tt)] None tt (w_handler_within _))
    as (ps & bs & _ & _ & Hall & _ & _ & Hn & _).
  - exists (Ok (w_len w_packet)), [Event (ReadExact 5%nat (length w_packet)) (Ok w_packet);
     Event (WriteAll 5%nat (w_len w_answer)) (Ok tt);
     Event (WriteAll 5%nat w_answer) (Ok tt)]. split; [reflexivity|]. split; [reflexivity|].
    exists (Ok w_packet), [Event (WriteAll 5%nat (w_len w_answer)) (Ok tt);
     Event (WriteAll 5%nat w_answer) (Ok tt)]. split; [vm_compute; reflexivity|]. split; [vm_compute; reflexivity|].
    exists (Ok tt), [Event (WriteAll 5%nat w_answer) (Ok tt)].
    split; [exact Logic.I|]. split; [vm_compute; reflexivity|].
    exists (Ok tt), []. split; [exact Logic.I|]. split; [vm_compute; reflexivity|]. by split_and!.
  - by exists ps, bs.
Defined.

Lemma udp_packet_spec_witness :
  safe (udp_policy w_R 3%nat w_packet (SockV4 (Ipv4 x7f x00 x00 x01) 5353)) (fun _ => True)
    (handle_udp_packet 3%nat w_packet (SockV4 (Ipv4 x7f x00 x00 x01) 5353) w_handler)
    (udp_done w_R w_packet).
Proof. apply (udp_packet_spec (fun _ => True) w_handler). by intros req. Defined.
End Witnesses.
