(* ===== verification/ListenerDnsCrypt.v ===== *)
(** * The DNSCrypt listener

    [src/listener/dnscrypt.rs]: encrypted queries over UDP and TCP, and the
    provider's certificate as a plain TXT answer. As in the plain listeners, a
    connection runs for [n] queries. *)
From S2P Require Import DnsCrypt.
From S2P Require Import Prelude RustStr RustNet Io Dns Errors WebLib Wire Bootstrap Framing.
From S2P Require Import CryptoLib Crypto ListenerIo.
Implicit Type P : forall X, eff X -> Prop.

Section Listener.
Context {S : Type} `{HL : DnsLib} {HC : DnsCodec} {HK : CryptoLib}.
Implicit Type handler : Handler S.

Record DnsCryptServerConfig := {
  resolver_secret_key : SecretKey;
  provider_name : string;
  srv_client_magic : bytes;
  cert_bytes : bytes;
}.
Definition config_new (resolver_secret_key : SecretKey) (provider_signing_key : SigningKey)
    (provider_name : string) (client_magic : bytes) (serial ts_start ts_end : Z)
  : DnsCryptServerConfig :=
  {| resolver_secret_key := resolver_secret_key;
     provider_name := provider_name;
     srv_client_magic := client_magic;
     cert_bytes := sign_certificate provider_signing_key (public_key_of resolver_secret_key)
                     client_magic serial ts_start ts_end |}.

Inductive Response :=
| Plain (resp : Message)
| Encrypted (client_public_key client_nonce resp_bytes : bytes).

(** The answer to a plain TXT query for the provider's name; [None] for
    anything else. *)
Definition try_answer_provider_txt (packet : bytes) (config : DnsCryptServerConfig)
  : res (option Message) DohError :=
  match from_bytes packet with
  | inl _ => Ok None
  | inr req =>
      if negb (bool_decide (message_type (metadata req) = Query_)) then Ok None
      else
        match queries req with
        | [] => Ok None
        | query :: _ =>
            if negb (bool_decide (query_type query = RT_TXT)) then Ok None
            else
              match Name_from_ascii (provider_name config) with
              | inl _ => Ok None
              | inr name =>
                  if negb (eq_ignore_root (query_name query) name) then Ok None
                  else
                    let resp := Message_new (msg_id req) Response_ OpCode_Query in
                    let resp := add_query resp query in
                    let resp := add_answer resp
                      (Record_from_rdata (query_name query) 60
                         (txt_from_bytes [cert_bytes config])) in
                    Ok (Some resp)
              end
        end
  end.

Definition respond (packet : bytes) (config : DnsCryptServerConfig) handler
  : io S (res Response DohError) :=
  try* plain := IoRet (try_answer_provider_txt packet config) in
  match plain with
  | Some resp => IoRet (Ok (Plain resp))
  | None =>
      try* (req_bytes, client_public_key, client_nonce) :=
        IoRet (decrypt_query (resolver_secret_key config) (srv_client_magic config) packet) in
      try* req := IoRet (from_sum (invalid "unpacking dnscrypt query: ") (from_bytes req_bytes)) in
      try* resp := handler req in
      try* resp_bytes := IoRet (from_sum Pack (to_bytes resp)) in
      IoRet (Ok (Encrypted client_public_key client_nonce resp_bytes))
  end.

Definition send (socket : handle) (b : bytes) (peer : SocketAddr) : io S (res unit DohError) :=
  io_map_err IoError (call (UdpSendTo socket b peer)).
Definition handle_udp_packet (socket : handle) (packet : bytes) (peer : SocketAddr)
    (config : DnsCryptServerConfig) handler : io S (res unit DohError) :=
  try* response := respond packet config handler in
  match response with
  | Plain resp =>
      try* bytes := IoRet (from_sum Pack (to_bytes resp)) in
      try* bytes :=
        if (UDP_MAX_MSG_SIZE <? length bytes)%nat
        then IoRet (from_sum Pack (to_bytes (truncate resp)))
        else IoRet (Ok bytes) in
      send socket bytes peer
  | Encrypted client_public_key client_nonce resp_bytes =>
      try* framed := encrypt_server_response (resolver_secret_key config) client_public_key
                       client_nonce resp_bytes in
      try* framed :=
        if (UDP_MAX_MSG_SIZE <? length framed)%nat then
          try* resp := IoRet (from_sum (invalid "re-parsing response: ") (from_bytes resp_bytes)) in
          try* truncated_bytes := IoRet (from_sum Pack (to_bytes (truncate resp))) in
          encrypt_server_response (resolver_secret_key config) client_public_key
            client_nonce truncated_bytes
        else IoRet (Ok framed) in
      send socket framed peer
  end.

(** The body of the connection loop, and the loop. *)
Definition answer_encrypted (stream : handle) (config : DnsCryptServerConfig) handler
    (packet : bytes) : io S (res unit DohError) :=
  try* response := respond packet config handler in
  try* bytes :=
    match response with
    | Plain resp => IoRet (from_sum Pack (to_bytes resp))
    | Encrypted client_public_key client_nonce resp_bytes =>
        encrypt_server_response (resolver_secret_key config) client_public_key client_nonce
          resp_bytes
    end in
  write_prefixed stream bytes.
Fixpoint handle_tcp_connection (n : nat) (stream : handle) (config : DnsCryptServerConfig) handler
  : io S (option (res unit DohError)) :=
  match n with
  | O => IoRet None
  | Datatypes.S n =>
      let* packet := read_prefixed stream in
      match packet with
      | Ok packet =>
          let* r := answer_encrypted stream config handler packet in
          match r with
          | Ok _ => handle_tcp_connection n stream config handler
          | r => IoRet (Some r)
          end
      | Err _ => IoRet (Some (Ok tt))
      | Panic => IoRet (Some Panic)
      end
  end.

(** The sockets [serve_udp] and [serve_tcp] bind, one address each; the tasks
    they spawn are in [Server.v], the spawning itself in [Startup.v]. *)
Definition serve_udp (addr : SocketAddr) : io S (res handle DohError) :=
  try* socket := io_map_err IoError (bind_udp addr) in
  try* bound_addr := io_map_err IoError (call (LocalAddr socket)) in
  IoRet (Ok socket).
Definition serve_tcp (addr : SocketAddr) : io S (res handle DohError) :=
  try* listener := io_map_err IoError (bind_tcp addr) in
  try* bound_addr := io_map_err IoError (call (LocalAddr listener)) in
  IoRet (Ok listener).
Fixpoint bind_each (bind : SocketAddr -> io S (res handle DohError)) (addrs : list SocketAddr)
  : io S (res (list handle) DohError) :=
  match addrs with
  | [] => IoRet (Ok [])
  | addr :: addrs =>
      try* h := bind addr in
      try* hs := bind_each bind addrs in
      IoRet (Ok (h :: hs))
  end.
Definition serve_all (udp_addrs tcp_addrs : list SocketAddr)
  : io S (res (list handle * list handle) DohError) :=
  try* udp := bind_each serve_udp udp_addrs in
  try* tcp := bind_each serve_tcp tcp_addrs in
  IoRet (Ok (udp, tcp)).

(** ** What leaves the listener *)

(** The answer built from the certificate. *)
Definition provider_answer (config : DnsCryptServerConfig) (packet : bytes) (resp : Message) : Prop :=
  exists req q rest name,
    from_bytes packet = inr req /\ message_type (metadata req) = Query_ /\ queries req = q :: rest
    /\ query_type q = RT_TXT /\ Name_from_ascii (provider_name config) = inr name
    /\ eq_ignore_root (query_name q) name = true
    /\ resp = add_answer (add_query (Message_new (msg_id req) Response_ OpCode_Query) q)
                (Record_from_rdata (query_name q) 60 (txt_from_bytes [cert_bytes config])).
Ltac none_answers := intros ? (? & ? & ? & ? & ? & ? & ? & ? & ? & ? & ?); congruence.
Lemma try_answer_provider_txt_spec packet config :
  match try_answer_provider_txt packet config with
  | Ok (Some resp) => provider_answer config packet resp
  | Ok None => forall resp, ~ provider_answer config packet resp
  | _ => False
  end.
Proof.
  unfold try_answer_provider_txt, provider_answer.
  destruct (from_bytes packet) as [e|req]; [none_answers|].
  case_bool_decide as Ht; cbn [negb]; [|none_answers].
  destruct (queries req) as [|q rest] eqn:Hq; [none_answers|].
  case_bool_decide as Hty; cbn [negb]; [|none_answers].
  destruct (Name_from_ascii (provider_name config)) as [e|name]; [none_answers|].
  destruct (eq_ignore_root (query_name q) name) eqn:He; cbn [negb]; [|none_answers].
  by exists req, q, rest, name.
Qed.

(** A boxed reply to the client key and nonce of [packet]. *)
Definition boxed (config : DnsCryptServerConfig) (pk nonce m b : bytes) : Prop :=
  exists rnonce ct,
    length rnonce = 12%nat
    /\ box_encrypt (resolver_secret_key config) pk (nonce ++ rnonce) (pad m) = inr ct
    /\ b = RESOLVER_MAGIC ++ nonce ++ rnonce ++ ct.
(** What may go out for [packet]: the certificate answer, whole or truncated,
    or the handler's answer, whole or truncated, in a box for the sender. *)
Definition reply_to (R : Message -> res Message DohError -> Prop) (config : DnsCryptServerConfig)
    (packet b : bytes) : Prop :=
  (exists resp, provider_answer config packet resp
     /\ (to_bytes resp = inr b \/ to_bytes (truncate resp) = inr b))
  \/ (exists m pk nonce req resp full,
        decrypt_query (resolver_secret_key config) (srv_client_magic config) packet = Ok (m, pk, nonce)
        /\ from_bytes m = inr req /\ R req (Ok resp) /\ to_bytes resp = inr full
        /\ (boxed config pk nonce full b
            \/ exists resp' short, from_bytes full = inr resp' /\ to_bytes (truncate resp') = inr short
               /\ boxed config pk nonce short b)).

Lemma encrypt_server_response_safe P (I : S -> Prop) config pk nonce m :
  P _ (FillBytes 12) ->
  safe P I (encrypt_server_response (resolver_secret_key config) pk nonce m)
    (fun r => match r with Ok b => boxed config pk nonce m b | Err _ => True | Panic => False end).
Proof.
  intros HP. simpl. split; [done|]. intros rnonce Hr.
  destruct (box_encrypt _ _ _ _) as [e|ct] eqn:E; simpl; [done|]. by exists rnonce, ct.
Qed.

(** The outcome of [respond]. *)
Definition responds (R : Message -> res Message DohError -> Prop) (config : DnsCryptServerConfig)
    (packet : bytes) (r : res Response DohError) : Prop :=
  match r with
  | Ok (Plain resp) => provider_answer config packet resp
  | Ok (Encrypted pk nonce full) =>
      exists m req resp,
        decrypt_query (resolver_secret_key config) (srv_client_magic config) packet = Ok (m, pk, nonce)
        /\ from_bytes m = inr req /\ R req (Ok resp) /\ to_bytes resp = inr full
  | Err _ => True
  | Panic => exists req, R req Panic
  end.
Lemma respond_safe P (I : S -> Prop) handler R config packet :
  (forall req, safe P I (handler req) (R req)) ->
  safe P I (respond packet config handler) (responds R config packet).
Proof.
  intros Hh. unfold respond. pose proof (try_answer_provider_txt_spec packet config) as Ht.
  destruct (try_answer_provider_txt packet config) as [plain|e|]; [|done|done].
  apply safe_try_pure; [done| |done]. intros ? [= <-]. destruct plain as [resp|]; [done|].
  apply safe_try_pure; [apply decrypt_query_not_Panic| |done]. intros [[m pk] nonce] Hd.
  apply safe_try_pure; [apply from_sum_not_Panic| |done]. intros req Hreq%from_sum_Ok.
  eapply safe_try; [apply Hh| |done|simpl; eauto]. intros resp HR.
  apply safe_try_pure; [apply from_sum_not_Panic| |done]. intros full Hf%from_sum_Ok.
  by exists m, req, resp.
Qed.
End Listener.

Section Lemmas.
Context {S : Type} `{HL : DnsLib} {HC : DnsCodec} {HK : CryptoLib}.
Implicit Type handler : Handler S.

Lemma udp_safe P (I : S -> Prop) handler R config socket packet peer :
  quiet P -> (forall req, safe P I (handler req) (R req)) ->
  (forall b, reply_to R config packet b -> P _ (UdpSendTo socket b peer)) ->
  safe P I (handle_udp_packet socket packet peer config handler)
    (fun r => match r with Panic => exists req, R req Panic | _ => True end).
Proof.
  intros HP Hh Hsend. unfold handle_udp_packet.
  eapply safe_try; [by apply respond_safe| |done|done]. intros response Hr.
  assert (forall b, reply_to R config packet b ->
    safe P I (send socket b peer)
      (fun r : res unit DohError => match r with Panic => exists req, R req Panic | _ => True end)) as Hs.
  { intros b Hb. unfold send, io_map_err, call. simpl. split; [by apply Hsend|]. by intros [[]| |]. }
  destruct response as [resp|pk nonce full].
  - apply safe_try_pure; [apply from_sum_not_Panic| |done]. intros b Hb%from_sum_Ok.
    destruct (UDP_MAX_MSG_SIZE <? length b)%nat.
    + apply safe_try_pure; [apply from_sum_not_Panic| |done]. intros b' Hb'%from_sum_Ok.
      apply Hs. left. exists resp. auto.
    + apply safe_try_pure; [done| |done]. intros b' [= <-]. apply Hs. left. exists resp. auto.
  - destruct Hr as (m & req & resp & Hd & Hreq & HR & Hfull).
    eapply safe_try; [apply encrypt_server_response_safe; call_ok| |done|done].
    intros framed Hf. destruct (UDP_MAX_MSG_SIZE <? length framed)%nat.
    + eapply (safe_try _ _ _ _ (fun r => match r with
        | Ok b => exists resp' short, from_bytes full = inr resp'
                    /\ to_bytes (truncate resp') = inr short /\ boxed config pk nonce short b
        | Err _ => True | Panic => False end)); [| |done|done].
      * apply safe_try_pure; [apply from_sum_not_Panic| |done]. intros resp' Hresp'%from_sum_Ok.
        apply safe_try_pure; [apply from_sum_not_Panic| |done]. intros short Hshort%from_sum_Ok.
        eapply safe_mono; [|apply encrypt_server_response_safe; call_ok].
        intros [b| |] Hb; [by exists resp', short|done|done].
      * intros b Hb. apply Hs. right. exists m, pk, nonce, req, resp, full. auto 10.
    + apply safe_try_pure; [done| |done]. intros b [= <-]. apply Hs.
      right. exists m, pk, nonce, req, resp, full. auto 10.
Qed.

Lemma tcp_safe P (I : S -> Prop) handler R config stream n :
  quiet P -> (forall req, safe P I (handler req) (R req)) ->
  (forall packet b, reply_to R config packet b ->
     P _ (WriteAll stream (to_be 2 (Z.of_nat (length b)))) /\ P _ (WriteAll stream b)) ->
  safe P I (handle_tcp_connection n stream config handler)
    (fun r => match r with Some Panic => exists req, R req Panic | _ => True end).
Proof.
  intros HP Hh Hsend. induction n as [|n IH]; [done|]. cbn [handle_tcp_connection].
  eapply safe_bind; [apply read_framed_safe; call_ok|]. intros [packet|e|] Hp; [|done|done].
  apply (safe_bind _ _ _ _
    (fun r => match r with Panic => exists req, R req Panic | _ => True end));
    [|by intros [[]|e|]]. clear IH Hp.
  unfold answer_encrypted. eapply safe_try; [by apply respond_safe| |done|done]. intros response Hr.
  apply (safe_try _ _ _ _ (fun r => match r with
    | Ok b => reply_to R config packet b | Err _ => True | Panic => False end)); [| |done|done].
  - destruct response as [resp|pk nonce full].
    + destruct (to_bytes resp) as [e|b] eqn:Hb; [done|]. left. exists resp. auto.
    + destruct Hr as (m & req & resp & Hd & Hreq & HR & Hfull).
      eapply safe_mono; [|apply encrypt_server_response_safe; call_ok].
      intros [b| |] Hb; [|done|done]. right. exists m, pk, nonce, req, resp, full. auto 10.
  - intros b [H1 H2]%Hsend. unfold write_prefixed. fold (too_large b).
    destruct (too_large b) eqn:Hl; [done|]. apply too_large_false in Hl as [_ Hmod].
    unfold write_framed. rewrite Hmod.
    eapply safe_try_call; [done|intros ? Hok; exact Hok| |done]. intros _ _.
    unfold io_map_err, call. simpl. split; [done|]. by intros [[]| |].
Qed.

Lemma exec_boxed config pk nonce m (s : S) tr b s' :
  exec (encrypt_server_response (resolver_secret_key config) pk nonce m) s tr (Ok b) s' ->
  boxed config pk nonce m b.
Proof.
  intros (rnonce & Hl & _ & Hr)%exec_encrypt_server_response.
  destruct (box_encrypt _ _ _ _) as [e|ct] eqn:E; [done|]. exists rnonce, ct.
  split; [done|]. split; [done|]. by injection Hr.
Qed.
(** The last leg of an encrypted reply. *)
Lemma exec_encrypted_reply config pk nonce full socket peer (s : S) tr s' :
  exec (try* framed := encrypt_server_response (resolver_secret_key config) pk nonce full in
        try* framed :=
          if (UDP_MAX_MSG_SIZE <? length framed)%nat then
            try* resp := IoRet (from_sum (invalid "re-parsing response: ") (from_bytes full)) in
            try* truncated_bytes := IoRet (from_sum Pack (to_bytes (truncate resp))) in
            encrypt_server_response (resolver_secret_key config) pk nonce truncated_bytes
          else IoRet (Ok framed) in
        send socket framed peer) s tr (Ok tt) s' ->
  exists tr1 packet, tr = tr1 ++ [Event (UdpSendTo socket packet peer) (Ok tt)]
  /\ (boxed config pk nonce full packet
      \/ exists resp' short, from_bytes full = inr resp' /\ to_bytes (truncate resp') = inr short
         /\ boxed config pk nonce short packet).
Proof.
  assert (forall packet s tr s', exec (send (S := S) socket packet peer) s tr (Ok tt) s' ->
            tr = [Event (UdpSendTo socket packet peer) (Ok tt)]) as Hsend.
  { intros packet s0 tr0 s1 (x & tr' & _ & -> & -> & Hx & _). by destruct x as [[]| |]. }
  rewrite exec_try. intros (r & s1 & tr1 & tr2 & -> & Hb & H).
  destruct r as [framed|e|]; [|by destruct H as (_ & ? & _)..]. apply exec_boxed in Hb.
  revert H. rewrite exec_try. intros (r & s2 & tr3 & tr4 & -> & Hf & H).
  destruct r as [b|e|]; [|by destruct H as (_ & ? & _)..]. apply Hsend in H as ->.
  exists (tr1 ++ tr3), b. rewrite <- app_assoc. split; [done|].
  destruct (UDP_MAX_MSG_SIZE <? length framed)%nat; [|left; by destruct Hf as (_ & [= ->] & _)].
  right. revert Hf. rewrite exec_try. intros (? & ? & ? & ? & _ & (_ & -> & _) & H).
  destruct (from_bytes full) as [e|resp']; cbn [from_sum] in H; [by destruct H as (_ & ? & _)|].
  revert H. rewrite exec_try. intros (? & ? & ? & ? & _ & (_ & -> & _) & H).
  destruct (to_bytes (truncate resp')) as [e|short] eqn:Hs; cbn [from_sum] in H; [by destruct H as (_ & ? & _)|].
  exists resp', short. split; [done|]. split; [done|]. by eapply exec_boxed.
Qed.
Lemma boxed_decrypts {HKL : CryptoLaws} config cert client nonce m b :
  keypair_ok client -> resolver_public_key cert = public_key_of (resolver_secret_key config) ->
  length nonce = 12%nat -> boxed config (public_key client) nonce m b ->
  decrypt_response cert client nonce b = Ok m.
Proof.
  intros Hk Hpk Hn (rnonce & ct & Hr & Hct & ->). rewrite decrypt_response_framed by done.
  rewrite Hk in Hct. apply box_agrees in Hct. rewrite <- Hpk in Hct. rewrite Hct. simpl.
  apply unpad_pad.
Qed.
End Lemmas.

Section Properties.
Context {S : Type} `{HL : DnsLib} {HC : DnsCodec} {HK : CryptoLib}.

(** The payloads of a DNSCrypt listener's socket. *)
Definition reply_policy (R : Message -> res Message DohError -> Prop) config (socket stream : handle)
    (packet : bytes) (peer : SocketAddr) : forall X, eff X -> Prop := fun X e =>
  match e with
  | UdpSendTo h b a => h = socket /\ a = peer /\ reply_to R config packet b
  | WriteAll h b =>
      h = stream -> exists packet m, reply_to R config packet m
                    /\ (b = m \/ b = to_be 2 (Z.of_nat (length m)))
  | _ => True
  end.

(** C19: the DNSCrypt listener never puts an answer of the handler on the wire
    in the clear: on either transport it sends its own certificate record to
    a plain query for it, and otherwise only boxes, made for the key and
    nonce of the query they answer, of the handler's answer to that query or
    of its truncation. *)
Theorem dnscrypt_listener_replies (I : S -> Prop) (handler : Handler S) R config socket stream packet
    peer n :
  (forall req, safe (reply_policy R config socket stream packet peer) I (handler req) (R req)) ->
  safe (reply_policy R config socket stream packet peer) I
    (handle_udp_packet socket packet peer config handler)
    (fun r => match r with Panic => exists req, R req Panic | _ => True end)
  /\ safe (reply_policy R config socket stream packet peer) I
       (handle_tcp_connection n stream config handler)
       (fun r => match r with Some Panic => exists req, R req Panic | _ => True end).
Proof.
  intros Hh. split.
  - apply udp_safe; [by intros X []|done|]. by intros b Hb.
  - apply tcp_safe; [by intros X []|done|]. intros packet' b Hb.
    split; intros _; exists packet', b; auto.
Qed.

(** C11: end to end over UDP: when a client encrypts a query under the
    listener's certificate, the handler is run on exactly the message the
    client packed, and the datagram sent back to it decrypts, with the
    client's key and nonce, to the handler's packed answer or to the
    truncation of it. *)
Theorem dnscrypt_end_to_end {HKL : CryptoLaws} {T} config cert client (handler : Handler S) msg framed nonce
    socket peer (t t' : T) tr0 s tr s' :
  keypair_ok client -> length (client_magic cert) = 8%nat ->
  resolver_public_key cert = public_key_of (resolver_secret_key config) ->
  srv_client_magic config = client_magic cert ->
  exec (encrypt_query cert client msg) t tr0 (Ok (framed, nonce)) t' ->
  try_answer_provider_txt framed config = Ok None ->
  exec (handle_udp_packet socket framed peer config handler) s tr (Ok tt) s' ->
  exists req resp full tr1 s1 tr2 packet,
    from_bytes msg = inr req /\ exec (handler req) s tr1 (Ok resp) s1 /\ to_bytes resp = inr full
    /\ tr = tr1 ++ tr2 ++ [Event (UdpSendTo socket packet peer) (Ok tt)]
    /\ (decrypt_response cert client nonce packet = Ok full
        \/ exists resp' short, from_bytes full = inr resp' /\ to_bytes (truncate resp') = inr short
           /\ decrypt_response cert client nonce packet = Ok short).
Proof.
  intros Hk Hm Hpk Hmagic Hq Hplain. destruct (encrypt_query_decrypts _ _ _ _ _ _ _ _ _ Hk Hm Hpk Hq) as [Hn Hd].
  unfold handle_udp_packet. rewrite exec_try. intros (r & s1 & tr1 & tr2 & -> & Hr & H).
  unfold respond in Hr. rewrite Hplain, Hmagic, Hd in Hr.
  revert Hr. rewrite exec_try. intros (? & ? & ? & ? & -> & (-> & -> & ->) & Hr). cbn [app] in *.
  revert Hr. rewrite exec_try. intros (? & ? & ? & ? & -> & (-> & -> & ->) & Hr). cbn [app] in *.
  revert Hr. rewrite exec_try. intros (? & ? & ? & ? & -> & (-> & -> & ->) & Hr). cbn [app] in *.
  destruct (from_bytes msg) as [e|req]; cbn [from_sum] in Hr; [by destruct Hr as (_ & -> & _); destruct H as (_ & ? & _)|].
  revert Hr. rewrite exec_try. intros (r1 & s2 & tr3 & tr4 & -> & Hh & Hr).
  destruct r1 as [resp|e|]; [|by destruct Hr as (_ & -> & _); destruct H as (_ & ? & _)..].
  revert Hr. rewrite exec_try. intros (? & ? & ? & ? & -> & (-> & -> & ->) & Hr). cbn [app] in *.
  destruct (to_bytes resp) as [e|full] eqn:Hfull; cbn [from_sum] in Hr;
    [by destruct Hr as (_ & -> & _); destruct H as (_ & ? & _)|].
  destruct Hr as (-> & -> & ->). rewrite app_nil_r.
  apply exec_encrypted_reply in H as (tr5 & packet & -> & Hb).
  exists req, resp, full, tr3, s2, tr5, packet. split_and!; try done.
  destruct Hb as [Hb|(resp' & short & ? & ? & Hb)].
  - left. by eapply boxed_decrypts.
  - right. exists resp', short. split_and!; try done. by eapply boxed_decrypts.
Qed.

(** C34: the provider's certificate is served: a query whose first question asks
    TXT for the provider's name (by [eq_ignore_root]) is answered at once,
    without the handler, under its own identifier and first question, with TXT
    strings that parse under the provider's public key to exactly the
    certificate of the configuration; and nothing else is answered so: no other
    question or type, and no message that is not a query. *)
Theorem listener_certificate {HD : DnsLaws} {HKL : CryptoLaws} secret signing name nm c packet req (handler : Handler S) :
  cert_ok c -> resolver_public_key c = public_key_of secret ->
  Name_from_ascii name = inr nm -> from_bytes packet = inr req ->
  let config := config_new secret signing name (client_magic c) (serial c) (ts_start c) (ts_end c) in
  let asks q := message_type (metadata req) = Query_ /\ head (queries req) = Some q
                /\ query_type q = RT_TXT /\ eq_ignore_root (query_name q) nm = true in
  (forall q, asks q -> exists resp,
     respond packet config handler = IoRet (Ok (Plain resp))
     /\ msg_id resp = msg_id req /\ queries resp = [q]
     /\ parse_certificates (DnsCrypt.txt_strings resp) (VerifyingKey_to_bytes (verifying_key signing)) = Ok [c])
  /\ ((forall q, ~ asks q) -> try_answer_provider_txt packet config = Ok None).
Proof.
  intros Hc Hpk Hn Hp config asks. pose proof (try_answer_provider_txt_spec packet config) as Hs.
  unfold respond. destruct (try_answer_provider_txt packet config) as [[resp|]|e|]; [| |done..].
  - destruct Hs as (? & q & rest & nm' & Hp' & Hm & Hq & Hty & Hn' & Heq & Hresp).
    rewrite Hp in Hp'. injection Hp' as <-. cbn [provider_name config config_new] in Hn'.
    rewrite Hn in Hn'. injection Hn' as <-.
    assert (asks q) as Hasks by (unfold asks; by rewrite Hq). split; [|by intros Hno; destruct (Hno q)].
    intros q' (_ & Hq' & _). rewrite Hq in Hq'. injection Hq' as <-. exists resp. split; [done|].
    subst resp. rewrite add_answer_eq, add_query_eq. split; [apply Message_new_id|].
    split; [cbn [queries set_sections set_queries]; by rewrite Message_new_queries|].
    unfold DnsCrypt.txt_strings. cbn [answers set_sections set_queries]. rewrite Message_new_answers.
    cbn [app omap list_omap]. rewrite Record_from_rdata_data, rdata_txt_from_bytes.
    cbn [concat app]. unfold parse_certificates. rewrite VerifyingKey_bytes.
    cbn [from_sum res_bind omap list_omap]. unfold config, config_new. cbn [cert_bytes].
    rewrite <- Hpk, parse_signed by done. done.
  - split; [|done]. intros q (Hm & Hq & Hty & Heq). destruct (queries req) as [|q0 rest] eqn:E; [done|].
    injection Hq as ->. edestruct Hs. by exists req, q, rest, nm.
Qed.
End Properties.

Section Witnesses.
#[local] Existing Instances Toy.lib Toy.codec Toy.laws ToyCrypto.lib ToyCrypto.laws.
Definition w_config : DnsCryptServerConfig :=
  config_new w_resolver (SigningKey_from_bytes [x05]) "2.dnscrypt-cert.example.com." (client_magic w_cert)
    3 100 200.
Definition w_peer : SocketAddr := SockV4 (Ipv4 x7f x00 x00 x01) 5353.
Definition w_query : @Message Toy.lib := Toy.query 7 "example.com." 1.
Definition w_query_bytes : bytes := Toy.encode w_query.
Definition w_answer_bytes : bytes := Toy.encode (Toy.reply w_query 60).
Definition w_boxed (k : SecretKey) (pk b : bytes) : bytes :=
  ToyCrypto.tag (ToyCrypto.key_bytes k) pk :: pad b.
Definition w_packet : bytes :=
  client_magic w_cert ++ public_key w_client ++ w_nonce
  ++ w_boxed (secret_key w_client) (resolver_public_key w_cert) w_query_bytes.
Definition w_datagram : bytes :=
  RESOLVER_MAGIC ++ w_nonce ++ w_rnonce ++ w_boxed w_resolver (public_key w_client) w_answer_bytes.

Lemma dnscrypt_listener_replies_witness :
  safe (reply_policy w_R w_config 3%nat 4%nat w_packet w_peer) (fun _ : unit => True)
    (handle_udp_packet 3%nat w_packet w_peer w_config w_handler)
    (fun r => match r with Panic => exists req, w_R req Panic | _ => True end).
Proof.
  refine (proj1 (dnscrypt_listener_replies (fun _ : unit => True) w_handler w_R w_config 3%nat 4%nat
           w_packet w_peer 5 _)).
  intros req. exact (eq_refl (Ok (Toy.reply req 60))).
Defined.

Lemma w_respond :
  exec (respond w_packet w_config w_handler) tt []
    (Ok (Encrypted (public_key w_client) w_nonce w_answer_bytes)) tt.
Proof.
  unfold respond. rewrite exec_try. exists (Ok None), tt, [], []. split; [reflexivity|].
  split; [split_and!; vm_refl|].
  cbv beta iota. rewrite exec_try. exists (Ok (w_query_bytes, public_key w_client, w_nonce)), tt, [], [].
  split; [reflexivity|]. split; [split_and!; vm_refl|].
  cbv beta iota. rewrite exec_try. exists (Ok w_query), tt, [], []. split; [reflexivity|].
  split; [split_and!; vm_refl|].
  cbv beta iota. rewrite exec_try. exists (Ok (Toy.reply w_query 60)), tt, [], []. split; [reflexivity|].
  split; [split_and!; reflexivity|].
  cbv beta iota. rewrite exec_try. exists (Ok w_answer_bytes), tt, [], []. split; [reflexivity|].
  split; [split_and!; vm_refl|]. by split_and!.
Qed.
Lemma w_sent :
  exec (handle_udp_packet 3%nat w_packet w_peer w_config w_handler) tt
    [Event (FillBytes 12) w_rnonce; Event (UdpSendTo 3%nat w_datagram w_peer) (Ok tt)] (Ok tt) tt.
Proof.
  unfold handle_udp_packet. rewrite exec_try. eexists _, tt, [], _. split; [reflexivity|]. split; [apply w_respond|].
  cbv beta iota. rewrite exec_try. exists (Ok w_datagram), tt, [Event (FillBytes 12) w_rnonce],
    [Event (UdpSendTo 3%nat w_datagram w_peer) (Ok tt)]. split; [reflexivity|]. split.
  { exists w_rnonce, []. split; [reflexivity|]. split; [reflexivity|]. split_and!; vm_refl. }
  cbv beta iota. rewrite exec_try. exists (Ok w_datagram), tt, [], [Event (UdpSendTo 3%nat w_datagram w_peer) (Ok tt)].
  split; [reflexivity|]. split; [|].
  { assert ((UDP_MAX_MSG_SIZE <? length w_datagram)%nat = false) as -> by vm_refl. by split_and!. }
  exists (Ok tt), []. split; [exact Logic.I|]. split; [reflexivity|]. by split_and!.
Qed.

Lemma dnscrypt_end_to_end_witness :
  exists req resp full tr1 s1 tr2 packet,
    from_bytes w_query_bytes = inr req /\ exec (w_handler req) tt tr1 (Ok resp) s1
    /\ to_bytes resp = inr full
    /\ [Event (FillBytes 12) w_rnonce; Event (UdpSendTo 3%nat w_datagram w_peer) (Ok tt)]
       = tr1 ++ tr2 ++ [Event (UdpSendTo 3%nat packet w_peer) (Ok tt)]
    /\ (decrypt_response w_cert w_client w_nonce packet = Ok full
        \/ exists resp' short, from_bytes full = inr resp' /\ to_bytes (truncate resp') = inr short
           /\ decrypt_response w_cert w_client w_nonce packet = Ok short).
Proof.
  apply (dnscrypt_end_to_end w_config w_cert w_client w_handler w_query_bytes w_packet w_nonce
    3%nat w_peer () () [Event (FillBytes 12) w_nonce] tt
    [Event (FillBytes 12) w_rnonce; Event (UdpSendTo 3%nat w_datagram w_peer) (Ok tt)] tt).
  - reflexivity.
  - vm_refl.
  - vm_refl.
  - vm_refl.
  - exists w_nonce, []. split; [reflexivity|]. split; [reflexivity|]. split_and!; vm_refl.
  - vm_refl.
  - apply w_sent.
Defined.

Definition w_txt_query : @Message Toy.lib := Toy.query 9 "2.DNSCrypt-Cert.example.com." 16.
Lemma listener_certificate_witness :
  exists resp, respond (Toy.encode w_txt_query) w_config w_handler = IoRet (Ok (Plain resp))
  /\ msg_id resp = 9 /\ queries resp = queries w_txt_query
  /\ parse_certificates (DnsCrypt.txt_strings resp)
       (VerifyingKey_to_bytes (verifying_key (SigningKey_from_bytes [x05]))) = Ok [w_cert].
Proof.
  assert (cert_ok w_cert) as Hc.
  { split; [vm_refl|]. split; [vm_refl|]. vm_compute. split_and!; discriminate. }
  destruct (listener_certificate w_resolver (SigningKey_from_bytes [x05]) "2.dnscrypt-cert.example.com."
    ("2.dnscrypt-cert.example.com." : @Name Toy.lib) w_cert (Toy.encode w_txt_query) w_txt_query w_handler Hc
    ltac:(vm_refl) ltac:(vm_refl) ltac:(vm_refl)) as [H _].
  destruct (H (Query_query ("2.DNSCrypt-Cert.example.com." : @Name Toy.lib) 16) ltac:(split_and!; vm_refl))
    as (resp & Hr & Hid & Hq & Hp).
  exists resp. split; [exact Hr|]. split; [exact Hid|]. split; [exact Hq|exact Hp].
Defined.
End Witnesses.
