(* ===== verification/ListenerDoh.v ===== *)
(** * The DoH and DoH3 listeners

    [src/listener/doh_auth.rs], [src/listener/doh.rs] and
    [src/listener/doh3.rs]: Basic credentials, and the handling of one HTTP
    request on either protocol. [rq_authorization] of a request is
    [get(AUTHORIZATION).and_then(|v| v.to_str().ok())]. *)
From S2P Require Import Doh3.
From S2P Require Import Prelude RustStr RustNet Io Dns Errors WebLib Wire Bootstrap Framing.
From S2P Require Import ListenerIo.
Implicit Type P : forall X, eff X -> Prop.

(** ** Credentials *)
Section Auth.
Context `{HB : Base64}.

Record Credentials := { valid_headers : list string }.
Definition basic_header (pair : string * string) : string :=
  "Basic " +:+ b64_encode STANDARD (as_bytes (pair.1 +:+ ":" +:+ pair.2)).
Definition credentials_new (pairs : list (string * string)) : Credentials :=
  {| valid_headers := basic_header <$> pairs |}.
Definition credentials_is_empty (c : Credentials) : bool :=
  match valid_headers c with [] => true | _ => false end.
Definition is_authorized (c : Credentials) (authorization : option string) : bool :=
  match authorization with
  | Some header => existsb (fun valid => String.eqb valid header) (valid_headers c)
  | None => false
  end.
Definition parse_pair (s : string) : res (string * string) string :=
  let? (user, pass) := ok_or ("invalid credential " +:+ debug_str s +:+ ": expected user:password")
                         (split_once_char ":" s) in
  if is_empty user then Err ("invalid credential " +:+ debug_str s +:+ ": username is empty")
  else Ok (user, pass).

(** The check in front of both handlers. *)
Definition unauthorized (c : Credentials) (authorization : option string) : bool :=
  negb (credentials_is_empty c) && negb (is_authorized c authorization).
End Auth.

(** ** Requests and responses *)
Record HttpServerResponse := {
  rs_status : Z;
  rs_headers : list (string * string);
  rs_body : bytes;
}.
Definition OK : Z := 200.
Definition BAD_REQUEST : Z := 400.
Definition UNAUTHORIZED : Z := 401.
Definition METHOD_NOT_ALLOWED : Z := 405.

Definition find_dns_param (query : string) : option string :=
  find_map (strip_prefix "dns=") (split_char "&" query).
Definition error_response (status : Z) : HttpServerResponse :=
  {| rs_status := status; rs_headers := []; rs_body := [] |}.
Definition unauthorized_response : HttpServerResponse :=
  {| rs_status := UNAUTHORIZED; rs_headers := [("www-authenticate", "Basic")]; rs_body := [] |}.
Definition dns_content : list (string * string) := [("content-type", "application/dns-message")].
Definition dns_param (req : HttpServerRequest) : option string :=
  match rq_query req with Some q => find_dns_param q | None => None end.

Section Handlers.
Context {S : Type} `{HL : DnsLib} {HC : DnsCodec} {HB : Base64}.
Implicit Types (handler : Handler S) (credentials : Credentials).

(** *** HTTP/1.1 and HTTP/2 *)
Definition read_body (req : HttpServerRequest) : io S (res bytes DohError) :=
  try* body := io_map_err (fun e => Http ("reading body: " +:+ e)) (call (HttpBody (rq_body req))) in
  if (MAX_MSG_SIZE <? length body)%nat then IoRet (Err (Http "request body too large"))
  else IoRet (Ok body).
Definition answer_query (param : option string) (body : bytes) handler : io S (res bytes DohError) :=
  try* query := IoRet (decode_request param body) in
  try* resp := handler query in
  IoRet (encode_response resp).
Definition handle_request_inner (req : HttpServerRequest) handler credentials
  : io S (res HttpServerResponse DohError) :=
  if unauthorized credentials (rq_authorization req) then IoRet (Ok unauthorized_response)
  else
    let respond (body : io S (res bytes DohError)) :=
      try* body := body in
      try* bytes := answer_query (dns_param req) body handler in
      IoRet (Ok {| rs_status := OK; rs_headers := dns_content; rs_body := bytes |}) in
    match rq_method req with
    | GET => respond (IoRet (Ok []))
    | POST => respond (read_body req)
    | OtherMethod _ => IoRet (Ok (error_response METHOD_NOT_ALLOWED))
    end.
(** Infallible; a panic of the handler unwinds through it. *)
Definition handle_request (req : HttpServerRequest) handler credentials
  : io S (res HttpServerResponse DohError) :=
  let* r := handle_request_inner req handler credentials in
  IoRet (match r with Err _ => Ok (error_response BAD_REQUEST) | r => r end).

(** *** HTTP/3 *)
Definition send_response (stream : handle) (status : Z) (body : bytes) : io S (res unit DohError) :=
  try* _ := io_map_err Quic (call (H3SendResponse stream status dns_content)) in
  try* _ := match body with
            | [] => IoRet (Ok tt)
            | _ => io_map_err Quic (call (H3SendData stream body))
            end in
  io_map_err Quic (call (H3Finish stream)).
Definition send_unauthorized (stream : handle) : io S (res unit DohError) :=
  try* _ := io_map_err Quic (call (H3SendResponse stream UNAUTHORIZED [("www-authenticate", "Basic")])) in
  io_map_err Quic (call (H3Finish stream)).
Definition h3_answer (req : HttpServerRequest) (stream : handle) handler (body : bytes)
  : io S (res unit DohError) :=
  match decode_request (dns_param req) body with
  | Err _ => send_response stream BAD_REQUEST []
  | Panic => IoRet Panic
  | Ok query =>
      try* resp := handler query in
      try* bytes := IoRet (encode_response resp) in
      send_response stream OK bytes
  end.
Definition h3_handle_request (req : HttpServerRequest) (stream : handle) handler credentials
  : io S (res unit DohError) :=
  if unauthorized credentials (rq_authorization req) then send_unauthorized stream
  else
    match rq_method req with
    | GET => h3_answer req stream handler []
    | POST =>
        try* body := recv_body "request" (Datatypes.S MAX_MSG_SIZE) stream [] in
        h3_answer req stream handler body
    | OtherMethod _ => send_response stream METHOD_NOT_ALLOWED []
    end.
End Handlers.

(** ** Lemmas *)
Lemma as_bytes_inj a b : as_bytes a = as_bytes b -> a = b.
Proof. intros H. by rewrite <- (of_bytes_as_bytes a), <- (of_bytes_as_bytes b), H. Qed.

Lemma basic_header_eq `{Base64Laws} p q :
  basic_header p = basic_header q <-> p.1 +:+ ":" +:+ p.2 = q.1 +:+ ":" +:+ q.2.
Proof.
  unfold basic_header. split; [|by intros ->]. intros E.
  apply (f_equal (strip_prefix "Basic ")) in E. rewrite !strip_prefix_app in E.
  injection E as E. apply (f_equal (b64_decode STANDARD)) in E. rewrite !standard_roundtrip in E.
  apply as_bytes_inj. congruence.
Qed.

Lemma is_authorized_elem `{Base64} c h :
  is_authorized c (Some h) = true <-> h ∈ valid_headers c.
Proof.
  unfold is_authorized. rewrite existsb_exists. split.
  - intros (v & Hv & ->%String.eqb_eq). by apply list_elem_of_In.
  - intros Hh. exists h. split; [by apply list_elem_of_In|]. apply String.eqb_refl.
Qed.

Lemma parse_pair_Ok s p : parse_pair s = Ok p -> s = p.1 +:+ ":" +:+ p.2.
Proof.
  unfold parse_pair. intros H. inv_ok H. destruct a as [user pass].
  destruct (is_empty user); [done|]. injection H as <-.
  by apply split_once_char_Some in E as [-> _].
Qed.

Lemma find_dns_param_get enc : char_in "&" enc = false -> find_dns_param ("dns=" +:+ enc) = Some enc.
Proof.
  intros He. unfold find_dns_param. rewrite split_char_no.
  - cbn [find_map]. by rewrite strip_prefix_app.
  - done.
Qed.

Section Lemmas.
Context {S : Type} `{HL : DnsLib} {HC : DnsCodec} {HB : Base64}.

Lemma decode_request_not_Panic param body : decode_request param body <> Panic.
Proof.
  unfold decode_request. destruct param as [p|]; simpl; [|by destruct (from_bytes body)].
  destruct (b64_decode _ p) as [e|b]; simpl; [done|]. by destruct (from_bytes b).
Qed.
Lemma encode_response_Ok resp b : encode_response resp = Ok b <-> to_bytes resp = inr b.
Proof. apply from_sum_Ok. Qed.

Lemma exec_answer_query param body (handler : Handler S) s tr r s' :
  exec (answer_query param body handler) s tr r s' ->
  match decode_request param body with
  | Ok query => exists out, exec (handler query) s tr out s' /\ r = (let? resp := out in encode_response resp)
  | Err e => r = Err e /\ tr = [] /\ s' = s
  | Panic => False
  end.
Proof.
  unfold answer_query. rewrite exec_try_ret.
  destruct (decode_request param body) as [query|e|] eqn:Hd;
    [|by intros (-> & -> & ->)|by apply decode_request_not_Panic in Hd].
  rewrite exec_try. intros (out & s1 & tr1 & tr2 & -> & Hh & H).
  exists out. destruct out as [answer|e|]; destruct H as (-> & -> & ->); by rewrite app_nil_r.
Qed.
Lemma exec_read_body req s tr r s' :
  exec (read_body (S := S) req) s tr r s' ->
  s' = s /\ exists x, tr = [Event (HttpBody (rq_body req)) x] /\
  match r with
  | Ok body => x = Ok body /\ (length body <= MAX_MSG_SIZE)%nat
  | Err _ => forall body, x = Ok body -> (MAX_MSG_SIZE < length body)%nat
  | Panic => False
  end.
Proof.
  unfold read_body. rewrite exec_try_call. intros (x & tr' & Hx & -> & H). simpl in Hx.
  destruct x as [body|e|]; [| |done].
  - destruct (Nat.ltb_spec MAX_MSG_SIZE (length body)); destruct H as (-> & -> & ->);
      (split; [done|]); eexists; (split; [done|]); [by intros ? [= <-]|done].
  - destruct H as (-> & -> & ->). split; [done|]. eexists. split; [done|]. done.
Qed.
End Lemmas.

(** ** Every response that leaves

    What either protocol may send for a request whose queries have the outcomes
    [R]. *)
Section Safety.
Context {S : Type} `{HL : DnsLib} {HC : DnsCodec} {HB : Base64}.
Context P (I : S -> Prop) (R : Message -> res Message DohError -> Prop).
Context (handler : Handler S) (credentials : Credentials) (req : HttpServerRequest).

Definition answer_bytes (b : bytes) : Prop :=
  exists body query answer, decode_request (dns_param req) body = Ok query
  /\ R query (Ok answer) /\ to_bytes answer = inr b.
Definition response_ok (status : Z) (b : bytes) : Prop :=
  if unauthorized credentials (rq_authorization req) then status = UNAUTHORIZED /\ b = []
  else (status = OK /\ answer_bytes b)
       \/ (b = [] /\ (status = BAD_REQUEST \/ status = METHOD_NOT_ALLOWED)).
Definition panics_with_handler {A E} (r : res A E) : Prop :=
  match r with Panic => exists query, R query Panic | _ => True end.

Context (HP : quiet P) (Hh : forall query, safe P I (handler query) (R query)).

Lemma answer_query_safe body :
  safe P I (answer_query (dns_param req) body handler)
    (fun r => match r with Ok b => answer_bytes b | r => panics_with_handler r end).
Proof.
  unfold answer_query. apply safe_try_pure; [apply decode_request_not_Panic| |done]. intros query Hd.
  eapply safe_try; [apply Hh| |done|by exists query]. intros answer HR. simpl.
  destruct (encode_response answer) as [b|e|] eqn:He; [|done|by apply from_sum_not_Panic in He].
  exists body, query, answer. split_and!; [done|done|by apply encode_response_Ok].
Qed.
Lemma handle_request_safe :
  safe P I (handle_request req handler credentials)
    (fun r => match r with
              | Ok resp => response_ok (rs_status resp) (rs_body resp)
              | Err _ => False
              | Panic => exists query, R query Panic
              end).
Proof.
  unfold handle_request. apply (safe_bind _ _ _ _ (fun r => match r with
    | Ok resp => response_ok (rs_status resp) (rs_body resp)
    | Err _ => unauthorized credentials (rq_authorization req) = false
    | Panic => exists query, R query Panic end)).
  2: { intros [resp|e|] Hr; simpl; [done| |done]. unfold response_ok. rewrite Hr. auto. }
  unfold handle_request_inner, response_ok. destruct (unauthorized _ _); [done|].
  assert (forall body : io S (res bytes DohError), safe P I body (fun r => r <> Panic) ->
    safe P I (try* body := body in
              try* bytes := answer_query (dns_param req) body handler in
              IoRet (Ok {| rs_status := OK; rs_headers := dns_content; rs_body := bytes |}))
      (fun r => match r with
         | Ok resp => (rs_status resp = OK /\ answer_bytes (rs_body resp))
              \/ (rs_body resp = [] /\ (rs_status resp = BAD_REQUEST \/ rs_status resp = METHOD_NOT_ALLOWED))
         | Err _ => false = false | Panic => exists query, R query Panic end)) as Hrespond.
  { intros body Hb. eapply safe_try; [exact Hb| |done|done]. intros b _.
    eapply safe_try; [apply answer_query_safe| |done|done]. intros c Hc. simpl. auto. }
  destruct (rq_method req); [by apply Hrespond| |by simpl; auto].
  apply Hrespond. unfold read_body. io_try_call. by destruct (_ <? _)%nat.
Qed.

Context (stream : handle).
Context (Hresponse : forall status b, response_ok status b ->
  P _ (H3SendResponse stream status (if status =? UNAUTHORIZED then [("www-authenticate", "Basic")] else dns_content))).
Context (Hdata : forall b, unauthorized credentials (rq_authorization req) = false ->
  answer_bytes b -> P _ (H3SendData stream b)).

Lemma send_response_safe status b :
  P _ (H3SendResponse stream status dns_content) -> (b <> [] -> P _ (H3SendData stream b)) ->
  safe P I (send_response stream status b) panics_with_handler.
Proof using HP.
  intros H1 H2. unfold send_response.
  eapply safe_try_call; [done|intros ? Hok; exact Hok|intros _ _|done].
  assert (safe P I (io_map_err Quic (call (H3Finish stream))) panics_with_handler) as Hfin.
  { unfold io_map_err, call. simpl. split; [call_ok|]. by intros [[]|e|]. }
  destruct b as [|x b]; [exact Hfin|].
  eapply safe_try_call; [by apply H2|intros ? Hok; exact Hok|intros _ _; exact Hfin|done].
Qed.
Lemma h3_answer_safe body :
  unauthorized credentials (rq_authorization req) = false ->
  safe P I (h3_answer req stream handler body) panics_with_handler.
Proof.
  intros Hu. unfold h3_answer.
  destruct (decode_request (dns_param req) body) as [query|e|] eqn:Hd;
    [| |by apply decode_request_not_Panic in Hd].
  - eapply safe_try; [apply Hh| |done|by exists query]. intros answer HR.
    apply safe_try_pure; [apply from_sum_not_Panic| |done]. intros b Hb%encode_response_Ok.
    assert (answer_bytes b) as Ha by by exists body, query, answer.
    apply send_response_safe; [|by intros _; apply Hdata].
    apply (Hresponse OK b). unfold response_ok. rewrite Hu. auto.
  - apply send_response_safe; [|done]. apply (Hresponse BAD_REQUEST []). unfold response_ok. rewrite Hu. auto.
Qed.
Lemma h3_handle_request_safe :
  safe P I (h3_handle_request req stream handler credentials) panics_with_handler.
Proof.
  unfold h3_handle_request. case_eq (unauthorized credentials (rq_authorization req)); intros Hu.
  { unfold send_unauthorized. eapply safe_try_call; [|intros ? Hok; exact Hok|intros _ _|done].
    - apply (Hresponse UNAUTHORIZED []). unfold response_ok. by rewrite Hu.
    - unfold io_map_err, call. simpl. split; [call_ok|]. by intros [[]| |]. }
  destruct (rq_method req) as [| |name]; [by apply h3_answer_safe| |].
  - eapply safe_try; [apply (recv_body_safe _ _ _ _ _ []); [done|simpl; lia|apply Nat.le_0_l]| |done|done].
    intros body _. by apply h3_answer_safe.
  - apply send_response_safe; [|done]. apply (Hresponse METHOD_NOT_ALLOWED []).
    unfold response_ok. rewrite Hu. auto.
Qed.
End Safety.

(** ** Properties *)
Section Properties.
Context {S : Type} `{HL : DnsLib} {HC : DnsCodec} {HB : Base64}.

(** C25: the listener accepts exactly the configured credentials: when the
    credential strings parse, a request that presents [Basic] of the base64 of
    a text is authorized if and only if that text is one of the strings, a
    request without the header never is, and the check is off only when no
    credential is configured. *)
Theorem authorization_spec `{!Base64Laws} (configured : list string) pairs user pass :
  Forall2 (fun s p => parse_pair s = Ok p) configured pairs ->
  let c := credentials_new pairs in
  (is_authorized c (Some (basic_header (user, pass))) = true <-> user +:+ ":" +:+ pass ∈ configured)
  /\ (unauthorized c None = true <-> configured <> []).
Proof.
  intros Hall c.
  assert (configured = (fun p => p.1 +:+ ":" +:+ p.2) <$> pairs) as Hconf.
  { induction Hall as [|s p ss ps Hp _ IH]; [done|]. cbn. by rewrite IH, (parse_pair_Ok s p). }
  split.
  - rewrite is_authorized_elem, Hconf. unfold c, credentials_new. cbn [valid_headers].
    rewrite !list_elem_of_fmap. split.
    + intros (p & E & Hp). apply basic_header_eq in E. exists p. split; [exact E|done].
    + intros (p & E & Hp). exists p. split; [by apply basic_header_eq|done].
  - rewrite Hconf. unfold unauthorized, credentials_is_empty, c, credentials_new. cbn.
    by destruct pairs.
Qed.

(** What the request body was: nothing for a GET, the one body read for a POST. *)
Definition body_read req (tr : list event) (body : bytes) : Prop :=
  match rq_method req with
  | GET => body = [] /\ tr = []
  | POST => tr = [Event (HttpBody (rq_body req)) (Ok body)] /\ (length body <= MAX_MSG_SIZE)%nat
  | OtherMethod _ => False
  end.
(** The response to a request with this body. *)
Definition doh_answered (handler : Handler S) req body s tr (r : res HttpServerResponse DohError) s' : Prop :=
  match decode_request (dns_param req) body with
  | Ok query =>
      exists out, exec (handler query) s tr out s' /\
      r = match out with
          | Ok answer =>
              match to_bytes answer with
              | inr b => Ok {| rs_status := OK; rs_headers := dns_content; rs_body := b |}
              | inl _ => Ok (error_response BAD_REQUEST)
              end
          | Err _ => Ok (error_response BAD_REQUEST)
          | Panic => Panic
          end
  | _ => r = Ok (error_response BAD_REQUEST) /\ tr = [] /\ s' = s
  end.
Lemma respond_answered (handler : Handler S) req body s tr r s' :
  exec (try* bytes := answer_query (dns_param req) body handler in
        IoRet (Ok {| rs_status := OK; rs_headers := dns_content; rs_body := bytes |})) s tr r s' ->
  doh_answered handler req body s tr
    (match r with Err _ => Ok (error_response BAD_REQUEST) | r => r end) s'.
Proof.
  rewrite exec_try. intros (r1 & s1 & tr1 & tr2 & -> & Hq%exec_answer_query & H). unfold doh_answered.
  destruct (decode_request _ _) as [query|e|]; [|destruct Hq as (-> & -> & ->); by destruct H as (-> & -> & ->)|done].
  destruct Hq as (out & Hh & ->). exists out.
  destruct out as [answer|e|]; cbn [res_bind] in H; [|by destruct H as (-> & -> & ->); rewrite app_nil_r..].
  unfold encode_response in H.
  destruct (to_bytes answer) as [e|b]; destruct H as (-> & -> & ->); by rewrite app_nil_r.
Qed.

(** C23: one DoH request: without a valid credential the answer is 401 before
    the body is read or the handler runs; another method than GET and POST is
    405; a POST body that cannot be read or is over the size limit is 400;
    otherwise the query is decoded from the [dns] parameter or the body and
    handed to the handler, and the answer is 200 with the packed bytes of what
    it returned as [application/dns-message], an empty 400 when the request
    does not decode, the handler fails or its answer does not pack, and only a
    panic of the handler unwinds. *)
Theorem doh_request_spec req (handler : Handler S) credentials s tr r s' :
  exec (handle_request req handler credentials) s tr r s' ->
  if unauthorized credentials (rq_authorization req)
  then r = Ok unauthorized_response /\ tr = [] /\ s' = s
  else match rq_method req with
       | OtherMethod _ => r = Ok (error_response METHOD_NOT_ALLOWED) /\ tr = [] /\ s' = s
       | m =>
           (m = POST /\ r = Ok (error_response BAD_REQUEST) /\ s' = s
            /\ exists x, tr = [Event (HttpBody (rq_body req)) x]
                /\ forall body, x = Ok body -> (MAX_MSG_SIZE < length body)%nat)
           \/ exists body tr1 tr2, body_read req tr1 body /\ tr = tr1 ++ tr2
                /\ doh_answered handler req body s tr2 r s'
       end.
Proof.
  unfold handle_request. rewrite exec_bind. intros (r0 & s0 & tr0 & tr1 & -> & H & -> & -> & ->).
  rewrite app_nil_r. unfold handle_request_inner in H.
  destruct (unauthorized _ _); [by destruct H as (-> & -> & ->)|].
  destruct (rq_method req) eqn:Hm; [| |by destruct H as (-> & -> & ->)].
  - rewrite exec_try_ret in H. right. exists [], [], tr0. unfold body_read. rewrite Hm.
    split_and!; [done|done|done|by apply respond_answered].
  - revert H. rewrite exec_try. intros (r1 & s1 & tr2 & tr3 & -> & (-> & x & -> & Hb)%exec_read_body & H).
    destruct r1 as [body|e|]; [| |done].
    + destruct Hb as [-> Hl]. right. exists body, [Event (HttpBody (rq_body req)) (Ok body)], tr3.
      unfold body_read. rewrite Hm. split_and!; [done|done|done|by apply respond_answered].
    + destruct H as (-> & -> & ->). left. rewrite app_nil_r. split_and!; [done|done|done|eauto].
Qed.

(** C17: end to end over DoH: for a query the codec packs faithfully, a GET
    with the parameter the client makes runs the handler on exactly that query
    with a zero identifier; when the handler's message is packed faithfully
    and answers the question, the response is 200 and the client decodes it to
    that message under its own identifier; a handler's error is a 400. *)
Theorem doh_get_end_to_end `{!Base64Laws} query enc oid req (handler : Handler S) credentials s tr resp s' :
  encode_request query = Ok (enc, oid) -> roundtrips (set_id query 0) ->
  rq_method req = GET -> rq_query req = Some ("dns=" +:+ enc) ->
  unauthorized credentials (rq_authorization req) = false ->
  exec (handle_request req handler credentials) s tr (Ok resp) s' ->
  exists out, exec (handler (set_id query 0)) s tr out s' /\
  match out with
  | Ok answer =>
      roundtrips answer ->
      rs_status resp = OK
      /\ (msg_id answer = 0 -> answers_question query answer ->
          decode_response (rs_body resp) query oid = Ok (set_id answer oid))
  | Err _ => resp = error_response BAD_REQUEST
  | Panic => False
  end.
Proof.
  intros Henc (b & Hb & Hb') Hm Hq Hu Hexec.
  unfold encode_request in Henc. rewrite Hb in Henc. simpl in Henc. injection Henc as <- <-.
  assert (decode_request (dns_param req) [] = Ok (set_id query 0)) as Hd.
  { unfold dns_param. rewrite Hq, find_dns_param_get by by apply url_safe_no_sep.
    unfold decode_request. rewrite url_safe_roundtrip. simpl. by rewrite Hb'. }
  unfold handle_request in Hexec. revert Hexec. rewrite exec_bind.
  intros (r0 & s0 & tr0 & tr1 & -> & Hin & -> & E & ->). rewrite app_nil_r.
  unfold handle_request_inner in Hin. rewrite Hu, Hm, exec_try_ret in Hin.
  apply respond_answered in Hin. unfold doh_answered in Hin. rewrite Hd in Hin.
  destruct Hin as (out & Hh & Hr). exists out. split; [done|]. rewrite <- E in Hr.
  destruct out as [answer|e|]; [|congruence|done]. intros (c & Hc & Hc'). rewrite Hc in Hr.
  injection Hr as ->. split; [done|]. intros Hid Hans. cbn [rs_body].
  unfold decode_response. rewrite Hc'. cbn [from_sum res_bind]. rewrite Hid. cbn [Z.eqb negb].
  rewrite validate_response_set_id. by rewrite (proj2 (validate_response_Ok query answer) Hans).
Qed.

(** *** HTTP/3 *)
(** The calls that send a whole response and close the stream. *)
Definition h3_reply (stream : handle) (status : Z) (headers : list (string * string)) (b : bytes)
  : list event :=
  Event (H3SendResponse stream status headers) (Ok tt)
  :: (match b with [] => [] | _ => [Event (H3SendData stream b) (Ok tt)] end)
  ++ [Event (H3Finish stream) (Ok tt)].
Definition call_failed (ev : event) : Prop :=
  exists A E (e : eff (res A E)) x, ev = Event e (Err x).
Definition recv_chunk (stream : handle) (c : bytes) : event := Event (H3RecvData stream) (Ok (Some c)).
Definition h3_body_read req (stream : handle) (tr : list event) (body : bytes) : Prop :=
  match rq_method req with
  | GET => body = [] /\ tr = []
  | POST => exists chunks, body = mjoin chunks /\ (length body <= MAX_MSG_SIZE)%nat
              /\ tr = (recv_chunk stream <$> chunks) ++ [Event (H3RecvData stream) (Ok None)]
  | OtherMethod _ => False
  end.
(** A request with this body was served to the end. *)
Definition h3_answered (handler : Handler S) req (stream : handle) body s tr s' : Prop :=
  match decode_request (dns_param req) body with
  | Ok query =>
      exists trh answer b, exec (handler query) s trh (Ok answer) s' /\ to_bytes answer = inr b
      /\ tr = trh ++ h3_reply stream OK dns_content b
  | _ => tr = h3_reply stream BAD_REQUEST dns_content [] /\ s' = s
  end.

(** A run of calls that either made exactly [good] or failed at one of them. *)
Definition sent (tr : list event) (r : res unit DohError) (good : list event) : Prop :=
  match r with Ok _ => tr = good | Err _ => Exists call_failed tr | Panic => False end.
Lemma sent_cons ev tr r good : sent tr r good -> sent (ev :: tr) r (ev :: good).
Proof. destruct r; simpl; [by intros ->|by right|done]. Qed.

Lemma exec_try_send {A B} (e : eff (res A string)) (k : A -> io S (res B DohError)) s tr r s' :
  (forall x : res A string, eff_ok e x -> x <> Panic) ->
  exec (io_try (io_map_err Quic (call e)) k) s tr r s' ->
  (exists e0, r = Err e0 /\ Exists call_failed tr /\ s' = s)
  \/ exists a tr', tr = Event e (Ok a) :: tr' /\ exec (k a) s tr' r s'.
Proof.
  intros Hnp. rewrite exec_try_call. intros (x & tr' & Hx & -> & H).
  destruct x as [a|e0|]; [right; eauto| |by eapply Hnp in Hx].
  destruct H as (-> & -> & ->). left. eexists. split; [done|]. split; [|done].
  constructor. by exists A, string, e, e0.
Qed.
Lemma exec_finish stream s tr (r : res unit DohError) s' :
  exec (S := S) (io_map_err Quic (call (H3Finish stream))) s tr r s' ->
  s' = s /\ sent tr r [Event (H3Finish stream) (Ok tt)].
Proof.
  simpl. intros (x & tr' & Hx & -> & -> & -> & ->). split; [done|].
  destruct x as [[]|e0|]; simpl; [done| |done]. constructor. by eexists _, _, _, e0.
Qed.
Lemma exec_send_response stream status b s tr (r : res unit DohError) s' :
  exec (send_response (S := S) stream status b) s tr r s' ->
  s' = s /\ sent tr r (h3_reply stream status dns_content b).
Proof.
  unfold send_response.
  intros [(e & -> & Hf & ->)|([] & tr1 & -> & H)]%exec_try_send; [done| |by intros []].
  assert (s' = s /\ sent tr1 r ((match b with [] => [] | _ => [Event (H3SendData stream b) (Ok tt)] end)
                               ++ [Event (H3Finish stream) (Ok tt)])) as [-> Hs]; [|split; [done|by apply sent_cons]].
  destruct b as [|x b]; [by apply exec_finish|].
  apply exec_try_send in H as [(e & -> & Hf & ->)|([] & tr2 & -> & H)]; [done| |by intros []].
  apply exec_finish in H as [-> H]. split; [done|by apply sent_cons].
Qed.
Lemma exec_send_unauthorized stream s tr (r : res unit DohError) s' :
  exec (send_unauthorized (S := S) stream) s tr r s' ->
  s' = s /\ sent tr r (h3_reply stream UNAUTHORIZED [("www-authenticate", "Basic")] []).
Proof.
  unfold send_unauthorized.
  intros [(e & -> & Hf & ->)|([] & tr1 & -> & H)]%exec_try_send; [done| |by intros []].
  apply exec_finish in H as [-> H]. split; [done|by apply sent_cons].
Qed.

(** The fuel lasts: the loop ends with the body, an error of the stream, or
    over the limit. *)
Lemma exec_recv_body what fuel stream acc s tr r s' :
  (MAX_MSG_SIZE < fuel + length acc)%nat -> (length acc <= MAX_MSG_SIZE)%nat ->
  exec (recv_body (S := S) what fuel stream acc) s tr r s' ->
  s' = s /\
  match r with
  | Ok body => exists chunks, body = acc ++ mjoin chunks /\ (length body <= MAX_MSG_SIZE)%nat
                /\ tr = (recv_chunk stream <$> chunks) ++ [Event (H3RecvData stream) (Ok None)]
  | Err e => Exists call_failed tr \/ e = Http (what +:+ " body too large")
  | Panic => False
  end.
Proof.
  revert acc tr. induction fuel as [|fuel IH]; intros acc tr Hf Hl; [lia|]. cbn [recv_body].
  rewrite exec_try_call. intros (x & tr1 & Hx & -> & H). destruct x as [[c|]|e|]; [| | |done].
  - simpl in Hx. destruct (Nat.ltb_spec MAX_MSG_SIZE (length (acc ++ c))) as [|Hlc].
    { destruct H as (-> & -> & ->). split; [done|]. by right. }
    apply IH in H as [-> H]; [|rewrite length_app; lia|done]. split; [done|]. destruct r as [body|e|].
    + destruct H as (chunks & -> & Hb & ->). exists (c :: chunks). by rewrite <- app_assoc in Hb |- *.
    + destruct H as [H|H]; [left; by right|by right].
    + done.
  - destruct H as (-> & -> & ->). split; [done|]. exists []. by rewrite app_nil_r.
  - destruct H as (-> & -> & ->). split; [done|]. do 2 left. by eexists _, _, _, e.
Qed.

(** How the serving of a request with this body ends. *)
Definition h3_served (handler : Handler S) req (stream : handle) body s tr (r : res unit DohError) s' : Prop :=
  match r with
  | Ok _ => h3_answered handler req stream body s tr s'
  | Err e =>
      Exists call_failed tr
      \/ exists query out, decode_request (dns_param req) body = Ok query
         /\ exec (handler query) s tr out s' /\ (let? answer := out in encode_response answer) = Err e
  | Panic => exists query, decode_request (dns_param req) body = Ok query /\ exec (handler query) s tr Panic s'
  end.
Lemma exec_h3_answer req stream (handler : Handler S) body s tr r s' :
  exec (h3_answer req stream handler body) s tr r s' -> h3_served handler req stream body s tr r s'.
Proof.
  unfold h3_answer, h3_served, h3_answered.
  destruct (decode_request _ _) as [query|e|] eqn:Hd; [| |by apply decode_request_not_Panic in Hd].
  - rewrite exec_try. intros (out & s1 & trh & tr1 & -> & Hh & H).
    destruct out as [answer|e|]; [|destruct H as (-> & -> & ->); rewrite app_nil_r; right; by exists query, (Err e)
                                  |destruct H as (-> & -> & ->); rewrite app_nil_r; by exists query].
    rewrite exec_try_ret in H. unfold encode_response in H.
    destruct (to_bytes answer) as [e|b] eqn:Hb; cbn [from_sum] in H.
    { destruct H as (-> & -> & ->). rewrite app_nil_r. right. exists query, (Ok answer).
      split; [done|]. split; [done|]. unfold encode_response. cbn. by rewrite Hb. }
    apply exec_send_response in H as [-> H]. destruct r as [u|e|]; [|left; by apply list.Exists_app; right|done].
    simpl in H. subst tr1. by exists trh, answer, b.
  - intros [-> H]%exec_send_response. destruct r; [by split|by left|done].
Qed.

(** C24: one DoH3 request. Served to the end, it sent exactly one response: 401
    without a valid credential, before the body is read or the handler runs;
    405 for another method than GET and POST; 400 when the request does not
    decode; and otherwise 200 with the packed bytes of the handler's answer to
    the decoded query. It fails only when a call on the stream fails, when the
    body is over the size limit, when the handler fails or when its answer does
    not pack, and it unwinds only when the handler does. *)
Theorem doh3_request_spec req stream (handler : Handler S) credentials s tr r s' :
  exec (h3_handle_request req stream handler credentials) s tr r s' ->
  if unauthorized credentials (rq_authorization req)
  then s' = s /\ sent tr r (h3_reply stream UNAUTHORIZED [("www-authenticate", "Basic")] [])
  else match rq_method req with
       | OtherMethod _ => s' = s /\ sent tr r (h3_reply stream METHOD_NOT_ALLOWED dns_content [])
       | m =>
           (m = POST /\ s' = s
            /\ exists e, r = Err e /\ (Exists call_failed tr \/ e = Http "request body too large"))
           \/ exists body tr1 tr2, h3_body_read req stream tr1 body /\ tr = tr1 ++ tr2
                /\ h3_served handler req stream body s tr2 r s'
       end.
Proof.
  unfold h3_handle_request. destruct (unauthorized _ _); [apply exec_send_unauthorized|].
  unfold h3_body_read. destruct (rq_method req); [| |apply exec_send_response].
  - intros H%exec_h3_answer. right. by exists [], [], tr.
  - rewrite exec_try. intros (rb & s1 & tr1 & tr2 & -> & Hb & H).
    apply exec_recv_body in Hb as [-> Hb]; [|simpl; lia|apply Nat.le_0_l].
    destruct rb as [body|e|]; [| |done].
    + destruct Hb as (chunks & -> & Hl & ->). apply exec_h3_answer in H. right. eexists _, _, tr2.
      split; [by exists chunks|done].
    + destruct H as (-> & -> & ->). left. rewrite app_nil_r. eauto.
Qed.
End Properties.

Section Witnesses.
#[local] Existing Instances Toy.lib Toy.codec Toy.laws ToyBase64.base64 ToyBase64.laws.
Definition w_pairs : list (string * string) := [("alice", "pa:ss"); ("bob", "")].
Lemma authorization_spec_witness :
  let c := credentials_new w_pairs in
  is_authorized c (Some (basic_header ("alice", "pa:ss"))) = true
  <-> "alice" +:+ ":" +:+ "pa:ss" ∈ ["alice:pa:ss"; "bob:"].
Proof.
  refine (proj1 (authorization_spec ["alice:pa:ss"; "bob:"] w_pairs "alice" "pa:ss" _)).
  repeat constructor.
Defined.

Definition w_creds : Credentials := credentials_new w_pairs.
Definition w_dns_query : @Message Toy.lib := Toy.query 7 "example.com." 1.
Definition w_enc : string := ToyBase64.encode (Toy.encode (set_id w_dns_query 0)).
Definition w_request : HttpServerRequest :=
  {| rq_method := GET; rq_authorization := Some (basic_header ("bob", ""));
     rq_query := Some ("dns=" +:+ w_enc); rq_body := 9%nat |}.
Definition w_resp_bytes : bytes := Toy.encode (Toy.reply (set_id w_dns_query 0) 60).
Definition w_http_response : HttpServerResponse :=
  {| rs_status := OK; rs_headers := dns_content; rs_body := w_resp_bytes |}.

Lemma w_handled : exec (handle_request w_request w_handler w_creds) tt [] (Ok w_http_response) tt.
Proof.
  unfold handle_request. rewrite exec_bind.
  exists (Ok w_http_response), tt, [], []. split; [reflexivity|]. split; [|by split_and!].
  unfold handle_request_inner.
  assert (unauthorized w_creds (rq_authorization w_request) = false) as -> by vm_refl.
  cbn [rq_method w_request]. rewrite exec_try. exists (Ok []), tt, [], [].
  split; [reflexivity|]. split; [by split_and!|]. rewrite exec_try.
  exists (Ok w_resp_bytes), tt, [], []. split; [reflexivity|]. split; [|by split_and!].
  unfold answer_query. rewrite exec_try. exists (Ok (set_id w_dns_query 0)), tt, [], [].
  split; [reflexivity|]. split; [split_and!; vm_refl|]. rewrite exec_try.
  exists (Ok (Toy.reply (set_id w_dns_query 0) 60)), tt, [], []. split; [reflexivity|].
  split; [by split_and!|]. split_and!; vm_refl.
Qed.

Lemma doh_request_spec_witness :
  (GET = POST /\ Ok (E := DohError) w_http_response = Ok (error_response BAD_REQUEST) /\ tt = tt
   /\ exists x, [] = [Event (HttpBody 9%nat) x]
       /\ forall body, x = Ok body -> (MAX_MSG_SIZE < length body)%nat)
  \/ exists body tr1 tr2, body_read w_request tr1 body /\ [] = tr1 ++ tr2
       /\ doh_answered w_handler w_request body tt tr2 (Ok w_http_response) tt.
Proof.
  pose proof (doh_request_spec w_request w_handler w_creds tt [] (Ok w_http_response) tt w_handled) as H.
  assert (unauthorized w_creds (rq_authorization w_request) = false) as Hu by vm_refl.
  rewrite Hu in H. exact H.
Defined.

Lemma doh_get_end_to_end_witness :
  exists out, exec (w_handler (set_id w_dns_query 0)) tt [] out tt /\
  match out with
  | Ok answer =>
      roundtrips answer ->
      rs_status w_http_response = OK
      /\ (msg_id answer = 0 -> answers_question w_dns_query answer ->
          decode_response (rs_body w_http_response) w_dns_query 7 = Ok (set_id answer 7))
  | Err _ => w_http_response = error_response BAD_REQUEST
  | Panic => False
  end.
Proof.
  refine (doh_get_end_to_end w_dns_query w_enc 7 w_request w_handler w_creds tt [] w_http_response tt
            _ _ _ _ _ w_handled); [vm_refl| |reflexivity|reflexivity|vm_refl].
  exists (Toy.encode (set_id w_dns_query 0)). split; vm_refl.
Defined.

(** A client without a header, over HTTP/3. *)
Definition w_anonymous : HttpServerRequest :=
  {| rq_method := GET; rq_authorization := None; rq_query := Some ("dns=" +:+ w_enc); rq_body := 9%nat |}.
Lemma doh3_request_spec_witness :
  tt = tt /\ sent (h3_reply 4%nat UNAUTHORIZED [("www-authenticate", "Basic")] []) (Ok tt)
               (h3_reply 4%nat UNAUTHORIZED [("www-authenticate", "Basic")] []).
Proof.
  refine (doh3_request_spec w_anonymous 4%nat w_handler w_creds tt
    (h3_reply 4%nat UNAUTHORIZED [("www-authenticate", "Basic")] []) (Ok tt) tt _).
  exists (Ok tt), [Event (H3Finish 4%nat) (Ok tt)]. split; [exact Logic.I|]. split; [reflexivity|].
  exists (Ok tt), []. split; [exact Logic.I|]. by split_and!.
Defined.
End Witnesses.
