(* ===== verification/ListenerTls.v ===== *)
(** * The DoT and DoQ listeners, and the server TLS files

    [src/listener/dot.rs], [src/listener/doq.rs], [src/listener/tls_config.rs],
    and the [serve] functions of the four encrypted listeners. The PEM parser
    and the TLS and QUIC configuration builders are an interface ([TlsLib]); the
    address a socket got ([local_addr]) is only logged. *)
From S2P Require Import Doq.
From S2P Require Import Prelude RustStr RustNet Io Dns Errors WebLib Wire Bootstrap Framing.
From S2P Require Import CryptoLib Crypto ListenerIo ListenerDnsCrypt.
Implicit Type P : forall X, eff X -> Prop.

(** [rustls_pemfile], [rustls::ServerConfig] and [QuicServerConfig::try_from]. *)
Class TlsLib := {
  Cert : Type;
  PrivateKey : Type;
  ServerConfig : Type;
  pem_certs : bytes -> string + list Cert;
  pem_private_key : bytes -> string + option PrivateKey;
  with_single_cert : list Cert -> PrivateKey -> string + ServerConfig;
  set_alpn_protocols : ServerConfig -> list bytes -> ServerConfig;
  quic_config_error : ServerConfig -> option string;
}.
Definition DOT_ALPN : list bytes := [].
Definition DOQ_SERVER_ALPN : list bytes := [as_bytes "doq"].
Definition DOH_ALPN : list bytes := [as_bytes "h2"; as_bytes "http/1.1"].
Definition DOH3_ALPN : list bytes := [as_bytes "h3"].

Section TlsConfig.
Context {S : Type} `{HT : TlsLib}.

Definition load_server_tls_config (cert_path key_path : string) (alpn : list bytes)
  : io S (res ServerConfig DohError) :=
  try* cert_file := io_map_err IoError (call (FsReadBytes cert_path)) in
  try* certs := IoRet (from_sum (fun e => Http ("reading " +:+ cert_path +:+ ": " +:+ e))
                         (pem_certs cert_file)) in
  match certs with
  | [] => IoRet (Err (Http ("no certificates found in " +:+ cert_path)))
  | _ =>
      try* key_file := io_map_err IoError (call (FsReadBytes key_path)) in
      try* key := IoRet (from_sum (fun e => Http ("reading " +:+ key_path +:+ ": " +:+ e))
                           (pem_private_key key_file)) in
      try* key := IoRet (ok_or (Http ("no private key found in " +:+ key_path)) key) in
      try* config := IoRet (from_sum (fun e => Http ("building tls config: " +:+ e))
                              (with_single_cert certs key)) in
      IoRet (Ok (set_alpn_protocols config alpn))
  end.

(** [serve_all] of the DoT and DoH listeners binds TCP sockets, that of the
    DoQ and DoH3 listeners QUIC endpoints. *)
Definition serve_tls (addr : SocketAddr) : io S (res handle DohError) :=
  try* listener := io_map_err IoError (bind_tcp addr) in
  try* bound_addr := io_map_err IoError (call (LocalAddr listener)) in
  IoRet (Ok listener).
Definition serve_all_tls (addrs : list SocketAddr) : io S (res (list handle) DohError) :=
  bind_each serve_tls addrs.
Definition serve_quic (config : ServerConfig) (addr : SocketAddr) : io S (res handle DohError) :=
  try* _ := IoRet (match quic_config_error config with Some e => Err (Quic e) | None => Ok tt end) in
  try* endpoint := io_map_err Quic (call (QuicEndpoint (show_socket_addr addr))) in
  try* bound_addr := io_map_err Quic (call (QuicLocalAddr endpoint)) in
  IoRet (Ok endpoint).
Definition serve_all_quic (config : ServerConfig) (addrs : list SocketAddr)
  : io S (res (list handle) DohError) :=
  bind_each (serve_quic config) addrs.
End TlsConfig.

Section Handlers.
Context {S : Type} `{HL : DnsLib} {HC : DnsCodec}.
Implicit Type handler : Handler S.

(** [handle_connection] of the DoT listener, for [n] queries. *)
Definition dot_handle_connection (n : nat) (tcp : handle) handler : io S (option (res unit DohError)) :=
  let* tls := io_map_err (fun e => Http ("tls handshake failed: " +:+ e)) (call (TlsAccept tcp)) in
  match tls with
  | Ok tls => answer_loop n "unpacking dot message: " tls handler
  | Err e => IoRet (Some (Err e))
  | Panic => IoRet (Some Panic)
  end.

(** [handle_stream] of the DoQ listener: one query per stream. *)
Definition doq_answer (send : handle) handler (req : Message) : io S (res unit DohError) :=
  if negb (msg_id req =? 0) then IoRet (Err (NonZeroId (msg_id req)))
  else
    try* resp := handler req in
    try* bytes := IoRet (from_sum Pack (to_bytes (set_id resp 0))) in
    if too_large bytes then IoRet (Err (Pack "response too large for doq framing"))
    else
      try* _ := write_framed Quic send bytes in
      try* _ := io_map_err Quic (call (QuicFinish send)) in
      let* _ := call (QuicStopped send) in
      IoRet (Ok tt).
Definition handle_stream (send recv : handle) handler : io S (res unit DohError) :=
  try* len_buf := io_map_err Quic (call (ReadExact recv 2)) in
  let len := from_be len_buf in
  if u16_max <? len then IoRet (Err (InvalidResponse "request too large"))
  else
    try* buf := io_map_err Quic (call (ReadExact recv (Z.to_nat len))) in
    try* req := IoRet (from_sum (invalid "unpacking doq request: ") (from_bytes buf)) in
    doq_answer send handler req.
End Handlers.

(** ** Lemmas *)
Section Lemmas.
Context {S : Type} `{HL : DnsLib} {HC : DnsCodec}.

Lemma exec_doq_answer send recv (handler : Handler S) R req s tr r s' :
  handler_within handler R send -> handler_within handler R recv ->
  exec (doq_answer send handler req) s tr r s' ->
  consumed recv tr = [] /\
  (msg_id req <> 0 -> r = Err (NonZeroId (msg_id req)) /\ tr = [] /\ s' = s) /\
  match r with
  | Ok _ => msg_id req = 0 /\ exists answer b, R req (Ok answer)
              /\ to_bytes (set_id answer 0) = inr b /\ Z.of_nat (length b) <= u16_max
              /\ written send tr = frame b
  | Err _ => True
  | Panic => R req Panic
  end.
Proof.
  intros Hs Hr. unfold doq_answer. destruct (Z.eqb_spec (msg_id req) 0) as [Hid|Hid]; cbn [negb].
  2: { intros (-> & -> & ->). by split_and!. }
  rewrite exec_try. intros (r0 & s1 & tr1 & tr2 & -> & Hh & H).
  apply Hs in Hh as Hh1. destruct Hh1 as (HR & Hw1 & _). apply Hr in Hh as (_ & _ & Hc1).
  rewrite consumed_app, written_app, Hc1, Hw1. cbn [app].
  destruct r0 as [answer|e|]; [|by destruct H as (-> & -> & ->)..].
  rewrite exec_try_ret in H.
  destruct (to_bytes (set_id answer 0)) as [e|b] eqn:Hb; cbn [from_sum] in H;
    [by destruct H as (-> & -> & ->)|].
  destruct (too_large b) eqn:Hl; [by destruct H as (-> & -> & ->)|].
  apply too_large_false in Hl as [Hl _].
  revert H. rewrite exec_try. intros (r2 & s3 & tr5 & tr6 & -> & (-> & Hc & Hnp & Hw)%exec_write_framed & H); [|done].
  rewrite consumed_app, written_app, Hc. cbn [app].
  destruct r2 as [[]|e|]; [|by destruct H as (-> & -> & ->)|].
  - rewrite Hw by done. rewrite exec_try_call in H. destruct H as (x & tr7 & Hx & -> & H).
    destruct x as [[]|e|]; [|by destruct H as (-> & -> & ->)|done].
    destruct H as (y & tr8 & _ & -> & -> & -> & ->). split; [done|]. split; [done|].
    split; [done|]. exists answer, b. split_and!; [done..|]. cbn. by rewrite app_nil_r.
  - by destruct (Hnp eq_refl).
Qed.

Lemma exec_handle_stream send recv (handler : Handler S) R s tr r s' :
  handler_within handler R send -> handler_within handler R recv ->
  exec (handle_stream send recv handler) s tr r s' ->
  match r with
  | Ok _ => exists packet req answer b,
      consumed recv tr = frame packet /\ Z.of_nat (length packet) <= u16_max
      /\ from_bytes packet = inr req /\ msg_id req = 0
      /\ R req (Ok answer) /\ to_bytes (set_id answer 0) = inr b /\ Z.of_nat (length b) <= u16_max
      /\ written send tr = frame b
  | Err _ => True
  | Panic => exists req, R req Panic
  end
  /\ (forall packet req, consumed recv tr = frame packet -> from_bytes packet = inr req ->
       msg_id req <> 0 -> Z.of_nat (length packet) <= u16_max ->
       s' = s /\ written send tr = [] /\ exists e, r = Err e).
Proof.
  intros Hs Hr. unfold handle_stream. rewrite exec_try_call. intros (x & tr1 & Hx & -> & H).
  destruct x as [l|e|]; [|destruct H as (-> & -> & ->)|done].
  2: { split; [done|]. intros. split_and!; eauto. }
  simpl in Hx. apply from_be_2 in Hx as Hl. destruct Hl as [Hrange Hl].
  revert H. cbv zeta. destruct (Z.ltb_spec u16_max (from_be l)) as [|Hle]; [lia|].
  rewrite exec_try_call. intros (x & tr2 & Hy & -> & H).
  destruct x as [b|e|]; [|destruct H as (-> & -> & ->)|done].
  2: { split; [done|]. intros. split_and!; eauto. }
  simpl in Hy. pose proof (consumed_frame recv _ _ tr2 Hx Hy) as Hc.
  rewrite exec_try_ret in H.
  destruct (from_bytes b) as [e|req] eqn:Hreq; cbn [from_sum] in H.
  { destruct H as (-> & -> & ->). split; [done|]. intros. split_and!; eauto. }
  destruct (exec_doq_answer _ _ _ _ _ _ _ _ _ Hs Hr H) as (Hc' & Hid & Hres). rewrite Hc', app_nil_r in Hc.
  split; [destruct r as [[]|e|]|].
  - destruct Hres as (Hz & answer & b' & HR & Hb' & Hlb & Hw). exists b, req, answer, b'.
    split_and!; [done|lia|done..].
  - done.
  - by exists req.
  - intros packet req' Hf Hreq' Hnz Hlen. rewrite Hc in Hf. rewrite <- (app_nil_r (frame b)), <- (app_nil_r (frame packet)) in Hf.
    apply frame_inj in Hf as <-; [|lia|done].
    rewrite Hreq in Hreq'. injection Hreq' as <-. destruct (Hid Hnz) as (-> & -> & ->). eauto.
Qed.

(** The client's side of a stream. *)
Lemma exec_exchange_on u c req (s : S) tr resp s' :
  exec (exchange_on u c req) s tr (Ok resp) s' ->
  exists stream b body, to_bytes (set_id req 0) = inr b
  /\ Event (QuicOpenBi c) (Ok stream) ∈ tr
  /\ written stream tr = frame b /\ Z.of_nat (length b) <= u16_max
  /\ consumed stream tr = frame body /\ Z.of_nat (length body) <= u16_max
  /\ unzero body req (msg_id req) = Ok resp.
Proof.
  unfold exchange_on. rewrite exec_try_ret.
  destruct (to_bytes (set_id req 0)) as [e|b] eqn:Hb; cbn [from_sum]; [by intros (_ & ? & _)|].
  destruct (too_large b) eqn:Hl; [by intros (_ & ? & _)|]. apply too_large_false in Hl as [Hl _].
  cbv zeta. intros (tr0 & H & Hsame & Hin)%exec_maybe_timeout.
  enough (exists stream body, Event (QuicOpenBi c) (Ok stream) ∈ tr0 /\ written stream tr0 = frame b
          /\ consumed stream tr0 = frame body /\ Z.of_nat (length body) <= u16_max
          /\ unzero body req (msg_id req) = Ok resp)
    as (stream & body & Ho & Hw & Hc & Hlb & Hu).
  { exists stream, b, body. destruct (Hsame stream) as [-> ->]. split_and!; auto. }
  revert H. rewrite exec_try_call. intros (x & tr1 & _ & -> & H).
  destruct x as [stream|e|]; [|by destruct H as (_ & ? & _)..]. exists stream.
  revert H. rewrite exec_try. intros (r & s1 & tr2 & tr3 & -> & (-> & Hc & _ & Hw)%exec_write_framed & H); [|done].
  destruct r as [[]|e|]; [|by destruct H as (_ & ? & _)..]. specialize (Hw eq_refl).
  revert H. rewrite exec_try_call. intros (x & tr4 & _ & -> & H).
  destruct x as [[]|e|]; [|by destruct H as (_ & ? & _)..].
  revert H. rewrite exec_try_call. intros (x & tr5 & Hx & -> & H).
  destruct x as [l|e|]; [|by destruct H as (_ & ? & _)..].
  destruct (_ <? _)%nat; [by destruct H as (_ & ? & _)|].
  revert H. rewrite exec_try_call. intros (x & tr6 & Hy & -> & H).
  destruct x as [body|e|]; [|by destruct H as (_ & ? & _)..].
  destruct H as (-> & Hu & ->). exists body. split; [by left|]. simpl in Hx, Hy.
  pose proof (consumed_frame stream _ _ [] Hx Hy) as Hf.
  apply from_be_2 in Hx as [? _].
  split; [|split; [|split; [lia|by rewrite Hu]]].
  - change (written stream (tr2 ++ Event (QuicFinish stream) (Ok tt) :: Event (ReadExact stream 2) (Ok l)
      :: [Event (ReadExact stream (Z.to_nat (from_be l))) (Ok body)]) = frame b).
    rewrite written_app, Hw. apply app_nil_r.
  - change (consumed stream (tr2 ++ Event (QuicFinish stream) (Ok tt) :: Event (ReadExact stream 2) (Ok l)
      :: [Event (ReadExact stream (Z.to_nat (from_be l))) (Ok body)]) = frame body).
    rewrite consumed_app, Hc. cbn [app]. rewrite app_nil_r in Hf. exact Hf.
Qed.
End Lemmas.

(** ** Properties *)
Section Properties.
Context {S : Type} `{HL : DnsLib} {HC : DnsCodec}.

(** The DoQ listener answers one query per stream: a stream that is served
    carried exactly one framed query with a zero identifier and got back one
    frame, the handler's answer with its identifier reset to zero; a query
    with another identifier is refused before the handler runs, and nothing is
    written; the listener unwinds only when the handler does. *)
Theorem doq_stream_spec send recv (handler : Handler S) R s tr r s' :
  handler_within handler R send -> handler_within handler R recv ->
  exec (handle_stream send recv handler) s tr r s' ->
  match r with
  | Ok _ => exists packet req answer b,
      consumed recv tr = frame packet /\ Z.of_nat (length packet) <= u16_max
      /\ from_bytes packet = inr req /\ msg_id req = 0
      /\ R req (Ok answer) /\ to_bytes (set_id answer 0) = inr b /\ Z.of_nat (length b) <= u16_max
      /\ written send tr = frame b
  | Err _ => True
  | Panic => exists req, R req Panic
  end
  /\ (forall packet req, consumed recv tr = frame packet -> from_bytes packet = inr req ->
       msg_id req <> 0 -> Z.of_nat (length packet) <= u16_max ->
       s' = s /\ written send tr = [] /\ exists e, r = Err e).
Proof. intros Hs Hr. by apply exec_handle_stream. Qed.

(** C18: doQ end to end: when the client's exchange of a query that survives
    the codec under the identifier zero ([roundtrips]: packing it and parsing
    the bytes gives it back) succeeds over a stream that the listener serves,
    each side reading the bytes the other wrote, the handler was run on exactly
    the client's query with a zero identifier and answered it, and the client
    returns a message that carries the client's own identifier and answers its
    question: the handler's answer under that identifier, when that answer
    survives the codec under the identifier zero too. *)
Theorem doq_end_to_end {T} u c req (t t' : T) trc resp send recv (handler : Handler S) R s trs s' :
  handler_within handler R send -> handler_within handler R recv ->
  roundtrips (set_id req 0) ->
  exec (exchange_on u c req) t trc (Ok resp) t' ->
  exec (handle_stream send recv handler) s trs (Ok tt) s' ->
  exists stream, Event (QuicOpenBi c) (Ok stream) ∈ trc /\
  (consumed recv trs = written stream trc -> consumed stream trc = written send trs ->
   exists answer, R (set_id req 0) (Ok answer) /\ answers_question req resp
   /\ msg_id resp = msg_id req
   /\ (roundtrips (set_id answer 0) -> resp = set_id answer (msg_id req))).
Proof.
  intros Hs Hr (b0 & Hb0 & Hb0') (stream & b & body & Hb & Ho & Hw & Hlb & Hc & Hlbody & Hu)%exec_exchange_on
    [(packet & req' & answer & b' & Hc' & Hlp & Hreq & Hid & HR & Hb' & Hlb' & Hw') _]%(exec_handle_stream _ _ _ R); [|done..].
  exists stream. split; [done|]. intros E1 E2.
  rewrite Hb in Hb0. injection Hb0 as <-. rewrite Hc', Hw in E1. rewrite Hc, Hw' in E2.
  rewrite <- (app_nil_r (frame packet)), <- (app_nil_r (frame b)) in E1. apply frame_inj in E1 as ->; [|done..].
  rewrite <- (app_nil_r (frame body)), <- (app_nil_r (frame b')) in E2. apply frame_inj in E2 as ->; [|done..].
  rewrite Hb0' in Hreq. injection Hreq as <-. exists answer. split; [done|].
  pose proof (unzero_ok b' req (msg_id req)) as Hok. rewrite Hu in Hok. split; [exact Hok|].
  unfold unzero in Hu. destruct (from_bytes b') as [e|m] eqn:Hm; cbn [from_sum res_bind] in Hu; [done|].
  destruct (negb (msg_id m =? 0)); [done|].
  destruct (validate_response req _) as [[]| |]; [|done..]. cbn [res_bind] in Hu. injection Hu as <-.
  split; [done|]. intros (b1 & Hb1 & Hb1'). rewrite Hb' in Hb1. injection Hb1 as <-.
  rewrite Hm in Hb1'. injection Hb1' as ->. done.
Qed.

(** A DoT connection answers nothing before the TLS handshake is done, and
    then its queries strictly in order, every answer one whole frame. *)
Theorem dot_in_order n tcp (handler : Handler S) R s tr out s' :
  (forall tls, handler_within handler R tls) ->
  exec (dot_handle_connection n tcp handler) s tr out s' ->
  (exists e, tr = [Event (TlsAccept tcp) (Err e)]
    /\ out = Some (Err (Http ("tls handshake failed: " +:+ e))) /\ s' = s)
  \/ exists tls tr' packets answers rest tail,
    tr = Event (TlsAccept tcp) (Ok tls) :: tr' /\ Forall2 (answer_of R) packets answers
    /\ consumed tls tr' = (packets ≫= frame) ++ rest
    /\ written tls tr' = (answers ≫= frame) ++ tail
    /\ match out with
       | None => length answers = n /\ tail = [] /\ rest = []
       | Some (Ok _) => tail = []
       | Some (Err _) => True
       | Some Panic => exists req, R req Panic
       end.
Proof.
  intros Hh. unfold dot_handle_connection. rewrite exec_bind.
  intros (r & s1 & tr1 & tr2 & -> & Ha & H). simpl in Ha. destruct Ha as (x & tr3 & Hx & -> & -> & -> & ->).
  destruct x as [tls|e|]; [|left|done].
  - right. apply answer_loop_in_order with (R := R) in H as (ps & bs & rest & tail & H); [|done].
    exists tls, tr2, ps, bs, rest, tail. by split.
  - destruct H as (-> & -> & ->). by exists e.
Qed.
End Properties.

(** An instance: a PEM file is its only certificate or key. *)
Module ToyTls.
#[export] Instance lib : TlsLib := {
  Cert := bytes; PrivateKey := bytes; ServerConfig := list bytes * list bytes;
  pem_certs b := inr (match b with [] => [] | _ => [b] end);
  pem_private_key b := inr (match b with [] => None | _ => Some b end);
  with_single_cert certs key := inr (certs, []);
  set_alpn_protocols c alpn := (c.1, alpn);
  quic_config_error c := None;
}.
End ToyTls.

Section Witnesses.
#[local] Existing Instances Toy.lib Toy.codec Toy.laws.
(** A query that goes over DoQ, and its answer. *)
Definition w_doq_packet : bytes := Toy.encode (set_id w_query 0).
Definition w_doq_answer : bytes := Toy.encode (set_id (Toy.reply (set_id w_query 0) 60) 0).
Definition w_doq_served : list event :=
  [Event (ReadExact 2%nat 2) (Ok (w_len w_doq_packet));
   Event (ReadExact 2%nat (length w_doq_packet)) (Ok w_doq_packet);
   Event (WriteAll 1%nat (w_len w_doq_answer)) (Ok tt); Event (WriteAll 1%nat w_doq_answer) (Ok tt);
   Event (QuicFinish 1%nat) (Ok tt); Event (QuicStopped 1%nat) tt].
Definition w_doq_sent : list event :=
  [Event (QuicOpenBi 3%nat) (Ok 4%nat);
   Event (WriteAll 4%nat (w_len w_doq_packet)) (Ok tt); Event (WriteAll 4%nat w_doq_packet) (Ok tt);
   Event (QuicFinish 4%nat) (Ok tt); Event (ReadExact 4%nat 2) (Ok (w_len w_doq_answer));
   Event (ReadExact 4%nat (length w_doq_answer)) (Ok w_doq_answer)].
Definition w_doq_client : DoqUpstream (option handle) :=
  MkDoq "dns.example" 853 "" SystemResolver false None false whole.
Definition w_doq_response : @Message Toy.lib := set_id (Toy.reply (set_id w_query 0) 60) 7.

Lemma w_doq_serves : exec (handle_stream 1%nat 2%nat w_handler) tt w_doq_served (Ok tt) tt.
Proof.
  unfold handle_stream. rewrite exec_try_call. exists (Ok (w_len w_doq_packet)), (drop 1 w_doq_served).
  split; [reflexivity|]. split; [reflexivity|].
  assert (from_be (w_len w_doq_packet) = Z.of_nat (length w_doq_packet)) as -> by vm_refl.
  rewrite Nat2Z.id. cbv zeta.
  assert ((u16_max <? Z.of_nat (length w_doq_packet)) = false) as -> by vm_refl.
  rewrite exec_try_call. exists (Ok w_doq_packet), (drop 2 w_doq_served).
  split; [reflexivity|]. split; [reflexivity|].
  rewrite exec_try_ret. assert (from_bytes w_doq_packet = inr (set_id w_query 0)) as -> by vm_refl.
  cbn [from_sum]. unfold doq_answer. change (negb (msg_id (set_id w_query 0) =? 0)) with false. cbv iota.
  rewrite exec_try. exists (Ok (Toy.reply (set_id w_query 0) 60)), tt, [], (drop 2 w_doq_served).
  split; [reflexivity|]. split; [by split_and!|].
  rewrite exec_try_ret.
  assert (to_bytes (set_id (Toy.reply (set_id w_query 0) 60) 0) = inr w_doq_answer) as -> by vm_refl.
  cbn [from_sum]. assert (too_large w_doq_answer = false) as -> by vm_refl.
  rewrite exec_try. exists (Ok tt), tt, (take 2 (drop 2 w_doq_served)), (drop 4 w_doq_served).
  split; [reflexivity|]. split.
  - unfold write_framed. rewrite exec_try_call. exists (Ok tt), [Event (WriteAll 1%nat w_doq_answer) (Ok tt)].
    split; [exact Logic.I|]. split; [vm_refl|].
    exists (Ok tt), []. split; [exact Logic.I|]. by split_and!.
  - rewrite exec_try_call. exists (Ok tt), (drop 5 w_doq_served).
    split; [exact Logic.I|]. split; [reflexivity|].
    exists tt, []. by split_and!.
Qed.
Lemma w_doq_exchanged :
  exec (exchange_on w_doq_client 3%nat w_query) None w_doq_sent (Ok w_doq_response) None.
Proof.
  unfold exchange_on. rewrite exec_try_ret.
  assert (to_bytes (set_id w_query 0) = inr w_doq_packet) as -> by vm_refl.
  cbn [from_sum]. assert (too_large w_doq_packet = false) as -> by vm_refl.
  change (Doq.timeout w_doq_client) with (@None Z). unfold maybe_timeout. cbv iota zeta.
  rewrite exec_try_call. exists (Ok 4%nat), (drop 1 w_doq_sent).
  split; [exact Logic.I|]. split; [reflexivity|].
  rewrite exec_try. exists (Ok tt), None, (take 2 (drop 1 w_doq_sent)), (drop 3 w_doq_sent).
  split; [reflexivity|]. split.
  { unfold write_framed. rewrite exec_try_call. exists (Ok tt), [Event (WriteAll 4%nat w_doq_packet) (Ok tt)].
    split; [exact Logic.I|]. split; [vm_refl|].
    exists (Ok tt), []. split; [exact Logic.I|]. by split_and!. }
  rewrite exec_try_call. exists (Ok tt), (drop 4 w_doq_sent). split; [exact Logic.I|]. split; [reflexivity|].
  rewrite exec_try_call. exists (Ok (w_len w_doq_answer)), (drop 5 w_doq_sent).
  split; [reflexivity|]. split; [reflexivity|]. cbv zeta.
  assert (Z.to_nat (from_be (w_len w_doq_answer)) = length w_doq_answer) as -> by vm_refl.
  assert ((MAX_MSG_SIZE <? length w_doq_answer)%nat = false) as ->.
  { apply Nat.ltb_ge, Nat2Z.inj_le. rewrite MAX_MSG_SIZE_eq. by vm_compute. }
  rewrite exec_try_call. exists (Ok w_doq_answer), []. split; [reflexivity|]. split; [reflexivity|].
  split_and!; [done|vm_refl|done].
Qed.

Lemma doq_stream_spec_witness :
  exists packet req answer b, consumed 2%nat w_doq_served = frame packet
    /\ Z.of_nat (length packet) <= u16_max /\ from_bytes packet = inr req /\ msg_id req = 0
    /\ w_R req (Ok answer) /\ to_bytes (set_id answer 0) = inr b /\ Z.of_nat (length b) <= u16_max
    /\ written 1%nat w_doq_served = frame b.
Proof.
  refine (proj1 (doq_stream_spec 1%nat 2%nat w_handler w_R tt w_doq_served (Ok tt) tt
    (w_handler_within _) (w_handler_within _) w_doq_serves)).
Defined.
Lemma doq_end_to_end_witness :
  exists stream, Event (QuicOpenBi 3%nat) (Ok stream) ∈ w_doq_sent /\
  (consumed 2%nat w_doq_served = written stream w_doq_sent ->
   consumed stream w_doq_sent = written 1%nat w_doq_served ->
   exists answer, w_R (set_id w_query 0) (Ok answer) /\ answers_question w_query w_doq_response
   /\ msg_id w_doq_response = 7
   /\ (roundtrips (set_id answer 0) -> w_doq_response = set_id answer 7)).
Proof.
  refine (doq_end_to_end w_doq_client 3%nat w_query None None w_doq_sent w_doq_response
    1%nat 2%nat w_handler w_R tt w_doq_served tt (w_handler_within _) (w_handler_within _) _
    w_doq_exchanged w_doq_serves).
  exists w_doq_packet. split; vm_refl.
Defined.
Lemma dot_in_order_witness :
  (exists e, [Event (TlsAccept 1%nat) (Err "eof")] = [Event (TlsAccept 1%nat) (Err e)]
    /\ Some (A := res unit DohError) (Err (Http "tls handshake failed: eof"))
       = Some (Err (Http ("tls handshake failed: " +:+ e))) /\ tt = tt)
  \/ exists tls tr' packets answers rest tail,
    [Event (TlsAccept 1%nat) (Err "eof")] = Event (TlsAccept 1%nat) (Ok tls) :: tr'
    /\ Forall2 (answer_of w_R) packets answers
    /\ consumed tls tr' = (packets ≫= frame) ++ rest
    /\ written tls tr' = (answers ≫= frame) ++ tail /\ True.
Proof.
  refine (dot_in_order 3%nat 1%nat w_handler w_R tt [Event (TlsAccept 1%nat) (Err "eof")]
    (Some (Err (Http "tls handshake failed: eof"))) tt w_handler_within _).
  exists (Err "eof"), []. split; [exact Logic.I|]. split; [reflexivity|]. by split_and!.
Defined.
End Witnesses.
