(* ===== verification/MainArgs.v ===== *)
(** * The command line

    The parts of [src/main.rs] around [main]: the arguments and how they become
    addresses, bootstrap resolvers and rule lines. [clap]'s parsing is outside:
    an [Args] is what it hands over (the declarations it parses by are in [Cli.v]);
    every optional feature is on. *)
From S2P Require Import Doh.
From S2P Require Import Prelude RustStr RustNet Io Dns Errors WebLib Wire Bootstrap Framing.
From S2P Require Import CryptoLib Crypto Stamp Latency Upstream UpstreamUrl UpstreamConfig.

Module UpstreamModeArg.
Inductive t := Ordered | RoundRobin | LoadBalance.
Definition into (mode : t) : UpstreamMode :=
  match mode with
  | Ordered => UpstreamConfig.Ordered
  | RoundRobin => UpstreamConfig.RoundRobin
  | LoadBalance => UpstreamConfig.LoadBalance
  end.
End UpstreamModeArg.

(** Ports and counts are the integers of their Rust types; paths are as they
    are displayed. *)
Record Args := {
  listen : list SocketAddr;
  arg_port : option Z;
  arg_upstreams : list string;
  upstream_file : option string;
  arg_timeout : Z;
  upstream_mode : UpstreamModeArg.t;
  arg_bootstrap : list string;
  insecure : bool;
  arg_prefer_ipv6 : bool;
  http3 : bool;
  verbose : Z;
  log_level : string;
  no_timestamp : bool;
  arg_cache : bool;
  cache_size : nat;
  cache_min_ttl : Z;
  cache_max_ttl : Z;
  private_upstream : option string;
  quic_listen : list SocketAddr;
  quic_port : option Z;
  tls_listen : list SocketAddr;
  tls_port : option Z;
  https_listen : list SocketAddr;
  https_port : option Z;
  listener_tls_cert : option string;
  listener_tls_key : option string;
  doh_auth : list string;
  doh_auth_file : option string;
  dnscrypt_listen : list SocketAddr;
  dnscrypt_port : option Z;
  dnscrypt_config : option string;
  dnscrypt_generate_config : option string;
  dnscrypt_provider_name : option string;
}.

Definition PRIVATE_REVERSE_ZONES : list string :=
  ["10.in-addr.arpa"; "16.172.in-addr.arpa"; "17.172.in-addr.arpa"; "18.172.in-addr.arpa";
   "19.172.in-addr.arpa"; "20.172.in-addr.arpa"; "21.172.in-addr.arpa"; "22.172.in-addr.arpa";
   "23.172.in-addr.arpa"; "24.172.in-addr.arpa"; "25.172.in-addr.arpa"; "26.172.in-addr.arpa";
   "27.172.in-addr.arpa"; "28.172.in-addr.arpa"; "29.172.in-addr.arpa"; "30.172.in-addr.arpa";
   "31.172.in-addr.arpa"; "168.192.in-addr.arpa"; "127.in-addr.arpa"; "254.169.in-addr.arpa";
   "c.f.ip6.arpa"; "d.f.ip6.arpa"; "8.e.f.ip6.arpa"; "9.e.f.ip6.arpa";
   "a.e.f.ip6.arpa"; "b.e.f.ip6.arpa"; "0.0.0.0.0.0.0.0.0.0.0.0.0.0.0.0.0.0.0.0.0.0.0.0.0.0.0.0.0.0.0.ip6.arpa"].
Definition private_upstream_line (u : string) : string :=
  let zones := join "/" PRIVATE_REVERSE_ZONES in
  "[/" +:+ zones +:+ "/]" +:+ u.

(** ** Addresses *)
Definition UNSPECIFIED_V4 : IpAddr := V4 (Ipv4 x00 x00 x00 x00).
Definition UNSPECIFIED_V6 : IpAddr := V6 (Ipv6 (replicate 8 0)).
Definition expand_listen (addrs : list SocketAddr) (port : option Z) : list SocketAddr :=
  match port with
  | Some port => [socket_addr_new UNSPECIFIED_V4 port; socket_addr_new UNSPECIFIED_V6 port]
  | None => addrs
  end.
Definition is_nil {A} (l : list A) : bool := match l with [] => true | _ => false end.
Definition is_some {A} (o : option A) : bool := match o with Some _ => true | None => false end.
Definition secure_listener_enabled (args : Args) : bool :=
  let quic := negb (is_nil (quic_listen args)) || is_some (quic_port args) in
  let tls := negb (is_nil (tls_listen args)) || is_some (tls_port args) in
  let https := negb (is_nil (https_listen args)) || is_some (https_port args) in
  let dnscrypt := negb (is_nil (dnscrypt_listen args)) || is_some (dnscrypt_port args) in
  quic || tls || https || dnscrypt.
Definition listen_addrs (args : Args) : list SocketAddr :=
  match arg_port args with
  | Some port => [socket_addr_new UNSPECIFIED_V4 port; socket_addr_new UNSPECIFIED_V6 port]
  | None =>
      if negb (is_nil (listen args)) then listen args
      else if secure_listener_enabled args then []
      else [SockV4 (Ipv4 x7f x00 x00 x01) 53]
  end.

(** ** Resolvers and rule lines *)
Section Assemble.
Context {S : Type} `{HL : DnsLib} {HC : DnsCodec} {HB : Base64} {HW : WebLib}.

Definition parse_bootstrap (s : string) (doh_opts : Options (Resolver S)) (cells : Cells S)
  : res (Resolver S) string :=
  if contains "://" s then
    let? upstream := parse_upstream s doh_opts cells in
    match parse_ip_addr (Doh.host upstream) with
    | None => Err ("bootstrap " +:+ debug_str s +:+ " must use a literal IP host, not a hostname")
    | Some _ => Ok (doh_resolver_lookup (Doh.exchange upstream))
    end
  else
    match parse_socket_addr s with
    | Some addr =>
        Ok (plain_resolver_lookup {| pr_addr := addr; pr_timeout := opt_timeout doh_opts |})
    | None =>
        match parse_ip_addr s with
        | Some ip =>
            Ok (plain_resolver_lookup {| pr_addr := socket_addr_new ip 53;
                                         pr_timeout := opt_timeout doh_opts |})
        | None => Err ("invalid bootstrap address: " +:+ s)
        end
    end.

(** The resolver behind [--bootstrap]; [boot_cells] holds the cells of the
    resolvers' own upstreams, [debug_errs] is as for [ParallelResolver]. *)
Definition bootstrap_resolver (debug_errs : list DohError -> string) (boot_cells : nat -> Cells S)
    (args : Args) (opts : Options (Resolver S)) : res (option (Resolver S)) string :=
  match arg_bootstrap args with
  | [] => Ok None
  | values =>
      let? resolvers := collect (imap (fun i s => parse_bootstrap s opts (boot_cells i)) values) in
      Ok (Some (ParallelResolver debug_errs resolvers))
  end.

Definition http_versions_of (args : Args) : list HttpVersion :=
  [Http11; Http2] ++ (if http3 args then [Http3] else []).
Definition base_options (args : Args) (bootstrap : option (Resolver S)) : Options (Resolver S) :=
  {| bootstrap := bootstrap; http_versions := http_versions_of args;
     opt_timeout := Some (from_secs (arg_timeout args)); insecure_skip_verify := insecure args;
     prefer_ipv6 := arg_prefer_ipv6 args; basic_auth := None |}.
End Assemble.

Section Files.
Context {S : Type}.
Definition read_text (path : string) : io S (res string string) :=
  io_map_err (fun e => "reading " +:+ path +:+ ": " +:+ e) (call (FsRead path)).
Definition read_opt (path : option string) : io S (res (option string) string) :=
  match path with
  | Some path => try* text := read_text path in IoRet (Ok (Some text))
  | None => IoRet (Ok None)
  end.
Fixpoint io_collect {A B E} (f : A -> io S (res B E)) (l : list A) : io S (res (list B) E) :=
  match l with
  | [] => IoRet (Ok [])
  | a :: l => try* b := f a in try* bs := io_collect f l in IoRet (Ok (b :: bs))
  end.
Definition read_upstream_arg (s : string) : io S (res string string) :=
  let* file := call (FsIsFile s) in
  if (file : bool) then read_text s else IoRet (Ok s).

(** The rule lines: the private-upstream line, then [--upstream], then the
    file. *)
Definition opt_list {A} (o : option A) : list A := match o with Some a => [a] | None => [] end.
Definition upstream_lines (args : Args) : io S (res (list string) string) :=
  try* file_text := read_opt (upstream_file args) in
  try* arg_text := io_collect read_upstream_arg (arg_upstreams args) in
  IoRet (Ok (opt_list (private_upstream_line <$> private_upstream args)
             ++ (arg_text ≫= lines) ++ (opt_list file_text ≫= lines))).
Definition show_rule_errors (errs : list (nat * string)) : string :=
  "parsing upstreams: "
  +:+ join "; " ((fun '(idx, e) => "line " +:+ dec (Z.of_nat idx + 1) +:+ ": " +:+ e) <$> errs).
End Files.

(** ** Reverse names and private ranges

    The name a PTR query for an address asks (RFC 1035 section 3.5, RFC 3596
    section 2.5), and the ranges [--private-upstream] is for. *)
Fixpoint dotted (labels : list string) : string :=
  match labels with [] => "" | l :: labels => l +:+ String LABEL_SEP (dotted labels) end.
Definition nibbles (s : Z) : list Z := [s / 4096 mod 16; s / 256 mod 16; s / 16 mod 16; s mod 16].
Definition reverse_labels (a : IpAddr) : list string :=
  match a with
  | V4 a => [dec (u8 (oct4 a)); dec (u8 (oct3 a)); dec (u8 (oct2 a)); dec (u8 (oct1 a));
             "in-addr"; "arpa"]
  | V6 a => (hex <$> rev (segments a ≫= nibbles)) ++ ["ip6"; "arpa"]
  end.
Definition reverse_name (a : IpAddr) : string := dotted (reverse_labels a).

Definition private_v4 (o1 o2 : Z) : bool :=
  (o1 =? 10) || ((o1 =? 172) && (16 <=? o2) && (o2 <=? 31)) || ((o1 =? 192) && (o2 =? 168))
  || (o1 =? 127) || ((o1 =? 169) && (o2 =? 254)).
(** fc00::/7, fe80::/10 and ::/124. *)
Definition private_v6 (segs : list Z) : bool :=
  match segs with
  | s0 :: _ => (s0 / 2 ^ 9 =? 126) || (s0 / 2 ^ 6 =? 1018)
  | [] => false
  end
  || (forallb (Z.eqb 0) (take 7 segs) && (default 16 (segs !! 7%nat) <? 16)).
Definition private_addr (a : IpAddr) : bool :=
  match a with
  | V4 a => private_v4 (u8 (oct1 a)) (u8 (oct2 a))
  | V6 a => private_v6 (segments a)
  end.
Definition valid_addr (a : IpAddr) : Prop :=
  match a with
  | V4 _ => True
  | V6 a => length (segments a) = 8%nat /\ Forall (fun s => 0 <= s <= u16_max) (segments a)
  end.

(** *** Dotted names *)
Definition no_sep (l : string) : Prop := char_in LABEL_SEP l = false.
Lemma dotted_inj ls ms : Forall no_sep ls -> Forall no_sep ms -> dotted ls = dotted ms -> ls = ms.
Proof.
  intros Hl. revert ms. induction Hl as [|l ls Hl _ IH]; intros ms Hm E.
  - destruct Hm as [|m ms Hm _]; [done|]. by destruct m.
  - destruct Hm as [|m ms Hm Hms]; [by destruct l|]. simpl in E.
    apply (f_equal (split_once_char LABEL_SEP)) in E. rewrite !split_once_char_app in E by done.
    injection E as -> E. f_equal. by apply IH.
Qed.
Lemma dotted_nil ls : dotted ls = "" <-> ls = [].
Proof. destruct ls as [|l ls]; [done|]. split; [|done]. simpl. by destruct l. Qed.
Lemma suffix_of_cons {A} (ms : list A) l ls :
  ms `suffix_of` l :: ls <-> ms = l :: ls \/ ms `suffix_of` ls.
Proof.
  split.
  - intros [[|x k] E]; [by left|]. right. injection E as _ ->. by exists k.
  - intros [->|[k ->]]; [done|]. by exists (l :: k).
Qed.
Lemma label_suffix_dotted ls d :
  Forall no_sep ls -> ls <> [] ->
  label_suffix (dotted ls) d <-> exists ms, ms `suffix_of` ls /\ ms <> [] /\ d = dotted ms.
Proof.
  intros Hall. revert d. induction Hall as [|l ls Hl Hls IH]; intros d Hne; [done|]. cbn [dotted].
  rewrite label_suffix_cut by done. setoid_rewrite suffix_of_cons.
  change (l +:+ String LABEL_SEP (dotted ls)) with (dotted (l :: ls)).
  destruct (decide (ls = [])) as [->|Hne'].
  - simpl. split.
    + intros [->|[? _]]; [|done]. exists [l]. eauto.
    + intros (ms & [->|Hs] & Hm & ->); [by left|]. by apply suffix_nil_inv in Hs.
  - rewrite dotted_nil, IH by done. split.
    + intros [->|(_ & ms & ? & ? & ->)]; [exists (l :: ls)|exists ms]; eauto.
    + intros (ms & [->|Hs] & Hm & ->); [by left|]. right. eauto.
Qed.

(** *** The private rule *)
Definition zone_domains : list string := (fun z => z +:+ String LABEL_SEP "") <$> PRIVATE_REVERSE_ZONES.
Definition zone_labels : list (list string) := split_char LABEL_SEP <$> PRIVATE_REVERSE_ZONES.
Lemma zone_domains_dotted : zone_domains = dotted <$> zone_labels.
Proof. vm_compute. reflexivity. Qed.
Lemma zone_labels_ok : Forall (fun ms => ms <> [] /\ Forall no_sep ms) zone_labels.
Proof. vm_compute. repeat constructor; discriminate. Qed.
Definition clean_zone (z : string) : bool :=
  negb (char_in "/" z) && negb (char_in "]" z) && negb (is_empty z)
  && String.eqb (to_ascii_lowercase z) z.
Lemma zones_checked : forallb clean_zone PRIVATE_REVERSE_ZONES = true.
Proof. vm_refl. Qed.
Lemma zones_clean :
  Forall (fun z => char_in "/" z = false /\ char_in "]" z = false /\ is_empty z = false
                   /\ to_ascii_lowercase z = z) PRIVATE_REVERSE_ZONES.
Proof.
  apply list.Forall_forall. intros z Hz%list_elem_of_In.
  pose proof (proj1 (List.forallb_forall _ _) zones_checked z Hz) as Hc.
  unfold clean_zone in Hc. rewrite !andb_true_iff, !negb_true_iff, String.eqb_eq in Hc. naive_solver.
Qed.

Lemma rule_domains_clean hosts :
  Forall (fun z => is_empty z = false /\ to_ascii_lowercase z = z) hosts ->
  rule_domains hosts = Ok ((fun z => z +:+ String LABEL_SEP "") <$> hosts).
Proof.
  induction 1 as [|z zs [Hz Hl] _ IH]; [done|]. simpl. rewrite Hz, IH. simpl. by rewrite Hl.
Qed.
Lemma split_whitespace_go_visible fuel cur s :
  (String.length s < fuel)%nat -> all_visible s = true ->
  split_whitespace_go fuel cur s = emit (cur +:+ s) [].
Proof.
  revert cur s. induction fuel as [|fuel IH]; intros cur s Hf Hs; [lia|].
  destruct s as [|c s].
  - simpl. by rewrite app_nil_r_str.
  - simpl in Hs. apply andb_true_iff in Hs as [Hc Hs]. cbn [split_whitespace_go].
    rewrite strip_ws_visible by done. rewrite IH by (simpl in Hf; lia || done).
    by rewrite app_assoc_str, app_cons_str, app_nil_l_str.
Qed.
Lemma split_whitespace_visible s :
  all_visible s = true -> s <> "" -> split_whitespace s = [s].
Proof.
  intros Hs Hne. unfold split_whitespace. rewrite split_whitespace_go_visible by (lia || done).
  rewrite app_nil_l_str. by destruct s.
Qed.

Lemma split_private_line u :
  all_visible u = true -> u <> "" ->
  trim (private_upstream_line u) = private_upstream_line u
  /\ split_config_line (private_upstream_line u) = Ok ([u], zone_domains).
Proof.
  intros Hv Hne. split.
  - unfold private_upstream_line. set (p := join "/" PRIVATE_REVERSE_ZONES).
    change ("[/" +:+ p +:+ "/]" +:+ u) with (String "["%char ("/" +:+ p +:+ "/]" +:+ u)).
    replace ("/" +:+ p +:+ "/]" +:+ u) with (("/" +:+ p +:+ "/]") +:+ u) by by rewrite !app_assoc_str.
    by apply trim_prefixed.
  - unfold split_config_line, private_upstream_line. rewrite strip_prefix_app.
    change ("/]" +:+ u) with (String "/" (String "]" u)).
    rewrite split_once_pair; [|done|vm_refl]. cbn [ok_or res_bind].
    assert (is_empty u = false) as -> by by destruct u.
    rewrite split_char_join; [|done|].
    + rewrite rule_domains_clean; [|eapply Forall_impl; [|exact zones_clean]; naive_solver].
      cbn [res_bind]. by rewrite split_whitespace_visible.
    + eapply Forall_impl; [|exact zones_clean]. naive_solver.
Qed.

(** *** Which names the zones cover *)
Definition matches (ls ms : list string) : bool :=
  (length ms <=? length ls)%nat && bool_decide (drop (length ls - length ms) ls = ms).
Lemma matches_suffix ls ms : matches ls ms = true <-> ms `suffix_of` ls.
Proof.
  unfold matches. rewrite andb_true_iff, Nat.leb_le, bool_decide_eq_true. split.
  - intros [_ <-]. exists (take (length ls - length ms) ls). by rewrite take_drop.
  - intros [k ->]. rewrite length_app. split; [lia|].
    replace (length k + length ms - length ms)%nat with (length k) by lia. apply drop_app_length.
Qed.
Lemma matches_tail pre ls ms :
  (length ms <= length ls)%nat -> matches (pre ++ ls) ms = matches ls ms.
Proof.
  intros Hl. unfold matches. rewrite length_app.
  replace (length pre + length ls - length ms)%nat with (length pre + (length ls - length ms))%nat by lia.
  rewrite (proj2 (Nat.leb_le (length ms) _)) by lia. rewrite (proj2 (Nat.leb_le _ _)) by done.
  by rewrite <- drop_drop, drop_app_length.
Qed.
Lemma matches_short ls ms : (length ls < length ms)%nat -> matches ls ms = false.
Proof. intros. unfold matches. by rewrite (proj2 (Nat.leb_gt _ _)). Qed.
Definition covered (ls : list string) : bool := existsb (matches ls) zone_labels.

Definition all_bytes : list Byte.byte := (fun i => as_u8 (Z.of_nat i)) <$> seq 0 256.
Lemma all_bytes_complete b : In b all_bytes.
Proof.
  apply list_elem_of_In, list_elem_of_fmap. exists (Z.to_nat (u8 b)). pose proof (u8_range b).
  split; [|apply elem_of_seq; lia]. rewrite Z2Nat.id by lia. by rewrite as_u8_u8.
Qed.

(** The last two labels of a name decide its family. *)
Definition last2 (ls : list string) : list string := drop (length ls - 2) ls.
Lemma matches_last2 ls ms :
  (2 <= length ms)%nat -> matches ls ms = true -> last2 ms = last2 ls.
Proof.
  intros Hm [k ->]%matches_suffix. unfold last2. rewrite length_app.
  replace (length k + length ms - 2)%nat with (length k + (length ms - 2))%nat by lia.
  by rewrite <- drop_drop, drop_app_length.
Qed.
Definition of_family (f ms : list string) : bool := bool_decide (last2 ms = f).
Definition zones_of (f : list string) : list (list string) := List.filter (of_family f) zone_labels.
Definition covered_in (zones : list (list string)) (ls : list string) : bool :=
  existsb (matches ls) zones.
Lemma covered_family ls : covered ls = covered_in (zones_of (last2 ls)) ls.
Proof.
  assert (forallb (fun ms => 2 <=? length ms)%nat zone_labels = true) as Hlen by vm_refl.
  unfold covered, covered_in, zones_of. revert Hlen. induction zone_labels as [|ms l IH]; [done|].
  cbn [forallb existsb List.filter]. intros [Hm%Nat.leb_le Hl]%andb_true_iff. rewrite (IH Hl).
  unfold of_family at 2. case_bool_decide as Hf; [done|].
  destruct (matches ls ms) eqn:E; [|done]. by apply matches_last2 in E.
Qed.
Lemma existsb_ext_in {A} (f g : A -> bool) l :
  (forall x, In x l -> f x = g x) -> existsb f l = existsb g l.
Proof.
  induction l as [|x l IH]; intros Hf; [done|]. cbn [existsb]. rewrite Hf by by left.
  rewrite IH; [done|]. intros y Hy. apply Hf. by right.
Qed.
(** Only the last labels of a name matter for zones that have few. *)
Lemma covered_in_tail zs pre ls :
  forallb (fun ms => length ms <=? length ls)%nat zs = true ->
  covered_in zs (pre ++ ls) = covered_in zs ls.
Proof.
  intros Hz. apply existsb_ext_in. intros ms Hms. rewrite List.forallb_forall in Hz.
  apply matches_tail, Nat.leb_le, Hz, Hms.
Qed.

Definition v4_family : list string := ["in-addr"; "arpa"].
Definition v4_zones : list (list string) := Eval vm_compute in zones_of v4_family.
Lemma covered_v4_checked :
  forallb (fun b1 => forallb (fun b2 =>
    Bool.eqb (covered_in v4_zones [dec (u8 b2); dec (u8 b1); "in-addr"; "arpa"])
             (private_v4 (u8 b1) (u8 b2))) all_bytes) all_bytes = true.
Proof. vm_refl. Qed.
Lemma covered_v4 a : covered (reverse_labels (V4 a)) = private_addr (V4 a).
Proof.
  pose proof covered_v4_checked as Hc. rewrite List.forallb_forall in Hc.
  specialize (Hc (oct1 a) (all_bytes_complete _)). rewrite List.forallb_forall in Hc.
  specialize (Hc (oct2 a) (all_bytes_complete _)). apply Bool.eqb_prop in Hc.
  cbn [reverse_labels private_addr]. rewrite <- Hc.
  rewrite covered_family. change (last2 _) with v4_family. change (zones_of v4_family) with v4_zones.
  by apply (covered_in_tail v4_zones [dec (u8 (oct4 a)); dec (u8 (oct3 a))]).
Qed.

Definition v6_family : list string := ["ip6"; "arpa"].
(** The zones with few labels, and that of ::/124. *)
Definition v6_short : list (list string) :=
  Eval vm_compute in List.filter (fun ms => (length ms <=? 5)%nat) (zones_of v6_family).
Definition v6_long : list string := replicate 31 "0" ++ v6_family.
Lemma v6_zones : zones_of v6_family = v6_short ++ [v6_long].
Proof. vm_compute. reflexivity. Qed.

Definition private_nibbles (n1 n2 n3 : Z) : bool :=
  (n1 =? 15) && ((n2 =? 12) || (n2 =? 13) || ((n2 =? 14) && (8 <=? n3) && (n3 <=? 11))).
Definition all_nibbles : list Z := Z.of_nat <$> seq 0 16.
Lemma all_nibbles_complete n : 0 <= n < 16 -> In n all_nibbles.
Proof.
  intros Hn. apply list_elem_of_In, list_elem_of_fmap. exists (Z.to_nat n). rewrite elem_of_seq. lia.
Qed.
Lemma covered_v6_checked :
  forallb (fun n1 => forallb (fun n2 => forallb (fun n3 =>
    Bool.eqb (covered_in v6_short [hex n3; hex n2; hex n1; "ip6"; "arpa"]) (private_nibbles n1 n2 n3))
    all_nibbles) all_nibbles) all_nibbles = true.
Proof. vm_refl. Qed.
Lemma hex_zero_checked : forallb (fun n => Bool.eqb (String.eqb (hex n) "0") (n =? 0)) all_nibbles = true.
Proof. vm_refl. Qed.
Lemma hex_zeros l :
  Forall (fun n => 0 <= n < 16) l ->
  bool_decide ((hex <$> l) ++ v6_family = replicate (length l) "0" ++ v6_family) = forallb (Z.eqb 0) l.
Proof.
  intros Hl. apply Bool.eq_iff_eq_true. rewrite bool_decide_eq_true.
  induction Hl as [|n l Hn Hl IH]; [done|].
  cbn [fmap list_fmap length replicate app forallb]. rewrite andb_true_iff, <- IH.
  pose proof hex_zero_checked as Hc. rewrite List.forallb_forall in Hc.
  specialize (Hc n (all_nibbles_complete n Hn)). apply Bool.eqb_prop in Hc.
  rewrite Z.eqb_sym, <- Hc, String.eqb_eq. split; [intros [= -> ->]|intros [-> ->]]; done.
Qed.

Lemma nibble_range s : Forall (fun n => 0 <= n < 16) (nibbles s).
Proof. repeat constructor; apply Z.mod_pos_bound; lia. Qed.
Lemma segment_zero s : 0 <= s <= u16_max -> (0 =? s) = forallb (Z.eqb 0) (nibbles s).
Proof.
  unfold u16_max. intros Hs. cbn [nibbles forallb]. apply Bool.eq_iff_eq_true.
  rewrite !andb_true_iff, !Z.eqb_eq. Z.div_mod_to_equations. lia.
Qed.
Lemma segment_small s : 0 <= s <= u16_max ->
  (s <? 16) = forallb (Z.eqb 0) [s / 4096 mod 16; s / 256 mod 16; s / 16 mod 16].
Proof.
  unfold u16_max. intros Hs. cbn [forallb]. apply Bool.eq_iff_eq_true.
  rewrite !andb_true_iff, !Z.eqb_eq, Z.ltb_lt. Z.div_mod_to_equations. lia.
Qed.
Lemma segment_private s : 0 <= s <= u16_max ->
  (s / 2 ^ 9 =? 126) || (s / 2 ^ 6 =? 1018)
  = private_nibbles (s / 4096 mod 16) (s / 256 mod 16) (s / 16 mod 16).
Proof.
  unfold u16_max, private_nibbles. intros Hs. change (2 ^ 9) with 512. change (2 ^ 6) with 64.
  apply Bool.eq_iff_eq_true.
  rewrite !andb_true_iff, !orb_true_iff, !andb_true_iff, !Z.eqb_eq, !Z.leb_le.
  Z.div_mod_to_equations. lia.
Qed.
Lemma forallb_rev {A} (f : A -> bool) l : forallb f (rev l) = forallb f l.
Proof.
  induction l as [|x l IH]; [done|]. simpl. rewrite forallb_app, IH. simpl.
  by rewrite andb_true_r, andb_comm.
Qed.

Lemma covered_v6 a : valid_addr (V6 a) -> covered (reverse_labels (V6 a)) = private_addr (V6 a).
Proof.
  destruct a as [segs]. cbn [valid_addr segments reverse_labels private_addr]. intros [Hlen Hr].
  destruct segs as [|s0 [|s1 [|s2 [|s3 [|s4 [|s5 [|s6 [|s7 [|]]]]]]]]]; try done.
  set (high := [s7 / 4096 mod 16; s7 / 256 mod 16; s7 / 16 mod 16]).
  set (rest := rev (([s0; s1; s2; s3; s4; s5; s6] ≫= nibbles) ++ high)).
  change ((hex <$> rev ([s0; s1; s2; s3; s4; s5; s6; s7] ≫= nibbles)) ++ ["ip6"; "arpa"])
    with ([hex (s7 mod 16)] ++ (hex <$> rest) ++ v6_family).
  repeat match goal with H : Forall _ (_ :: _) |- _ => apply Forall_cons_1 in H as [? ?] end.
  assert (Forall (fun n => 0 <= n < 16) rest) as Hrest.
  { apply Forall_rev, Forall_app. split.
    - apply Forall_bind, list.Forall_forall. intros s _. apply nibble_range.
    - repeat constructor; apply Z.mod_pos_bound; lia. }
  rewrite covered_family. change (last2 _) with v6_family. rewrite v6_zones.
  unfold covered_in, private_v6. rewrite existsb_app. f_equal.
  - change ([hex (s7 mod 16)] ++ (hex <$> rest) ++ v6_family)
      with (([hex (s7 mod 16)] ++ (hex <$> rev (([s1; s2; s3; s4; s5; s6] ≫= nibbles) ++ high))
             ++ [hex (s0 mod 16)])
            ++ [hex (s0 / 16 mod 16); hex (s0 / 256 mod 16); hex (s0 / 4096 mod 16); "ip6"; "arpa"]).
    match goal with |- existsb (matches ?l) v6_short = _ =>
      change (covered_in v6_short l = (s0 / 2 ^ 9 =? 126) || (s0 / 2 ^ 6 =? 1018)) end.
    rewrite segment_private, covered_in_tail by done.
    pose proof covered_v6_checked as Hc.
    pose proof (fun n => Z.mod_pos_bound n 16 eq_refl) as Hm.
    rewrite List.forallb_forall in Hc. specialize (Hc _ (all_nibbles_complete _ (Hm (s0 / 4096)))).
    rewrite List.forallb_forall in Hc. specialize (Hc _ (all_nibbles_complete _ (Hm (s0 / 256)))).
    rewrite List.forallb_forall in Hc. specialize (Hc _ (all_nibbles_complete _ (Hm (s0 / 16)))).
    by apply Bool.eqb_prop in Hc.
  - cbn [existsb]. rewrite orb_false_r, matches_tail by done.
    transitivity (forallb (Z.eqb 0) rest); [by apply hex_zeros|].
    unfold rest. rewrite forallb_rev, forallb_app. cbn [mbind list_bind]. rewrite !forallb_app.
    unfold high. rewrite <- !segment_zero, <- segment_small by done. cbn. by rewrite !andb_true_r, <- !andb_assoc.
Qed.

(** The name of an address lies in a zone exactly when the address is private. *)
Lemma covered_private a : valid_addr a -> covered (reverse_labels a) = private_addr a.
Proof. destruct a; [intros _; apply covered_v4|apply covered_v6]. Qed.

Lemma zone_domains_nodup : NoDup zone_domains.
Proof. apply (bool_decide_unpack _). vm_compute. done. Qed.
Lemma filter_eq_nodup (l : list string) d :
  NoDup l -> filter (fun d' => d' = d) l = if decide (d ∈ l) then [d] else [].
Proof.
  induction 1 as [|x l Hx _ IH]; [done|]. rewrite filter_cons, IH.
  destruct (decide (x = d)) as [->|Hne].
  - rewrite decide_False, decide_True by (done || by left). done.
  - destruct (decide (d ∈ l)); [rewrite decide_True by (by right)|rewrite decide_False]; [done..|].
    by rewrite elem_of_cons; intros [?|?].
Qed.
#[local] Opaque zone_labels zone_domains.

(** *** Names of addresses *)
Lemma dec_byte_clean b : char_in LABEL_SEP (dec (u8 b)) = false /\ to_ascii_lowercase (dec (u8 b)) = dec (u8 b).
Proof.
  assert (forallb (fun b => negb (char_in LABEL_SEP (dec (u8 b)))
            && String.eqb (to_ascii_lowercase (dec (u8 b))) (dec (u8 b))) all_bytes = true) as Hc by vm_refl.
  rewrite List.forallb_forall in Hc. specialize (Hc b (all_bytes_complete b)).
  by rewrite andb_true_iff, negb_true_iff, String.eqb_eq in Hc.
Qed.
Lemma hex_nibble_clean n : 0 <= n < 16 -> char_in LABEL_SEP (hex n) = false /\ to_ascii_lowercase (hex n) = hex n.
Proof.
  intros Hn. assert (forallb (fun n => negb (char_in LABEL_SEP (hex n))
            && String.eqb (to_ascii_lowercase (hex n)) (hex n)) all_nibbles = true) as Hc by vm_refl.
  rewrite List.forallb_forall in Hc. specialize (Hc n (all_nibbles_complete n Hn)).
  by rewrite andb_true_iff, negb_true_iff, String.eqb_eq in Hc.
Qed.
Lemma reverse_labels_clean a :
  Forall (fun l => no_sep l /\ to_ascii_lowercase l = l) (reverse_labels a).
Proof.
  destruct a as [a|a]; cbn [reverse_labels].
  - repeat (constructor; [apply dec_byte_clean|]). by repeat constructor.
  - apply Forall_app. split; [|by repeat constructor]. apply Forall_fmap, Forall_rev, Forall_bind.
    apply list.Forall_forall. intros s _. eapply Forall_impl; [|exact (nibble_range s)].
    intros n. apply hex_nibble_clean.
Qed.
Lemma reverse_labels_nonempty a : reverse_labels a <> [].
Proof. destruct a as [a|a]; [done|]. by intros [_ ?]%app_eq_nil. Qed.
Lemma lowercase_dotted ls :
  Forall (fun l => to_ascii_lowercase l = l) ls -> to_ascii_lowercase (dotted ls) = dotted ls.
Proof.
  induction 1 as [|l ls Hl _ IH]; [done|]. cbn [dotted]. rewrite to_ascii_lowercase_app, Hl.
  cbn [to_ascii_lowercase]. by rewrite IH.
Qed.
Lemma reverse_name_zone a d :
  label_suffix (reverse_name a) d -> d ∈ zone_domains -> covered (reverse_labels a) = true.
Proof.
  pose proof (reverse_labels_clean a) as Hc. unfold reverse_name.
  assert (Forall no_sep (reverse_labels a)) as Hsep by (eapply Forall_impl; [|exact Hc]; naive_solver).
  rewrite label_suffix_dotted; [|done|apply reverse_labels_nonempty].
  intros (ms & Hms & _ & ->). rewrite zone_domains_dotted. intros (ms' & E & Hz)%list_elem_of_fmap.
  apply List.existsb_exists. exists ms'. split; [by apply list_elem_of_In|].
  apply matches_suffix. assert (ms = ms') as <-; [|done].
  apply dotted_inj; [|exact (proj2 (proj1 (list.Forall_forall _ _) zone_labels_ok ms' Hz))|done].
  destruct Hms as [k Hk]. rewrite Hk in Hsep. by apply Forall_app in Hsep as [_ ?].
Qed.
Lemma covered_zone a :
  covered (reverse_labels a) = true -> exists d, d ∈ zone_domains /\ label_suffix (reverse_name a) d.
Proof.
  intros (ms & Hz & Hm%matches_suffix)%List.existsb_exists. apply list_elem_of_In in Hz.
  pose proof (reverse_labels_clean a) as Hc.
  exists (dotted ms). rewrite zone_domains_dotted. split; [apply list_elem_of_fmap; eauto|].
  unfold reverse_name. apply label_suffix_dotted;
    [eapply Forall_impl; [|exact Hc]; naive_solver|apply reverse_labels_nonempty|].
  exists ms. split; [done|]. split; [|done]. exact (proj1 (proj1 (list.Forall_forall _ _) zone_labels_ok ms Hz)).
Qed.

(** ** What the command line makes of addresses *)
Section Routing.
Context {S : Type} {HB : Base64} {HW : WebLib}.
Context (alloc : nat -> Cells S) (cursor_of : option string -> cell S Z).
Context (base_opts : Options (Resolver S)).

(** A line without domains. *)
Definition plain_line (l : string) : Prop := starts_with "[/" (trim l) = false.
Lemma plain_line_items i l d :
  plain_line l -> line_items (i, l) ≫= item_strings (Some d) = [].
Proof.
  unfold plain_line, starts_with. intros Hp. unfold line_items.
  destruct (is_empty (trim l) || starts_with "#" (trim l)); [done|]. unfold split_config_line.
  by destruct (strip_prefix "[/" (trim l)).
Qed.
Lemma plain_items_from k ls d :
  Forall plain_line ls -> (imap (fun i l => (k + i, l)%nat) ls ≫= line_items) ≫= item_strings (Some d) = [].
Proof.
  intros Hls. revert k. induction Hls as [|l ls Hl _ IH]; intros k; [done|].
  cbn [imap mbind list_bind]. rewrite bind_app, plain_line_items by done. cbn [app].
  rewrite <- (IH (Datatypes.S k)). f_equal. f_equal. apply imap_ext. intros i x _. simpl. f_equal. lia.
Qed.

Lemma private_domains u rest m cfg :
  all_visible u = true -> u <> "" -> Forall plain_line rest ->
  parse_with_mode alloc cursor_of base_opts (private_upstream_line u :: rest) m = Ok cfg ->
  forall d, match domain_upstreams cfg !! d with
            | Some g => d ∈ zone_domains /\ exists t n, upstreams g = [t]
                          /\ parse_any_upstream u base_opts (alloc n) = Ok (upstream t)
            | None => d ∉ zone_domains
            end.
Proof.
  intros Hv Hne Hrest Hp d.
  pose proof (parse_with_mode_cases alloc cursor_of base_opts (private_upstream_line u :: rest) m) as Hc.
  rewrite Hp in Hc. cbv zeta in Hc. destruct Hc as (_ & _ & order & _ & _ & Hm). specialize (Hm d).
  assert (items (private_upstream_line u :: rest) ≫= item_strings (Some d)
          = (fun _ => u) <$> filter (fun d' => d' = d) zone_domains) as Hi.
  { unfold items. cbn [imap mbind list_bind]. rewrite bind_app.
    rewrite (plain_items_from 1) by done. rewrite app_nil_r.
    destruct (split_private_line u Hv Hne) as [Ht Hs]. unfold line_items. rewrite Ht, Hs.
    assert (is_empty (private_upstream_line u) || starts_with "#" (private_upstream_line u) = false) as ->
      by reflexivity.
    cbn [fmap list_fmap]. cbn [mbind list_bind]. rewrite app_nil_r.
    unfold item_strings. by destruct zone_domains. }
  rewrite Hi, filter_eq_nodup in Hm by apply zone_domains_nodup.
  destruct (domain_upstreams cfg !! d) as [g|].
  - destruct Hm as (Hd & Hg & _). destruct (decide (d ∈ zone_domains)); [|done]. split; [done|].
    unfold group_ok in Hg. cbn in Hg. inversion Hg as [|? t ? ts (n & _ & Hb & _) Hts Ex Ey]; subst.
    inversion Hts; subst. exists t, n. by split.
  - by destruct (decide (d ∈ zone_domains)).
Qed.

(** C21: [--private-upstream u] next to plain upstreams routes exactly the
    reverse lookups of private addresses: a PTR name goes to [u], alone in its
    group, when its address is in 10/8, 172.16/12, 192.168/16, 127/8,
    169.254/16, fc00::/7, fe80::/10 or ::/124, and to the default upstreams
    otherwise. *)
Theorem private_routing u rest m cfg a :
  all_visible u = true -> u <> "" -> Forall plain_line rest -> valid_addr a ->
  parse_with_mode alloc cursor_of base_opts (private_upstream_line u :: rest) m = Ok cfg ->
  let g := group_for cfg (reverse_name a) in
  if private_addr a then
    exists t n, upstreams g = [t] /\ parse_any_upstream u base_opts (alloc n) = Ok (upstream t)
  else g = default_upstreams cfg.
Proof.
  intros Hv Hne Hrest Ha Hp g. pose proof (private_domains _ _ _ _ Hv Hne Hrest Hp) as Hd.
  pose proof (group_for_most_specific cfg (reverse_name a)) as Hg. fold g in Hg.
  unfold reverse_name in Hg. rewrite lowercase_dotted in Hg
    by (eapply Forall_impl; [|exact (reverse_labels_clean a)]; naive_solver).
  fold (reverse_name a) in Hg. rewrite <- covered_private by done.
  destruct (covered (reverse_labels a)) eqn:Hc; destruct Hg as [(d & Hl & Hs & _)|[Hnone ->]].
  - specialize (Hd d). rewrite Hl in Hd. by destruct Hd as [_ ?].
  - apply covered_zone in Hc as (d & Hz & Hs). specialize (Hd d). by rewrite Hnone in Hd.
  - specialize (Hd d). rewrite Hl in Hd. destruct Hd as [Hz _].
    apply reverse_name_zone in Hs; [congruence|done].
  - done.
Qed.
End Routing.

(** ** Bootstrap resolvers need no resolver *)
Section Resolve.
Context {S : Type} `{HL : DnsLib} {HC : DnsCodec} {HD : DnsLaws} {HB : Base64} {HW : WebLib}.

(** Everything but a lookup by the system resolver. *)
Definition no_lookup : forall X, eff X -> Prop := fun X e =>
  match e with Getaddrinfo _ => False | _ => True end.
Lemma no_lookup_quiet : quiet no_lookup.
Proof. by intros X [] ?. Qed.

Lemma queries_bootstrap id name qt : queries (bootstrap_query id name qt) <> [].
Proof. unfold bootstrap_query. rewrite add_query_eq. cbn. by intros [_ ?]%app_nil. Qed.
Lemma doh_lookup_safe P (I : S -> Prop) exchange host :
  quiet P -> (forall req, safe P I (exchange req) (exchange_ok req)) ->
  safe P I (doh_resolver_lookup exchange host) (fun r => r <> Panic).
Proof.
  intros HP Hex. apply safe_lookups; [done|..]; unfold doh_resolver_query.
  all: apply safe_try_pure; [apply from_sum_not_Panic| |done]; intros name _.
  all: io_simpl; split; [call_ok|]; intros id _.
  all: eapply safe_try; [apply Hex|done|done|]; intros Hq; by apply queries_bootstrap in Hq.
Qed.

(** A resolver the command line accepts makes no lookup of its own, under any
    policy that lets it send its queries. *)
Lemma parsed_bootstrap_safe P (I : S -> Prop) s (doh_opts : Options (Resolver S)) cells r host :
  quiet P -> (forall h b, P _ (UdpSend h b)) -> (forall (u : Doh.DohUpstream S) req, Doh.requests_ok P u req) ->
  parse_bootstrap s doh_opts cells = Ok r ->
  (forall u, parse_upstream s doh_opts cells = Ok u -> Doh.cells_free I u) ->
  safe P I (r host) (fun out => out <> Panic).
Proof.
  intros HP Hudp Hreq Hp Hcells. unfold parse_bootstrap in Hp.
  destruct (contains "://" s).
  - apply res_bind_Ok in Hp as (u & Ha & Hp). specialize (Hcells u Ha).
    destruct (parse_ip_addr (Doh.host u)) as [ip|] eqn:Hip; [|done]. injection Hp as <-.
    apply doh_lookup_safe; [done|]. intros req. apply doh_exchange_safe; [done|done| |done].
    intros Hn. by rewrite Hn in Hip.
  - destruct (parse_socket_addr s) as [addr|]; [injection Hp as <-; by apply plain_lookup_safe|].
    destruct (parse_ip_addr s) as [ip|]; [injection Hp as <-; by apply plain_lookup_safe|done].
Qed.

(** C22: a bootstrap resolver the command line accepts never asks the system
    resolver, or any other, for its own address: whatever host is looked up
    through it, in any interleaving, no name lookup is made on its behalf, and
    it returns or fails without unwinding. *)
Theorem bootstrap_never_looks_up (I : S -> Prop) s (doh_opts : Options (Resolver S)) cells r :
  parse_bootstrap s doh_opts cells = Ok r ->
  (forall u, parse_upstream s doh_opts cells = Ok u -> Doh.cells_free I u) ->
  forall host, safe no_lookup I (r host) (fun out => out <> Panic).
Proof.
  intros Hp Hcells host. eapply parsed_bootstrap_safe; [apply no_lookup_quiet|done|done|exact Hp|done].
Qed.
End Resolve.

Section Witnesses.
#[local] Existing Instances ToyBase64.base64 ToyWeb.web.
Definition w_local : string := "udp://127.0.0.1:5353".
Definition w_lines : list string := [private_upstream_line w_local; "udp://192.0.2.1"].
Definition w_parsed : res (UpstreamConfig unit) (list (nat * string)) :=
  parse_with_mode (fun _ => w_cells) (fun _ => Cell (fun _ => 0) (fun _ s => s)) w_opts w_lines
    UpstreamConfig.Ordered.
Definition w_printer : IpAddr := V4 (Ipv4 x0a x01 x02 x03).
Lemma private_routing_witness :
  exists cfg t n, w_parsed = Ok cfg /\ reverse_name w_printer = "3.2.1.10.in-addr.arpa."
  /\ upstreams (group_for cfg (reverse_name w_printer)) = [t]
  /\ parse_any_upstream w_local w_opts (w_cells) = Ok (upstream t) /\ n = 0%nat.
Proof.
  assert (is_ok w_parsed = true) as Hok by vm_refl.
  destruct w_parsed as [cfg| |] eqn:Hp; [|discriminate Hok..].
  destruct (private_routing (fun _ => w_cells) (fun _ => Cell (fun _ => 0) (fun _ s => s)) w_opts
    w_local ["udp://192.0.2.1"] UpstreamConfig.Ordered cfg w_printer eq_refl ltac:(discriminate)
    ltac:(repeat constructor) Logic.I Hp) as (t & n & Hg & Hb).
  exists cfg, t, 0%nat. split; [reflexivity|]. split; [vm_refl|]. split; [exact Hg|]. split; [exact Hb|reflexivity].
Defined.

#[local] Existing Instances Toy.lib Toy.codec Toy.laws.
Lemma w_cells_free u :
  parse_upstream "https://192.0.2.1/dns-query" w_opts w_cells = Ok u -> Doh.cells_free (fun _ => True) u.
Proof.
  intros Hu. assert (match parse_upstream "https://192.0.2.1/dns-query" w_opts w_cells with
                     | Ok u => Doh.h3 u = w_none | _ => True end) as H3 by reflexivity.
  rewrite Hu in H3. split_and!; [done..|]. intros s _ x. by rewrite H3.
Qed.
Lemma bootstrap_never_looks_up_witness :
  exists r, parse_bootstrap "https://192.0.2.1/dns-query" w_opts w_cells = Ok r
  /\ safe no_lookup (fun _ => True) (r "dns.example") (fun out => out <> Panic).
Proof.
  assert (is_ok (parse_bootstrap "https://192.0.2.1/dns-query" w_opts w_cells) = true) as Hok by vm_refl.
  destruct (parse_bootstrap "https://192.0.2.1/dns-query" w_opts w_cells) as [r| |] eqn:Hp;
    [|discriminate Hok..].
  exists r. split; [reflexivity|].
  exact (bootstrap_never_looks_up (fun _ => True) _ w_opts w_cells r Hp w_cells_free "dns.example").
Defined.
End Witnesses.
