(* ===== verification/Main.v ===== *)
(** * Assembly

    [main] of [src/main.rs], from the arguments to the running listeners, in
    the order it does things. The store is the cache next to the store [S] of
    the upstreams' locks and counters: [alloc] and [boot_cells] give the cells
    of the configured upstreams and of the bootstrap resolvers, [cursor_of] the
    round-robin counters. Logging is left out. A [Running] stands for the
    listeners: their sockets, and the handler they all call; [Startup.v] has
    [main] as the task that spawns their loops while it goes on. *)
From S2P Require Import Prelude RustStr RustNet Io Dns Errors WebLib Wire Cache Bootstrap Framing.
From S2P Require Import CryptoLib Crypto Stamp Keygen DnsCrypt Latency Upstream UpstreamUrl.
From S2P Require Import UpstreamConfig ListenerIo ListenerDnsCrypt ListenerDoh ListenerTls MainArgs.
Implicit Type P : forall X, eff X -> Prop.

(** What [main] returns to the runtime: a [String], a [&str] or a [DohError]. *)
Inductive MainError := Msg (s : string) | Failed (e : DohError).

Section Main.
Context {S C : Type} `{HL : DnsLib} {HC : DnsCodec} {HB : Base64} {HW : WebLib} {HK : CryptoLib}.
Context {HT : TlsLib} {HLru : Lru CacheKey CacheEntry C}.
Context (debug_errs : list DohError -> string) (boot_cells alloc : nat -> Cells S).
Context (cursor_of : option string -> cell S Z).

Definition Store : Type := Cache C * S.

(** [println!], which unwinds when the standard output takes no more. *)
Definition println {E} (line : string) : io Store (res unit E) :=
  let* r := call (Println line) in
  IoRet (match r with Ok _ => Ok tt | _ => Panic end).
Definition run_dnscrypt_generate_config (path provider_name : string) : io Store (res unit string) :=
  let* config := generate provider_name in
  try* _ := save path config in
  try* _ := println ("Wrote DNSCrypt resolver config to " +:+ path) in
  try* _ := println "Stamp (replace the host:port with your public address before distributing to clients):" in
  try* _ := println (Keygen.stamp config (SockV4 (Ipv4 x00 x00 x00 x00) 443)) in
  IoRet (Ok tt).

(** The configured upstreams. *)
Definition upstream_config (args : Args) : io Store (res (UpstreamConfig S) MainError) :=
  let bootstrap_opts := base_options args None in
  try* bootstrap := IoRet (map_err Msg (bootstrap_resolver debug_errs boot_cells args bootstrap_opts)) in
  let base_opts := base_options args bootstrap in
  if is_nil (arg_upstreams args) && negb (is_some (upstream_file args)) then
    IoRet (Err (Msg "at least one of --upstream or --upstream-file is required"))
  else
    try* lines := io_map_err Msg (upstream_lines args) in
    IoRet (map_err (fun errs => Msg (show_rule_errors errs))
             (parse_with_mode alloc cursor_of base_opts lines
                (UpstreamModeArg.into (upstream_mode args)))).

Definition auth_lines (text : string) : list string :=
  List.filter (fun line => negb (is_empty line) && negb (starts_with "#" line)) (trim <$> lines text).
Definition doh_credentials (args : Args) : io Store (res Credentials MainError) :=
  try* text := io_map_err Msg (read_opt (doh_auth_file args)) in
  try* pairs := IoRet (map_err Msg
    (collect (parse_pair <$> doh_auth args ++ (opt_list text ≫= auth_lines)))) in
  IoRet (Ok (credentials_new pairs)).

(** The handler of every listener; with [--cache], a fresh cache in front. *)
Definition uncached (cfg : UpstreamConfig S) : Handler Store := fun req =>
  zoom snd (fun t s => (s.1, t)) (UpstreamConfig.into_handler cfg req).
Definition cached (cfg : UpstreamConfig S) : Handler Store :=
  Cache.into_handler (UpstreamConfig.into_handler cfg).
Definition cache_options (args : Args) : CacheOptions :=
  {| size := cache_size args; opt_min_ttl := from_secs (cache_min_ttl args);
     opt_max_ttl := if 0 <? cache_max_ttl args then Some (from_secs (cache_max_ttl args)) else None |}.
Definition build_handler (args : Args) (cfg : UpstreamConfig S)
  : io Store (res (Handler Store) MainError) :=
  if arg_cache args then
    if (cache_size args =? 0)%nat then IoRet (Err (Msg "--cache-size must be nonzero"))
    else
      let* _ := atomically (fun s : Store => (tt, (cache_new (cache_options args), s.2))) in
      IoRet (Ok (cached cfg))
  else IoRet (Ok (uncached cfg)).

(** ** The listeners *)
Record SecureListeners := {
  doq : list handle;
  dot : list handle;
  doh : list handle;
  doh3 : list handle;
}.
Definition no_listeners : SecureListeners := {| doq := []; dot := []; doh := []; doh3 := [] |}.
Definition when_any {A} (addrs : list SocketAddr) (p : io Store (res (list A) MainError))
  : io Store (res (list A) MainError) :=
  match addrs with [] => IoRet (Ok []) | _ => p end.
Definition load_tls (cert key : string) (alpn : list bytes) : io Store (res ServerConfig MainError) :=
  io_map_err Failed (load_server_tls_config cert key alpn).

Definition serve_secure (args : Args) : io Store (res SecureListeners MainError) :=
  let quic_addrs := expand_listen (quic_listen args) (quic_port args) in
  let tls_addrs := expand_listen (tls_listen args) (tls_port args) in
  let https_addrs := expand_listen (https_listen args) (https_port args) in
  if is_nil quic_addrs && is_nil tls_addrs && is_nil https_addrs then IoRet (Ok no_listeners)
  else
    try* cert := IoRet (ok_or (Msg "--tls-cert is required to enable any of --quic-listen/--tls-listen/--https-listen")
                          (listener_tls_cert args)) in
    try* key := IoRet (ok_or (Msg "--tls-key is required") (listener_tls_key args)) in
    try* doq := when_any quic_addrs
      (try* config := load_tls cert key DOQ_SERVER_ALPN in
       io_map_err Failed (serve_all_quic config quic_addrs)) in
    try* dot := when_any tls_addrs
      (try* config := load_tls cert key DOT_ALPN in
       io_map_err Failed (serve_all_tls tls_addrs)) in
    if is_nil https_addrs then IoRet (Ok {| doq := doq; dot := dot; doh := []; doh3 := [] |})
    else
      try* config := load_tls cert key (DOH_ALPN ++ DOH3_ALPN) in
      try* doh := io_map_err Failed (serve_all_tls https_addrs) in
      try* doh3 := io_map_err Failed (serve_all_quic config https_addrs) in
      IoRet (Ok {| doq := doq; dot := dot; doh := doh; doh3 := doh3 |}).

Definition saturating_add_u32 (a b : Z) : Z := Z.min u32_max (a + b).
Definition CLIENT_MAGIC : bytes := as_bytes "DNSC" ++ [x00; x00; x00; x00].
Definition serve_dnscrypt (args : Args)
  : io Store (res (option DnsCryptServerConfig * (list handle * list handle)) MainError) :=
  let dnscrypt_addrs := expand_listen (dnscrypt_listen args) (dnscrypt_port args) in
  if is_nil dnscrypt_addrs then IoRet (Ok (None, ([], [])))
  else
    try* config_path := IoRet (ok_or (Msg "--dnscrypt-config is required to enable --dnscrypt-listen/--dnscrypt-port")
                                 (dnscrypt_config args)) in
    try* resolver_config := io_map_err Msg (load config_path) in
    let* now := now_unix in
    let server_config :=
      config_new (Keygen.resolver_secret_key resolver_config) (provider_signing_key resolver_config)
        (config_name resolver_config) CLIENT_MAGIC 1 now
        (saturating_add_u32 now DEFAULT_CERT_TTL_SECS) in
    try* sockets := io_map_err Failed (ListenerDnsCrypt.serve_all dnscrypt_addrs dnscrypt_addrs) in
    IoRet (Ok (Some server_config, sockets)).

Record Running := {
  handler : Handler Store;
  credentials : Credentials;
  plain : list (handle * handle);
  secure : SecureListeners;
  dnscrypt : option DnsCryptServerConfig * (list handle * list handle);
}.

(** [expect]: a provider that is installed already unwinds. *)
Definition install_crypto_provider : io Store (res unit MainError) :=
  let* r := call InstallProvider in
  IoRet (match r with Ok _ => Ok tt | _ => Panic end).

(** [None]: a configuration was generated and the program exits. *)
Definition main (args : Args) : io Store (res (option Running) MainError) :=
  match dnscrypt_generate_config args with
  | Some path =>
      try* provider_name := IoRet (ok_or
        (Msg "--dnscrypt-provider-name is required with --dnscrypt-generate-config")
        (dnscrypt_provider_name args)) in
      try* _ := io_map_err Msg (run_dnscrypt_generate_config path provider_name) in
      IoRet (Ok None)
  | None =>
      try* _ := install_crypto_provider in
      try* cfg := upstream_config args in
      try* credentials := doh_credentials args in
      try* handler := build_handler args cfg in
      try* plain := io_map_err Failed (ListenerIo.serve_all (listen_addrs args)) in
      try* secure := serve_secure args in
      try* dnscrypt := serve_dnscrypt args in
      IoRet (Ok (Some {| handler := handler; credentials := credentials; plain := plain;
                         secure := secure; dnscrypt := dnscrypt |}))
  end.
End Main.

(** ** What a program binds

    The addresses of the sockets and QUIC endpoints bound in a trace. *)
Definition bound_ev (ev : event) : list string :=
  match ev with
  | Event e x =>
      match e in eff X return X -> list string with
      | SocketBind _ a => fun r => match r with Ok _ => [show_socket_addr a] | _ => [] end
      | QuicEndpoint a => fun r => match r with Ok _ => [a] | _ => [] end
      | _ => fun _ => []
      end x
  end.
Definition bound (tr : list event) : list string := tr ≫= bound_ev.
Lemma bound_app tr1 tr2 : bound (tr1 ++ tr2) = bound tr1 ++ bound tr2.
Proof. apply bind_app. Qed.

(** A policy for the upstream side: it answers no client. *)
Definition no_reply : forall X, eff X -> Prop := fun X e =>
  match e with
  | UdpSendTo _ _ _ | HttpReply _ _ _ _ | H3SendResponse _ _ _ | H3SendData _ _ => False
  | _ => True
  end.
Lemma no_reply_quiet : quiet no_reply.
Proof. by intros X [] ?. Qed.

(** When [p] succeeds it has bound exactly [l], in that order; it touches no
    shared state and answers no client. *)
Definition calm {S A} (p : io S A) : Prop := stateless p /\ safe no_reply (fun _ => True) p (fun _ => True).
Definition opens {S A E} (p : io S (res A E)) (l : list string) : Prop :=
  calm p /\ forall s tr a s', exec p s tr (Ok a) s' -> bound tr = l.
Lemma calm_bind {S A B} (p : io S A) (k : A -> io S B) : calm p -> (forall a, calm (k a)) -> calm (io_bind p k).
Proof.
  intros [Hp1 Hp2] Hk. split; [apply stateless_bind; [done|]; intros a; apply Hk|].
  eapply safe_bind; [exact Hp2|]. intros a _. apply Hk.
Qed.
Lemma calm_try {S A B E} (p : io S (res A E)) (k : A -> io S (res B E)) :
  calm p -> (forall a, calm (k a)) -> calm (io_try p k).
Proof. intros Hp Hk. apply calm_bind; [done|]. by intros []. Qed.
Lemma calm_call {S X} (e : eff X) : no_reply _ e -> calm (S := S) (call e).
Proof. by split. Qed.
Lemma calm_stateless {S A} (p : io S A) : calm p -> stateless p.
Proof. by intros []. Qed.

Section Opens.
Context {S : Type}.
Lemma opens_ret {A E} (r : res A E) : opens (S := S) (IoRet r) [].
Proof. split; [done|]. by intros s tr a s' (-> & _). Qed.
Lemma opens_call {A E} (e : eff (res A E)) l :
  no_reply _ e -> (forall a, bound_ev (Event e (Ok a)) = l) -> opens (S := S) (call e) l.
Proof.
  intros Hq He. split; [by apply calm_call|]. intros s tr a s' (x & tr' & _ & -> & -> & <- & _).
  change (bound_ev (Event e (Ok a)) ++ [] = l). by rewrite He, app_nil_r.
Qed.
Lemma opens_try {A B E} (p : io S (res A E)) (k : A -> io S (res B E)) l1 l2 :
  opens p l1 -> (forall a, opens (k a) l2) -> opens (io_try p k) (l1 ++ l2).
Proof.
  intros [Hp1 Hp2] Hk. split; [apply calm_try; [done|]; intros a; apply Hk|].
  intros s tr b s'. rewrite exec_try. intros (r & s1 & tr1 & tr2 & -> & H1 & H2).
  destruct r as [a|e|]; [|by destruct H2 as (_ & ? & _)..].
  rewrite bound_app. f_equal; [by eapply Hp2|by eapply Hk].
Qed.
Lemma opens_try_nil {A B E} (p : io S (res A E)) (k : A -> io S (res B E)) l :
  opens p [] -> (forall a, opens (k a) l) -> opens (io_try p k) l.
Proof. intros. by apply (opens_try p k []). Qed.
Lemma opens_map_err {A E F} (f : E -> F) (p : io S (res A E)) l : opens p l -> opens (io_map_err f p) l.
Proof.
  intros [H1 H2]. split; [by apply calm_bind|]. intros s tr a s'.
  unfold io_map_err. rewrite exec_bind. intros (r & s1 & tr1 & tr2 & -> & H & -> & Hr & ->).
  rewrite app_nil_r. destruct r as [b| |]; [|done..]. by eapply H2.
Qed.
(** A call whose answer is not a [Result]. *)
Lemma opens_plain_call {X B E} (e : eff X) (k : X -> io S (res B E)) l :
  no_reply _ e -> (forall x, bound_ev (Event e x) = []) -> (forall x, opens (k x) l) ->
  opens (io_bind (call e) k) l.
Proof.
  intros Hq He Hk. split; [apply calm_bind; [by apply calm_call|]; intros x; apply Hk|]. intros s tr b s' (x & tr' & _ & -> & H).
  change (bound_ev (Event e x) ++ bound tr' = l). rewrite He. by eapply Hk.
Qed.

Lemma opens_new_socket addr st : opens (S := S) (new_socket addr st) [show_socket_addr addr].
Proof.
  unfold new_socket. apply opens_try_nil; [by apply opens_call|]. intros h.
  apply opens_try_nil; [destruct (negb _); [by apply opens_call|apply opens_ret]|]. intros _.
  apply opens_try_nil; [by apply opens_call|]. intros _.
  apply (opens_try _ _ [show_socket_addr addr] []); [by apply opens_call|]. intros _.
  apply opens_try_nil; [by apply opens_call|]. intros _. apply opens_ret.
Qed.
Lemma opens_bind_tcp addr : opens (S := S) (bind_tcp addr) [show_socket_addr addr].
Proof.
  apply (opens_try _ _ [show_socket_addr addr] []); [apply opens_new_socket|]. intros h.
  do 2 (apply opens_try_nil; [by apply opens_call|]; intros _). apply opens_ret.
Qed.
Lemma opens_bind_udp addr : opens (S := S) (bind_udp addr) [show_socket_addr addr].
Proof.
  apply (opens_try _ _ [show_socket_addr addr] []); [apply opens_new_socket|]. intros h.
  apply opens_try_nil; [by apply opens_call|]. intros _. apply opens_ret.
Qed.
(** Asking for the address a socket got opens nothing. *)
Lemma opens_named {E F} (f : F -> E) (bind : io S (res handle E)) (name : handle -> eff (res SocketAddr F)) l :
  (forall h, no_reply _ (name h)) -> (forall h a, bound_ev (Event (name h) (Ok a)) = []) -> opens bind l ->
  opens (try* h := bind in try* _ := io_map_err f (call (name h)) in IoRet (Ok h)) l.
Proof.
  intros Hq Hn Hb. rewrite <- (app_nil_r l). apply opens_try; [done|]. intros h.
  apply opens_try_nil; [by apply opens_map_err, opens_call|]. intros _. apply opens_ret.
Qed.
Lemma opens_bind_each (bind : SocketAddr -> io S (res handle DohError)) addrs :
  (forall a, opens (S := S) (bind a) [show_socket_addr a]) ->
  opens (ListenerDnsCrypt.bind_each bind addrs) (show_socket_addr <$> addrs).
Proof.
  intros Hb. induction addrs as [|a addrs IH]; [apply opens_ret|].
  change (show_socket_addr <$> a :: addrs) with ([show_socket_addr a] ++ (show_socket_addr <$> addrs)).
  cbn [ListenerDnsCrypt.bind_each]. apply opens_try; [done|].
  intros h. rewrite <- (app_nil_r (_ <$> addrs)). apply opens_try; [exact IH|]. intros hs. apply opens_ret.
Qed.
Lemma opens_serve a : opens (S := S) (ListenerIo.serve a) [show_socket_addr a; show_socket_addr a].
Proof.
  apply (opens_try _ _ [show_socket_addr a] [show_socket_addr a]); [apply opens_map_err, opens_bind_udp|].
  intros udp. apply (opens_try _ _ [show_socket_addr a] []); [apply opens_map_err, opens_bind_tcp|].
  intros tcp. apply opens_ret.
Qed.
Lemma opens_serve_udp a : opens (S := S) (ListenerDnsCrypt.serve_udp a) [show_socket_addr a].
Proof. by apply opens_named; [| |apply opens_map_err, opens_bind_udp]. Qed.
Lemma opens_serve_tcp a : opens (S := S) (ListenerDnsCrypt.serve_tcp a) [show_socket_addr a].
Proof. by apply opens_named; [| |apply opens_map_err, opens_bind_tcp]. Qed.
Lemma opens_serve_tls a : opens (S := S) (serve_tls a) [show_socket_addr a].
Proof. apply opens_serve_tcp. Qed.
Lemma opens_serve_quic `{TlsLib} config a : opens (S := S) (serve_quic config a) [show_socket_addr a].
Proof.
  apply opens_try_nil; [apply opens_ret|]. intros _. by apply opens_named; [| |by apply opens_map_err, opens_call].
Qed.
Lemma opens_load `{Base64} `{CryptoLib} path : opens (S := S) (load path) [].
Proof. apply opens_try_nil; [by apply opens_map_err, opens_call|]. intros text. apply opens_ret. Qed.
Lemma opens_serve_all addrs :
  opens (S := S) (ListenerIo.serve_all addrs)
    (addrs ≫= fun a => [show_socket_addr a; show_socket_addr a]).
Proof.
  induction addrs as [|a addrs IH]; [apply opens_ret|].
  cbn [ListenerIo.serve_all mbind list_bind]. apply opens_try; [apply opens_serve|].
  intros h. rewrite <- (app_nil_r (_ ≫= _)). apply opens_try; [exact IH|]. intros hs. apply opens_ret.
Qed.
Lemma opens_serve_all_quic `{TlsLib} config addrs :
  opens (S := S) (serve_all_quic config addrs) (show_socket_addr <$> addrs).
Proof.
  apply opens_bind_each, opens_serve_quic.
Qed.
Lemma opens_load_server_tls_config `{TlsLib} cert key alpn :
  opens (S := S) (load_server_tls_config cert key alpn) [].
Proof.
  unfold load_server_tls_config. apply opens_try_nil; [by apply opens_map_err, opens_call|]. intros c.
  apply opens_try_nil; [apply opens_ret|]. intros [|c0 cs]; [apply opens_ret|].
  apply opens_try_nil; [by apply opens_map_err, opens_call|]. intros k.
  do 3 (apply opens_try_nil; [apply opens_ret|]; intros ?). apply opens_ret.
Qed.
Lemma opens_read_opt path : opens (S := S) (read_opt path) [].
Proof.
  destruct path as [p|]; [|apply opens_ret]. apply opens_try_nil; [by apply opens_map_err, opens_call|].
  intros t. apply opens_ret.
Qed.
Lemma opens_upstream_lines args : opens (S := S) (upstream_lines args) [].
Proof.
  unfold upstream_lines. apply opens_try_nil; [apply opens_read_opt|]. intros file.
  apply opens_try_nil; [|intros ?; apply opens_ret].
  induction (arg_upstreams args) as [|u us IH]; [apply opens_ret|].
  apply opens_try_nil.
  - apply opens_plain_call; [done|done|]. intros []; [by apply opens_map_err, opens_call|apply opens_ret].
  - intros t. apply opens_try_nil; [exact IH|]. intros ts. apply opens_ret.
Qed.
Lemma opens_exec {A E} (p : io S (res A E)) l s tr a s' :
  opens p l -> exec p s tr (Ok a) s' -> s' = s /\ bound tr = l.
Proof. intros [H1 H2] H. split; [by eapply stateless_exec; [apply H1|]|by eapply H2]. Qed.
(** The steps of a [?] chain that succeeds. *)
Lemma exec_try_Ok {A B E} (p : io S (res A E)) (k : A -> io S (res B E)) s tr b s'' :
  exec (io_try p k) s tr (Ok b) s'' ->
  exists a s' tr1 tr2, exec p s tr1 (Ok a) s' /\ exec (k a) s' tr2 (Ok b) s''
  /\ tr = tr1 ++ tr2.
Proof.
  rewrite exec_try. intros ([a| |] & s' & tr1 & tr2 & -> & H1 & H2);
    [by exists a, s', tr1, tr2|by destruct H2 as (_ & ? & _)..].
Qed.
(** A pure step: only its success matters. *)
Lemma opens_try_ret {A B E} (r : res A E) (k : A -> io S (res B E)) l :
  (forall a, r = Ok a -> opens (k a) l) -> opens (io_try (IoRet r) k) l.
Proof.
  intros Hk. destruct r as [a|e|]; [by apply Hk|..]; (split; [done|]; by intros ???? (_ & ? & _)).
Qed.
End Opens.

Section Assembly.
Context {S C : Type} `{HL : DnsLib} {HC : DnsCodec} {HB : Base64} {HW : WebLib} {HK : CryptoLib}.
Context {HT : TlsLib} {HLru : Lru CacheKey CacheEntry C}.
Context (debug_errs : list DohError -> string) (boot_cells alloc : nat -> Cells S).
Context (cursor_of : option string -> cell S Z).
Implicit Types (args : Args) (s : Store (S := S) (C := C)).

(** Every address the command line asks for, in the order of binding: plain
    DNS over UDP and TCP, DoQ, DoT, DoH, DoH3, DNSCrypt over UDP and TCP. *)
Definition plain_binds args : list string :=
  listen_addrs args ≫= fun a => [show_socket_addr a; show_socket_addr a].
Definition secure_binds args : list string :=
  (show_socket_addr <$> expand_listen (quic_listen args) (quic_port args))
  ++ (show_socket_addr <$> expand_listen (tls_listen args) (tls_port args))
  ++ (show_socket_addr <$> expand_listen (https_listen args) (https_port args))
  ++ (show_socket_addr <$> expand_listen (https_listen args) (https_port args)).
Definition dnscrypt_binds args : list string :=
  let addrs := expand_listen (dnscrypt_listen args) (dnscrypt_port args) in
  (show_socket_addr <$> addrs) ++ (show_socket_addr <$> addrs).

Lemma opens_when_any {A} addrs (p : io (Store (S := S) (C := C)) (res (list A) MainError)) :
  opens p (show_socket_addr <$> addrs) -> opens (when_any addrs p) (show_socket_addr <$> addrs).
Proof. intros Hp. destruct addrs; [apply opens_ret|exact Hp]. Qed.
Lemma opens_serve_all_tls addrs :
  opens (S := Store (S := S) (C := C)) (io_map_err Failed (serve_all_tls addrs)) (show_socket_addr <$> addrs).
Proof. apply opens_map_err, opens_bind_each, opens_serve_tls. Qed.
Lemma opens_serve_secure args :
  opens (serve_secure (S := S) (C := C) args) (secure_binds args).
Proof.
  unfold serve_secure, secure_binds.
  set (quic := expand_listen (quic_listen args) _). set (tls := expand_listen (tls_listen args) _).
  set (https := expand_listen (https_listen args) _). clearbody quic tls https.
  destruct (is_nil quic && is_nil tls && is_nil https) eqn:Hnil.
  { destruct quic, tls, https; try done. apply opens_ret. }
  apply opens_try_ret. intros cert _. apply opens_try_ret. intros key _.
  assert (forall alpn, opens (S := Store (S := S) (C := C)) (load_tls cert key alpn) []) as Hload
    by (intros; apply opens_map_err, opens_load_server_tls_config).
  apply opens_try.
  { apply opens_when_any, opens_try_nil; [done|]. intros config. apply opens_map_err, opens_serve_all_quic. }
  intros doq. apply opens_try.
  { apply opens_when_any, opens_try_nil; [done|]. intros config. apply opens_serve_all_tls. }
  intros dot. destruct https as [|a https]; [apply opens_ret|].
  apply opens_try_nil; [done|]. intros config. apply opens_try; [apply opens_serve_all_tls|].
  intros doh. rewrite <- (app_nil_r (show_socket_addr <$> _)).
  apply opens_try; [apply opens_map_err, opens_serve_all_quic|]. intros doh3. apply opens_ret.
Qed.
Lemma opens_serve_dnscrypt args :
  opens (serve_dnscrypt (S := S) (C := C) args) (dnscrypt_binds args).
Proof.
  unfold serve_dnscrypt, dnscrypt_binds. set (addrs := expand_listen _ _). clearbody addrs.
  destruct (is_nil addrs) eqn:Hnil; [destruct addrs; [apply opens_ret|done]|].
  apply opens_try_ret. intros path _.
  apply opens_try_nil.
  { apply opens_map_err, opens_load. }
  intros config. apply opens_plain_call; [done|done|]. intros t. cbn [io_bind].
  rewrite <- (app_nil_r (_ ++ _)). apply opens_try; [|intros sockets; apply opens_ret].
  apply opens_map_err. unfold ListenerDnsCrypt.serve_all.
  apply opens_try; [apply opens_bind_each, opens_serve_udp|]. intros udp.
  rewrite <- (app_nil_r (show_socket_addr <$> addrs)).
  apply opens_try; [apply opens_bind_each, opens_serve_tcp|]. intros tcp. apply opens_ret.
Qed.
Lemma opens_doh_credentials args : opens (doh_credentials (S := S) (C := C) args) [].
Proof.
  unfold doh_credentials. apply opens_try_nil; [apply opens_map_err, opens_read_opt|]. intros text.
  apply opens_try_ret. intros pairs _. apply opens_ret.
Qed.

Lemma serve_secure_needs args s tr x s' :
  exec (serve_secure (S := S) (C := C) args) s tr (Ok x) s' -> secure_binds args <> [] ->
  is_Some (listener_tls_cert args) /\ is_Some (listener_tls_key args).
Proof.
  unfold serve_secure, secure_binds. intros H Hne.
  destruct (is_nil _ && is_nil _ && is_nil _) eqn:Hnil.
  { destruct (expand_listen (quic_listen args) _), (expand_listen (tls_listen args) _),
      (expand_listen (https_listen args) _); done. }
  rewrite exec_try_ret in H. destruct (listener_tls_cert args); [|by destruct H as (_ & ? & _)].
  cbn [ok_or] in H. rewrite exec_try_ret in H.
  destruct (listener_tls_key args); [done|by destruct H as (_ & ? & _)].
Qed.
Lemma serve_dnscrypt_needs args s tr x s' :
  exec (serve_dnscrypt (S := S) (C := C) args) s tr (Ok x) s' -> dnscrypt_binds args <> [] ->
  is_Some (dnscrypt_config args).
Proof.
  unfold serve_dnscrypt, dnscrypt_binds. intros H Hne.
  destruct (is_nil _) eqn:Hnil; [by destruct (expand_listen (dnscrypt_listen args) _)|].
  rewrite exec_try_ret in H. destruct (dnscrypt_config args); [done|by destruct H as (_ & ? & _)].
Qed.

Lemma expand_disabled l p : negb (is_nil l) || is_some p = false -> expand_listen l p = [].
Proof. by destruct l, p. Qed.
Lemma expand_enabled l p : negb (is_nil l) || is_some p = true -> expand_listen l p <> [].
Proof. by destruct p, l. Qed.
Lemma binds_something args : plain_binds args ++ secure_binds args ++ dnscrypt_binds args <> [].
Proof.
  unfold plain_binds, secure_binds, dnscrypt_binds, listen_addrs.
  intros [Hp [[Hq [Ht [Hh _]%app_nil]%app_nil]%app_nil [Hd _]%app_nil]%app_nil]%app_nil.
  apply fmap_nil_inv in Hq, Ht, Hh, Hd.
  destruct (arg_port args); [done|]. destruct (listen args) as [|a l]; [|done]. cbn [is_nil negb] in Hp.
  destruct (secure_listener_enabled args) eqn:E; [|done].
  unfold secure_listener_enabled in E.
  apply orb_true_iff in E as [[[E|E]%orb_true_iff|E]%orb_true_iff|E]; by apply expand_enabled in E.
Qed.

(** Where a configuration comes from: the rule lines are those of the command
    line and of the files it names, as read during [tr]. *)
Definition text_of (tr : list event) (arg text : string) : Prop :=
  (Event (FsIsFile arg) false ∈ tr /\ text = arg)
  \/ (Event (FsIsFile arg) true ∈ tr /\ Event (FsRead arg) (Ok text) ∈ tr).
Definition file_of (tr : list event) (path text : option string) : Prop :=
  match path, text with
  | None, None => True
  | Some p, Some t => Event (FsRead p) (Ok t) ∈ tr
  | _, _ => False
  end.
Definition rule_lines (tr : list event) args (ls : list string) : Prop :=
  exists file_text arg_texts, file_of tr (upstream_file args) file_text
  /\ Forall2 (text_of tr) (arg_upstreams args) arg_texts
  /\ ls = opt_list (private_upstream_line <$> private_upstream args)
          ++ (arg_texts ≫= lines) ++ (opt_list file_text ≫= lines).
Lemma rule_lines_mono tr tr' args ls : tr ⊆ tr' -> rule_lines tr args ls -> rule_lines tr' args ls.
Proof.
  intros Hsub (f & ts & Hf & Ht & ->). exists f, ts. split_and!; [|eapply list.Forall2_impl; [exact Ht|]|done].
  - unfold file_of in *. repeat case_match; auto.
  - unfold text_of. naive_solver.
Qed.
Lemma exec_read_text {T} path (s : T) tr text (s' : T) :
  exec (read_text path) s tr (Ok text) s' -> Event (FsRead path) (Ok text) ∈ tr.
Proof.
  intros (x & tr' & _ & -> & -> & Hx & _). destruct x as [t|e|]; [|done..]. injection Hx as ->. by left.
Qed.
Lemma exec_read_opt {T} path (s : T) tr text (s' : T) :
  exec (read_opt path) s tr (Ok text) s' -> file_of tr path text.
Proof.
  destruct path as [p|]; [|by intros (_ & [= ->] & _)]. cbn [read_opt].
  intros (t & s1 & tr1 & tr2 & H & (-> & [= ->] & _) & ->)%exec_try_Ok. rewrite app_nil_r.
  by eapply exec_read_text.
Qed.
Lemma exec_read_args {T} l (s : T) tr texts (s' : T) :
  exec (io_collect read_upstream_arg l) s tr (Ok texts) s' -> Forall2 (text_of tr) l texts.
Proof.
  revert s tr texts s'. induction l as [|a l IH]; intros s tr texts s'; [by intros (_ & [= ->] & _)|].
  cbn [io_collect]. intros (t & s1 & tr1 & tr2 & H & Hr & ->)%exec_try_Ok.
  apply exec_try_Ok in Hr as (ts & s2 & tr3 & tr4 & Hr%IH & (-> & [= ->] & _) & ->).
  rewrite app_nil_r. constructor.
  - unfold read_upstream_arg in H. destruct H as (file & tr' & _ & -> & H). cbn [io_bind] in H. destruct file.
    + apply exec_read_text in H. right. split; [by left|]. right. apply elem_of_app. by left.
    + destruct H as (-> & [= ->] & _). left. by split; [left|].
  - eapply list.Forall2_impl; [exact Hr|]. intros x y [[? ?]|[? ?]]; [left|right];
      (split; [apply elem_of_app; by right|]); [done|apply elem_of_app; by right].
Qed.
Lemma exec_upstream_lines {T} args (s : T) tr ls (s' : T) :
  exec (upstream_lines args) s tr (Ok ls) s' -> rule_lines tr args ls.
Proof.
  unfold upstream_lines. intros (f & s1 & tr1 & tr2 & H1%exec_read_opt & H & ->)%exec_try_Ok.
  apply exec_try_Ok in H as (ts & s2 & tr3 & tr4 & H2%exec_read_args & (-> & [= ->] & _) & ->).
  rewrite app_nil_r. exists f, ts. split_and!; [|eapply list.Forall2_impl; [exact H2|]|done].
  - unfold file_of in *. repeat case_match; try done. apply elem_of_app. by left.
  - intros x y [[? ?]|[? ?]]; [left|right]; (split; [apply elem_of_app; by right|]);
      [done|apply elem_of_app; by right].
Qed.

Definition configured args (tr : list event) (cfg : UpstreamConfig S) : Prop :=
  exists bootstrap lines,
    bootstrap_resolver debug_errs boot_cells args (base_options args None) = Ok bootstrap
    /\ rule_lines tr args lines
    /\ parse_with_mode alloc cursor_of (base_options args bootstrap) lines
         (UpstreamModeArg.into (upstream_mode args)) = Ok cfg.
Lemma configured_mono args tr tr' cfg : tr ⊆ tr' -> configured args tr cfg -> configured args tr' cfg.
Proof. intros Hsub (b & ls & Hb & Hl & Hp). exists b, ls. split_and!; [done| |done]. by eapply rule_lines_mono. Qed.
Lemma opens_upstream_config args :
  opens (upstream_config (C := C) debug_errs boot_cells alloc cursor_of args) [].
Proof.
  apply opens_try_nil; [apply opens_ret|]. intros bootstrap. destruct (_ && _); [apply opens_ret|].
  apply opens_try_nil; [apply opens_map_err, opens_upstream_lines|]. intros ls. apply opens_ret.
Qed.
Lemma exec_upstream_config args s tr cfg s' :
  exec (upstream_config (C := C) debug_errs boot_cells alloc cursor_of args) s tr (Ok cfg) s' ->
  s' = s /\ bound tr = [] /\ configured args tr cfg.
Proof.
  unfold upstream_config. cbv zeta. rewrite exec_try_ret.
  destruct (bootstrap_resolver _ _ _ _) as [bootstrap| |] eqn:Hb; cbn [map_err]; [|by intros (_ & ? & _)..].
  destruct (is_nil _ && negb _); [by intros (_ & ? & _)|].
  intros (ls & s1 & tr1 & tr2 & H1 & (-> & Hp & ->) & ->)%exec_try_Ok. rewrite app_nil_r.
  assert (rule_lines tr1 args ls) as Hl.
  { apply exec_bind in H1 as (r & s2 & tr2 & tr3 & -> & H1 & (-> & Hr & ->)). rewrite app_nil_r.
    destruct r as [ls'|e|]; [|done..]. injection Hr as ->. by eapply exec_upstream_lines. }
  apply (opens_exec _ _ _ _ _ _ (opens_map_err Msg _ _ (opens_upstream_lines args))) in H1 as [-> Hn].
  split; [done|]. split; [exact Hn|].
  exists bootstrap, ls. split; [exact Hb|]. split; [exact Hl|].
  destruct (parse_with_mode _ _ _ _ _) as [c| |]; [by injection Hp as ->|done..].
Qed.

(** The handler of a running proxy, and its cache. *)
Definition handler_built args (cfg : UpstreamConfig S) (h : Handler (Store (S := S) (C := C))) s s' : Prop :=
  if arg_cache args then
    (0 < cache_size args)%nat /\ h = cached cfg /\ s' = (cache_new (cache_options args), s.2)
  else h = uncached cfg /\ s' = s.
Lemma exec_build_handler args cfg s tr h s' :
  exec (build_handler args cfg) s tr (Ok h) s' -> tr = [] /\ handler_built args cfg h s s'.
Proof.
  unfold build_handler, handler_built. destruct (arg_cache args).
  - destruct (Nat.eqb_spec (cache_size args) 0); [by intros (_ & ? & _)|].
    intros (-> & [= ->] & ->). split; [done|]. split; [lia|done].
  - by intros (-> & [= ->] & ->).
Qed.

Lemma opens_install : opens (install_crypto_provider (S := S) (C := C)) [].
Proof.
  split; [apply calm_bind; [by apply calm_call|done]|]. intros s tr a s' (x & tr' & _ & -> & -> & _ & _). reflexivity.
Qed.

Lemma exec_main args s tr r s' :
  exec (main debug_errs boot_cells alloc cursor_of args) s tr (Ok (Some r)) s' ->
  exists cfg, configured args tr cfg /\ handler_built args cfg (handler r) s s'
  /\ bound tr = plain_binds args ++ secure_binds args ++ dnscrypt_binds args
  /\ (secure_binds args <> [] -> is_Some (listener_tls_cert args) /\ is_Some (listener_tls_key args))
  /\ (dnscrypt_binds args <> [] -> is_Some (dnscrypt_config args)).
Proof.
  unfold main. destruct (dnscrypt_generate_config args) as [path|].
  { rewrite exec_try_ret. destruct (dnscrypt_provider_name args); cbn [ok_or]; [|by intros (_ & ? & _)].
    rewrite exec_try. intros ([| |] & s1 & tr1 & tr2 & -> & _ & H); by destruct H as (_ & ? & _). }
  intros (u & s0 & tr0 & tr0' & H0 & H & ->)%exec_try_Ok.
  apply (opens_exec _ _ _ _ _ _ opens_install) in H0 as [-> Hb0]. revert H. rewrite bound_app, Hb0. cbn [app].
  intros (cfg & s1 & tr1 & tr1' & (-> & Hb1 & Hcfg)%exec_upstream_config & H & ->)%exec_try_Ok.
  exists cfg. split; [eapply configured_mono; [|exact Hcfg]; intros ev Hev; rewrite !elem_of_app; tauto|].
  apply exec_try_Ok in H as (creds & s2 & tr2 & tr2' & H2 & H & ->).
  apply (opens_exec _ _ _ _ _ _ (opens_doh_credentials args)) in H2 as [-> Hb2].
  apply exec_try_Ok in H as (h & s3 & tr3 & tr3' & [-> Hh]%exec_build_handler & H & ->).
  apply exec_try_Ok in H as (pl & s4 & tr4 & tr4' & H4 & H & ->).
  apply (opens_exec _ _ _ _ _ _ (opens_map_err Failed _ _ (opens_serve_all _))) in H4 as [-> Hb4].
  apply exec_try_Ok in H as (sec & s5 & tr5 & tr5' & H5 & H & ->).
  pose proof (serve_secure_needs _ _ _ _ _ H5) as Hn5.
  apply (opens_exec _ _ _ _ _ _ (opens_serve_secure args)) in H5 as [-> Hb5].
  apply exec_try_Ok in H as (dc & s6 & tr6 & tr6' & H6 & H & ->).
  pose proof (serve_dnscrypt_needs _ _ _ _ _ H6) as Hn6.
  apply (opens_exec _ _ _ _ _ _ (opens_serve_dnscrypt args)) in H6 as [-> Hb6].
  destruct H as (-> & [= ->] & ->). rewrite !bound_app, Hb1, Hb2, Hb4, Hb5, Hb6. cbn [app].
  by rewrite app_nil_r.
Qed.
End Assembly.

(** ** What a running proxy answers *)

(** The response carries one question: the request's, up to the equality of
    names the cache looks entries up by. *)
Definition right_question `{DnsLib} (req resp : Message) : Prop :=
  exists q rest q' n, queries req = q :: rest /\ queries resp = [q']
  /\ query_type q = query_type q' /\ name_eqb (query_name q) n = true
  /\ eq_ignore_root n (query_name q') = true.

Section Answers.
Context {S C : Type} `{HL : DnsLib} {HC : DnsCodec} {HB : Base64} {HW : WebLib} {HK : CryptoLib}.
Context {HT : TlsLib} {HLru : Lru CacheKey CacheEntry C} {HLaws : LruLaws key_eqb}.
Context (debug_errs : list DohError -> string) (boot_cells alloc : nat -> Cells S).
Context (cursor_of : option string -> cell S Z).

Lemma answers_right_question req resp : answers_question req resp -> right_question req resp.
Proof.
  intros (q & rest & q' & Hq & Hq' & Ht & Hn). exists q, rest, q', (query_name q). split_and!; try done.
  apply (@Equivalence_Reflexive _ _ name_eqb_equiv).
Qed.
Lemma served_right_question opts req resp :
  served (C := C) answers_question opts req resp -> right_question req resp.
Proof.
  intros [H|(req' & resp' & key & key' & t & rem & H & Hk & Hk' & Heq & _ & _ & ->)];
    [by apply answers_right_question|].
  destruct H as (q' & rest & q2 & Hq' & Hq2 & Ht & Hn). unfold cache_key in Hk, Hk'.
  rewrite Hq' in Hk'. destruct rest; [|done]. injection Hk' as <-.
  destruct (queries req) as [|q [|]] eqn:Hq; try done. injection Hk as <-.
  unfold key_eqb in Heq. cbn in Heq. rewrite !andb_true_iff, !bool_decide_eq_true in Heq.
  destruct Heq as [[[[Hname Htype] _] _] _].
  exists q, [], q2, (query_name q'). split_and!; [done|exact Hq2|congruence|done|done].
Qed.

(** The outcome of a query, and the store's invariant. A handler may unwind:
    on a query without a question, or in the sort of load balancing. *)
Definition proxy_done (req : Message) (r : res Message DohError) : Prop :=
  outcome right_question (fun _ => True) req r.
Definition store_inv (args : Args) (J : S -> Prop) (s : Store (S := S) (C := C)) : Prop :=
  (arg_cache args = true -> cache_inv answers_question (cache_options args) s.1) /\ J s.2.

Lemma handler_safe args cfg h s s' (J : S -> Prop) :
  handler_built args cfg h s s' -> (forall req, config_runs no_reply J req cfg) -> J s.2 ->
  store_inv args J s' /\ forall req, safe no_reply (store_inv args J) (h req) (proxy_done req).
Proof.
  intros Hb Hcfg HJ. unfold handler_built, store_inv in *.
  assert (forall req, safe no_reply J (UpstreamConfig.into_handler cfg req)
            (outcome answers_question (fun _ => True) req)) as Hup.
  { intros req. eapply safe_mono; [|apply config_exchange_safe; [apply no_reply_quiet|apply Hcfg]].
    by intros []. }
  destruct (arg_cache args).
  - destruct Hb as (_ & -> & ->). split; [split; [intros _; apply cache_inv_new|done]|].
    intros req. eapply safe_mono.
    2: eapply (safe_iff _ (fun s => cache_inv answers_question (cache_options args) s.1 /\ J s.2)).
    3: by apply (into_handler_safe answers_question (cache_options args)).
    + intros [resp| |]; [apply served_right_question|done|done].
    + intros t. naive_solver.
  - destruct Hb as [-> ->]. split; [by split|]. intros req. eapply safe_mono.
    2: eapply (safe_zoom _ J); [by intros ? [_ ?]|by intros ?? [? _] ?; split|apply Hup].
    intros [resp| |]; [apply answers_right_question|done|done].
Qed.

(** *** Every parsed upstream runs under an invariant of its cells *)
Definition cells_ok (I : S -> Prop) (c : Cells S) : Prop :=
  (forall u : Doh.DohUpstream S, Doh.client u = Doh.new_client (doh_cells c) ->
     Doh.h3 u = Doh.new_h3 (doh_cells c) -> Doh.prefer_h3 u = Doh.new_prefer_h3 (doh_cells c) ->
     Doh.transports u = Doh.new_transports (doh_cells c) -> Doh.cells_free I u)
  /\ Doq.cell_free I (doq_conn c)
  /\ (forall u, DnsCrypt.cert u = dnscrypt_cert c -> cert_cell_ok I u)
  /\ Doq.cell_free I (tracker c).
Definition options_ok P (I : S -> Prop) (o : Options (Resolver S)) : Prop :=
  forall host, resolver_ok P I host (default SystemResolver (bootstrap o)).

Lemma parsed_upstream_runs P (I : S -> Prop) addr o c up :
  options_ok P I o -> cells_ok I c -> parse_any_upstream addr o c = Ok up -> upstream_runs P I up.
Proof.
  intros Ho (Hdoh & Hdoq & Hcert & _). unfold parse_any_upstream.
  destruct (default _ _) as [scheme rest]. intros H.
  repeat match type of H with (if ?b then _ else _) = _ => destruct b end;
    inv_ok H; try destruct a as [h p]; injection H as <-; cbn [upstream_runs].
  - done.
  - apply Ho.
  - apply Ho.
  - split; [apply Ho|done].
  - apply Hcert. unfold DnsCrypt.new in E. inv_ok E. by injection E as <-.
  - apply parse_upstream_cells in E as (? & ? & ? & ? & Hr). split; [|by apply Hdoh].
    rewrite Hr. apply Ho.
Qed.

Lemma parsed_config_runs P (I : S -> Prop) o lines m cfg :
  options_ok P I o -> (forall n, cells_ok I (alloc n)) ->
  (forall key, Doq.cell_free I (cursor_of key)) -> (forall (up : Upstream S) req, upstream_sends P up req) ->
  parse_with_mode alloc cursor_of o lines m = Ok cfg -> forall req, config_runs P I req cfg.
Proof.
  intros Ho Hcells Hcur Hsends Hp req.
  pose proof (parse_with_mode_cases alloc cursor_of o lines m) as Hc. rewrite Hp in Hc. cbv zeta in Hc.
  destruct Hc as (_ & _ & order & _ & [Hd Hdc] & Hm).
  assert (forall strs g key, group_ok alloc o order strs g -> round_robin_cursor g = cursor_of key ->
            group_runs P I req g) as Hg.
  { intros strs g key Hg Hk. split; [by rewrite Hk|]. unfold group_ok in Hg.
    induction Hg as [|u t strs ts (n & _ & Hu & Hl) _ IH]; constructor; [|exact IH].
    split_and!; [apply Hsends|by eapply parsed_upstream_runs|]. rewrite Hl. apply Hcells. }
  split; [by eapply Hg|]. intros d g Hdg. specialize (Hm d). rewrite Hdg in Hm.
  destruct Hm as (_ & Hgo & Hgc). by eapply Hg.
Qed.

(** What the store must provide: cells that every upstream, bootstrap resolver
    and round-robin counter may use without breaking [J]. *)
Definition store_ok (J : S -> Prop) : Prop :=
  (forall n, cells_ok J (alloc n)) /\ (forall n, cells_ok J (boot_cells n))
  /\ forall key, Doq.cell_free J (cursor_of key).
Lemma bootstrap_resolver_runs `{HD : !DnsLaws} (J : S -> Prop) args o boot :
  (forall n, cells_ok J (boot_cells n)) ->
  bootstrap_resolver debug_errs boot_cells args o = Ok boot ->
  forall host, safe no_reply J (default SystemResolver boot host) (fun out => out <> Panic).
Proof.
  intros Hcells Hb host. unfold bootstrap_resolver in Hb. destruct (arg_bootstrap args) as [|v vs].
  { injection Hb as <-. simpl. split; [done|]. by intros [] ?. }
  revert Hb. generalize (v :: vs) as values. intros values Hb.
  apply res_bind_Ok in Hb as (rs & Hrs%collect_Ok & Hb). injection Hb as <-.
  eapply safe_mono; [|apply (parallel_lookup_safe _ _ _ _ _ (fun _ r => r <> Panic)); [apply no_reply_quiet|]].
  - intros [ips|e|]; [done|done|]. by intros (r & _ & ?).
  - apply list.Forall_forall. intros r Hr. apply list_elem_of_lookup in Hr as [i Hi].
    destruct (Forall2_lookup_r _ _ _ _ _ Hrs Hi) as (m & Hm & ->).
    rewrite list_lookup_imap in Hm. destruct (values !! i) as [s|]; [|done]. injection Hm as Hm.
    eapply parsed_bootstrap_safe; [apply no_reply_quiet|done|done|exact Hm|].
    intros u (? & ? & ? & ? & _)%parse_upstream_cells. by apply (Hcells i).
Qed.
Lemma configured_runs `{HD : !DnsLaws} (J : S -> Prop) args tr cfg :
  store_ok J -> configured debug_errs boot_cells alloc cursor_of args tr cfg ->
  forall req, config_runs no_reply J req cfg.
Proof.
  intros (Halloc & Hboot & Hcur) (bootstrap & lines & Hb & _ & Hp).
  eapply parsed_config_runs; [|exact Halloc|exact Hcur| |exact Hp].
  - intros host _. by eapply bootstrap_resolver_runs.
  - intros [] req; repeat split.
Qed.
End Answers.

(** ** Properties *)
Section Properties.
Context {S C : Type} `{HL : DnsLib} {HC : DnsCodec} {HB : Base64} {HW : WebLib} {HK : CryptoLib}.
Context {HT : TlsLib} {HLru : Lru CacheKey CacheEntry C} {HLaws : LruLaws key_eqb}.
Context (debug_errs : list DohError -> string) (boot_cells alloc : nat -> Cells S).
Context (cursor_of : option string -> cell S Z).

(** C20: a proxy that starts has bound exactly the addresses the command line
    asks for, in order (plain DNS, DoQ, DoT, DoH, DoH3, DNSCrypt), and at
    least one: without any listening option it is 127.0.0.1:53 over UDP and
    TCP alone. A TLS listener runs only with both PEM files given, a DNSCrypt
    listener only with its key file. *)
Theorem main_binds args s tr r s' :
  exec (main (C := C) debug_errs boot_cells alloc cursor_of args) s tr (Ok (Some r)) s' ->
  bound tr = plain_binds args ++ secure_binds args ++ dnscrypt_binds args /\ bound tr <> []
  /\ (arg_port args = None -> listen args = [] -> secure_listener_enabled args = false ->
      bound tr = ["127.0.0.1:53"; "127.0.0.1:53"])
  /\ (secure_binds args <> [] -> is_Some (listener_tls_cert args) /\ is_Some (listener_tls_key args))
  /\ (dnscrypt_binds args <> [] -> is_Some (dnscrypt_config args)).
Proof.
  intros (cfg & _ & _ & -> & Hs & Hd)%exec_main. split; [done|].
  split; [apply binds_something|]. split; [|done]. intros Hp Hl Hsec.
  unfold plain_binds, secure_binds, dnscrypt_binds, listen_addrs, secure_listener_enabled in *.
  rewrite Hp, Hl, Hsec. apply orb_false_iff in Hsec as [[[Hq Ht]%orb_false_iff Hh]%orb_false_iff Hn].
  by rewrite !expand_disabled.
Qed.
End Properties.

Section Witnesses.
#[local] Existing Instances Toy.lib Toy.codec Toy.laws ToyBase64.base64 ToyWeb.web ToyCrypto.lib ToyTls.lib.
#[local] Instance w_lru : Lru CacheKey CacheEntry (ListLru.t CacheKey CacheEntry) := ListLru.lru key_eqb.
#[local] Instance w_lru_laws : LruLaws key_eqb := ListLru.laws key_eqb.

(** One upstream, a cache of two entries, and nothing else. *)
Definition w_args_for (upstream : string) : Args :=
  {| listen := []; arg_port := None; arg_upstreams := [upstream]; upstream_file := None;
     arg_timeout := 10; upstream_mode := UpstreamModeArg.Ordered; arg_bootstrap := [];
     insecure := false; arg_prefer_ipv6 := false; http3 := false; verbose := 0;
     log_level := "info"; no_timestamp := false; arg_cache := true;
     cache_size := 2; cache_min_ttl := 0; cache_max_ttl := 0; private_upstream := None;
     quic_listen := []; quic_port := None; tls_listen := []; tls_port := None; https_listen := [];
     https_port := None; listener_tls_cert := None; listener_tls_key := None; doh_auth := [];
     doh_auth_file := None; dnscrypt_listen := []; dnscrypt_port := None; dnscrypt_config := None;
     dnscrypt_generate_config := None; dnscrypt_provider_name := None |}.
Definition w_args : Args := w_args_for "udp://192.0.2.1".
Definition w_alloc (n : nat) : Cells unit := UpstreamUrl.w_cells.
Definition w_cursor (key : option string) : cell unit Z := Cell (fun _ => 0) (fun _ s => s).
Definition w_store : Store (S := unit) (C := ListLru.t CacheKey CacheEntry) :=
  (cache_new {| size := 0; opt_min_ttl := 0; opt_max_ttl := None |}, tt).
Definition w_main : io (Store (S := unit) (C := ListLru.t CacheKey CacheEntry)) (res (option Running) MainError) :=
  main (fun _ => "") w_alloc w_alloc w_cursor w_args.

(** Started with every call succeeding. *)
Lemma w_started : exists r s', exec w_main w_store (run_trace benign w_main w_store).2 (Ok (Some r)) s' /\ s'.2 = tt.
Proof.
  pose proof (run_trace_exec benign w_main w_store benign_ok) as H.
  assert (match (run_trace benign w_main w_store).1.1 with Ok (Some _) => true | _ => false end = true)
    as Hok by vm_refl.
  destruct (run_trace benign w_main w_store) as [[[[r|]| |] s'] tr]; try discriminate Hok.
  exists r, s'. split; [exact H|by destruct (s'.2)].
Qed.

Lemma main_binds_witness :
  bound (run_trace benign w_main w_store).2 = ["127.0.0.1:53"; "127.0.0.1:53"].
Proof.
  destruct w_started as (r & s' & H & _).
  exact (proj1 (proj2 (proj2 (main_binds (fun _ => "") w_alloc w_alloc w_cursor w_args w_store _ r s' H)))
           eq_refl eq_refl eq_refl).
Defined.

Lemma w_store_ok : store_ok w_alloc w_alloc w_cursor (fun _ : unit => True).
Proof.
  assert (forall n, cells_ok (fun _ : unit => True) (w_alloc n)) as H by (intros n; split_and!; try done;
    [intros u _ H3 _ _; split_and!; [done..|]; intros s _ x; by rewrite H3
    |intros u Hu; split; [|done]; intros s _; unfold cert_inv; by rewrite Hu]).
  by split_and!.
Qed.
End Witnesses.
