(* ===== verification/Cli.v ===== *)
(** * The command line's declarations

    The [clap] attributes on the fields of [Args] ([src/main.rs]) as a table,
    what parsing by them guarantees of the [Args] it hands over ([accepted]:
    [conflicts_with], [requires] and the widths of the integer types), and what
    [main] owes to those guarantees; and the log filter [init_log] builds. *)
From S2P Require Import Prelude RustStr RustNet Io Dns Errors WebLib Wire Cache Bootstrap Framing.
From S2P Require Import CryptoLib Crypto Stamp Keygen DnsCrypt Latency Upstream UpstreamUrl.
From S2P Require Import UpstreamConfig ListenerIo ListenerDnsCrypt ListenerDoh ListenerTls MainArgs Main.

(** ** The declarations *)

(** What the type of a field makes of its option: [bool] is [SetTrue],
    [Vec<T>] is [Append], [T] and [Option<T>] are [Set]. *)
Inductive ArgAction := SetValue | SetTrue | Append | Count.
Record ArgDecl := {
  id : string;
  long : string;
  short : option ascii;
  action : ArgAction;
  default_value : option string;
  conflicts_with : option string;
  requires : option string;
}.
Definition flag (i l : string) : ArgDecl :=
  {| id := i; long := l; short := None; action := SetTrue; default_value := None;
     conflicts_with := None; requires := None |}.
Definition set_arg (i l : string) : ArgDecl :=
  {| id := i; long := l; short := None; action := SetValue; default_value := None;
     conflicts_with := None; requires := None |}.
Definition with_action (a : ArgAction) (d : ArgDecl) : ArgDecl :=
  {| id := id d; long := long d; short := short d; action := a; default_value := default_value d;
     conflicts_with := conflicts_with d; requires := requires d |}.
Definition with_short (c : ascii) (d : ArgDecl) : ArgDecl :=
  {| id := id d; long := long d; short := Some c; action := action d; default_value := default_value d;
     conflicts_with := conflicts_with d; requires := requires d |}.
Definition with_default (v : string) (d : ArgDecl) : ArgDecl :=
  {| id := id d; long := long d; short := short d; action := action d; default_value := Some v;
     conflicts_with := conflicts_with d; requires := requires d |}.
Definition excluding (i : string) (d : ArgDecl) : ArgDecl :=
  {| id := id d; long := long d; short := short d; action := action d; default_value := default_value d;
     conflicts_with := Some i; requires := requires d |}.
Definition requiring (i : string) (d : ArgDecl) : ArgDecl :=
  {| id := id d; long := long d; short := short d; action := action d; default_value := default_value d;
     conflicts_with := conflicts_with d; requires := Some i |}.
Definition many_arg (i l : string) : ArgDecl := with_action Append (set_arg i l).

(** The attributes of [Args], field by field: those of the proxy itself and of
    plain DNS, then those of the secure listeners. *)
Definition PROXY_ARGS : list ArgDecl :=
  [excluding "port" (many_arg "listen" "listen");
   with_short "p" (excluding "listen" (set_arg "port" "port"));
   with_short "u" (many_arg "upstreams" "upstream");
   set_arg "upstream_file" "upstream-file";
   with_default "10" (set_arg "timeout" "timeout");
   with_default "ordered" (set_arg "upstream_mode" "upstream-mode");
   with_short "b" (many_arg "bootstrap" "bootstrap");
   flag "insecure" "insecure";
   flag "prefer_ipv6" "prefer-ipv6";
   flag "http3" "http3";
   with_short "v" (with_action Count (set_arg "verbose" "verbose"));
   with_default "info" (set_arg "log_level" "log-level");
   flag "no_timestamp" "no-timestamp";
   flag "cache" "cache";
   with_default "1000" (set_arg "cache_size" "cache-size");
   with_default "0" (set_arg "cache_min_ttl" "cache-min-ttl");
   with_default "0" (set_arg "cache_max_ttl" "cache-max-ttl");
   set_arg "private_upstream" "private-upstream"].
Definition LISTENER_ARGS : list ArgDecl :=
  [excluding "quic_port" (many_arg "quic_listen" "quic-listen");
   excluding "quic_listen" (set_arg "quic_port" "quic-port");
   excluding "tls_port" (many_arg "tls_listen" "tls-listen");
   excluding "tls_listen" (set_arg "tls_port" "tls-port");
   excluding "https_port" (many_arg "https_listen" "https-listen");
   excluding "https_listen" (set_arg "https_port" "https-port");
   requiring "listener_tls_key" (set_arg "listener_tls_cert" "listener-tls-cert");
   requiring "listener_tls_cert" (set_arg "listener_tls_key" "tls-key");
   many_arg "doh_auth" "doh-auth";
   set_arg "doh_auth_file" "doh-auth-file";
   excluding "dnscrypt_port" (many_arg "dnscrypt_listen" "dnscrypt-listen");
   excluding "dnscrypt_listen" (set_arg "dnscrypt_port" "dnscrypt-port");
   set_arg "dnscrypt_config" "dnscrypt-config";
   requiring "dnscrypt_provider_name" (set_arg "dnscrypt_generate_config" "dnscrypt-generate-config");
   set_arg "dnscrypt_provider_name" "dnscrypt-provider-name"].
Definition ARGS : list ArgDecl := PROXY_ARGS ++ LISTENER_ARGS.

(** *** The table is one [clap] can build

    Names and letters are unique, also against the derived [--help], [-h],
    [--version] and [-V]; what an option refers to exists; exclusion is
    symmetric. *)
Definition nodupb {A} `{EqDecision A} (l : list A) : bool := bool_decide (NoDup l).
Definition refers (ds : list ArgDecl) (i : option string) : bool :=
  match i with Some i => existsb (fun d => String.eqb (id d) i) ds | None => true end.
Definition well_formed (ds : list ArgDecl) : bool :=
  nodupb (id <$> ds) && nodupb ("help" :: "version" :: (long <$> ds))
  && nodupb (["h"; "V"]%char ++ omap short ds)
  && forallb (fun d => refers ds (conflicts_with d) && refers ds (requires d)) ds
  && forallb (fun d => forallb (fun d' =>
       implb (bool_decide (conflicts_with d = Some (id d')))
             (bool_decide (conflicts_with d' = Some (id d)))) ds) ds.
Lemma args_well_formed : well_formed ARGS = true.
Proof. vm_refl. Qed.

(** ** What parsing guarantees *)

(** Whether an option was given, for those whose value tells. *)
Definition given (args : Args) (i : string) : bool :=
  match List.find (fun p => String.eqb p.1 i)
    [("listen", negb (is_nil (listen args))); ("port", is_some (arg_port args));
     ("quic_listen", negb (is_nil (quic_listen args))); ("quic_port", is_some (quic_port args));
     ("tls_listen", negb (is_nil (tls_listen args))); ("tls_port", is_some (tls_port args));
     ("https_listen", negb (is_nil (https_listen args))); ("https_port", is_some (https_port args));
     ("listener_tls_cert", is_some (listener_tls_cert args));
     ("listener_tls_key", is_some (listener_tls_key args));
     ("dnscrypt_listen", negb (is_nil (dnscrypt_listen args)));
     ("dnscrypt_port", is_some (dnscrypt_port args));
     ("dnscrypt_generate_config", is_some (dnscrypt_generate_config args));
     ("dnscrypt_provider_name", is_some (dnscrypt_provider_name args))] with
  | Some (_, b) => b
  | None => false
  end.
Definition decl_respected (args : Args) (d : ArgDecl) : bool :=
  implb (given args (id d))
    (match conflicts_with d with Some i => negb (given args i) | None => true end
     && match requires d with Some i => given args i | None => true end).

Definition u8_max : Z := 2 ^ 8 - 1.
Definition within (max : Z) (n : Z) : bool := (0 <=? n) && (n <=? max).
Definition port_fits (p : option Z) : bool := match p with Some p => within u16_max p | None => true end.
Definition widths_fit (args : Args) : bool :=
  forallb port_fits [arg_port args; quic_port args; tls_port args; https_port args; dnscrypt_port args]
  && forallb (within u64_max) [arg_timeout args; Z.of_nat (cache_size args); cache_min_ttl args; cache_max_ttl args]
  && within u8_max (verbose args).
Definition accepted (args : Args) : bool := forallb (decl_respected args) ARGS && widths_fit args.

Lemma accepted_respected args d : accepted args = true -> In d ARGS -> decl_respected args d = true.
Proof. intros [H _]%andb_true_iff. rewrite List.forallb_forall in H. apply H. Qed.

(** ** What [main] owes to them *)

(** A [--*-listen] and its [--*-port] are not both given: whichever was is
    served, nothing that was asked for is dropped. *)
Definition asked (l : list SocketAddr) (p : option Z) : list SocketAddr :=
  l ++ match p with Some p => expand_listen [] (Some p) | None => [] end.
Lemma excluded args (l p : string) d :
  accepted args = true -> In d ARGS -> id d = l -> conflicts_with d = Some p ->
  given args l && given args p = false.
Proof.
  intros Ha Hd <- Hc. pose proof (accepted_respected args d Ha Hd) as H. unfold decl_respected in H.
  rewrite Hc in H. destruct (given args (id d)); [|done]. simpl in H. by destruct (given args p).
Qed.
Lemma expand_asked l p : negb (is_nil l) && is_some p = false -> expand_listen l p = asked l p.
Proof. destruct l, p; intros H; try discriminate H; [done..|]. unfold asked. by rewrite app_nil_r. Qed.
Ltac excl i := refine (excluded _ _ _ (nth i ARGS (flag "" "")) _ _ _ _);
  [eassumption|apply nth_In; vm_compute; lia|reflexivity|reflexivity].

Lemma expand_all_asked args :
  accepted args = true ->
  expand_listen (quic_listen args) (quic_port args) = asked (quic_listen args) (quic_port args)
  /\ expand_listen (tls_listen args) (tls_port args) = asked (tls_listen args) (tls_port args)
  /\ expand_listen (https_listen args) (https_port args) = asked (https_listen args) (https_port args)
  /\ expand_listen (dnscrypt_listen args) (dnscrypt_port args) = asked (dnscrypt_listen args) (dnscrypt_port args).
Proof.
  intros Ha. split_and!; apply expand_asked;
    [assert (given args "quic_listen" && given args "quic_port" = false) as H by excl 18%nat
    |assert (given args "tls_listen" && given args "tls_port" = false) as H by excl 20%nat
    |assert (given args "https_listen" && given args "https_port" = false) as H by excl 22%nat
    |assert (given args "dnscrypt_listen" && given args "dnscrypt_port" = false) as H by excl 28%nat];
    exact H.
Qed.
Lemma listen_addrs_asked args :
  accepted args = true -> asked (listen args) (arg_port args) <> [] ->
  listen_addrs args = asked (listen args) (arg_port args).
Proof.
  intros Ha Hne. assert (given args "listen" && given args "port" = false) as H by excl 0%nat.
  rewrite <- expand_asked in * by exact H. unfold listen_addrs.
  destruct (arg_port args); [done|]. by destruct (listen args).
Qed.

Definition no_cert : MainError := Msg "--tls-cert is required to enable any of --quic-listen/--tls-listen/--https-listen".
Definition no_key : MainError := Msg "--tls-key is required".
Lemma accepted_tls_pair args :
  accepted args = true -> is_some (listener_tls_cert args) = is_some (listener_tls_key args).
Proof.
  intros Ha. pose proof (accepted_respected args (nth 24 ARGS (flag "" "")) Ha) as H1.
  pose proof (accepted_respected args (nth 25 ARGS (flag "" "")) Ha) as H2.
  specialize (H1 ltac:(apply nth_In; vm_compute; lia)). specialize (H2 ltac:(apply nth_In; vm_compute; lia)).
  change (implb (is_some (listener_tls_cert args)) (is_some (listener_tls_key args)) = true) in H1.
  change (implb (is_some (listener_tls_key args)) (is_some (listener_tls_cert args)) = true) in H2.
  by destruct (is_some (listener_tls_cert args)), (is_some (listener_tls_key args)).
Qed.
Lemma accepted_provider args path :
  accepted args = true -> dnscrypt_generate_config args = Some path ->
  is_Some (dnscrypt_provider_name args).
Proof.
  intros Ha Hg. pose proof (accepted_respected args (nth 31 ARGS (flag "" "")) Ha) as H.
  specialize (H ltac:(apply nth_In; vm_compute; lia)).
  change (implb (is_some (dnscrypt_generate_config args)) (is_some (dnscrypt_provider_name args)) = true) in H.
  rewrite Hg in H. by destruct (dnscrypt_provider_name args).
Qed.

(** ** [init_log] *)

(** Directives in force: those of [RUST_LOG] when it is set and parses, the
    default level otherwise; then the noisy targets held at [warn] below each
    verbosity, a later directive for a target replacing an earlier one. *)
Definition muted (verbose : Z) : list string :=
  (if verbose <? 5 then ["quinn_proto::connection"] else [])
  ++ (if verbose <? 4 then ["h2::proto"; "rustls::client"; "quinn_proto"; "rustls_platform_verifier"] else [])
  ++ (if verbose <? 3 then ["h2::codec"; "h2::hpack"; "h2::client"] else [])
  ++ (if verbose <? 2 then ["hyper_util::client"; "hickory_proto"; "rustls"; "h2::frame"] else [])
  ++ (if verbose <? 1 then ["reqwest::connect"] else []).
Record LogConfig := { directives : list string; timestamps : bool }.
(** [rust_log] is what [EnvFilter::try_from_default_env] reads, [journal]
    whether [JOURNAL_STREAM] is set. *)
Definition init_log (rust_log : option (list string)) (journal : bool)
    (verbose : Z) (default_level : string) (no_timestamp : bool) : LogConfig :=
  {| directives := default [default_level] rust_log ++ ((fun t => t +:+ "=warn") <$> muted verbose);
     timestamps := negb (no_timestamp || journal) |}.

(** Each [-v] only unmutes, and the fifth unmutes everything. *)
Lemma muted_mono v v' : v <= v' -> muted v' ⊆ muted v.
Proof.
  intros Hv t. unfold muted. rewrite !elem_of_app.
  assert (forall (k : Z) (l : list string), t ∈ (if v' <? k then l else []) -> t ∈ (if v <? k then l else [])) as Hk.
  { intros k l. destruct (Z.ltb_spec v' k), (Z.ltb_spec v k); try done; [lia|].
    intros Hn. by apply elem_of_nil in Hn. }
  intros [H|[H|[H|[H|H]]]]; apply Hk in H; tauto.
Qed.
Lemma muted_none v : 5 <= v -> muted v = [].
Proof. intros Hv. unfold muted. by repeat rewrite (proj2 (Z.ltb_ge _ _)) by lia. Qed.

(** ** Started from an accepted command line *)
Section Properties.
Context {S C : Type} `{HL : DnsLib} {HC : DnsCodec} {HB : Base64} {HW : WebLib} {HK : CryptoLib}.
Context {HT : TlsLib} {HLru : Lru CacheKey CacheEntry C} {HLaws : LruLaws key_eqb}.
Context (debug_errs : list DohError -> string) (boot_cells alloc : nat -> Cells S).
Context (cursor_of : option string -> cell S Z).

(** A proxy started from a command line [clap] accepts binds every address
    given, and the wildcard addresses of every port given: none is ignored. *)
Theorem every_listen_bound args s tr r s' :
  accepted args = true ->
  exec (main (C := C) debug_errs boot_cells alloc cursor_of args) s tr (Ok (Some r)) s' ->
  forall a,
    a ∈ asked (listen args) (arg_port args) ++ asked (quic_listen args) (quic_port args)
        ++ asked (tls_listen args) (tls_port args) ++ asked (https_listen args) (https_port args)
        ++ asked (dnscrypt_listen args) (dnscrypt_port args) ->
    show_socket_addr a ∈ bound tr.
Proof.
  intros Ha (_ & _ & _ & -> & _)%exec_main a. pose proof (expand_all_asked args Ha) as (Eq & Et & Eh & Ed).
  unfold plain_binds, secure_binds, dnscrypt_binds. rewrite Eq, Et, Eh, Ed.
  rewrite !elem_of_app. intros [Hl|[Hq|[Ht|[Hh|Hd]]]].
  - left. rewrite listen_addrs_asked by (done || by intros E; rewrite E in Hl; apply elem_of_nil in Hl).
    apply list_elem_of_bind. exists a. split; [by left|done].
  - right. left. left. by apply list_elem_of_fmap_2.
  - right. left. right. left. by apply list_elem_of_fmap_2.
  - right. left. right. right. left. by apply list_elem_of_fmap_2.
  - right. right. left. by apply list_elem_of_fmap_2.
Qed.

(** The checks [main] repeats after [clap] never fail: with a certificate
    there is a key, so the only complaint about missing PEM files is the one
    for the certificate, made before anything is bound; and with a file to
    generate there is a provider name. *)
Theorem repeated_checks_unreachable args s tr r s' :
  accepted args = true ->
  (exec (serve_secure (S := S) (C := C) args) s tr r s' -> secure_binds args <> [] ->
   (listener_tls_cert args = None /\ r = Err no_cert /\ tr = [] /\ s' = s)
   \/ (is_Some (listener_tls_cert args) /\ is_Some (listener_tls_key args)))
  /\ (forall path, dnscrypt_generate_config args = Some path ->
      exists name, dnscrypt_provider_name args = Some name
      /\ main (C := C) debug_errs boot_cells alloc cursor_of args
         = (try* _ := io_map_err Msg (run_dnscrypt_generate_config path name) in IoRet (Ok None))).
Proof.
  intros Ha. split.
  - intros H Hne. pose proof (accepted_tls_pair args Ha) as Hp.
    destruct (listener_tls_cert args) as [cert|] eqn:Hc.
    { right. split; [eauto|]. by destruct (listener_tls_key args). }
    left. split; [done|]. revert H. unfold serve_secure, secure_binds in *.
    destruct (expand_listen (quic_listen args) _), (expand_listen (tls_listen args) _),
      (expand_listen (https_listen args) _); try done; rewrite Hc; cbn [is_nil andb ok_or];
      intros (-> & -> & ->)%exec_try_ret; done.
  - intros path Hg. destruct (accepted_provider args path Ha Hg) as [name Hn]. exists name.
    unfold main. by rewrite Hg, Hn.
Qed.
End Properties.
