(* ===== verification/Server.v ===== *)
(** * The running proxy

    The accept and receive loops of every listener ([udp_loop] and [tcp_loop]
    of [src/listener/io.rs] and [src/listener/dnscrypt.rs], [accept_loop] and
    [connection_loop] of [dot.rs], [doq.rs], [doh.rs] and [doh3.rs]) with the
    tasks they spawn, as processes of [Procs.v]. Here they
    all start from the state [main] leaves; in [Startup.v] the loops of the
    first listeners already run while it binds the next. [hyper]'s [serve_connection] is a loop that spawns
    the service for each request of the connection. *)
From S2P Require Import Prelude RustStr RustNet Io Procs Dns Errors WebLib Wire Cache Framing.
From S2P Require Import CryptoLib Crypto UpstreamUrl UpstreamConfig.
From S2P Require Import ListenerIo ListenerDnsCrypt ListenerDoh ListenerTls MainArgs Main.
Implicit Type P : forall X, eff X -> Prop.

(** One constructor per spawned task, or per loop a task goes over to. *)
Inductive proc `{CryptoLib} :=
| UdpLoop (socket : handle)
| UdpQuery (socket : handle) (packet : bytes) (peer : SocketAddr)
| TcpLoop (listener : handle)
| TcpConnection (stream : handle)
| DotLoop (listener : handle)
| DotHandshake (tcp : handle)
| DotConnection (tls : handle)
| DoqLoop (endpoint : handle)
| DoqHandshake (incoming : handle)
| DoqConnection (conn : handle)
| DoqStream (send recv : handle)
| DohLoop (listener : handle)
| DohHandshake (tcp : handle)
| DohConnection (tls : handle)
| DohRequest (conn : handle) (req : HttpServerRequest)
| Doh3Loop (endpoint : handle)
| Doh3Handshake (incoming : handle)
| Doh3Setup (conn : handle)
| Doh3Connection (h3_conn : handle)
| Doh3Resolve (resolver : handle)
| Doh3Request (stream : handle) (req : HttpServerRequest)
| DnsCryptUdpLoop (config : DnsCryptServerConfig) (socket : handle)
| DnsCryptUdpQuery (config : DnsCryptServerConfig) (socket : handle) (packet : bytes) (peer : SocketAddr)
| DnsCryptTcpLoop (config : DnsCryptServerConfig) (listener : handle)
| DnsCryptTcpConnection (config : DnsCryptServerConfig) (stream : handle).

Section Turns.
Context {S : Type} `{HL : DnsLib} {HC : DnsCodec} {HB : Base64} {HK : CryptoLib}.
Context (handler : Handler S) (credentials : Credentials).

(** A failed task is only logged. *)
Definition finish (r : res unit DohError) : next proc :=
  match r with Panic => Unwound | _ => Break end.
Definition run_task (p : io S (res unit DohError)) : io S (next proc) :=
  let* r := p in IoRet (finish r).
(** The loops over a fallible accept call go on after an error... *)
Definition accept_turn {A} (p : io S (option A)) (task : A -> proc) : io S (next proc) :=
  let* r := p in IoRet (match r with Some a => Spawn (task a) | None => Continue end).
(** ... the others end with the connection. *)
Definition once {A E} (e : eff (res A E)) (task : A -> next proc) : io S (next proc) :=
  let* r := call e in IoRet (match r with Ok a => task a | Err _ => Break | Panic => Unwound end).

(** One turn of the query loop of a stream. *)
Definition query_turn (stream : handle) (answer : bytes -> io S (res unit DohError)) : io S (next proc) :=
  let* packet := read_prefixed stream in
  match packet with
  | Ok packet =>
      let* r := answer packet in
      IoRet (match r with Ok _ => Continue | r => finish r end)
  | Err _ => IoRet Break
  | Panic => IoRet Unwound
  end.

(** [src/listener/io.rs]. *)
Definition udp_loop (socket : handle) : io S (next proc) :=
  accept_turn (udp_turn socket) (fun '(packet, peer) => UdpQuery socket packet peer).
Definition tcp_loop (listener : handle) : io S (next proc) :=
  accept_turn (tcp_turn listener) TcpConnection.

(** [src/listener/dot.rs]: the handshake is the start of [handle_connection]. *)
Definition dot_accept_loop (listener : handle) : io S (next proc) :=
  accept_turn (tcp_turn listener) DotHandshake.
Definition dot_handshake (tcp : handle) : io S (next proc) :=
  once (TlsAccept tcp) (fun tls => Become (DotConnection tls)).

(** [src/listener/doq.rs]. *)
Definition doq_accept_loop (endpoint : handle) : io S (next proc) :=
  let* incoming := call (QuicAccept endpoint) in
  IoRet (match incoming with Some i => Spawn (DoqHandshake i) | None => Break end).
Definition doq_handshake (incoming : handle) : io S (next proc) :=
  once (QuicHandshake incoming) (fun conn => Become (DoqConnection conn)).
Definition doq_connection_loop (conn : handle) : io S (next proc) :=
  once (QuicAcceptBi conn) (fun '(send, recv) => Spawn (DoqStream send recv)).

(** [src/listener/doh.rs]. *)
Definition doh_accept_loop (listener : handle) : io S (next proc) :=
  accept_turn (tcp_turn listener) DohHandshake.
Definition doh_handshake (tcp : handle) : io S (next proc) :=
  once (TlsAccept tcp) (fun tls => Become (DohConnection tls)).
Definition doh_connection (tls : handle) : io S (next proc) :=
  once (HttpNextRequest tls)
    (fun req => match req with Some req => Spawn (DohRequest tls req) | None => Break end).
Definition doh_service (conn : handle) (req : HttpServerRequest) : io S (next proc) :=
  let* r := handle_request req handler credentials in
  match r with
  | Ok resp =>
      let* _ := call (HttpReply conn (rs_status resp) (rs_headers resp) (rs_body resp)) in
      IoRet Break
  | Err _ => IoRet Break
  | Panic => IoRet Unwound
  end.

(** [src/listener/doh3.rs]. *)
Definition doh3_accept_loop (endpoint : handle) : io S (next proc) :=
  let* incoming := call (QuicAccept endpoint) in
  IoRet (match incoming with Some i => Spawn (Doh3Handshake i) | None => Break end).
Definition doh3_handshake (incoming : handle) : io S (next proc) :=
  once (QuicHandshake incoming) (fun conn => Become (Doh3Setup conn)).
Definition doh3_setup (conn : handle) : io S (next proc) :=
  once (H3ServerNew conn) (fun c => Become (Doh3Connection c)).
Definition doh3_connection_loop (c : handle) : io S (next proc) :=
  once (H3Accept c)
    (fun resolver => match resolver with Some r => Spawn (Doh3Resolve r) | None => Break end).
Definition doh3_resolve (resolver : handle) : io S (next proc) :=
  once (H3ResolveRequest resolver) (fun '(req, stream) => Become (Doh3Request stream req)).

(** [src/listener/dnscrypt.rs]. *)
Definition dnscrypt_udp_loop (config : DnsCryptServerConfig) (socket : handle) : io S (next proc) :=
  accept_turn (udp_turn socket) (fun '(packet, peer) => DnsCryptUdpQuery config socket packet peer).
Definition dnscrypt_tcp_accept_loop (config : DnsCryptServerConfig) (listener : handle) : io S (next proc) :=
  accept_turn (tcp_turn listener) (DnsCryptTcpConnection config).

Definition turn (q : proc) : io S (next proc) :=
  match q with
  | UdpLoop socket => udp_loop socket
  | UdpQuery socket packet peer => run_task (ListenerIo.handle_udp_packet socket packet peer handler)
  | TcpLoop listener => tcp_loop listener
  | TcpConnection stream => query_turn stream (answer_packet "unpacking tcp message: " stream handler)
  | DotLoop listener => dot_accept_loop listener
  | DotHandshake tcp => dot_handshake tcp
  | DotConnection tls => query_turn tls (answer_packet "unpacking dot message: " tls handler)
  | DoqLoop endpoint => doq_accept_loop endpoint
  | DoqHandshake incoming => doq_handshake incoming
  | DoqConnection conn => doq_connection_loop conn
  | DoqStream send recv => run_task (handle_stream send recv handler)
  | DohLoop listener => doh_accept_loop listener
  | DohHandshake tcp => doh_handshake tcp
  | DohConnection tls => doh_connection tls
  | DohRequest conn req => doh_service conn req
  | Doh3Loop endpoint => doh3_accept_loop endpoint
  | Doh3Handshake incoming => doh3_handshake incoming
  | Doh3Setup conn => doh3_setup conn
  | Doh3Connection c => doh3_connection_loop c
  | Doh3Resolve resolver => doh3_resolve resolver
  | Doh3Request stream req => run_task (h3_handle_request req stream handler credentials)
  | DnsCryptUdpLoop config socket => dnscrypt_udp_loop config socket
  | DnsCryptUdpQuery config socket packet peer =>
      run_task (ListenerDnsCrypt.handle_udp_packet socket packet peer config handler)
  | DnsCryptTcpLoop config listener => dnscrypt_tcp_accept_loop config listener
  | DnsCryptTcpConnection config stream => query_turn stream (answer_encrypted stream config handler)
  end.
End Turns.

(** The loops [main] has started. *)
Definition boot `{HL : DnsLib} `{HK : CryptoLib} {S C} (r : Running (S := S) (C := C)) : list proc :=
  (plain r ≫= fun '(udp, tcp) => [UdpLoop udp; TcpLoop tcp])
  ++ (DoqLoop <$> doq (secure r)) ++ (DotLoop <$> dot (secure r)) ++ (DohLoop <$> doh (secure r))
  ++ (Doh3Loop <$> doh3 (secure r))
  ++ match dnscrypt r with
     | (Some config, (udp, tcp)) => (DnsCryptUdpLoop config <$> udp) ++ (DnsCryptTcpLoop config <$> tcp)
     | (None, _) => []
     end.

(** The loops that only end with the program. *)
Definition accepts_forever `{CryptoLib} (q : proc) : bool :=
  match q with
  | UdpLoop _ | TcpLoop _ | DotLoop _ | DohLoop _ | DnsCryptUdpLoop _ _ | DnsCryptTcpLoop _ _ => true
  | _ => false
  end.

(** ** Lemmas *)
Section Safety.
Context {S : Type} `{HL : DnsLib} {HC : DnsCodec} {HB : Base64} {HK : CryptoLib}.
Context (handler : Handler S) (credentials : Credentials) (booted : list proc).

(** What led to a process. *)
Definition fact (tr : list event) (q : proc) : Prop :=
  match q with
  | UdpLoop _ | DnsCryptUdpLoop _ _ => q ∈ booted
  | UdpQuery h packet peer =>
      UdpLoop h ∈ booted /\ exists n, Event (RecvFrom h n) (Ok (packet, peer)) ∈ tr
  | DnsCryptUdpQuery config h packet peer =>
      DnsCryptUdpLoop config h ∈ booted /\ exists n, Event (RecvFrom h n) (Ok (packet, peer)) ∈ tr
  | DohRequest conn req => Event (HttpNextRequest conn) (Ok (Some req)) ∈ tr
  | Doh3Request stream req =>
      exists resolver, Event (H3ResolveRequest resolver) (Ok (req, stream)) ∈ tr
  | _ => True
  end.
(** The datagram answers the query, in the clear. *)
Definition plain_reply (packet b : bytes) : Prop :=
  exists req resp, from_bytes packet = inr req /\ right_question req resp /\ datagram resp b.
(** What a process may send to a client. *)
Definition policy (q : proc) : forall X, eff X -> Prop := fun X e =>
  match e with
  | UdpSendTo h b peer =>
      match q with
      | UdpQuery h' packet peer' => h = h' /\ peer = peer' /\ plain_reply packet b
      | DnsCryptUdpQuery config h' packet peer' =>
          h = h' /\ peer = peer' /\ reply_to proxy_done config packet b
      | _ => False
      end
  | HttpReply conn status _ b =>
      match q with
      | DohRequest conn' req => conn = conn' /\ response_ok proxy_done credentials req status b
      | _ => False
      end
  | H3SendResponse stream status _ =>
      match q with
      | Doh3Request stream' req =>
          stream = stream' /\ exists b, response_ok proxy_done credentials req status b
      | _ => False
      end
  | H3SendData stream b =>
      match q with
      | Doh3Request stream' req =>
          stream = stream' /\ unauthorized credentials (rq_authorization req) = false
          /\ answer_bytes proxy_done req b
      | _ => False
      end
  | _ => True
  end.
(** A process may unwind in the handler; the listeners' loops never do. *)
Definition dies (q : proc) : Prop :=
  match q with
  | UdpLoop _ | TcpLoop _ | DotLoop _ | DohLoop _ | DoqLoop _ | Doh3Loop _ => False
  | DnsCryptUdpLoop _ _ | DnsCryptTcpLoop _ _ => False
  | _ => True
  end.

Lemma policy_quiet q : quiet (policy q).
Proof. by intros X []. Qed.
Lemma policy_write q h b : policy q _ (WriteAll h b).
Proof. done. Qed.
Lemma no_reply_policy q X (e : eff X) : no_reply X e -> policy q X e.
Proof. by destruct e. Qed.
Lemma fact_mono tr tr' q : tr ⊆ tr' -> fact tr q -> fact tr' q.
Proof. intros Htr. destruct q; simpl; naive_solver. Qed.

Context (I : S -> Prop) (Hh : forall req, safe no_reply I (handler req) (proxy_done req)).

Lemma handler_policy q req : safe (policy q) I (handler req) (proxy_done req).
Proof using Hh. eapply safe_weaken; [apply no_reply_policy|apply Hh]. Qed.

(** The part of a turn after which the process does not go over to another. *)
Definition settles (q : proc) (n : next proc) : Prop :=
  match n with Break | Continue => True | Unwound => dies q | _ => False end.
Lemma settles_tsafe q tr p :
  safe (policy q) I p (settles q) -> tsafe (policy q) I tr p (turn_ends fact dies q).
Proof. apply safe_tsafe. by intros tr' []. Qed.

Lemma run_task_safe q (p : io S (res unit DohError)) :
  safe (policy q) I p (fun r => match r with Panic => dies q | _ => True end) ->
  safe (policy q) I (run_task p) (settles q).
Proof. intros Hp. eapply safe_bind; [exact Hp|]. by intros []. Qed.

Lemma query_turn_safe q stream answer :
  (forall packet, safe (policy q) I (answer packet)
     (fun r => match r with Panic => dies q | _ => True end)) ->
  safe (policy q) I (query_turn stream answer) (settles q).
Proof.
  intros Ha. unfold query_turn. eapply safe_bind.
  - apply read_framed_safe. intros n. apply policy_quiet. done.
  - intros [packet|e|] Hp; [|done|done]. eapply safe_bind; [apply Ha|]. by intros [].
Qed.
Lemma write_prefixed_safe q stream b :
  safe (policy q) I (write_prefixed stream b) (fun r => r <> Panic).
Proof.
  unfold write_prefixed. destruct (_ <? _); [done|]. unfold write_framed.
  eapply safe_try_call; [done|intros ? Hok; exact Hok| |done]. intros _ _.
  unfold io_map_err, call. simpl. split; [done|]. by intros [].
Qed.
Lemma answer_packet_safe q label stream packet :
  dies q ->
  safe (policy q) I (answer_packet label stream handler packet)
    (fun r => match r with Panic => dies q | _ => True end).
Proof using Hh.
  intros Hq. unfold answer_packet. apply safe_try_pure; [apply from_sum_not_Panic| |done]. intros req _.
  eapply safe_try; [apply handler_policy| |done|by intros _]. intros resp _.
  apply safe_try_pure; [apply from_sum_not_Panic| |done]. intros b _.
  eapply safe_mono; [|apply write_prefixed_safe]. by intros [].
Qed.
Lemma answer_encrypted_safe q stream config packet :
  dies q ->
  safe (policy q) I (answer_encrypted stream config handler packet)
    (fun r => match r with Panic => dies q | _ => True end).
Proof using Hh.
  intros Hq. unfold answer_encrypted.
  eapply safe_try; [apply respond_safe, handler_policy| |done|by intros _]. intros response _.
  apply (safe_try _ _ _ _ (fun r => r <> Panic)); [| |done|done].
  - destruct response as [resp|pk nonce full]; [apply from_sum_not_Panic|].
    eapply safe_mono; [|apply encrypt_server_response_safe; by apply policy_quiet]. by intros [].
  - intros b _. eapply safe_mono; [|apply write_prefixed_safe]. by intros [].
Qed.
Lemma handle_stream_safe q send recv :
  dies q ->
  safe (policy q) I (handle_stream send recv handler)
    (fun r => match r with Panic => dies q | _ => True end).
Proof using Hh.
  intros Hq. unfold handle_stream.
  eapply safe_try_call; [done|intros ? Hok; exact Hok|intros l _|done]. destruct (_ <? _); [done|].
  eapply safe_try_call; [done|intros ? Hok; exact Hok|intros packet _|done].
  apply safe_try_pure; [apply from_sum_not_Panic| |done]. intros req _.
  unfold doq_answer. destruct (negb _); [done|].
  eapply safe_try; [apply handler_policy| |done|by intros _]. intros resp _.
  apply safe_try_pure; [apply from_sum_not_Panic| |done]. intros b _. destruct (too_large b) eqn:Hl; [done|].
  apply safe_try_write_framed; [done|done|done| |done].
  eapply safe_try_call; [done|intros ? Hok; exact Hok|intros _ _|done]. by split.
Qed.

(** A turn of a connection's loop is a loop of one query: what is shown of
    [answer_loop] holds of the running loop. *)
Lemma query_turn_loop label stream s tr nx s' :
  exec (query_turn stream (answer_packet label stream handler)) s tr nx s' <->
  exists out, exec (answer_loop 1 label stream handler) s tr out s'
    /\ nx = match out with None => Continue | Some r => finish r end.
Proof.
  unfold query_turn. cbn [answer_loop]. setoid_rewrite exec_bind. split.
  - intros (packet & s1 & tr1 & tr2 & -> & Hp & H). destruct packet as [packet|e|].
    + revert H. rewrite exec_bind. intros (r & s2 & tr3 & tr4 & -> & Hr & -> & -> & ->).
      exists (match r with Ok _ => None | r => Some r end). split; [|by destruct r].
      exists (Ok packet), s1, tr1, (tr3 ++ []). split; [done|]. split; [done|]. rewrite exec_bind.
      exists r, s2, tr3, []. split; [done|]. split; [done|]. by destruct r.
    + destruct H as (-> & -> & ->). exists (Some (Ok tt)). split; [|done]. by exists (Err e), s1, tr1, [].
    + destruct H as (-> & -> & ->). exists (Some Panic). split; [|done]. by exists Panic, s1, tr1, [].
  - intros (out & (packet & s1 & tr1 & tr2 & -> & Hp & H) & ->).
    exists packet, s1, tr1, tr2. split; [done|]. split; [done|]. destruct packet as [packet|e|].
    + revert H. rewrite !exec_bind. intros (r & s2 & tr3 & tr4 & -> & Hr & H). exists r, s2, tr3, tr4.
      split; [done|]. split; [done|]. by destruct r; destruct H as (-> & -> & ->).
    + by destruct H as (-> & -> & ->).
    + by destruct H as (-> & -> & ->).
Qed.
End Safety.

Lemma last_event (tr : list event) ev : ev ∈ tr ++ [ev].
Proof. apply elem_of_app. right. by left. Qed.
Section Turn.
Context {S : Type} `{HL : DnsLib} {HC : DnsCodec} {HB : Base64} {HK : CryptoLib}.
Context (handler : Handler S) (credentials : Credentials) (booted : list proc).
Context (I : S -> Prop) (Hh : forall req, safe no_reply I (handler req) (proxy_done req)).
Notation ends := (turn_ends (fact booted) dies).

Lemma once_tsafe {A E} q tr (e : eff (res A E)) task (Q : A -> Prop) :
  policy credentials q _ e -> (forall x, eff_ok e x -> answered x Q) ->
  (forall a, ends q (tr ++ [Event e (Ok a)]) (task a)) ->
  tsafe (policy credentials q) I tr (once e task) (ends q).
Proof.
  intros He Hok Ht. split; [done|]. intros x Hx%Hok. destruct x as [a|err|]; simpl; [apply Ht|done|done].
Qed.
Lemma udp_loop_tsafe q tr socket task :
  (forall packet peer, fact booted (tr ++ [Event (RecvFrom socket (Z.to_nat 65535)) (Ok (packet, peer))])
     (task (packet, peer))) ->
  tsafe (policy credentials q) I tr (accept_turn (udp_turn socket) task) (ends q).
Proof. intros Ht. split; [done|]. intros [[packet peer]|e|] Hx; simpl; [apply Ht|done|done]. Qed.
Lemma tcp_loop_tsafe q tr listener task :
  (forall stream tr', fact booted tr' (task stream)) ->
  tsafe (policy credentials q) I tr (accept_turn (tcp_turn listener) task) (ends q).
Proof. intros Ht. split; [done|]. intros [[stream peer]|e|] Hx; simpl; [apply Ht|done|done]. Qed.

Lemma doh_service_safe conn req :
  safe (policy credentials (DohRequest conn req)) I (doh_service handler credentials conn req)
    (settles (DohRequest conn req)).
Proof using Hh.
  unfold doh_service. eapply safe_bind.
  - apply (handle_request_safe _ _ proxy_done); [apply policy_quiet|by apply handler_policy].
  - intros [resp|e|] Hr; [|done|done]. simpl. by split.
Qed.

(** Every process keeps to its policy and spawns what its facts allow. *)
Lemma turn_tsafe tr q :
  fact booted tr q -> tsafe (policy credentials q) I tr (turn handler credentials q) (ends q).
Proof using Hh.
  intros Hf. destruct q; cbn [turn].
  - apply udp_loop_tsafe. intros packet peer. split; [exact Hf|]. eexists. apply last_event.
  - apply settles_tsafe, run_task_safe. eapply safe_mono; [|apply (udp_packet_safe _ _ _ proxy_done)].
    + by intros [].
    + by apply handler_policy.
    + intros req resp b Hreq HR Hd. split; [done|]. split; [done|]. by exists req, resp.
  - by apply tcp_loop_tsafe.
  - apply settles_tsafe, query_turn_safe. intros packet. by apply answer_packet_safe.
  - by apply tcp_loop_tsafe.
  - by apply (once_tsafe _ _ _ _ (fun _ => True)).
  - apply settles_tsafe, query_turn_safe. intros packet. by apply answer_packet_safe.
  - split; [done|]. by intros [].
  - by apply (once_tsafe _ _ _ _ (fun _ => True)).
  - apply (once_tsafe _ _ _ _ (fun _ => True)); [done|done|]. by intros [].
  - apply settles_tsafe, run_task_safe, handle_stream_safe; done.
  - by apply tcp_loop_tsafe.
  - by apply (once_tsafe _ _ _ _ (fun _ => True)).
  - apply (once_tsafe _ _ _ _ (fun _ => True)); [done|done|]. intros [req|]; [|done]. simpl. apply last_event.
  - apply settles_tsafe, doh_service_safe.
  - split; [done|]. by intros [].
  - by apply (once_tsafe _ _ _ _ (fun _ => True)).
  - by apply (once_tsafe _ _ _ _ (fun _ => True)).
  - apply (once_tsafe _ _ _ _ (fun _ => True)); [done|done|]. by intros [].
  - apply (once_tsafe _ _ _ _ (fun _ => True)); [done|done|]. intros [req stream]. eexists. apply last_event.
  - apply settles_tsafe, run_task_safe. eapply safe_mono.
    2: apply (h3_handle_request_safe _ _ proxy_done); [apply policy_quiet|by apply handler_policy|..].
    + by intros [].
    + intros status b Hok. split; [done|by exists b].
    + by intros b.
  - apply udp_loop_tsafe. intros packet peer. split; [exact Hf|]. eexists. apply last_event.
  - apply settles_tsafe, run_task_safe. eapply safe_mono.
    2: apply (udp_safe _ _ _ proxy_done); [apply policy_quiet|by apply handler_policy|].
    + by intros [].
    + by intros b.
  - by apply tcp_loop_tsafe.
  - apply settles_tsafe, query_turn_safe. intros packet. by apply answer_encrypted_safe.
Qed.
Lemma accepts_endless q :
  accepts_forever q = true -> endless q (turn handler credentials q).
Proof.
  destruct q; try done; intros _; (split; [done|]); intros [[]| |] Hx; done.
Qed.
End Turn.

Lemma boot_facts `{HL : DnsLib} `{HK : CryptoLib} {S C} (r : Running (S := S) (C := C)) :
  Forall (fact (boot r) []) (boot r).
Proof.
  apply list.Forall_forall. intros q Hq. pose proof Hq as Hin. unfold boot in Hq.
  repeat (apply elem_of_app in Hq as [Hq|Hq]).
  - apply list_elem_of_bind in Hq as ([udp tcp] & Hq & _).
    apply elem_of_cons in Hq as [->|Hq]; [exact Hin|]. by apply list_elem_of_singleton in Hq as ->.
  - by apply list_elem_of_fmap in Hq as (h & -> & _).
  - by apply list_elem_of_fmap in Hq as (h & -> & _).
  - by apply list_elem_of_fmap in Hq as (h & -> & _).
  - by apply list_elem_of_fmap in Hq as (h & -> & _).
  - destruct (dnscrypt r) as [[config|] [udp tcp]]; [|by apply not_elem_of_nil in Hq].
    apply elem_of_app in Hq as [(h & -> & _)%list_elem_of_fmap|(h & -> & _)%list_elem_of_fmap]; [exact Hin|done].
Qed.

(** ** Properties *)
Section Properties.
Context {S C : Type} `{HL : DnsLib} {HC : DnsCodec} {HB : Base64} {HW : WebLib} {HK : CryptoLib}.
Context {HT : TlsLib} {HLru : Lru CacheKey CacheEntry C} {HLaws : LruLaws key_eqb} {HD : DnsLaws}.
Context (debug_errs : list DohError -> string) (boot_cells alloc : nat -> Cells S).
Context (cursor_of : option string -> cell S Z).

(** The proxy [r], run from the store [s] to [c] with the calls [tr]. *)
Definition runs_to (r : Running (S := S) (C := C)) s (tr : list event) c : Prop :=
  sys_exec (turn (handler r) (credentials r)) (s, start (turn (handler r) (credentials r)) <$> boot r) tr c.

(** The whole proxy: once [main] has started it, with or without the cache,
    with any rules, upstreams and bootstrap resolvers, over any store that
    gives each its own cells, whatever arrives at its
    listeners, whatever the network answers, and however its tasks interleave:
    every datagram sent answers a datagram received on that socket from that
    peer, with a message (truncated past 512 bytes) that carries its query's
    question, or on a DNSCrypt socket with its certificate or such an answer
    boxed for the sender; every HTTP response belongs to a request received,
    and carries a DNS answer only to that request's query and only if it was
    authorized; and the cache never exceeds its size. *)
Theorem proxy_integrity args (J : S -> Prop) s tr0 r s' :
  store_ok boot_cells alloc cursor_of J -> J s.2 ->
  exec (main (C := C) debug_errs boot_cells alloc cursor_of args) s tr0 (Ok (Some r)) s' ->
  exists cfg, configured debug_errs boot_cells alloc cursor_of args tr0 cfg /\
  forall tr c, runs_to r s' tr c ->
    (forall h b peer x, Event (UdpSendTo h b peer) x ∈ tr ->
       exists packet n, Event (RecvFrom h n) (Ok (packet, peer)) ∈ tr /\
       ((UdpLoop h ∈ boot r /\ plain_reply packet b)
        \/ exists config, DnsCryptUdpLoop config h ∈ boot r /\ reply_to proxy_done config packet b))
    /\ (forall conn status headers b x, Event (HttpReply conn status headers b) x ∈ tr ->
       exists req, Event (HttpNextRequest conn) (Ok (Some req)) ∈ tr
       /\ response_ok proxy_done (credentials r) req status b)
    /\ (forall stream b x, Event (H3SendData stream b) x ∈ tr ->
       exists resolver req, Event (H3ResolveRequest resolver) (Ok (req, stream)) ∈ tr
       /\ unauthorized (credentials r) (rq_authorization req) = false /\ answer_bytes proxy_done req b)
    /\ (arg_cache args = true -> (length (view c.1.1) <= cache_size args)%nat).
Proof.
  intros Hstore HJ (cfg & Hcfg & Hb & _)%exec_main. exists cfg. split; [done|]. intros tr c Hexec.
  pose proof (configured_runs _ _ _ _ _ _ _ _ Hstore Hcfg) as Hruns.
  destruct (handler_safe _ _ _ _ _ _ Hb Hruns HJ) as [Hinv Hh].
  destruct (sys_safe _ (policy (credentials r)) (store_inv args J) (fact (boot r)) dies
    (fact_mono (boot r)) (turn_tsafe (handler r) (credentials r) (boot r) _ Hh) _ _ _ _ Hexec Hinv
    (boot_facts r)) as ([Hc _] & _ & Hcalls).
  split_and!.
  - intros h b peer x (q & Hf & Hq)%Hcalls. destruct q; try done; destruct Hq as (-> & -> & Hq);
      destruct Hf as (Hin & n & Hrecv); exists packet, n; (split; [done|]); [by left|right; eauto].
  - intros conn status headers b x (q & Hf & Hq)%Hcalls. destruct q; try done. destruct Hq as [-> Hq]. eauto.
  - intros stream b x (q & Hf & Hq)%Hcalls. destruct q; try done. destruct Hq as [-> Hq].
    destruct Hf as [resolver Hf]. eauto.
  - intros Hca. by destruct (Hc Hca) as (_ & _ & _ & Hlen & _).
Qed.

(** A listener is never lost: whatever packets, connections, failures and
    panics of tasks the proxy has seen, the receive loop of every plain and
    DNSCrypt UDP socket and the accept loop of every plain, DoT, DoH and
    DNSCrypt TCP listener that [main] started is still running, at a point
    from which every continuation goes round again. *)
Theorem listeners_survive r s tr c i q :
  runs_to r s tr c -> boot r !! i = Some q -> accepts_forever q = true ->
  exists p, c.2 !! i = Some (q, p) /\ safe any_call (fun _ => True) p goes_on.
Proof. intros Hexec Hi Hq. eapply endless_exec; [exact Hexec|exact Hi|by apply accepts_endless]. Qed.
End Properties.

Section Witnesses.
#[local] Existing Instances Toy.lib Toy.codec Toy.laws ToyBase64.base64 ToyWeb.web ToyCrypto.lib ToyTls.lib.
#[local] Instance s_lru : Lru CacheKey CacheEntry (ListLru.t CacheKey CacheEntry) := ListLru.lru key_eqb.
#[local] Instance s_lru_laws : LruLaws key_eqb := ListLru.laws key_eqb.

(** The proxy of [Main.w_args] receives one packet. *)
Definition w_arrival : event :=
  Event (RecvFrom 1%nat (Z.to_nat 65535)) (Ok (w_packet, SockV4 (Ipv4 x7f x00 x00 x01) 5353)).
Lemma w_receives (r : Running (S := unit) (C := ListLru.t CacheKey CacheEntry)) s q p ps :
  boot r = UdpLoop 1%nat :: q :: ps -> p = UdpQuery 1%nat w_packet (SockV4 (Ipv4 x7f x00 x00 x01) 5353) ->
  exists c, runs_to r s [w_arrival] c /\ (start (turn (handler r) (credentials r)) p) ∈ c.2 /\ c.1 = s.
Proof.
  intros Hb ->. unfold runs_to. rewrite Hb.
  pose proof (sys_call (turn (handler r) (credentials r)) s
    (start (turn (handler r) (credentials r)) <$> UdpLoop 1%nat :: q :: ps) 0 (UdpLoop 1%nat) _
    (RecvFrom 1%nat (Z.to_nat 65535)) _ (Ok (w_packet, SockV4 (Ipv4 x7f x00 x00 x01) 5353)) eq_refl) as H1.
  pose proof (sys_turn (turn (handler r) (credentials r)) s
    (<[0%nat := (UdpLoop 1%nat, IoRet (Spawn (UdpQuery 1%nat w_packet (SockV4 (Ipv4 x7f x00 x00 x01) 5353))))]>
       (start (turn (handler r) (credentials r)) <$> UdpLoop 1%nat :: q :: ps)) 0 (UdpLoop 1%nat) _ eq_refl) as H2.
  eexists. split; [|split].
  - eapply (sys_trans _ _ [w_arrival] _ []); [|exact H2].
    eapply (sys_trans _ _ [] _ [w_arrival]); [apply sys_refl|]. apply H1.
    change ((length w_packet <= Z.to_nat 65535)%nat). apply Nat2Z.inj_le.
    rewrite Z2Nat.id by lia. vm_compute. discriminate.
  - cbn [after snd]. apply elem_of_app. right. by left.
  - done.
Qed.

(** Started on the default address: one UDP and one TCP loop. *)
Lemma w_boots_at s : exists r s', exec w_main s (run_trace benign w_main s).2 (Ok (Some r)) s'
  /\ boot r = [UdpLoop 1%nat; TcpLoop 1%nat].
Proof.
  pose proof (run_trace_exec benign w_main s benign_ok) as H.
  assert (match (run_trace benign w_main s).1.1 with
          | Ok (Some r) => bool_decide (plain r = [(1%nat, 1%nat)] /\ doq (secure r) = []
              /\ dot (secure r) = [] /\ doh (secure r) = [] /\ doh3 (secure r) = [])
              && match (dnscrypt r).1 with None => true | _ => false end
          | _ => false end = true) as Hok by vm_refl.
  destruct (run_trace benign w_main s) as [[[[r|]| |] s'] tr]; try discriminate Hok.
  exists r, s'. split; [exact H|]. cbn in Hok. apply andb_true_iff in Hok as [Hp Hd].
  apply bool_decide_eq_true in Hp as (H1 & H2 & H3 & H4 & H5). unfold boot. rewrite H1, H2, H3, H4, H5.
  destruct (dnscrypt r) as [[c|] [u t]]; [discriminate Hd|reflexivity].
Qed.
Lemma w_boots : exists r s', exec w_main w_store (run_trace benign w_main w_store).2 (Ok (Some r)) s'
  /\ boot r = [UdpLoop 1%nat; TcpLoop 1%nat].
Proof. apply w_boots_at. Qed.

Lemma proxy_integrity_witness :
  exists r s' cfg c,
    exec w_main w_store (run_trace benign w_main w_store).2 (Ok (Some r)) s'
    /\ configured (fun _ => "") w_alloc w_alloc w_cursor w_args (run_trace benign w_main w_store).2 cfg
    /\ runs_to r s' [w_arrival] c /\ (length (view c.1.1) <= 2)%nat.
Proof.
  destruct w_boots as (r & s' & H & Hb).
  destruct (proxy_integrity (fun _ => "") w_alloc w_alloc w_cursor w_args (fun _ => True) w_store _ r s'
    w_store_ok Logic.I H) as (cfg & Hcfg & Hsafe).
  destruct (w_receives r s' _ _ _ Hb eq_refl) as (c & Hc & _).
  exists r, s', cfg, c. split; [exact H|]. split; [exact Hcfg|]. split; [exact Hc|].
  destruct (Hsafe _ c Hc) as (_ & _ & _ & Hlen).
  exact (Hlen eq_refl).
Defined.
Lemma listeners_survive_witness :
  exists r s' c p, runs_to (S := unit) (C := ListLru.t CacheKey CacheEntry) r s' [w_arrival] c
    /\ c.2 !! 0%nat = Some (UdpLoop 1%nat, p) /\ safe any_call (fun _ => True) p goes_on.
Proof.
  destruct w_boots as (r & s' & _ & Hb).
  destruct (w_receives r s' _ _ _ Hb eq_refl) as (c & Hc & _). exists r, s', c.
  assert (boot r !! 0%nat = Some (UdpLoop 1%nat)) as Hi by by rewrite Hb.
  destruct (listeners_survive r s' _ c 0%nat (UdpLoop 1%nat) Hc Hi eq_refl) as (p & Hp & Hs).
  exists p. split; [exact Hc|]. split; [exact Hp|exact Hs].
Defined.
End Witnesses.
