(* ===== verification/Startup.v ===== *)
(** * The program from its first step

    [main] of [src/main.rs] as the task it is: it binds one listener after the
    other with the [serve_all] functions of [src/listener], which spawn the
    loops of [Server.v], and these already serve while it goes on. [startup] is
    that task, [program] the system it starts. [startup_alone] carries what is
    proved of [Main.main], the same task without the spawning, over to it. *)
From S2P Require Import Prelude RustStr RustNet Io Procs Script Dns Errors WebLib Wire Cache Framing.
From S2P Require Import CryptoLib Crypto Keygen DnsCrypt UpstreamUrl UpstreamConfig.
From S2P Require Import ListenerIo ListenerDnsCrypt ListenerDoh ListenerTls MainArgs Main Server.
Implicit Type P : forall X, eff X -> Prop.

Section Startup.
Context {S C : Type} `{HL : DnsLib} {HC : DnsCodec} {HB : Base64} {HW : WebLib} {HK : CryptoLib}.
Context {HT : TlsLib} {HLru : Lru CacheKey CacheEntry C}.
Context (debug_errs : list DohError -> string) (boot_cells alloc : nat -> Cells S).
Context (cursor_of : option string -> cell S Z).
Notation store := (Store (S := S) (C := C)).

(** What [main] hands to every listener; a task is a loop with it, or what the
    loop has spawned. Only the loops of DoH and DoH3 look at the credentials. *)
Record shared := { shared_handler : Handler store; shared_credentials : Credentials }.
Record task := { context : shared; work : proc }.
Definition task_turn (t : task) : io store (next task) :=
  io_map (next_map (Build_task (context t)))
    (turn (shared_handler (context t)) (shared_credentials (context t)) (work t)).

Notation served E := (script store task (res unit E)).
Implicit Type ctx : shared.

(** [serve] and [serve_all] of [src/listener/io.rs]. *)
Definition plain_serve ctx (addr : SocketAddr) : served DohError :=
  try$ (udp, tcp) := await (ListenerIo.serve addr) in
  let$ _ := spawn (Build_task ctx (UdpLoop udp)) in
  let$ _ := spawn (Build_task ctx (TcpLoop tcp)) in
  Done (Ok tt).
Definition plain_serve_all ctx (addrs : list SocketAddr) : served DohError :=
  for_each (plain_serve ctx) addrs.

(** [src/listener/doq.rs]. *)
Definition doq_serve ctx (config : ServerConfig) (addr : SocketAddr) : served DohError :=
  try$ endpoint := await (serve_quic config addr) in
  let$ _ := spawn (Build_task ctx (DoqLoop endpoint)) in
  Done (Ok tt).
Definition doq_serve_all ctx config (addrs : list SocketAddr) : served DohError :=
  for_each (doq_serve ctx config) addrs.

(** [src/listener/dot.rs]. *)
Definition dot_serve ctx (addr : SocketAddr) : served DohError :=
  try$ listener := await (serve_tls addr) in
  let$ _ := spawn (Build_task ctx (DotLoop listener)) in
  Done (Ok tt).
Definition dot_serve_all ctx (addrs : list SocketAddr) : served DohError :=
  for_each (dot_serve ctx) addrs.

(** [src/listener/doh.rs]. *)
Definition doh_serve ctx (addr : SocketAddr) : served DohError :=
  try$ listener := await (serve_tls addr) in
  let$ _ := spawn (Build_task ctx (DohLoop listener)) in
  Done (Ok tt).
Definition doh_serve_all ctx (addrs : list SocketAddr) : served DohError :=
  for_each (doh_serve ctx) addrs.

(** [src/listener/doh3.rs]. *)
Definition doh3_serve ctx (config : ServerConfig) (addr : SocketAddr) : served DohError :=
  try$ endpoint := await (serve_quic config addr) in
  let$ _ := spawn (Build_task ctx (Doh3Loop endpoint)) in
  Done (Ok tt).
Definition doh3_serve_all ctx config (addrs : list SocketAddr) : served DohError :=
  for_each (doh3_serve ctx config) addrs.

(** [src/listener/dnscrypt.rs]. *)
Definition dnscrypt_serve_udp ctx (config : DnsCryptServerConfig) (addr : SocketAddr) : served DohError :=
  try$ socket := await (ListenerDnsCrypt.serve_udp addr) in
  let$ _ := spawn (Build_task ctx (DnsCryptUdpLoop config socket)) in
  Done (Ok tt).
Definition dnscrypt_serve_tcp ctx (config : DnsCryptServerConfig) (addr : SocketAddr) : served DohError :=
  try$ listener := await (ListenerDnsCrypt.serve_tcp addr) in
  let$ _ := spawn (Build_task ctx (DnsCryptTcpLoop config listener)) in
  Done (Ok tt).
Definition dnscrypt_serve_all ctx config (udp_addrs tcp_addrs : list SocketAddr) : served DohError :=
  try$ _ := for_each (dnscrypt_serve_udp ctx config) udp_addrs in
  for_each (dnscrypt_serve_tcp ctx config) tcp_addrs.

(** ** [main] *)
Definition start_any (addrs : list SocketAddr) (m : served MainError) : served MainError :=
  match addrs with [] => Done (Ok tt) | _ => m end.

Definition start_secure ctx (args : Args) : served MainError :=
  let quic_addrs := expand_listen (quic_listen args) (quic_port args) in
  let tls_addrs := expand_listen (tls_listen args) (tls_port args) in
  let https_addrs := expand_listen (https_listen args) (https_port args) in
  if is_nil quic_addrs && is_nil tls_addrs && is_nil https_addrs then Done (Ok tt)
  else
    try$ cert := Done (ok_or (Msg "--tls-cert is required to enable any of --quic-listen/--tls-listen/--https-listen")
                         (listener_tls_cert args)) in
    try$ key := Done (ok_or (Msg "--tls-key is required") (listener_tls_key args)) in
    try$ _ := start_any quic_addrs
      (try$ config := await (load_tls cert key DOQ_SERVER_ALPN) in
       script_map_err Failed (doq_serve_all ctx config quic_addrs)) in
    try$ _ := start_any tls_addrs
      (try$ config := await (load_tls cert key DOT_ALPN) in
       script_map_err Failed (dot_serve_all ctx tls_addrs)) in
    start_any https_addrs
      (try$ config := await (load_tls cert key (DOH_ALPN ++ DOH3_ALPN)) in
       try$ _ := script_map_err Failed (doh_serve_all ctx https_addrs) in
       script_map_err Failed (doh3_serve_all ctx config https_addrs)).

Definition start_dnscrypt ctx (args : Args) : served MainError :=
  let dnscrypt_addrs := expand_listen (dnscrypt_listen args) (dnscrypt_port args) in
  start_any dnscrypt_addrs
    (try$ config_path := Done (ok_or (Msg "--dnscrypt-config is required to enable --dnscrypt-listen/--dnscrypt-port")
                                (dnscrypt_config args)) in
     try$ resolver_config := await (io_map_err Msg (load config_path)) in
     let$ now := await now_unix in
     let server_config :=
       config_new (Keygen.resolver_secret_key resolver_config) (provider_signing_key resolver_config)
         (config_name resolver_config) CLIENT_MAGIC 1 now
         (saturating_add_u32 now DEFAULT_CERT_TTL_SECS) in
     script_map_err Failed (dnscrypt_serve_all ctx server_config dnscrypt_addrs dnscrypt_addrs)).

(** Everything up to the end of the last listener's [serve_all]. *)
Definition start_listeners (args : Args) : served MainError :=
  try$ _ := await install_crypto_provider in
  try$ cfg := await (upstream_config debug_errs boot_cells alloc cursor_of args) in
  try$ credentials := await (doh_credentials args) in
  try$ handler := await (build_handler args cfg) in
  let ctx := {| shared_handler := handler; shared_credentials := credentials |} in
  try$ _ := script_map_err Failed (plain_serve_all ctx (listen_addrs args)) in
  try$ _ := start_secure ctx args in
  start_dnscrypt ctx args.

(** How [main] ends: having written a key file, or never, after the last
    listener is bound ([pending().await]). *)
Inductive ending := Exited | Pending.
Definition start_generate (args : Args) (path : string) : served MainError :=
  try$ provider_name := Done (ok_or
    (Msg "--dnscrypt-provider-name is required with --dnscrypt-generate-config")
    (dnscrypt_provider_name args)) in
  try$ _ := await (io_map_err Msg (run_dnscrypt_generate_config path provider_name)) in
  Done (Ok tt).
Definition startup (args : Args) : script store task (res ending MainError) :=
  match dnscrypt_generate_config args with
  | Some path => try$ _ := start_generate args path in Done (Ok Exited)
  | None => try$ _ := start_listeners args in Done (Ok Pending)
  end.
Definition is_pending (r : res ending MainError) : bool :=
  match r with Ok Pending => true | _ => false end.

(** The system it starts. When [main] returns, the runtime cancels the other
    tasks at their next [await]; here they may go on. *)
Definition program_turn := script_turn task_turn is_pending.
Definition program (args : Args) : list ((script store task (res ending MainError) + task) * _) :=
  script_start task_turn is_pending (startup args).
Definition program_runs (args : Args) (s : store) (tr : list event) c : Prop :=
  sys_exec program_turn (s, program args) tr c.

(** ** The task without its tasks is [Main.main] *)
Definition tasks ctx (qs : list proc) : list task := Build_task ctx <$> qs.
Definition secure_loops (r : SecureListeners) : list proc :=
  (DoqLoop <$> doq r) ++ (DotLoop <$> dot r) ++ (DohLoop <$> doh r) ++ (Doh3Loop <$> doh3 r).
Definition dnscrypt_loops (r : option DnsCryptServerConfig * (list handle * list handle)) : list proc :=
  match r with
  | (Some config, (udp, tcp)) => (DnsCryptUdpLoop config <$> udp) ++ (DnsCryptTcpLoop config <$> tcp)
  | (None, _) => []
  end.
Lemma boot_parts (r : Running (S := S) (C := C)) :
  boot r = (plain r ≫= fun '(udp, tcp) => [UdpLoop udp; TcpLoop tcp])
           ++ secure_loops (secure r) ++ dnscrypt_loops (dnscrypt r).
Proof. unfold boot, secure_loops. rewrite <- !app_assoc. by destruct (dnscrypt r) as [[config|] [udp tcp]]. Qed.

Lemma plain_serves ctx addrs :
  launches (plain_serve_all ctx addrs) (ListenerIo.serve_all addrs)
    (fun r qs => qs = tasks ctx (r ≫= fun '(udp, tcp) => [UdpLoop udp; TcpLoop tcp])).
Proof.
  eapply launches_mono; [|apply (launches_for_each _ ListenerIo.serve ListenerIo.serve_all
    (fun '(udp, tcp) => tasks ctx [UdpLoop udp; TcpLoop tcp])); [done|done|]].
  - intros r qs ->. unfold tasks. induction r as [|[udp tcp] r IH]; [done|].
    by rewrite !bind_cons, IH, fmap_app.
  - intros a. apply launches_spawn. by intros [].
Qed.
(** A listener with one loop per address. *)
Lemma loop_serves ctx (body : SocketAddr -> served DohError) bind loop addrs :
  (forall a, launches (body a) (bind a) (fun h qs => qs = [Build_task ctx (loop h)])) ->
  launches (for_each body addrs) (bind_each bind addrs) (fun hs qs => qs = tasks ctx (loop <$> hs)).
Proof.
  intros Hb. eapply launches_mono; [|apply (launches_for_each body bind (bind_each bind)
    (fun h => [Build_task ctx (loop h)])); [done|done|exact Hb]].
  intros r qs ->. unfold tasks. induction r as [|h r IH]; [done|].
  by rewrite bind_cons, IH.
Qed.
Lemma start_any_is addrs m (p : io store (res (list handle) MainError)) ctx loop :
  launches m p (fun hs qs => qs = tasks ctx (loop <$> hs)) ->
  launches (start_any addrs m) (when_any addrs p) (fun hs qs => qs = tasks ctx (loop <$> hs)).
Proof. intros Hm. destruct addrs; [by apply launches_done|exact Hm]. Qed.
Lemma tasks_app ctx qs1 qs2 : tasks ctx (qs1 ++ qs2) = tasks ctx qs1 ++ tasks ctx qs2.
Proof. apply fmap_app. Qed.

Lemma start_secure_is ctx args :
  launches (start_secure ctx args) (serve_secure args) (fun r qs => qs = tasks ctx (secure_loops r)).
Proof.
  unfold start_secure, serve_secure. set (quic := expand_listen (quic_listen args) _).
  set (tls := expand_listen (tls_listen args) _). set (https := expand_listen (https_listen args) _).
  clearbody quic tls https. destruct (is_nil quic && is_nil tls && is_nil https); [by apply launches_done|].
  apply launches_pure. intros cert. apply launches_pure. intros key.
  eapply launches_try.
  { apply (start_any_is _ _ _ ctx DoqLoop), launches_await. intros config. apply launches_map_err, loop_serves.
    intros a. by apply launches_spawn. }
  intros doq. eapply launches_try.
  { apply (start_any_is _ _ _ ctx DotLoop), launches_await. intros config. apply launches_map_err, loop_serves.
    intros a. by apply launches_spawn. }
  intros dot. destruct https as [|a0 https]; cbn [is_nil start_any].
  { apply launches_done. intros qs1 -> qs2 ->. unfold secure_loops. simpl.
    by rewrite !app_nil_r, tasks_app. }
  apply launches_await. intros config.
  apply (launches_mono _ _ (fun r qs => exists doh doh3,
    r = {| Main.doq := doq; Main.dot := dot; Main.doh := doh; Main.doh3 := doh3 |}
    /\ qs = tasks ctx (DohLoop <$> doh) ++ tasks ctx (Doh3Loop <$> doh3))).
  { intros r qs (doh & doh3 & -> & ->) qs1 -> qs2 ->. unfold secure_loops. by rewrite !tasks_app, !app_assoc. }
  eapply launches_try.
  { apply launches_map_err, (loop_serves ctx _ _ DohLoop). intros a. by apply launches_spawn. }
  intros doh. eapply launches_result.
  { apply launches_map_err, (loop_serves ctx _ _ Doh3Loop). intros a. by apply launches_spawn. }
  intros doh3 qs -> qs1 ->. by exists doh, doh3.
Qed.
Lemma start_dnscrypt_is ctx args :
  launches (start_dnscrypt ctx args) (serve_dnscrypt args) (fun r qs => qs = tasks ctx (dnscrypt_loops r)).
Proof.
  unfold start_dnscrypt, serve_dnscrypt. set (addrs := expand_listen _ _). clearbody addrs.
  destruct addrs as [|a0 addrs]; cbn [is_nil start_any]; [by apply launches_done|].
  apply launches_pure. intros path. apply launches_await. intros config.
  apply launches_let_await. intros now. cbv zeta. set (server_config := config_new _ _ _ _ _ _ _).
  eapply launches_result.
  { apply launches_map_err. eapply launches_try.
    { apply (loop_serves ctx _ _ (DnsCryptUdpLoop server_config)). intros a. by apply launches_spawn. }
    intros udp. eapply launches_result.
    { apply (loop_serves ctx _ _ (DnsCryptTcpLoop server_config)). intros a. by apply launches_spawn. }
    intros tcp qs -> qs1 ->. instantiate (1 := fun r qs => qs = tasks ctx (dnscrypt_loops (Some server_config, r))).
    simpl. by rewrite tasks_app. }
  by intros [udp tcp] qs ->.
Qed.

(** What [main] returns, of a run that ended with [r] and spawned [qs]. *)
Definition ends_as (qs : list task) (r : res ending MainError) (out : res (option (Running (S := S) (C := C))) MainError)
  : Prop :=
  match out with
  | Ok (Some run) =>
      r = Ok Pending
      /\ qs = tasks {| shared_handler := handler run; shared_credentials := credentials run |} (boot run)
  | Ok None => r = Ok Exited /\ qs = []
  | Err e => r = Err e
  | Panic => r = Panic
  end.

Lemma start_listeners_is args :
  launches (start_listeners args)
    (try* _ := install_crypto_provider in
     try* cfg := upstream_config debug_errs boot_cells alloc cursor_of args in
     try* credentials := doh_credentials args in
     try* handler := build_handler args cfg in
     try* plain := io_map_err Failed (ListenerIo.serve_all (listen_addrs args)) in
     try* secure := serve_secure args in
     try* dnscrypt := serve_dnscrypt args in
     IoRet (Ok (Some {| handler := handler; credentials := credentials; plain := plain;
                        secure := secure; dnscrypt := dnscrypt |})))
    (fun out qs => ends_as qs (Ok Pending) (Ok out)).
Proof.
  apply launches_await. intros []. apply launches_await. intros cfg. apply launches_await. intros creds.
  apply launches_await. intros h. cbv zeta. set (ctx := Build_shared h creds).
  eapply launches_try; [apply launches_map_err, plain_serves|]. intros plain.
  eapply launches_try; [apply start_secure_is|]. intros secure.
  eapply launches_result; [apply start_dnscrypt_is|].
  intros dnscrypt qs -> qs2 -> qs1 ->. split; [done|]. by rewrite boot_parts, !tasks_app.
Qed.

Lemma exec_alone_ending {U E X} (m : script store task (res U E)) (x : X) s tr qs r s' :
  exec (alone (try$ _ := m in Done (Ok x))) s tr (qs, r) s' <->
  exists u, exec (alone m) s tr (qs, u) s' /\ r = res_map (fun _ => x) u.
Proof.
  rewrite exec_alone_try. split.
  - intros (u & s1 & tr1 & tr2 & qs1 & qs2 & -> & -> & Hm & Hr). exists u.
    destruct u as [u|e|]; [destruct Hr as (-> & [= -> ->] & ->)|destruct Hr as (-> & -> & -> & ->)..];
      by rewrite !app_nil_r.
  - intros (u & Hm & ->). exists u, s', tr, [], qs, []. rewrite !app_nil_r. by destruct u.
Qed.

Lemma ends_alone (m : served MainError) p x :
  launches m p (fun out qs => ends_as qs (Ok x) (Ok out)) ->
  (forall s tr out s', exec p s tr out s' ->
     exists qs r, exec (alone (try$ _ := m in Done (Ok x))) s tr (qs, r) s' /\ ends_as qs r out)
  /\ (forall s tr qs r s', exec (alone (try$ _ := m in Done (Ok x))) s tr (qs, r) s' ->
     exists out, exec p s tr out s' /\ ends_as qs r out).
Proof.
  intros H. split; intros s tr; setoid_rewrite exec_alone_ending.
  - intros out s' (qs & Hx & Hf)%(proj1 H). exists qs, (res_map (fun _ => x) (void out)).
    split; [by exists (void out)|]. destruct out as [o|e|]; [by apply Hf|done|done].
  - intros qs r s' (u & (out & Hx & -> & Hf)%(proj2 H) & ->). exists out. split; [done|].
    destruct out as [o|e|]; [by apply Hf|done|done].
Qed.
Lemma startup_alone args :
  (forall s tr out s', exec (main debug_errs boot_cells alloc cursor_of args) s tr out s' ->
     exists qs r, exec (alone (startup args)) s tr (qs, r) s' /\ ends_as qs r out)
  /\ (forall s tr qs r s', exec (alone (startup args)) s tr (qs, r) s' ->
     exists out, exec (main debug_errs boot_cells alloc cursor_of args) s tr out s' /\ ends_as qs r out).
Proof.
  unfold startup, main. destruct (dnscrypt_generate_config args) as [path|]; apply ends_alone; [|apply start_listeners_is].
  apply launches_pure. intros name. apply launches_await. intros []. by apply launches_done.
Qed.
(** What a run of the task alone leaves of the system: the tasks it spawned,
    none of which has run. *)
Lemma startup_runs args s tr qs r s' :
  exec (alone (startup args)) s tr (qs, r) s' ->
  program_runs args s tr (s', start program_turn (inl (Done r)) :: (start program_turn <$> (inr <$> qs))).
Proof. apply script_runs. Qed.
End Startup.
