(* ===== verification/Program.v ===== *)
(** * What the program does

    Safety and liveness of the system of [Startup.v]: the main task, from its
    first step, with all tasks it spawns and those they spawn. *)
From S2P Require Import Prelude RustStr RustNet Io Procs Script Dns Errors WebLib Wire Cache Framing.
From S2P Require Import CryptoLib Crypto Keygen DnsCrypt UpstreamUrl UpstreamConfig.
From S2P Require Import ListenerIo ListenerDnsCrypt ListenerDoh ListenerTls MainArgs Main Server Startup.
Implicit Type P : forall X, eff X -> Prop.

(** A trace that is kept. *)
Lemma tsafe_extends {S A} P (I : S -> Prop) tr (p : io S A) R :
  tsafe P I tr p R -> tsafe P I tr p (fun tr' a => tr ⊆ tr' /\ R tr' a).
Proof.
  intros Hp. assert (forall tr0, tr0 ⊆ tr -> tsafe P I tr p (fun tr' a => tr0 ⊆ tr' /\ R tr' a)) as H; [|by apply H].
  revert tr Hp. induction p as [a|X e k IH|X f k IH]; intros tr; simpl; [done| |].
  - intros [? Hk] tr0 Htr. split; [done|]. intros x Hx. apply IH; [by apply Hk|]. by apply sub_more.
  - intros Hk tr0 Htr s Hs. destruct (Hk s Hs). split; [done|]. by apply IH.
Qed.

(** ** What a listener is opened with *)
Section Provides.
Context {S Q E : Type} (P : forall X, eff X -> Prop) (I : S -> Prop) (F : list event -> Q -> Prop).
Context (s0 : S).
Implicit Types (m k : script S Q (res unit E)).

Definition grows (tr : list event) (qs : list Q) (tr' : list event) (qs' : list Q) : Prop :=
  tr ⊆ tr' /\ qs ⊆ qs'.
Definition lasting (Phi : list event -> list Q -> Prop) : Prop :=
  forall tr qs tr' qs', grows tr qs tr' qs' -> Phi tr qs -> Phi tr' qs'.
(** [m] is safe, and if it succeeds it leaves [Phi]. *)
Definition provides tr qs m (Phi : list event -> list Q -> Prop) : Prop :=
  script_safe P I F tr qs m (fun tr' qs' r => grows tr qs tr' qs' /\ (r = Ok tt -> Phi tr' qs')).

Lemma grows_refl tr qs : grows tr qs tr qs.
Proof. done. Qed.
Lemma grows_trans tr qs tr1 qs1 tr2 qs2 : grows tr qs tr1 qs1 -> grows tr1 qs1 tr2 qs2 -> grows tr qs tr2 qs2.
Proof. intros [] []. split; by etransitivity. Qed.
Lemma lasting_and Phi Psi : lasting Phi -> lasting Psi -> lasting (fun tr qs => Phi tr qs /\ Psi tr qs).
Proof. intros H1 H2 tr qs tr' qs' Hg []. split; [by eapply H1|by eapply H2]. Qed.
Lemma provides_done tr qs (Phi : list event -> list Q -> Prop) : Phi tr qs -> provides tr qs (Done (Ok tt)) Phi.
Proof. by split. Qed.
Lemma provides_mono tr qs m (Phi Psi : list event -> list Q -> Prop) :
  (forall tr' qs', grows tr qs tr' qs' -> Phi tr' qs' -> Psi tr' qs') -> provides tr qs m Phi -> provides tr qs m Psi.
Proof.
  intros H. apply script_safe_mono. intros tr' qs' r [Hg Hr]. split; [done|]. intros Ho. by apply H, Hr.
Qed.
Lemma provides_seq tr qs m k Phi Psi :
  lasting Phi -> provides tr qs m Phi ->
  (forall tr' qs', grows tr qs tr' qs' -> Phi tr' qs' -> provides tr' qs' k Psi) ->
  provides tr qs (try$ _ := m in k) (fun tr' qs' => Phi tr' qs' /\ Psi tr' qs').
Proof.
  intros Hl Hm Hk. apply script_safe_try. eapply script_safe_mono; [|exact Hm].
  intros tr' qs' [[]|e|] [Hg Hr]; [|done|done]. specialize (Hr eq_refl).
  eapply script_safe_mono; [|by apply Hk]. intros tr2 qs2 r [Hg2 Hr2]. split; [by eapply grows_trans|].
  intros Ho. split; [by eapply Hl|by apply Hr2].
Qed.
Lemma provides_map_err {E'} (f : E' -> E) tr qs (m : script S Q (res unit E')) Phi :
  script_safe P I F tr qs m (fun tr' qs' r => grows tr qs tr' qs' /\ (r = Ok tt -> Phi tr' qs')) ->
  provides tr qs (script_map_err f m) Phi.
Proof.
  intros Hm. apply script_safe_map_err. eapply script_safe_mono; [|exact Hm].
  intros tr' qs' r [Hg Hr]. split; [done|]. destruct r as [[]|e|]; [|done..]. intros _. by apply Hr.
Qed.
(** Awaiting a program that leaves the store alone. *)
Lemma provides_await {A} (p : io S (res A E)) (k : A -> script S Q (res unit E)) tr qs Phi :
  stateless p -> safe P (fun _ => True) p (fun _ => True) ->
  (forall tr' a, exec p s0 tr' (Ok a) s0 -> provides (tr ++ tr') qs (k a) Phi) ->
  provides tr qs (try$ a := await p in k a) Phi.
Proof.
  intros Hst Hs Hk. apply script_safe_try. apply script_safe_await; [done|done|]. intros tr' r Hx.
  assert (grows tr qs (tr ++ tr') qs) as Hg by (split; [by apply sub_more|done]).
  destruct r as [a|e|]; [|by split|by split]. eapply script_safe_mono; [|by apply Hk].
  intros tr2 qs2 r [Hg2 Hr]. split; [by eapply grows_trans|done].
Qed.
Lemma provides_let {A} (p : io S A) (k : A -> script S Q (res unit E)) tr qs Phi :
  stateless p -> safe P (fun _ => True) p (fun _ => True) ->
  (forall tr' a, exec p s0 tr' a s0 -> provides (tr ++ tr') qs (k a) Phi) ->
  provides tr qs (let$ a := await p in k a) Phi.
Proof.
  intros Hst Hs Hk. apply script_safe_bind, script_safe_await; [done|done|]. intros tr' a Hx.
  eapply script_safe_mono; [|by apply Hk]. intros tr2 qs2 r [Hg2 Hr]. split; [|done].
  eapply grows_trans; [|exact Hg2]. split; [by apply sub_more|done].
Qed.
Lemma provides_pure {A} (r : res A E) (k : A -> script S Q (res unit E)) tr qs Phi :
  (forall a, r = Ok a -> provides tr qs (k a) Phi) -> provides tr qs (try$ a := Done r in k a) Phi.
Proof. intros Hk. destruct r as [a|e|]; [by apply Hk|by split..]. Qed.

Lemma launch_all_safe l tr qs (R : list event -> list Q -> res unit E -> Prop) :
  Forall (F tr) l -> R tr (qs ++ l) (Ok tt) ->
  script_safe P I F tr qs (let$ _ := launch_all l in Done (Ok tt)) R.
Proof.
  intros Hl. revert qs. induction Hl as [|q l Hq _ IH]; intros qs HR; [by rewrite app_nil_r in HR|].
  split; [done|]. apply IH. by rewrite <- app_assoc.
Qed.
(** A listener's [serve_all]: bind, and spawn the loops. [holds] is what the
    calls of [bind] show of its result. *)
Lemma provides_serve_all {A} (bind : SocketAddr -> io S (res A E)) (loops : A -> list Q)
    (k : A -> script S Q (res unit E)) (holds : SocketAddr -> A -> list event -> Prop) l tr qs :
  (forall r, k r = let$ _ := launch_all (loops r) in Done (Ok tt)) ->
  (forall a, stateless (bind a)) -> (forall a, safe P (fun _ => True) (bind a) (fun _ => True)) ->
  (forall a r tr1 tr2, tr1 ⊆ tr2 -> holds a r tr1 -> holds a r tr2) ->
  (forall a tr' r, exec (bind a) s0 tr' (Ok r) s0 -> holds a r tr') ->
  (forall a r tr', a ∈ l -> tr ⊆ tr' -> holds a r tr' -> Forall (F tr') (loops r)) ->
  provides tr qs (for_each (fun a => try$ r := await (bind a) in k r) l)
    (fun tr' qs' => forall a, a ∈ l -> exists r, holds a r tr' /\ loops r ⊆ qs').
Proof.
  intros Hk Hst Hs Hmono Hop HF. induction l as [|a l IH] in tr, qs, HF |- *.
  { apply provides_done. by intros a ?%not_elem_of_nil. }
  cbn [for_each]. eapply provides_mono; [|apply (provides_seq _ _ _ _ (fun tr' qs' =>
    exists r, holds a r tr' /\ loops r ⊆ qs') (fun tr' qs' => forall b, b ∈ l -> exists r, holds b r tr' /\ loops r ⊆ qs'))].
  - intros tr2 qs2 _ [H1 H2] b [->|Hb]%elem_of_cons; [done|by apply H2].
  - intros tr1 qs1 tr2 qs2 [Ht Hq] (r & Hr & Hl). exists r. split; [by eapply Hmono|by transitivity qs1].
  - apply provides_await; [done|done|]. intros tr1 r Hx%Hop. rewrite Hk.
    assert (holds a r (tr ++ tr1)) as Hr by (eapply Hmono; [|exact Hx]; set_solver).
    apply launch_all_safe; [apply (HF a); [by left|by apply sub_more|done]|].
    split; [split; [done|set_solver]|]. intros _. exists r. split; [done|set_solver].
  - intros tr' qs' [Htr _] _. apply IH. intros b r tr2 Hb Htr2. apply HF; [by right|by transitivity tr'].
Qed.
End Provides.

(** ** The task of [main] *)
Section Main.
Context {S C : Type} `{HL : DnsLib} {HC : DnsCodec} {HB : Base64} {HW : WebLib} {HK : CryptoLib}.
Context {HT : TlsLib} {HLru : Lru CacheKey CacheEntry C}.
Context (debug_errs : list DohError -> string) (boot_cells alloc : nat -> Cells S).
Context (cursor_of : option string -> cell S Z).
Notation store := (Store (S := S) (C := C)).
Notation task := (Startup.task (S := S) (C := C)).
Notation shared := (Startup.shared (S := S) (C := C)).
Implicit Types (args : Args) (tr : list event) (qs : list task).

(** What the calls so far say of a part of the program. *)
Definition credentials_from args tr (c : Credentials) : Prop :=
  exists text pairs, file_of tr (doh_auth_file args) text
  /\ collect (parse_pair <$> doh_auth args ++ (opt_list text ≫= auth_lines)) = Ok pairs
  /\ c = credentials_new pairs.
Definition handler_made args (cfg : UpstreamConfig S) (h : Handler store) : Prop :=
  if arg_cache args then (0 < cache_size args)%nat /\ h = cached cfg else h = uncached cfg.
Definition shared_ok args tr (ctx : shared) : Prop :=
  exists cfg, configured debug_errs boot_cells alloc cursor_of args tr cfg
  /\ handler_made args cfg (shared_handler ctx) /\ credentials_from args tr (shared_credentials ctx).
(** The certificate of a DNSCrypt listener is made of the key file that was
    read, for a year from the time that was read. *)
Definition resolver_from args tr (config : DnsCryptServerConfig) : Prop :=
  exists path text keys t, dnscrypt_config args = Some path /\ Event (FsRead path) (Ok text) ∈ tr
  /\ load_text path text = Ok keys /\ Event UnixNow t ∈ tr
  /\ let now := if t <? 0 then 0 else as_u32 t in
     config = config_new (Keygen.resolver_secret_key keys) (provider_signing_key keys) (config_name keys)
                CLIENT_MAGIC 1 now (saturating_add_u32 now DEFAULT_CERT_TTL_SECS).
Definition sock (a : SocketAddr) (h : handle) : event := Event (SocketBind h a) (Ok tt).
Definition quic (a : SocketAddr) (h : handle) : event := Event (QuicEndpoint (show_socket_addr a)) (Ok h).
Definition bound_to (opener : SocketAddr -> handle -> event) (addrs : list SocketAddr) tr (h : handle) : Prop :=
  exists a, a ∈ addrs /\ opener a h ∈ tr.
(** Every loop has a socket of its own kind, at an address that was asked for. *)
Definition opened args tr (q : proc) : Prop :=
  match q with
  | UdpLoop h | TcpLoop h => bound_to sock (listen_addrs args) tr h
  | DoqLoop h => bound_to quic (expand_listen (quic_listen args) (quic_port args)) tr h
  | DotLoop h => bound_to sock (expand_listen (tls_listen args) (tls_port args)) tr h
  | DohLoop h => bound_to sock (expand_listen (https_listen args) (https_port args)) tr h
  | Doh3Loop h => bound_to quic (expand_listen (https_listen args) (https_port args)) tr h
  | DnsCryptUdpLoop config h | DnsCryptTcpLoop config h =>
      bound_to sock (expand_listen (dnscrypt_listen args) (dnscrypt_port args)) tr h
      /\ resolver_from args tr config
  | _ => False
  end.

Lemma file_of_mono tr tr' path text : tr ⊆ tr' -> file_of tr path text -> file_of tr' path text.
Proof. unfold file_of. intros Hsub. repeat case_match; auto. Qed.
Lemma shared_ok_mono args tr tr' ctx : tr ⊆ tr' -> shared_ok args tr ctx -> shared_ok args tr' ctx.
Proof.
  intros Hsub (cfg & Hc & Hh & text & pairs & Ht & Hp). exists cfg. split; [by eapply configured_mono|].
  split; [done|]. exists text, pairs. split; [by eapply file_of_mono|done].
Qed.
Lemma bound_to_mono opener addrs tr tr' h : tr ⊆ tr' -> bound_to opener addrs tr h -> bound_to opener addrs tr' h.
Proof. intros Hsub (a & Ha & Ho). exists a. auto. Qed.
Lemma resolver_from_mono args tr tr' config : tr ⊆ tr' -> resolver_from args tr config -> resolver_from args tr' config.
Proof.
  intros Hsub (path & text & keys & t & ? & ? & ? & ? & ?). exists path, text, keys, t. split_and!; auto.
Qed.
Lemma opened_mono args tr tr' q : tr ⊆ tr' -> opened args tr q -> opened args tr' q.
Proof.
  intros Hsub. destruct q; simpl; try done; try (by apply bound_to_mono);
    (intros []; split; [by eapply bound_to_mono|by eapply resolver_from_mono]).
Qed.

(** *** What the calls of the binding functions are *)
Lemma exec_call_Ok {T A E} (e : eff (res A E)) (s : T) tr a s' :
  exec (call e) s tr (Ok a) s' -> tr = [Event e (Ok a)].
Proof. intros (x & tr' & _ & -> & -> & -> & _). done. Qed.
Lemma exec_map_err_Ok {T A E E'} (f : E -> E') (p : io T (res A E)) (s : T) tr a s' :
  exec (io_map_err f p) s tr (Ok a) s' -> exec p s tr (Ok a) s'.
Proof. intros (r & Hp & Hr)%exec_map. destruct r; [by injection Hr as ->|done..]. Qed.
Lemma exec_new_socket {T} a st (s : T) tr h s' : exec (new_socket a st) s tr (Ok h) s' -> sock a h ∈ tr.
Proof.
  unfold new_socket. intros (h0 & s1 & tr1 & tr1' & _ & H & ->)%exec_try_Ok.
  apply exec_try_Ok in H as (? & s2 & tr2 & tr2' & _ & H & ->).
  apply exec_try_Ok in H as (? & s3 & tr3 & tr3' & _ & H & ->).
  apply exec_try_Ok in H as ([] & s4 & tr4 & tr4' & ->%exec_call_Ok & H & ->).
  apply exec_try_Ok in H as (? & s5 & tr5 & tr5' & _ & (-> & [= ->] & _) & ->).
  rewrite !elem_of_app. do 3 right. left. by left.
Qed.
Lemma exec_bind_tcp {T} a (s : T) tr h s' : exec (bind_tcp a) s tr (Ok h) s' -> sock a h ∈ tr.
Proof.
  intros (h0 & s1 & tr1 & tr1' & Hn%exec_new_socket & H & ->)%exec_try_Ok.
  apply exec_try_Ok in H as (? & s2 & tr2 & tr2' & _ & H & ->).
  apply exec_try_Ok in H as (? & s3 & tr3 & tr3' & _ & (-> & [= ->] & _) & ->). apply elem_of_app. by left.
Qed.
Lemma exec_bind_udp {T} a (s : T) tr h s' : exec (bind_udp a) s tr (Ok h) s' -> sock a h ∈ tr.
Proof.
  intros (h0 & s1 & tr1 & tr1' & Hn%exec_new_socket & H & ->)%exec_try_Ok.
  apply exec_try_Ok in H as (? & s2 & tr2 & tr2' & _ & (-> & [= ->] & _) & ->). apply elem_of_app. by left.
Qed.
(** Asking for the local address changes nothing. *)
Lemma exec_named {T E F} (f : F -> E) (bind : io T (res handle E)) (name : handle -> eff (res SocketAddr F)) (s : T) tr h s' ev :
  (forall tr' s1, exec bind s tr' (Ok h) s1 -> ev ∈ tr') ->
  exec (try* h := bind in try* _ := io_map_err f (call (name h)) in IoRet (Ok h)) s tr (Ok h) s' -> ev ∈ tr.
Proof.
  intros Hb (h0 & s1 & tr1 & tr1' & Hx & H & ->)%exec_try_Ok.
  apply exec_try_Ok in H as (? & s2 & tr2 & tr2' & _ & (-> & [= ->] & _) & ->).
  apply elem_of_app. left. by eapply Hb.
Qed.
Lemma exec_serve_udp {T} a (s : T) tr h s' : exec (ListenerDnsCrypt.serve_udp a) s tr (Ok h) s' -> sock a h ∈ tr.
Proof. apply exec_named. intros tr' s1 Hx%exec_map_err_Ok. by eapply exec_bind_udp. Qed.
Lemma exec_serve_tcp {T} a (s : T) tr h s' : exec (ListenerDnsCrypt.serve_tcp a) s tr (Ok h) s' -> sock a h ∈ tr.
Proof. apply exec_named. intros tr' s1 Hx%exec_map_err_Ok. by eapply exec_bind_tcp. Qed.
Lemma exec_serve_quic {T} config a (s : T) tr h s' : exec (serve_quic config a) s tr (Ok h) s' -> quic a h ∈ tr.
Proof.
  unfold serve_quic. rewrite exec_try_ret. destruct (quic_config_error config); [by intros (_ & ? & _)|].
  apply exec_named. intros tr' s1 Hx%exec_map_err_Ok%exec_call_Ok. rewrite Hx. by left.
Qed.
Lemma exec_serve {T} a (s : T) tr udp tcp s' :
  exec (ListenerIo.serve a) s tr (Ok (udp, tcp)) s' -> sock a udp ∈ tr /\ sock a tcp ∈ tr.
Proof.
  intros (u & s1 & tr1 & tr1' & Hu%exec_map_err_Ok%exec_bind_udp & H & ->)%exec_try_Ok.
  apply exec_try_Ok in H as (t & s2 & tr2 & tr2' & Ht%exec_map_err_Ok%exec_bind_tcp & (-> & [= -> ->] & _) & ->).
  rewrite !elem_of_app. auto.
Qed.

(** *** What the main task provides *)
Definition task_fact args tr (t : task) : Prop :=
  shared_ok args tr (context t)
  /\ exists booted, Forall (opened args tr) booted /\ fact booted tr (work t).
Lemma task_fact_mono args tr tr' t : tr ⊆ tr' -> task_fact args tr t -> task_fact args tr' t.
Proof.
  intros Hsub (Hs & booted & Hb & Hf). split; [by eapply shared_ok_mono|]. exists booted. split.
  - eapply list.Forall_impl; [exact Hb|]. intros q. by apply opened_mono.
  - by eapply fact_mono.
Qed.
Lemma opened_fact args tr ctx q : shared_ok args tr ctx -> opened args tr q -> task_fact args tr (Build_task ctx q).
Proof.
  intros Hc Ho. split; [done|]. exists [q]. split; [by apply Forall_singleton|].
  destruct q; try done; simpl; by left.
Qed.

(** Each address has a socket and a task for it. *)
Definition serving (opener : SocketAddr -> handle -> event) (mk : handle -> proc -> Prop) (addrs : list SocketAddr)
    tr (qs : list task) : Prop :=
  forall a, a ∈ addrs -> exists h t, opener a h ∈ tr /\ t ∈ qs /\ mk h (work t).
Lemma serving_lasting opener mk l : lasting (serving opener mk l).
Proof. intros tr qs tr' qs' [Ht Hq] Hs a (h & q & ? & ? & ?)%Hs. exists h, q. split_and!; auto. Qed.
Definition secure_serving args tr qs : Prop :=
  serving quic (fun h q => q = DoqLoop h) (expand_listen (quic_listen args) (quic_port args)) tr qs
  /\ serving sock (fun h q => q = DotLoop h) (expand_listen (tls_listen args) (tls_port args)) tr qs
  /\ serving sock (fun h q => q = DohLoop h) (expand_listen (https_listen args) (https_port args)) tr qs
  /\ serving quic (fun h q => q = Doh3Loop h) (expand_listen (https_listen args) (https_port args)) tr qs.
Definition dnscrypt_serving args tr qs : Prop :=
  let addrs := expand_listen (dnscrypt_listen args) (dnscrypt_port args) in
  serving sock (fun h q => exists config, q = DnsCryptUdpLoop config h) addrs tr qs
  /\ serving sock (fun h q => exists config, q = DnsCryptTcpLoop config h) addrs tr qs.
Definition plain_serving args tr qs : Prop :=
  serving sock (fun h q => q = UdpLoop h) (listen_addrs args) tr qs
  /\ serving sock (fun h q => q = TcpLoop h) (listen_addrs args) tr qs.

Section Safety.
Context (I : store -> Prop) (s0 : store) (args : Args).
Notation provides m := (fun tr qs => provides no_reply I (task_fact args) tr qs m).

Lemma plain_provides ctx tr qs :
  shared_ok args tr ctx -> provides (plain_serve_all ctx (listen_addrs args)) tr qs (plain_serving args).
Proof.
  intros Hc. eapply provides_mono; [|apply (provides_serve_all _ _ _ s0 ListenerIo.serve
    (fun '(udp, tcp) => tasks ctx [UdpLoop udp; TcpLoop tcp]) _
    (fun a '(udp, tcp) tr => sock a udp ∈ tr /\ sock a tcp ∈ tr))].
  - intros tr' qs' _ H. split; intros a ([udp tcp] & [Hu Ht] & Hq)%H.
    + exists udp, (Build_task ctx (UdpLoop udp)). split_and!; [done|apply Hq; by left|done].
    + exists tcp, (Build_task ctx (TcpLoop tcp)). split_and!; [done|apply Hq; right; by left|done].
  - by intros [].
  - intros a. apply opens_serve.
  - intros a. apply (opens_serve (S := store)).
  - intros a [u t] tr1 tr2 Hsub []. auto.
  - intros a tr' [u t]. apply exec_serve.
  - intros a [u t] tr' Ha Hsub [Hu Ht]. apply (shared_ok_mono _ _ tr') in Hc; [|done].
    repeat constructor; (apply opened_fact; [done|]); by exists a.
Qed.
(** A listener with one loop per address. *)
Lemma loop_provides (bind : SocketAddr -> io store (res handle DohError)) opener ctx loop (mk : handle -> proc -> Prop)
    addrs tr qs :
  (forall a, calm (bind a)) -> (forall a s tr' h s', exec (bind a) s tr' (Ok h) s' -> opener a h ∈ tr') ->
  shared_ok args tr ctx -> (forall h, mk h (loop h)) ->
  (forall h tr', tr ⊆ tr' -> bound_to opener addrs tr' h -> opened args tr' (loop h)) ->
  provides (for_each (fun a => try$ h := await (bind a) in let$ _ := spawn (Build_task ctx (loop h)) in Done (Ok tt)) addrs)
    tr qs (serving opener mk addrs).
Proof.
  intros Hb Hop Hc Hmk Ho. eapply provides_mono; [|apply (provides_serve_all _ _ _ s0 bind
    (fun h => [Build_task ctx (loop h)]) _ (fun a h tr => opener a h ∈ tr))].
  - intros tr' qs' _ H a (h & Hin & Hq)%H. exists h, (Build_task ctx (loop h)).
    split_and!; [done|apply Hq; by left|apply Hmk].
  - done.
  - intros a. apply Hb.
  - intros a. apply Hb.
  - intros a h tr1 tr2 Hsub. apply Hsub.
  - intros a tr' h. apply Hop.
  - intros a h tr' Ha Hsub Hin. apply Forall_singleton, opened_fact; [by eapply shared_ok_mono|].
    apply Ho; [done|]. by exists a.
Qed.
Lemma start_any_provides addrs m tr qs Phi :
  (addrs = [] -> Phi tr qs) -> (addrs <> [] -> provides m tr qs Phi) -> provides (start_any addrs m) tr qs Phi.
Proof. intros Hn Hm. destruct addrs; [by apply provides_done, Hn|by apply Hm]. Qed.
Lemma calm_load_tls cert key alpn : calm (load_tls (S := S) (C := C) cert key alpn).
Proof. apply (opens_map_err Failed _ []), opens_load_server_tls_config. Qed.
Lemma serving_none opener mk tr qs : serving opener mk [] tr qs.
Proof. by intros a ?%not_elem_of_nil. Qed.

Lemma secure_provides ctx tr qs :
  shared_ok args tr ctx -> provides (start_secure ctx args) tr qs (secure_serving args).
Proof.
  intros Hc. unfold start_secure, secure_serving.
  assert (forall tr', tr ⊆ tr' -> shared_ok args tr' ctx) as Hc' by (intros; by eapply shared_ok_mono).
  set (quics := expand_listen (quic_listen args) (quic_port args)).
  set (tlss := expand_listen (tls_listen args) (tls_port args)).
  set (https := expand_listen (https_listen args) (https_port args)).
  destruct (is_nil quics && is_nil tlss && is_nil https) eqn:En.
  { apply andb_true_iff in En as [[Eq Et]%andb_true_iff Eh]. apply provides_done.
    destruct quics, tlss, https; try done. split_and!; apply serving_none. }
  apply provides_pure. intros cert _. apply provides_pure. intros key _.
  apply provides_seq; [apply serving_lasting| |].
  { apply start_any_provides; [intros ->; apply serving_none|intros _].
    apply (provides_await _ _ _ s0); [apply calm_load_tls..|]. intros tr1 config _. apply provides_map_err.
    apply loop_provides; [intros; apply opens_serve_quic|intros *; apply exec_serve_quic|by apply Hc', sub_more|done|done]. }
  intros tr1 qs1 [Ht1 _] _. apply provides_seq; [apply serving_lasting| |].
  { apply start_any_provides; [intros ->; apply serving_none|intros _].
    apply (provides_await _ _ _ s0); [apply calm_load_tls..|]. intros tr2 config _. apply provides_map_err.
    apply loop_provides; [intros; apply opens_serve_tls|intros *; apply exec_serve_tcp|apply Hc'; set_solver|done|done]. }
  intros tr2 qs2 [Ht2 _] _.
  apply start_any_provides; [intros ->; split; apply serving_none|intros _].
  apply (provides_await _ _ _ s0); [apply calm_load_tls..|]. intros tr3 config _.
  apply provides_seq; [apply serving_lasting| |].
  { apply provides_map_err.
    apply loop_provides; [intros; apply opens_serve_tls|intros *; apply exec_serve_tcp|apply Hc'; set_solver|done|done]. }
  intros tr4 qs4 [Ht4 _] _. apply provides_map_err.
  apply loop_provides; [intros; apply opens_serve_quic|intros *; apply exec_serve_quic|apply Hc'; set_solver|done|done].
Qed.
Lemma dnscrypt_provides ctx tr qs :
  shared_ok args tr ctx -> provides (start_dnscrypt ctx args) tr qs (dnscrypt_serving args).
Proof.
  intros Hc. unfold start_dnscrypt, dnscrypt_serving.
  set (addrs := expand_listen (dnscrypt_listen args) (dnscrypt_port args)). cbv zeta.
  apply start_any_provides; [intros ->; split; apply serving_none|intros _].
  apply provides_pure. intros path Hpath.
  apply (provides_await _ _ _ s0); [apply (proj1 (opens_map_err Msg _ [] (opens_load path)))..|]. intros tr1 keys Hkeys.
  apply (provides_let _ _ _ s0); [done|by split|]. intros tr2 now Hnow. cbv zeta. set (config := config_new _ _ _ _ _ _ _).
  assert (resolver_from args ((tr ++ tr1) ++ tr2) config) as Hr.
  { apply exec_map_err_Ok in Hkeys as (text & s1 & tr3 & tr4 & Hf & (-> & Hl & _) & ->)%exec_try_Ok.
    apply exec_map_err_Ok, exec_call_Ok in Hf as ->. destruct Hnow as (t & tr5 & _ & -> & -> & -> & _).
    destruct (dnscrypt_config args) as [p|] eqn:Ep; [|done]. injection Hpath as <-.
    exists p, text, keys, t. rewrite !elem_of_app. split_and!; [done| |by symmetry|right; by left|done].
    left. right. left. by left. }
  assert (shared_ok args ((tr ++ tr1) ++ tr2) ctx) as Hc' by (eapply shared_ok_mono; [|exact Hc]; set_solver).
  apply provides_map_err, provides_seq; [apply serving_lasting| |].
  { apply loop_provides; [intros; apply opens_serve_udp|intros *; apply exec_serve_udp|done|intros h; by exists config|].
    intros h tr' Hsub Hb. split; [done|by eapply resolver_from_mono]. }
  intros tr3 qs3 [Ht3 _] _.
  apply loop_provides; [intros; apply opens_serve_tcp|intros *; apply exec_serve_tcp|by eapply shared_ok_mono
    |intros h; by exists config|].
  intros h tr' Hsub Hb. split; [done|]. eapply resolver_from_mono; [|exact Hr]. by transitivity tr3.
Qed.

(** *** The whole of [main] *)
Context (Hcache : forall s : store, I s -> I (cache_new (cache_options args), s.2)).
Definition all_serving tr qs : Prop :=
  plain_serving args tr qs /\ secure_serving args tr qs /\ dnscrypt_serving args tr qs.

Lemma build_handler_tsafe tr cfg :
  tsafe no_reply I tr (build_handler args cfg)
    (fun tr' r => tr' = tr /\ forall h, r = Ok h -> handler_made args cfg h).
Proof using Hcache.
  unfold build_handler, handler_made. destruct (arg_cache args).
  - destruct (Nat.eqb_spec (cache_size args) 0); [done|]. intros s Hs. split; [by apply Hcache|].
    split; [done|]. intros h [= <-]. split; [lia|done].
  - split; [done|]. by intros h [= <-].
Qed.
Lemma plain_serving_lasting : lasting (plain_serving args).
Proof. apply lasting_and; apply serving_lasting. Qed.
Lemma secure_serving_lasting : lasting (secure_serving args).
Proof. do 3 (apply lasting_and; [apply serving_lasting|]). apply serving_lasting. Qed.

Lemma start_listeners_provides :
  provides (start_listeners debug_errs boot_cells alloc cursor_of args) [] [] all_serving.
Proof using Hcache s0.
  unfold start_listeners.
  apply (provides_await _ _ _ s0); [apply opens_install..|]. intros tr0 u _.
  apply (provides_await _ _ _ s0); [apply opens_upstream_config..|]. intros tr1 cfg Hcfg.
  apply exec_upstream_config in Hcfg as (_ & _ & Hcfg).
  apply (provides_await _ _ _ s0); [apply opens_doh_credentials..|]. intros tr2 creds Hcreds.
  set (own := (([] ++ tr0) ++ tr1) ++ tr2).
  assert (credentials_from args own creds) as Hcr.
  { apply exec_try_Ok in Hcreds as (text & s1 & tr3 & tr4 & Ht%exec_map_err_Ok%exec_read_opt & H & ->).
    rewrite exec_try_ret in H. destruct (collect _) as [pairs| |] eqn:Ep; [|by destruct H as (_ & ? & _)..].
    destruct H as (-> & [= ->] & _). exists text, pairs. split; [|done].
    eapply file_of_mono; [|exact Ht]. unfold own. set_solver. }
  apply script_safe_try. eapply tsafe_mono; [|apply (build_handler_tsafe own cfg)]. intros tr' r [-> Hh].
  destruct r as [h|e|]; [|by split|by split]. specialize (Hh h eq_refl). cbv zeta.
  set (ctx := Build_shared h creds).
  assert (shared_ok args own ctx) as Hctx.
  { exists cfg. split; [|done]. eapply configured_mono; [|exact Hcfg]. unfold own. set_solver. }
  change (provides (try$ _ := script_map_err Failed (plain_serve_all ctx (listen_addrs args)) in
    try$ _ := start_secure ctx args in start_dnscrypt ctx args) own [] all_serving).
  apply provides_seq; [apply plain_serving_lasting|apply provides_map_err; by apply plain_provides|].
  intros tr3 qs3 [Hs3 _] _. apply provides_seq; [apply secure_serving_lasting| |].
  { apply secure_provides. by eapply shared_ok_mono. }
  intros tr4 qs4 [Hs4 _] _. apply dnscrypt_provides. eapply shared_ok_mono; [|exact Hctx]. by transitivity tr3.
Qed.
Lemma calm_generate path name : calm (run_dnscrypt_generate_config (S := S) (C := C) path name).
Proof.
  unfold run_dnscrypt_generate_config, generate, save.
  apply calm_bind.
  { apply calm_bind; [by apply calm_call|]. intros k1. apply calm_bind; [by apply calm_call|]. done. }
  intros config. apply calm_try; [apply calm_bind; [by apply calm_call|done]|]. intros _.
  assert (forall line, calm (println (S := S) (C := C) (E := string) line)) as Hp
    by (intros line; apply calm_bind; [by apply calm_call|done]).
  do 3 (apply calm_try; [apply Hp|]; intros _). done.
Qed.
Lemma startup_safe :
  script_safe no_reply I (task_fact args) [] [] (startup debug_errs boot_cells alloc cursor_of args)
    (fun tr qs r => r = Ok Pending -> all_serving tr qs).
Proof using Hcache s0.
  unfold startup. destruct (dnscrypt_generate_config args) as [path|]; apply script_safe_try.
  - eapply script_safe_mono; [|apply (provides_pure _ _ _ _ _ [] [] (fun _ _ => True))].
    + by intros tr qs [[]|e|] _; simpl.
    + intros name _. apply (provides_await _ _ _ s0);
        [apply calm_bind; [apply calm_generate|done]..|]. intros tr u _. by apply provides_done.
  - eapply script_safe_mono; [|apply start_listeners_provides]. intros tr qs [[]|e|] [_ H]; [|done..].
    intros _. by apply H.
Qed.
End Safety.
End Main.

(** ** Properties *)
Section Properties.
Context {S C : Type} `{HL : DnsLib} {HC : DnsCodec} {HB : Base64} {HW : WebLib} {HK : CryptoLib}.
Context {HT : TlsLib} {HLru : Lru CacheKey CacheEntry C} {HLaws : LruLaws key_eqb} {HD : DnsLaws}.
Context (debug_errs : list DohError -> string) (boot_cells alloc : nat -> Cells S).
Context (cursor_of : option string -> cell S Z).
Notation store := (Store (S := S) (C := C)).
Notation task := (Startup.task (S := S) (C := C)).
Notation runs := (program_runs (C := C) debug_errs boot_cells alloc cursor_of).
Notation facts := (task_fact debug_errs boot_cells alloc cursor_of).
Implicit Types (args : Args) (tr : list event).

Definition task_policy (t : task) : forall X, eff X -> Prop := policy (shared_credentials (context t)) (work t).
Definition task_dies (t : task) : Prop := dies (work t).
Definition task_forever (t : task) : Prop := accepts_forever (work t) = true.

(** The store [main] starts from: the cells of the upstreams, and room for the
    cache, empty. *)
Definition initial args (J : S -> Prop) (s : store) : Prop :=
  (arg_cache args = true -> s.1 = cache_new (cache_options args)) /\ J s.2.
Lemma initial_inv args J s : initial args J s -> store_inv args J s.
Proof. intros [Hc HJ]. split; [|done]. intros Ha. rewrite (Hc Ha). apply cache_inv_new. Qed.
Lemma store_inv_cache args J (s : store) :
  store_inv args J s -> store_inv args J (cache_new (cache_options args), s.2).
Proof. intros [_ HJ]. split; [|done]. intros _. apply cache_inv_new. Qed.

Lemma shared_handler_safe args (J : S -> Prop) tr ctx (s : store) :
  store_ok boot_cells alloc cursor_of J -> J s.2 -> shared_ok debug_errs boot_cells alloc cursor_of args tr ctx ->
  forall req, safe no_reply (store_inv args J) (shared_handler ctx req) (proxy_done req).
Proof.
  intros Hstore HJ (cfg & Hcfg & Hh & _).
  pose proof (configured_runs _ _ _ _ _ _ _ _ Hstore Hcfg) as Hruns.
  eapply (handler_safe args cfg _ s (if arg_cache args then (cache_new (cache_options args), s.2) else s)); [|done|done].
  unfold handler_built, handler_made in *. destruct (arg_cache args); [|done]. by destruct Hh.
Qed.

(** Every process keeps to its policy and spawns what its facts allow. *)
Lemma task_turn_safe args (J : S -> Prop) (s : store) tr t :
  store_ok boot_cells alloc cursor_of J -> J s.2 -> facts args tr t ->
  tsafe (task_policy t) (store_inv args J) tr (task_turn t) (turn_ends (facts args) task_dies t).
Proof.
  intros Hstore HJ (Hc & booted & Hb & Hf). unfold task_turn.
  pose proof (shared_handler_safe _ _ _ _ s Hstore HJ Hc) as Hh.
  pose proof (turn_tsafe _ (shared_credentials (context t)) booted _ Hh tr (work t) Hf) as Ht.
  apply tsafe_bind. eapply tsafe_mono; [|apply tsafe_extends; exact Ht].
  assert (forall tr' q, tr ⊆ tr' -> fact booted tr' q -> facts args tr' (Build_task (context t) q)) as Hnew.
  { intros tr' q Hsub Hq. split; [by eapply shared_ok_mono|]. exists booted. split; [|done].
    eapply list.Forall_impl; [exact Hb|]. intros q'. by apply opened_mono. }
  intros tr' [| | |q|q|q1 q2] [Hsub Hn]; simpl in *; auto. destruct Hn. auto.
Qed.
Lemma task_forever_endless t : task_forever t -> endless t (task_turn t).
Proof.
  intros Hf%(accepts_endless (shared_handler (context t)) (shared_credentials (context t))).
  apply safe_map. eapply safe_mono; [|exact Hf]. by intros [].
Qed.

(** What a reachable system is: its store meets the invariant, and every task
    has the handler and the credentials of the arguments. *)
Lemma program_known args (J : S -> Prop) s tr c :
  store_ok boot_cells alloc cursor_of J -> initial args J s -> runs args s tr c ->
  store_inv args J c.1
  /\ forall i t p, c.2 !! i = Some (inr t, p) -> facts args tr t.
Proof.
  intros Hstore Hinit Hrun. pose proof (initial_inv _ _ _ Hinit) as Hinv.
  assert (script_safe no_reply (store_inv args J) (facts args) [] []
    (startup debug_errs boot_cells alloc cursor_of args) (fun tr qs r => r = Ok Pending -> all_serving args tr qs)) as Hs.
  { apply startup_safe; [exact s|]. intros s'. apply store_inv_cache. }
  pose proof (fun tr tr' t => task_fact_mono debug_errs boot_cells alloc cursor_of args tr tr' t) as Hmono.
  pose proof (fun tr t => task_turn_safe args J s tr t Hstore (proj2 Hinit)) as Hturn.
  split.
  - exact (proj1 (script_sys_safe task_turn is_pending no_reply task_policy (store_inv args J) (facts args) task_dies
      _ Hmono Hturn s _ tr c Hrun Hinv Hs)).
  - intros i t p. exact (script_spawned task_turn is_pending no_reply task_policy (store_inv args J) (facts args)
      task_dies _ Hmono Hturn s _ tr c i t p Hrun Hinv Hs).
Qed.

(** The socket [h] was opened by [main], for plain DNS or for DNSCrypt. *)
Definition plain_socket args tr (h : handle) : Prop := bound_to sock (listen_addrs args) tr h.
Definition dnscrypt_socket args tr (h : handle) (config : DnsCryptServerConfig) : Prop :=
  bound_to sock (expand_listen (dnscrypt_listen args) (dnscrypt_port args)) tr h /\ resolver_from args tr config.

(** C1: the whole program, from its first step: with any arguments, over any
    store that gives each upstream its own cells, whatever arrives at its
    listeners, whatever its calls answer, and however its tasks interleave,
    those of the first listeners with [main] still starting the others, and
    however [main] ends: every datagram sent answers a datagram received on that
    socket from that peer; on a plain socket, bound at an address of the
    arguments, with a message (truncated past 512 bytes) that carries its
    query's question, on a DNSCrypt socket with its certificate, made of the key
    file, or such an answer boxed for the sender; every HTTP response belongs to
    a request received, and carries a DNS answer only to that request's query
    and only if the configured credentials authorize it; and the cache never
    exceeds its size. *)
Theorem program_integrity args (J : S -> Prop) s tr c :
  store_ok boot_cells alloc cursor_of J -> initial args J s -> runs args s tr c ->
  (forall h b peer x, Event (UdpSendTo h b peer) x ∈ tr ->
     exists packet n, Event (RecvFrom h n) (Ok (packet, peer)) ∈ tr
     /\ ((plain_socket args tr h /\ plain_reply packet b)
         \/ exists config, dnscrypt_socket args tr h config /\ reply_to proxy_done config packet b))
  /\ (forall conn status headers b x, Event (HttpReply conn status headers b) x ∈ tr ->
     exists req creds, Event (HttpNextRequest conn) (Ok (Some req)) ∈ tr /\ credentials_from args tr creds
     /\ response_ok proxy_done creds req status b)
  /\ (forall stream b x, Event (H3SendData stream b) x ∈ tr ->
     exists resolver req creds, Event (H3ResolveRequest resolver) (Ok (req, stream)) ∈ tr
     /\ credentials_from args tr creds
     /\ unauthorized creds (rq_authorization req) = false /\ answer_bytes proxy_done req b)
  /\ (arg_cache args = true -> (length (view c.1.1) <= cache_size args)%nat).
Proof.
  intros Hstore Hinit Hrun. pose proof (initial_inv _ _ _ Hinit) as Hinv.
  destruct (script_sys_safe task_turn is_pending no_reply task_policy (store_inv args J) (facts args) task_dies
    (fun tr qs r => r = Ok Pending -> all_serving args tr qs) (fun tr tr' t => task_fact_mono _ _ _ _ args tr tr' t)
    (fun tr t => task_turn_safe args J s tr t Hstore (proj2 Hinit)) s _ tr c Hrun Hinv) as ([Hc _] & Hcalls).
  { apply startup_safe; [exact s|]. intros s'. apply store_inv_cache. }
  split_and!.
  - intros h b peer x [[]|(t & (_ & booted & Hb & Hf) & Hq)]%Hcalls. unfold task_policy in Hq.
    destruct (work t); try done; destruct Hq as (-> & -> & Hq); destruct Hf as (Hin & n & Hrecv);
      exists packet, n; (split; [done|]); pose proof (proj1 (list.Forall_forall _ _) Hb _ Hin) as Ho.
    + left. by split.
    + right. by exists config.
  - intros conn status headers b x [[]|(t & ((cfg & _ & _ & Hcr) & booted & Hb & Hf) & Hq)]%Hcalls.
    unfold task_policy in Hq. destruct (work t); try done. destruct Hq as [-> Hq]. by exists req, (shared_credentials (context t)).
  - intros stream b x [[]|(t & ((cfg & _ & _ & Hcr) & booted & Hb & Hf) & Hq)]%Hcalls.
    unfold task_policy in Hq. destruct (work t); try done. destruct Hq as [-> Hq]. destruct Hf as [resolver Hf].
    by exists resolver, req, (shared_credentials (context t)).
  - intros Hca. by destruct (Hc Hca) as (_ & _ & _ & Hlen & _).
Qed.

(** A loop on a socket for [a], that goes round whatever happens. *)
Notation process := (script store task (res ending MainError) + task)%type.
Definition loop_up tr (c : store * list (process * io store (next process)))
    (mk : handle -> proc -> Prop) (a : SocketAddr) : Prop :=
  exists h i t p, sock a h ∈ tr /\ mk h (work t) /\ c.2 !! i = Some (inr t, p)
  /\ safe any_call (fun _ => True) p goes_on.
Lemma serving_up tr own qs c mk addrs :
  own ⊆ tr -> (forall t, t ∈ qs -> task_forever t -> running c t) ->
  (forall h q, mk h q -> accepts_forever q = true) -> serving sock mk addrs own qs ->
  forall a, a ∈ addrs -> loop_up tr c mk a.
Proof.
  intros Hown Hrun Hmk Hs a (h & t & Hh & Ht & Hm)%Hs.
  destruct (Hrun t Ht (Hmk _ _ Hm)) as (i & p & Hp & He). exists h, i, t, p. split_and!; auto.
Qed.

(** C3: the program serves: as soon as [main] has come to its end, to wait for
    ever, every address asked for has its socket or endpoint, and each with a
    socket has its UDP, TCP, DoT, DoH or DNSCrypt loop running on it, and this
    stays so after whatever packets, connections, failures and panics of other
    tasks: the loop is at a point from which every continuation goes round
    again. *)
Theorem program_serves args (J : S -> Prop) s tr c p :
  store_ok boot_cells alloc cursor_of J -> initial args J s -> runs args s tr c ->
  c.2 !! 0%nat = Some (inl (Done (Ok Pending)), p) ->
  (forall a, a ∈ listen_addrs args ->
     loop_up tr c (fun h q => q = UdpLoop h) a /\ loop_up tr c (fun h q => q = TcpLoop h) a)
  /\ (forall a, a ∈ expand_listen (tls_listen args) (tls_port args) -> loop_up tr c (fun h q => q = DotLoop h) a)
  /\ (forall a, a ∈ expand_listen (https_listen args) (https_port args) ->
     loop_up tr c (fun h q => q = DohLoop h) a /\ exists ep, quic a ep ∈ tr)
  /\ (forall a, a ∈ expand_listen (quic_listen args) (quic_port args) -> exists ep, quic a ep ∈ tr)
  /\ (forall a, a ∈ expand_listen (dnscrypt_listen args) (dnscrypt_port args) ->
     loop_up tr c (fun h q => exists config, q = DnsCryptUdpLoop config h) a
     /\ loop_up tr c (fun h q => exists config, q = DnsCryptTcpLoop config h) a).
Proof.
  intros Hstore Hinit Hrun Hdone. pose proof (initial_inv _ _ _ Hinit) as Hinv.
  destruct (script_result task_turn is_pending no_reply task_policy (store_inv args J) (facts args) task_dies
    task_forever (fun tr qs r => r = Ok Pending -> all_serving args tr qs)
    (fun tr tr' t => task_fact_mono _ _ _ _ args tr tr' t)
    (fun tr t => task_turn_safe args J s tr t Hstore (proj2 Hinit)) task_forever_endless
    s _ tr c (Ok Pending) p Hrun Hinv) as (own & qs & Hown & Hall & Hup); [|exact Hdone|].
  { apply startup_safe; [exact s|]. intros s'. apply store_inv_cache. }
  destruct (Hall eq_refl) as ([Hu Ht] & (Hq & Hdot & Hdoh & Hdoh3) & Hdu & Hdt).
  assert (forall mk addrs, (forall h q, mk h q -> accepts_forever q = true) -> serving sock mk addrs own qs ->
    forall a, a ∈ addrs -> loop_up tr c mk a) as Hsock by (intros; by eapply serving_up).
  split_and!.
  - intros a Ha. split; [eapply Hsock; [|exact Hu|done]|eapply Hsock; [|exact Ht|done]]; by intros h q ->.
  - intros a Ha. eapply Hsock; [|exact Hdot|done]. by intros h q ->.
  - intros a Ha. split; [eapply Hsock; [|exact Hdoh|done]; by intros h q ->|].
    destruct (Hdoh3 a Ha) as (ep & t & Hep & _). exists ep. by apply Hown.
  - intros a Ha. destruct (Hq a Ha) as (ep & t & Hep & _). exists ep. by apply Hown.
  - intros a Ha. split; [eapply Hsock; [|exact Hdu|done]|eapply Hsock; [|exact Hdt|done]]; by intros h q [config ->].
Qed.
End Properties.

Section Witnesses.
#[local] Existing Instances Toy.lib Toy.codec Toy.laws ToyBase64.base64 ToyWeb.web ToyCrypto.lib ToyTls.lib.
#[local] Instance p_lru : Lru CacheKey CacheEntry (ListLru.t CacheKey CacheEntry) := ListLru.lru key_eqb.
#[local] Instance p_lru_laws : LruLaws key_eqb := ListLru.laws key_eqb.
Notation p_runs := (program_runs (fun _ => "") w_alloc w_alloc w_cursor).

(** The program with the arguments of [Main.w_args], with every call
    succeeding, and then one packet. *)
Definition p_first : Store (S := unit) (C := ListLru.t CacheKey CacheEntry) := (cache_new (cache_options w_args), tt).
Definition p_trace : list event := (run_trace benign w_main p_first).2.
Lemma p_initial : initial w_args (fun _ : unit => True) p_first.
Proof. by split. Qed.
Notation p_turn := (program_turn (S := unit) (C := ListLru.t CacheKey CacheEntry)).
(** A program that has started on the default address alone receives a packet. *)
Lemma packet_arrives {S} alloc cursor args (s : Store (S := S) (C := ListLru.t CacheKey CacheEntry)) tr r s' packet peer :
  exec (main (fun _ => "") alloc alloc cursor args) s tr (Ok (Some r)) s' ->
  boot r = [UdpLoop 1%nat; TcpLoop 1%nat] -> (length packet <= Z.to_nat 65535)%nat ->
  exists ctx c, program_runs (fun _ => "") alloc alloc cursor args s
      (tr ++ [Event (RecvFrom 1%nat (Z.to_nat 65535)) (Ok (packet, peer))]) c
  /\ c.1 = s' /\ c.2 !! 0%nat = Some (start program_turn (inl (Done (Ok Pending))))
  /\ c.2 !! 3%nat = Some (start program_turn (inr (Build_task ctx (UdpQuery 1%nat packet peer)))).
Proof.
  intros Hx Hb Hlen. apply startup_alone in Hx as (qs & res & Hrun%startup_runs & (-> & ->)).
  rewrite Hb in Hrun. set (ctx := Build_shared (handler r) (credentials r)). exists ctx. eexists. split; [|split; [|split]].
  - rewrite <- (app_nil_r (tr ++ _)). eapply sys_trans.
    + eapply sys_trans; [exact Hrun|].
      eapply (sys_call _ s' _ 1 (inr (Build_task ctx (UdpLoop 1%nat))) _ (RecvFrom 1%nat (Z.to_nat 65535)) _
        (Ok (packet, peer))); [reflexivity|exact Hlen].
    + eapply (sys_turn _ _ _ 1 (inr (Build_task ctx (UdpLoop 1%nat)))). reflexivity.
  - reflexivity.
  - reflexivity.
  - reflexivity.
Qed.
Definition p_peer : SocketAddr := SockV4 (Ipv4 x7f x00 x00 x01) 5353.
Lemma p_arrived : exists c, p_runs w_args p_first (p_trace ++ [w_arrival]) c
  /\ c.2 !! 0%nat = Some (start p_turn (inl (Done (Ok Pending)))).
Proof.
  destruct (w_boots_at p_first) as (r & s' & Hx & Hb).
  destruct (packet_arrives w_alloc w_cursor w_args p_first _ r s' w_packet p_peer Hx Hb)
    as (ctx & c & Hrun & _ & Hdone & _); [|by exists c].
  apply Nat2Z.inj_le. rewrite Z2Nat.id by lia. vm_compute. discriminate.
Qed.
Lemma program_integrity_witness :
  exists c, p_runs w_args p_first (p_trace ++ [w_arrival]) c /\ (length (view c.1.1) <= 2)%nat.
Proof.
  destruct p_arrived as (c & Hrun & _). exists c. split; [exact Hrun|].
  destruct (program_integrity (fun _ => "") w_alloc w_alloc w_cursor w_args (fun _ => True) p_first _ c
    w_store_ok p_initial Hrun) as (_ & _ & _ & Hlen).
  exact (Hlen eq_refl).
Defined.
Lemma program_serves_witness :
  exists c, p_runs w_args p_first (p_trace ++ [w_arrival]) c
    /\ loop_up (p_trace ++ [w_arrival]) c (fun h q => q = UdpLoop h) (SockV4 (Ipv4 x7f x00 x00 x01) 53).
Proof.
  destruct p_arrived as (c & Hrun & Hdone). exists c. split; [exact Hrun|].
  destruct (program_serves (fun _ => "") w_alloc w_alloc w_cursor w_args (fun _ => True) p_first _ c _
    w_store_ok p_initial Hrun Hdone) as (Hplain & _).
  exact (proj1 (Hplain (SockV4 (Ipv4 x7f x00 x00 x01) 53) ltac:(vm_compute; left))).
Defined.
End Witnesses.
