(* ===== verification/StartupErrors.v ===== *)
(** * When the program does not start

    [main] stops at the first thing that goes wrong. [reported] is the error it
    returns for a call that fails, [fault] lists what can be wrong with the
    arguments and with the files they name. *)
From S2P Require Import Prelude RustStr RustNet Io Procs Script Dns Errors WebLib Wire Cache Framing.
From S2P Require Import CryptoLib Crypto Keygen DnsCrypt UpstreamUrl UpstreamConfig.
From S2P Require Import ListenerIo ListenerDnsCrypt ListenerDoh ListenerTls MainArgs Main Server Startup Program.

(** What [main] returns when this call has failed; [None] when it has not, or
    is one that cannot. *)
Definition reported (ev : event) : option MainError :=
  match ev with
  | Event e x =>
      match e in eff X return X -> option MainError with
      | FsRead path => fun r =>
          match r with Err m => Some (Msg ("reading " +:+ path +:+ ": " +:+ m)) | _ => None end
      | FsWrite path _ => fun r =>
          match r with Err m => Some (Msg ("writing " +:+ path +:+ ": " +:+ m)) | _ => None end
      | FsReadBytes _ => fun r => match r with Err m => Some (Failed (IoError m)) | _ => None end
      | SocketNew _ _ => fun r => match r with Err m => Some (Failed (IoError m)) | _ => None end
      | LocalAddr _ => fun r => match r with Err m => Some (Failed (IoError m)) | _ => None end
      | SetOnlyV6 _ _ | SetReuseAddress _ _ | SocketBind _ _ | SetNonblocking _ _ | Listen _ _
      | FromStd _ => fun r =>
          match r with Err m => Some (Failed (IoError m)) | _ => None end
      | QuicEndpoint _ => fun r => match r with Err m => Some (Failed (Quic m)) | _ => None end
      | QuicLocalAddr _ => fun r => match r with Err m => Some (Failed (Quic m)) | _ => None end
      | _ => fun _ => None
      end x
  end.
(** The failures [main] does not return but unwinds at: a crypto provider that
    is installed already, and a standard output that takes no more. *)
Definition unwinds (ev : event) : bool :=
  match ev with
  | Event e x =>
      match e in eff X return X -> bool with
      | InstallProvider => fun r => negb (is_ok r)
      | Println _ => fun r => negb (is_ok r)
      | _ => fun _ => false
      end x
  end.
Definition fine (ev : event) : Prop := reported ev = None /\ unwinds ev = false.
Definition went_well (tr : list event) : Prop := Forall fine tr.
(** The last call is the only one that failed, and [e] reports it. *)
Definition stopped_at (tr : list event) (e : MainError) : Prop :=
  exists tr0 ev, tr = tr0 ++ [ev] /\ went_well tr0 /\ reported ev = Some e.
Definition unwound_at (tr : list event) : Prop :=
  exists tr0 ev, tr = tr0 ++ [ev] /\ went_well tr0 /\ unwinds ev = true.

(** [p] stops at its first failed call with the report of it, or for a reason
    [C]; its errors become errors of [main] by [f]. *)
Definition reports {S A E} (f : E -> MainError) (C : list event -> E -> Prop) (p : io S (res A E)) : Prop :=
  forall s tr r s', exec p s tr r s' ->
    match r with
    | Ok _ => went_well tr
    | Err e => stopped_at tr (f e) \/ (went_well tr /\ C tr e)
    | Panic => unwound_at tr
    end.

Section Reports.
Context {S : Type}.
Lemma went_well_app tr1 tr2 : went_well tr1 -> went_well tr2 -> went_well (tr1 ++ tr2).
Proof. intros. by apply Forall_app. Qed.
Lemma stopped_at_app tr1 tr2 e : went_well tr1 -> stopped_at tr2 e -> stopped_at (tr1 ++ tr2) e.
Proof.
  intros H1 (tr0 & ev & -> & H0 & He). exists (tr1 ++ tr0), ev. rewrite app_assoc.
  split_and!; [done|by apply went_well_app|done].
Qed.
Lemma unwound_at_app tr1 tr2 : went_well tr1 -> unwound_at tr2 -> unwound_at (tr1 ++ tr2).
Proof.
  intros H1 (tr0 & ev & -> & H0 & He). exists (tr1 ++ tr0), ev. rewrite app_assoc.
  split_and!; [done|by apply went_well_app|done].
Qed.
Lemma reports_ret {A E} f C (r : res A E) :
  r <> Panic -> (forall e, r = Err e -> C [] e) -> reports (S := S) f C (IoRet r).
Proof. intros Hp HC s tr r' s' (-> & -> & ->). destruct r; [constructor| |done]. right. split; [constructor|by apply HC]. Qed.
Lemma reports_call {A E} f C (e : eff (res A E)) :
  (forall a, fine (Event e (Ok a))) -> (forall x, reported (Event e (Err x)) = Some (f x)) ->
  (forall r, eff_ok e r -> r <> Panic) -> reports (S := S) f C (call e).
Proof.
  intros Ho He Hp s tr r s' (x & tr' & Hx & -> & -> & -> & ->). destruct x as [a|m|].
  - by apply Forall_singleton.
  - left. exists [], (Event e (Err m)). split_and!; [done|constructor|done].
  - by destruct (Hp _ Hx).
Qed.
Lemma reports_try {A B E} f C (p : io S (res A E)) (k : A -> io S (res B E)) :
  (forall tr tr' e, tr ⊆ tr' -> C tr e -> C tr' e) -> reports f C p ->
  (forall s tr a s', exec p s tr (Ok a) s' -> reports f (fun tr' e => C (tr ++ tr') e) (k a)) ->
  reports f C (io_try p k).
Proof.
  intros HC Hp Hk s tr r s'. rewrite exec_try. intros (r0 & s1 & tr1 & tr2 & -> & Hx & Hr).
  pose proof (Hp _ _ _ _ Hx) as H0. destruct r0 as [a|e|].
  - specialize (Hk _ _ _ _ Hx _ _ _ _ Hr). destruct r as [b|e|].
    + by apply went_well_app.
    + destruct Hk as [Hs|[Hw Hc]]; [left; by apply stopped_at_app|right]. by split; [apply went_well_app|].
    + by apply unwound_at_app.
  - destruct Hr as (-> & -> & _). by rewrite app_nil_r.
  - destruct Hr as (-> & -> & _). by rewrite app_nil_r.
Qed.
(** A step that only looks at values. *)
Lemma reports_pure {A B E} f C (r : res A E) (k : A -> io S (res B E)) :
  r <> Panic -> (forall e, r = Err e -> C [] e) -> (forall a, r = Ok a -> reports f C (k a)) ->
  reports f C (io_try (IoRet r) k).
Proof.
  intros Hp HC Hk. destruct r as [a|e|]; [by apply Hk| |done]. apply (reports_ret f C (Err e)); [done|].
  by intros e0 [= <-]; apply HC.
Qed.
Lemma reports_map_err {A E E'} f C (g : E -> E') (p : io S (res A E)) :
  reports (fun e => f (g e)) (fun tr e => C tr (g e)) p -> reports f C (io_map_err g p).
Proof. intros Hp s tr r s' (r0 & Hx & ->)%exec_map. apply Hp in Hx. by destruct r0. Qed.
Lemma reports_mono {A E} f (C C' : list event -> E -> Prop) (p : io S (res A E)) :
  (forall tr e, C tr e -> C' tr e) -> reports f C p -> reports f C' p.
Proof. intros HC Hp s tr r s' Hx%Hp. destruct r; naive_solver. Qed.
(** A call that cannot fail. *)
Lemma reports_let {X B E} f C (e : eff X) (k : X -> io S (res B E)) :
  (forall x, fine (Event e x)) ->
  (forall x, eff_ok e x -> reports f (fun tr e' => C (Event e x :: tr) e') (k x)) ->
  reports f C (io_bind (call e) k).
Proof.
  intros He Hk s tr r s' (x & tr' & Hx & -> & Hr). specialize (Hk x Hx _ _ _ _ Hr).
  assert (went_well [Event e x]) as H1 by by apply Forall_singleton. destruct r as [b|m|].
  - by apply (went_well_app [_]).
  - destruct Hk as [Hs|[Hw Hc]]; [left; by apply (stopped_at_app [_])|right]. by split; [apply (went_well_app [_])|].
  - by apply (unwound_at_app [_]).
Qed.
End Reports.

Section Faults.
Context {S C : Type} `{HL : DnsLib} {HC : DnsCodec} {HB : Base64} {HW : WebLib} {HK : CryptoLib}.
Context {HT : TlsLib} {HLru : Lru CacheKey CacheEntry C}.
Context (debug_errs : list DohError -> string) (boot_cells alloc : nat -> Cells S).
Context (cursor_of : option string -> cell S Z).
Notation store := (Store (S := S) (C := C)).
Context (args : Args).

(** What is wrong with the certificate and key files of a TLS listener. *)
Inductive tls_fault (tr : list event) (cert key : string) : DohError -> Prop :=
| bad_cert_file b m :
    Event (FsReadBytes cert) (Ok b) ∈ tr -> pem_certs b = inl m ->
    tls_fault tr cert key (Http ("reading " +:+ cert +:+ ": " +:+ m))
| empty_cert_file b :
    Event (FsReadBytes cert) (Ok b) ∈ tr -> pem_certs b = inr [] ->
    tls_fault tr cert key (Http ("no certificates found in " +:+ cert))
| bad_key_file b m :
    Event (FsReadBytes key) (Ok b) ∈ tr -> pem_private_key b = inl m ->
    tls_fault tr cert key (Http ("reading " +:+ key +:+ ": " +:+ m))
| empty_key_file b :
    Event (FsReadBytes key) (Ok b) ∈ tr -> pem_private_key b = inr None ->
    tls_fault tr cert key (Http ("no private key found in " +:+ key))
| key_mismatch bc bk certs k m :
    Event (FsReadBytes cert) (Ok bc) ∈ tr -> pem_certs bc = inr certs ->
    Event (FsReadBytes key) (Ok bk) ∈ tr -> pem_private_key bk = inr (Some k) ->
    with_single_cert certs k = inl m -> tls_fault tr cert key (Http ("building tls config: " +:+ m)).

(** What is wrong with the command line, or with a file it names. *)
Inductive fault (tr : list event) : MainError -> Prop :=
| no_provider_name path :
    dnscrypt_generate_config args = Some path -> dnscrypt_provider_name args = None ->
    fault tr (Msg "--dnscrypt-provider-name is required with --dnscrypt-generate-config")
| bad_bootstrap m :
    bootstrap_resolver debug_errs boot_cells args (base_options args None) = Err m -> fault tr (Msg m)
| no_upstream :
    arg_upstreams args = [] -> upstream_file args = None ->
    fault tr (Msg "at least one of --upstream or --upstream-file is required")
| bad_rules bootstrap ls errs :
    bootstrap_resolver debug_errs boot_cells args (base_options args None) = Ok bootstrap ->
    rule_lines tr args ls -> errs <> [] ->
    parse_with_mode alloc cursor_of (base_options args bootstrap) ls
      (UpstreamModeArg.into (upstream_mode args)) = Err errs ->
    fault tr (Msg (show_rule_errors errs))
| bad_credential text m :
    file_of tr (doh_auth_file args) text ->
    collect (parse_pair <$> doh_auth args ++ (opt_list text ≫= auth_lines)) = Err m -> fault tr (Msg m)
| no_cache_size :
    arg_cache args = true -> cache_size args = 0%nat -> fault tr (Msg "--cache-size must be nonzero")
| no_certificate :
    secure_binds args <> [] -> listener_tls_cert args = None ->
    fault tr (Msg "--tls-cert is required to enable any of --quic-listen/--tls-listen/--https-listen")
| no_key :
    secure_binds args <> [] -> listener_tls_key args = None -> fault tr (Msg "--tls-key is required")
| bad_tls_files cert key e :
    listener_tls_cert args = Some cert -> listener_tls_key args = Some key -> tls_fault tr cert key e ->
    fault tr (Failed e)
| unfit_for_quic certs key c alpn m :
    with_single_cert certs key = inr c -> quic_config_error (set_alpn_protocols c alpn) = Some m ->
    fault tr (Failed (Quic m))
| no_dnscrypt_config :
    dnscrypt_binds args <> [] -> dnscrypt_config args = None ->
    fault tr (Msg "--dnscrypt-config is required to enable --dnscrypt-listen/--dnscrypt-port")
| bad_key_config path text m :
    dnscrypt_config args = Some path -> Event (FsRead path) (Ok text) ∈ tr -> load_text path text = Err m ->
    fault tr (Msg m).

(** [p], run after [pre], stops at a failed call or at a fault. *)
Definition faults {T A E} (f : E -> MainError) (pre : list event) (p : io T (res A E)) : Prop :=
  reports f (fun tr e => fault (pre ++ tr) (f e)) p.

Lemma tls_fault_mono tr tr' cert key e : tr ⊆ tr' -> tls_fault tr cert key e -> tls_fault tr' cert key e.
Proof. intros Hsub. destruct 1; econstructor; eauto. Qed.
Lemma fault_mono tr tr' e : tr ⊆ tr' -> fault tr e -> fault tr' e.
Proof.
  intros Hsub Hf. destruct Hf; try (by econstructor; eauto).
  - eapply bad_rules; [done|by eapply (rule_lines_mono cursor_of)|done|done].
  - eapply bad_credential; [by eapply file_of_mono|done].
  - eapply bad_tls_files; [done|done|by eapply tls_fault_mono].
Qed.
Lemma faults_try {T A B E} (f : E -> MainError) pre (p : io T (res A E)) (k : A -> io T (res B E)) :
  faults f pre p -> (forall s tr a s', exec p s tr (Ok a) s' -> faults f (pre ++ tr) (k a)) ->
  faults f pre (io_try p k).
Proof.
  intros Hp Hk. apply reports_try; [intros tr tr' e Hsub; apply fault_mono; set_solver|done|].
  intros s tr a s' Hx%Hk. eapply reports_mono; [|exact Hx]. intros tr' e. by rewrite app_assoc.
Qed.
Lemma faults_pure {T A B E} (f : E -> MainError) pre (r : res A E) (k : A -> io T (res B E)) :
  r <> Panic -> (forall e, r = Err e -> fault pre (f e)) -> (forall a, r = Ok a -> faults f pre (k a)) ->
  faults f pre (io_try (IoRet r) k).
Proof. intros Hp Hf Hk. apply reports_pure; [done| |done]. intros e He. rewrite app_nil_r. by apply Hf. Qed.
Lemma faults_ret {T A E} (f : E -> MainError) pre (r : res A E) :
  r <> Panic -> (forall e, r = Err e -> fault pre (f e)) -> faults (T := T) f pre (IoRet r).
Proof. intros Hp Hf. apply reports_ret; [done|]. intros e He. rewrite app_nil_r. by apply Hf. Qed.
Lemma faults_ok {T A E} (f : E -> MainError) pre (a : A) : faults (T := T) (E := E) f pre (IoRet (Ok a)).
Proof. by apply faults_ret. Qed.
Lemma faults_map_err {T A E E'} f pre (g : E -> E') (p : io T (res A E)) :
  faults (fun e => f (g e)) pre p -> faults f pre (io_map_err g p).
Proof. exact (reports_map_err f (fun tr e => fault (pre ++ tr) (f e)) g p). Qed.
(** A call of [main], with its report. *)
Lemma faults_call {T A E F} (f : F -> MainError) (g : E -> F) pre (e : eff (res A E)) :
  (forall a, fine (Event e (Ok a))) -> (forall x, reported (Event e (Err x)) = Some (f (g x))) ->
  (forall r, eff_ok e r -> r <> Panic) -> faults (T := T) f pre (io_map_err g (call e)).
Proof. intros. apply faults_map_err. by apply reports_call. Qed.

(** *** The parts of [main] *)
Lemma answered_call {A E} (r : res A E) Q : answered r Q -> r <> Panic.
Proof. by destruct r. Qed.
Lemma faults_new_socket {T} pre a st : faults (T := T) (fun m => Failed (IoError m)) pre (new_socket a st).
Proof.
  unfold new_socket.
  assert (forall (e : eff (res unit io_err)) pre0, (forall u, fine (Event e (Ok u))) ->
    (forall x, reported (Event e (Err x)) = Some (Failed (IoError x))) -> (forall r, eff_ok e r -> r <> Panic) ->
    faults (T := T) (fun m => Failed (IoError m)) pre0 (call e)) as Hunit by (intros; by apply reports_call).
  apply faults_try; [apply reports_call; [done|done|intros r; apply answered_call]|]. intros s0 tr0 h s0' _.
  apply faults_try; [destruct (negb _); [|apply faults_ok]; apply Hunit; [done|done|intros r; apply answered_call]|].
  intros s1 tr1 u1 s1' _. do 3 (apply faults_try; [apply Hunit; [done|done|intros r; apply answered_call]|]; intros ? ? ? ? _).
  apply faults_ok.
Qed.
Lemma faults_bind_tcp {T} pre a : faults (T := T) (fun m => Failed (IoError m)) pre (bind_tcp a).
Proof.
  apply faults_try; [apply faults_new_socket|]. intros s tr h s' _.
  do 2 (apply faults_try; [apply reports_call; [done|done|intros r; apply answered_call]|]; intros ? ? ? ? _).
  apply faults_ok.
Qed.
Lemma faults_bind_udp {T} pre a : faults (T := T) (fun m => Failed (IoError m)) pre (bind_udp a).
Proof.
  apply faults_try; [apply faults_new_socket|]. intros s tr h s' _.
  apply faults_try; [apply reports_call; [done|done|intros r; apply answered_call]|]. intros ? ? ? ? _. apply faults_ok.
Qed.
Lemma faults_named {T F} (g : F -> DohError) pre (bind : io T (res handle DohError)) (name : handle -> eff (res SocketAddr F)) :
  (forall h a, fine (Event (name h) (Ok a))) ->
  (forall h x, reported (Event (name h) (Err x)) = Some (Failed (g x))) -> (forall h r, eff_ok (name h) r -> r <> Panic) ->
  faults Failed pre bind ->
  faults Failed pre (try* h := bind in try* _ := io_map_err g (call (name h)) in IoRet (Ok h)).
Proof.
  intros Ho He Hp Hb. apply faults_try; [done|]. intros s tr h s' _.
  apply faults_try; [apply faults_call; [apply Ho|apply He|apply Hp]|]. intros ? ? ? ? _. apply faults_ok.
Qed.
Lemma faults_serve_udp {T} pre a : faults (T := T) Failed pre (ListenerDnsCrypt.serve_udp a).
Proof.
  apply faults_named; [done|done|intros h r; apply answered_call|]. apply faults_map_err, faults_bind_udp.
Qed.
Lemma faults_serve_tcp {T} pre a : faults (T := T) Failed pre (ListenerDnsCrypt.serve_tcp a).
Proof.
  apply faults_named; [done|done|intros h r; apply answered_call|]. apply faults_map_err, faults_bind_tcp.
Qed.
Lemma faults_serve {T} pre a : faults (T := T) Failed pre (ListenerIo.serve a).
Proof.
  apply faults_try; [apply faults_map_err, faults_bind_udp|]. intros ? ? ? ? _.
  apply faults_try; [apply faults_map_err, faults_bind_tcp|]. intros ? ? ? ? _. apply faults_ok.
Qed.
Lemma faults_serve_quic {T} pre certs key c alpn a :
  with_single_cert certs key = inr c -> faults (T := T) Failed pre (serve_quic (set_alpn_protocols c alpn) a).
Proof.
  intros Hc. apply faults_pure; [by destruct (quic_config_error _)| |].
  - intros e He. destruct (quic_config_error _) eqn:Hq; [|done]. injection He as <-. by eapply unfit_for_quic.
  - intros _ _. apply faults_named; [done|done|intros h r; apply answered_call|].
    apply faults_call; [done|done|intros r; apply answered_call].
Qed.
(** A loop over addresses. *)
Lemma faults_bind_each {T} pre (bind : SocketAddr -> io T (res handle DohError)) l :
  (forall pre' a, faults Failed pre' (bind a)) -> faults Failed pre (bind_each bind l).
Proof.
  intros Hb. revert pre. induction l as [|a l IH]; intros pre; [apply faults_ok|].
  apply faults_try; [apply Hb|]. intros ? ? ? ? _. apply faults_try; [apply IH|]. intros ? ? ? ? _. apply faults_ok.
Qed.
Lemma faults_serve_all {T} pre l : faults (T := T) Failed pre (ListenerIo.serve_all l).
Proof.
  revert pre. induction l as [|a l IH]; intros pre; [apply faults_ok|].
  apply faults_try; [apply faults_serve|]. intros ? ? ? ? _. apply faults_try; [apply IH|]. intros ? ? ? ? _. apply faults_ok.
Qed.

(** *** Files *)
Lemma faults_read_text {T} pre path : faults (T := T) Msg pre (read_text path).
Proof. apply faults_call; [done|done|intros r; apply answered_call]. Qed.
Lemma faults_read_opt {T} pre path : faults (T := T) Msg pre (read_opt path).
Proof.
  destruct path as [p|]; [|apply faults_ok]. apply faults_try; [apply faults_read_text|]. intros ? ? ? ? _. apply faults_ok.
Qed.
Lemma faults_upstream_lines {T} pre : faults (T := T) Msg pre (upstream_lines args).
Proof.
  apply faults_try; [apply faults_read_opt|]. intros ? tr ? ? _. apply faults_try; [|intros ? ? ? ? _; apply faults_ok].
  generalize (pre ++ tr). induction (arg_upstreams args) as [|u us IH]; intros pre'; [apply faults_ok|].
  apply faults_try.
  - apply reports_let; [done|]. intros [] _; [|by apply reports_ret].
    eapply reports_mono; [|apply (faults_read_text (pre' ++ [Event (FsIsFile u) true]))].
    intros tr' e He. cbv beta in He. rewrite <- app_assoc in He. exact He.
  - intros ? ? ? ? _. apply faults_try; [apply IH|]. intros ? ? ? ? _. apply faults_ok.
Qed.
Lemma collect_not_Panic {A E} (l : list (res A E)) : Forall (fun r => r <> Panic) l -> collect l <> Panic.
Proof.
  induction 1 as [|r l Hr _ IH]; [done|]. cbn. destruct r; cbn; [|done..]. by destruct (collect l).
Qed.
Lemma parse_pair_not_Panic s : parse_pair s <> Panic.
Proof. unfold parse_pair. destruct (split_once_char _ _) as [[u p]|]; [|done]. simpl. by destruct (is_empty u). Qed.
Lemma faults_doh_credentials pre : faults (fun e => e) pre (doh_credentials (S := S) (C := C) args).
Proof.
  apply faults_try; [apply faults_map_err, faults_read_opt|].
  intros s tr text s' Hf%exec_map_err_Ok%exec_read_opt. apply faults_pure.
  - intros Hp. destruct (collect _) eqn:Ec in Hp; try done. revert Ec. apply collect_not_Panic, list.Forall_forall.
    intros r (x & -> & _)%list_elem_of_fmap. apply parse_pair_not_Panic.
  - intros e He. destruct (collect _) as [|m|] eqn:Ec in He; try done. injection He as <-.
    eapply bad_credential; [eapply file_of_mono; [|exact Hf]; set_solver|exact Ec].
  - intros pairs _. apply faults_ok.
Qed.
Lemma bootstrap_not_Panic : bootstrap_resolver debug_errs boot_cells args (base_options args None) <> Panic.
Proof.
  unfold bootstrap_resolver. destruct (arg_bootstrap args) as [|v vs]; [done|]. intros Hp%res_bind_Panic.
  destruct Hp as [Hp|(rs & _ & ?)]; [|done]. revert Hp. apply collect_not_Panic, list.Forall_forall.
  intros r (i & Hi)%list_elem_of_lookup. apply list_lookup_imap_Some in Hi as (x & _ & ->).
  unfold parse_bootstrap. destruct (contains _ _).
  - intros [?|(u & _ & Hu)]%res_bind_Panic; [by eapply parse_upstream_not_Panic|]. by destruct (parse_ip_addr _).
  - destruct (parse_socket_addr x); [done|]. by destruct (parse_ip_addr x).
Qed.
Lemma faults_upstream_config pre :
  faults (fun e => e) pre (upstream_config (C := C) debug_errs boot_cells alloc cursor_of args).
Proof.
  apply faults_pure.
  - pose proof bootstrap_not_Panic. by destruct (bootstrap_resolver _ _ _ _).
  - intros e He. destruct (bootstrap_resolver _ _ _ _) eqn:Hb; [done| |done]. injection He as <-. by apply bad_bootstrap.
  - intros bootstrap Hb. destruct (bootstrap_resolver _ _ _ _) as [b| |] eqn:Hb'; [|done..]. injection Hb as ->.
    destruct (is_nil _ && negb _) eqn:Hn.
    { apply faults_ret; [done|]. intros e [= <-]. apply andb_true_iff in Hn as [H1 H2].
      apply no_upstream; [by destruct (arg_upstreams args)|by destruct (upstream_file args)]. }
    apply faults_try; [apply faults_map_err, faults_upstream_lines|].
    intros s tr ls s' Hl%exec_map_err_Ok%exec_upstream_lines.
    pose proof (parse_with_mode_cases alloc cursor_of (base_options args bootstrap) ls
      (UpstreamModeArg.into (upstream_mode args))) as Hc.
    apply faults_ret; destruct (parse_with_mode _ _ _ _ _) as [|errs|] eqn:Hp; try done.
    intros e [= <-]. destruct Hc as [_ Hne]. eapply bad_rules; [exact Hb'| |exact Hne|exact Hp].
    apply (rule_lines_mono cursor_of tr); [set_solver|exact Hl].
Qed.
Lemma faults_build_handler pre cfg : faults (fun e => e) pre (build_handler (S := S) (C := C) args cfg).
Proof.
  unfold build_handler. destruct (arg_cache args) eqn:Ha; [|apply faults_ok].
  destruct (Nat.eqb_spec (cache_size args) 0) as [Hz|]; [|intros s tr r s' (-> & -> & ->); constructor].
  apply faults_ret; [done|]. intros e [= <-]. by apply no_cache_size.
Qed.

(** *** The listeners *)
Lemma pem_not_Panic {A E F} (f : F -> E) (m : F + A) e : from_sum f m = Err e -> exists x, m = inl x /\ e = f x.
Proof. destruct m as [x|a]; [|done]. intros [= <-]. by exists x. Qed.
Lemma faults_load_tls pre cert key alpn :
  listener_tls_cert args = Some cert -> listener_tls_key args = Some key ->
  faults (fun e => e) pre (load_tls (S := S) (C := C) cert key alpn).
Proof.
  intros Hc Hk. apply faults_map_err. unfold load_server_tls_config.
  assert (forall tr e, tls_fault tr cert key e -> fault tr (Failed e)) as Hf by (intros; by eapply bad_tls_files).
  assert (forall pre' path, faults (T := store) Failed pre' (io_map_err IoError (call (FsReadBytes path)))) as Hread.
  { intros pre' path. apply faults_call; [done|done|intros r; apply answered_call]. }
  apply faults_try; [apply Hread|]. intros ? tr1 bc ? Hbc%exec_map_err_Ok%exec_call_Ok.
  assert (Event (FsReadBytes cert) (Ok bc) ∈ pre ++ tr1) as Hin1 by (rewrite Hbc; apply elem_of_app; right; by left).
  apply faults_pure; [apply from_sum_not_Panic| |].
  { intros e (m & Hm & ->)%pem_not_Panic. by eapply Hf, bad_cert_file. }
  intros [|c0 cs] Hcerts%from_sum_Ok.
  { apply faults_ret; [done|]. intros e [= <-]. by eapply Hf, empty_cert_file. }
  apply faults_try; [apply Hread|]. intros ? tr2 bk ? Hbk%exec_map_err_Ok%exec_call_Ok.
  assert (Event (FsReadBytes key) (Ok bk) ∈ (pre ++ tr1) ++ tr2) as Hin2 by (rewrite Hbk; apply elem_of_app; right; by left).
  apply faults_pure; [apply from_sum_not_Panic| |].
  { intros e (m & Hm & ->)%pem_not_Panic. by eapply Hf, bad_key_file. }
  intros k Hkey%from_sum_Ok. apply faults_pure; [apply ok_or_not_Panic| |].
  { intros e He. destruct k; [done|]. injection He as <-. by eapply Hf, empty_key_file. }
  intros k' Hk'. destruct k as [k|]; [|done]. injection Hk' as ->.
  apply faults_pure; [apply from_sum_not_Panic| |intros; apply faults_ok].
  intros e (m & Hm & ->)%pem_not_Panic. eapply Hf, key_mismatch; [|exact Hcerts|exact Hin2|exact Hkey|exact Hm].
  apply elem_of_app. by left.
Qed.
(** A configuration that was loaded. *)
Lemma exec_load_tls cert key alpn (s : store) tr config s' :
  exec (load_tls cert key alpn) s tr (Ok config) s' ->
  exists certs k c, with_single_cert certs k = inr c /\ config = set_alpn_protocols c alpn.
Proof.
  unfold load_tls, load_server_tls_config. intros H%exec_map_err_Ok.
  apply exec_try_Ok in H as (bc & ? & ? & ? & _ & H & _). rewrite exec_try_ret in H.
  destruct (from_sum _ (pem_certs bc)) as [certs| |]; [|by destruct H as (_ & ? & _)..].
  destruct certs as [|c0 cs]; [by destruct H as (_ & ? & _)|].
  apply exec_try_Ok in H as (bk & ? & ? & ? & _ & H & _). rewrite exec_try_ret in H.
  destruct (from_sum _ (pem_private_key bk)) as [k| |]; [|by destruct H as (_ & ? & _)..]. rewrite exec_try_ret in H.
  destruct k as [k|]; [|by destruct H as (_ & ? & _)]. cbn [ok_or] in H. rewrite exec_try_ret in H.
  destruct (with_single_cert _ _) as [m|c] eqn:Hc; [by destruct H as (_ & ? & _)|].
  destruct H as (_ & [= ->] & _). by exists (c0 :: cs), k, c.
Qed.
Lemma faults_when_any {A} pre addrs (p : io store (res (list A) MainError)) :
  faults (fun e => e) pre p -> faults (fun e => e) pre (when_any addrs p).
Proof. intros Hp. destruct addrs; [apply faults_ok|done]. Qed.
Lemma faults_serve_secure pre : faults (fun e => e) pre (serve_secure (S := S) (C := C) args).
Proof.
  unfold serve_secure. set (quics := expand_listen (quic_listen args) _). set (tlss := expand_listen (tls_listen args) _).
  set (https := expand_listen (https_listen args) _).
  destruct (is_nil quics && is_nil tlss && is_nil https) eqn:En; [apply faults_ok|].
  assert (secure_binds args <> []) as Hsec.
  { unfold secure_binds. fold quics tlss https. destruct quics, tlss, https; done. }
  apply faults_pure; [apply ok_or_not_Panic| |].
  { intros e He. destruct (listener_tls_cert args) eqn:Hc; [done|]. injection He as <-. by apply no_certificate. }
  intros cert Hcert. apply faults_pure; [apply ok_or_not_Panic| |].
  { intros e He. destruct (listener_tls_key args) eqn:Hk; [done|]. injection He as <-. by apply no_key. }
  intros key Hkey. destruct (listener_tls_cert args) as [c0|] eqn:Hc; [|done]. injection Hcert as ->.
  destruct (listener_tls_key args) as [k0|] eqn:Hk; [|done]. injection Hkey as ->.
  apply faults_try; [apply faults_when_any, faults_try; [by apply faults_load_tls|]|].
  { intros ? ? config ? (certs & k & c & Hok & ->)%exec_load_tls. apply faults_map_err, faults_bind_each.
    intros pre' a. by eapply faults_serve_quic. }
  intros ? ? doq ? _. apply faults_try; [apply faults_when_any, faults_try; [by apply faults_load_tls|]|].
  { intros ? ? ? ? _. apply faults_map_err, faults_bind_each. intros. apply faults_serve_tcp. }
  intros ? ? dot ? _. destruct (is_nil https); [apply faults_ok|].
  apply faults_try; [by apply faults_load_tls|]. intros ? ? config ? (certs & k & c & Hok & ->)%exec_load_tls.
  apply faults_try; [apply faults_map_err, faults_bind_each; intros; apply faults_serve_tcp|]. intros ? ? doh ? _.
  apply faults_try; [|intros ? ? ? ? _; apply faults_ok]. apply faults_map_err, faults_bind_each.
  intros pre' a. by eapply faults_serve_quic.
Qed.
Lemma load_line_not_Panic path idx line p : load_line path idx line p <> Panic.
Proof.
  unfold load_line. destruct (_ || _); [done|]. destruct (split_once_char _ _) as [[k v]|]; [|done]. cbn [ok_or res_bind].
  assert (forall k, decode_key k <> Panic) as Hd
    by (intros x; unfold decode_key; destruct (b64_decode _ x); [done|]; cbn; by destruct (_ =? _)%nat).
  destruct (String.eqb _ _); [done|]. destruct (String.eqb _ _); [|destruct (String.eqb _ _); [|done]].
  - unfold decode_signing_key. specialize (Hd (trim v)). by destruct (decode_key _).
  - unfold decode_secret_key. specialize (Hd (trim v)). by destruct (decode_key _).
Qed.
Lemma load_text_not_Panic path text : load_text path text <> Panic.
Proof.
  unfold load_text. intros [Hp|(p & _ & Hp)]%res_bind_Panic.
  - revert Hp. generalize 0%Z as idx. generalize empty_partial as p. induction (lines text) as [|l ls IH]; intros p idx; [done|].
    cbn [load_lines]. intros [?|(p' & _ & ?)]%res_bind_Panic; [by eapply load_line_not_Panic|by eapply IH].
  - by destruct (p_name p), (p_signing p), (p_secret p).
Qed.
Lemma faults_serve_dnscrypt pre : faults (fun e => e) pre (serve_dnscrypt (S := S) (C := C) args).
Proof.
  unfold serve_dnscrypt. set (addrs := expand_listen _ _). destruct (is_nil addrs) eqn:En; [apply faults_ok|].
  assert (dnscrypt_binds args <> []) as Hb by (unfold dnscrypt_binds; fold addrs; by destruct addrs).
  apply faults_pure; [apply ok_or_not_Panic| |].
  { intros e He. destruct (dnscrypt_config args) eqn:Hc; [done|]. injection He as <-. by apply no_dnscrypt_config. }
  intros path Hpath. destruct (dnscrypt_config args) as [p0|] eqn:Hc; [|done]. injection Hpath as ->.
  apply faults_try.
  { apply faults_map_err, faults_try; [apply faults_call; [done|done|intros r; apply answered_call]|].
    intros ? tr text ? ->%exec_map_err_Ok%exec_call_Ok. apply faults_ret; [apply load_text_not_Panic|].
    intros m Hm. eapply bad_key_config; [exact Hc| |exact Hm]. apply elem_of_app. right. by left. }
  intros ? tr keys ? _. apply reports_let; [done|]. intros t _. cbn [io_bind]. cbv zeta.
  eapply reports_mono; [|apply (faults_try (fun e => e) ((pre ++ tr) ++ [Event UnixNow t]))].
  - intros tr' e He. cbv beta in He. rewrite <- app_assoc in He. exact He.
  - apply faults_map_err, faults_try; [apply faults_bind_each; intros; apply faults_serve_udp|]. intros ? ? ? ? _.
    apply faults_try; [apply faults_bind_each; intros; apply faults_serve_tcp|]. intros ? ? ? ? _. apply faults_ok.
  - intros ? ? ? ? _. apply faults_ok.
Qed.
Lemma faults_install pre : faults (fun e => e) pre (install_crypto_provider (S := S) (C := C)).
Proof.
  intros s tr r s' (x & tr' & Hx & -> & -> & -> & _). destruct x as [u|m|]; [by apply Forall_singleton| |done].
  exists [], (Event InstallProvider (Err m)). split_and!; [done|constructor|done].
Qed.
Lemma faults_println pre line : faults Msg pre (println (S := S) (C := C) line).
Proof.
  intros s tr r s' (x & tr' & Hx & -> & -> & -> & _). destruct x as [u|m|]; [by apply Forall_singleton| |done].
  exists [], (Event (Println line) (Err m)). split_and!; [done|constructor|done].
Qed.
Lemma faults_generate pre path name : faults Msg pre (run_dnscrypt_generate_config (S := S) (C := C) path name).
Proof.
  unfold run_dnscrypt_generate_config, generate.
  apply reports_let; [done|]. intros signing _. apply reports_let; [done|]. intros secret _. cbn [io_bind].
  set (config := Build_ResolverConfig _ _ _). set (evs := pre ++ [Event (FillBytes 32) signing; Event (FillBytes 32) secret]).
  eapply reports_mono; [|apply (faults_try Msg evs)].
  - intros tr' e He. unfold evs in He. cbv beta in He. rewrite <- app_assoc in He. exact He.
  - apply faults_call; [done|done|intros r; apply answered_call].
  - intros ? ? ? ? _. do 3 (apply faults_try; [apply faults_println|]; intros ? ? ? ? _). apply faults_ok.
Qed.

(** C6: how [main] fails, whatever its calls answer: with an error only if its
    last call failed, all others having succeeded, and then with the report of
    that call; or if no call failed, for one of the faults of the command line
    and the files it names, with the text of that fault (no provider name, bad
    bootstrap address, no upstream, bad rule line, bad credential, zero cache
    size, missing or unusable certificate, key or DNSCrypt configuration); when
    it succeeds no call has failed; and it panics only at its last call, all
    others having succeeded, when that is the installation of the crypto
    provider, with one installed already, or one of the [println!]s of the
    configuration generator, with a standard output that fails. *)
Theorem main_errors s tr out s' :
  exec (main (C := C) debug_errs boot_cells alloc cursor_of args) s tr out s' ->
  match out with
  | Ok _ => went_well tr
  | Err e => stopped_at tr e \/ (went_well tr /\ fault tr e)
  | Panic => unwound_at tr
  end.
Proof.
  assert (faults (fun e => e) [] (main (C := C) debug_errs boot_cells alloc cursor_of args)) as Hm; [|intros Hx; exact (Hm _ _ _ _ Hx)].
  unfold main. destruct (dnscrypt_generate_config args) as [path|] eqn:Hg.
  - apply faults_pure; [apply ok_or_not_Panic| |].
    { intros e He. destruct (dnscrypt_provider_name args) eqn:Hn; [done|]. injection He as <-. by eapply no_provider_name. }
    intros name _. apply faults_try; [apply faults_map_err, faults_generate|]. intros ? ? ? ? _. apply faults_ok.
  - apply faults_try; [apply faults_install|]. intros ? ? ? ? _.
    apply faults_try; [apply faults_upstream_config|]. intros ? ? cfg ? _.
    apply faults_try; [apply faults_doh_credentials|]. intros ? ? creds ? _.
    apply faults_try; [apply faults_build_handler|]. intros ? ? h ? _.
    apply faults_try; [apply faults_map_err, faults_serve_all|]. intros ? ? plain ? _.
    apply faults_try; [apply faults_serve_secure|]. intros ? ? sec ? _.
    apply faults_try; [apply faults_serve_dnscrypt|]. intros ? ? dns ? _. apply faults_ok.
Qed.
End Faults.

Section Witnesses.
#[local] Existing Instances Toy.lib Toy.codec Toy.laws ToyBase64.base64 ToyWeb.web ToyCrypto.lib ToyTls.lib.
#[local] Instance e_lru : Lru CacheKey CacheEntry (ListLru.t CacheKey CacheEntry) := ListLru.lru key_eqb.

(** Another program has the port. *)
Definition refusing X (e : eff X) : X :=
  match e in eff X return X with
  | SocketBind _ _ => Err "address in use"
  | e => benign _ e
  end.
Lemma refusing_ok X (e : eff X) : eff_ok e (refusing X e).
Proof. pose proof (benign_ok X e). by destruct e. Qed.
Lemma main_errors_witness :
  exists tr s', exec w_main w_store tr (Err (Failed (IoError "address in use"))) s'
  /\ (stopped_at tr (Failed (IoError "address in use"))
      \/ (went_well tr /\ fault (fun _ => "") w_alloc w_alloc w_cursor w_args tr (Failed (IoError "address in use")))).
Proof.
  pose proof (run_trace_exec refusing w_main w_store refusing_ok) as H.
  assert (match (run_trace refusing w_main w_store).1.1 with Err (Failed (IoError m)) => String.eqb m "address in use" | _ => false end = true)
    as He by vm_refl.
  destruct (run_trace refusing w_main w_store) as [[[r|[m|[]]|] s'] tr]; try discriminate He.
  cbn in He, H. apply String.eqb_eq in He as ->.
  exists tr, s'. split; [exact H|].
  exact (main_errors (fun _ => "") w_alloc w_alloc w_cursor w_args w_store tr _ s' H).
Defined.
End Witnesses.
