(* ===== verification/Progress.v ===== *)
(** * Queries that are answered

    From the exchanges of [Delivery] up to the datagram a client gets: failover
    over a group of which some upstream is up, the handler with and without
    the cache, and the task of a UDP query. *)
From S2P Require Import Prelude RustStr RustNet Io Procs Dns Errors WebLib Wire Cache Framing.
From S2P Require Import Network CryptoLib Crypto Latency Upstream Delivery UpstreamUrl UpstreamConfig.
From S2P Require Import ListenerIo ListenerDnsCrypt ListenerDoh ListenerTls MainArgs Main Server.
From S2P Require Import Script Startup Program.
Implicit Type P : forall X, eff X -> Prop.

Section Failover.
Context {S : Type} `{HL : DnsLib} {HC : DnsCodec} {HB : Base64} {HW : WebLib} {HK : CryptoLib}.
Context (N : Servers) (HN : servers_ok N) (I : S -> Prop) (req : Message).
Implicit Types (t : TrackedUpstream S).

(** An upstream whose server is up and gives valid answers; one with no server
    that is up. *)
Definition good t : Prop :=
  exists a replied, serves N I req (upstream t) (Some a) replied
  /\ forall r, replied a r -> exists m, r = Ok m.
Definition dead t : Prop := exists replied, serves N I req (upstream t) None replied.
Definition answered_by t (m : Message) : Prop :=
  exists a replied, serves N I req (upstream t) (Some a) replied /\ replied a (Ok m).
Definition known t : Prop := (good t \/ dead t) /\ Doq.cell_free I (latency t).

Lemma good_delivers t w :
  good t -> Doq.cell_free I (latency t) ->
  delivers N I (tracked_exchange t req) (fun r _ => exists m, r = Ok m /\ answered_by t m) w.
Proof.
  intros (a & replied & Hs & Hr) Hl. eapply delivers_mono; [|by eapply tracked_serves].
  simpl. intros r w1 H. destruct (Hr r H) as [m ->]. exists m. split; [done|]. by exists a, replied.
Qed.
Lemma dead_delivers t w :
  dead t -> Doq.cell_free I (latency t) ->
  delivers N I (tracked_exchange t req) (fun r _ => exists e, r = Err e) w.
Proof. intros (replied & Hs) Hl. by eapply delivers_mono; [|by eapply tracked_serves]. Qed.

(** The first upstream that is up answers, after the dead ones before it. *)
Definition first_answer (us : list (TrackedUpstream S)) (m : Message) : Prop :=
  exists before t after, us = before ++ t :: after /\ Forall dead before /\ answered_by t m.
Lemma try_upstreams_delivers name us last w :
  Forall known us -> Exists good us ->
  delivers N I (try_upstreams name req us last) (fun r _ => exists m, r = Ok m /\ first_answer us m) w.
Proof.
  intros Hus. revert last w. induction Hus as [|t us [Ht Hl] Hus IH]; intros last w Hex; [by inversion Hex|].
  cbn [try_upstreams]. apply delivers_bind.
  assert (good t \/ (dead t /\ Exists good us)) as [Hg|[Hd Hex']] by (inversion Hex; naive_solver).
  - eapply delivers_mono; [|by apply good_delivers]. intros r w1 (m & -> & Hm). simpl.
    exists m. split; [done|]. by exists [], t, us.
  - eapply delivers_mono; [|by apply dead_delivers]. intros r w1 [e ->].
    eapply delivers_mono; [|by apply IH]. intros r w2 (m & -> & before & t' & after & -> & Hb & Hm).
    exists m. split; [done|]. exists (t :: before), t', after. split; [done|]. split; [by constructor|done].
Qed.
Lemma try_upstreams_dead name us last w :
  Forall (fun t => dead t /\ Doq.cell_free I (latency t)) us ->
  delivers N I (try_upstreams name req us last) (fun r _ => exists e, r = Err e) w.
Proof.
  intros Hus. revert last w. induction Hus as [|t us [Ht Hl] Hus IH]; intros last w; [by eexists|].
  cbn [try_upstreams]. apply delivers_bind. eapply delivers_mono; [|by apply dead_delivers].
  intros r w1 [e ->]. apply IH.
Qed.

(** The order a group is tried in. *)
Definition tried_order (cfg : UpstreamConfig S) (us : list (TrackedUpstream S)) : Prop :=
  let g := group_for cfg (request_name req) in
  us ≡ₚ upstreams g /\ (mode cfg = Ordered -> us = upstreams g).
Lemma upstreams_for_delivers (cfg : UpstreamConfig S) w :
  Doq.cell_free I (round_robin_cursor (group_for cfg (request_name req))) ->
  delivers N I (upstreams_for cfg (request_name req))
    (fun r _ => match r with
                | Ok us => tried_order cfg us | Err _ => False | Panic => mode cfg = LoadBalance
                end) w.
Proof.
  intros Hc. unfold upstreams_for, tried_order. destruct (mode cfg) eqn:Em.
  - simpl. split; [by apply Permutation_refl|done].
  - eapply delivers_mono; [|apply delivers_any; [done|by apply (ordered_safe any_call)]].
    intros [us|e|] w1 Hr; [by split|done|done].
  - eapply delivers_mono; [|apply delivers_any; [done|by apply (ordered_safe any_call)]].
    intros [us|e|] w1 Hr; [by split|done|done].
Qed.

(** The group a query is routed to, when every upstream of it is up or down
    and one is up. *)
Definition group_up (cfg : UpstreamConfig S) : Prop :=
  let g := group_for cfg (request_name req) in
  Doq.cell_free I (round_robin_cursor g) /\ Forall known (upstreams g) /\ Exists good (upstreams g).
Definition fresh_answer (cfg : UpstreamConfig S) (r : res Message DohError) : Prop :=
  exists us m, tried_order cfg us /\ first_answer us m /\ r = Ok m.
(** With load balancing, the sort may unwind when averages change under it. *)
Definition answer_or_unwinds (cfg : UpstreamConfig S) (r : res Message DohError) : Prop :=
  fresh_answer cfg r \/ (r = Panic /\ mode cfg = LoadBalance).

Lemma tried_delivers cfg us w :
  group_up cfg -> tried_order cfg us ->
  delivers N I (try_upstreams (request_name req) req us None) (fun r _ => fresh_answer cfg r) w.
Proof.
  intros (_ & Hk & Hg) Hus. eapply delivers_mono; [|apply try_upstreams_delivers].
  - intros r w2 (m & -> & Hm). by exists us, m.
  - by rewrite (proj1 Hus).
  - destruct Hus as [Hp _]. apply list.Exists_exists in Hg as (t & Ht & Hg).
    apply list.Exists_exists. exists t. split; [by rewrite Hp|done].
Qed.
Lemma exchange_delivers cfg w :
  group_up cfg -> delivers N I (exchange cfg req) (fun r _ => answer_or_unwinds cfg r) w.
Proof.
  intros Hup. unfold exchange. apply delivers_try.
  eapply delivers_mono; [|apply upstreams_for_delivers, Hup]. intros [us|e|] w1 Hus; [|done|by right].
  eapply delivers_mono; [|by apply tried_delivers]. intros r w2 Hr. by left.
Qed.
(** Alone, the averages do not change, and the sort does not unwind. *)
Lemma exchange_reaches cfg w s :
  group_up cfg -> I s -> reaches N (exchange cfg req) (fun r _ s' => fresh_answer cfg r /\ I s') w s.
Proof.
  intros Hup HI. unfold exchange. apply reaches_try.
  eapply reaches_mono; [|apply (reaches_wp N any_call); [done|by apply wp_ordered|]].
  2: by apply (delivers_reaches N I); [done|apply upstreams_for_delivers, Hup|].
  simpl. intros r w1 s1 ((us & -> & _) & Hus & HI1). exists us. split; [done|].
  by apply delivers_reaches; [|by apply tried_delivers|].
Qed.

(** C9: liveness of the forwarding: on a network whose clock does not outrun the
    time-outs, in any interleaving with other tasks that keep the invariant, a
    query routed to a group of which every upstream has a server that gives
    valid answers or none at all, and at least one has one, is answered: the
    answer is the decoded reply of the first upstream, in the order tried,
    whose server is up. In the load-balancing mode alone there is another
    outcome: the sort unwinds, as it may when other tasks change the averages
    it compares. From any state that meets the invariant a run that answers
    exists in every mode. *)
Theorem config_answers (cfg : UpstreamConfig S) w :
  group_up cfg ->
  delivers N I (UpstreamConfig.into_handler cfg req)
    (fun r _ => fresh_answer cfg r \/ (r = Panic /\ mode cfg = LoadBalance)) w
  /\ forall s, I s -> exists tr r s',
       exec (UpstreamConfig.into_handler cfg req) s tr r s' /\ I s' /\ fresh_answer cfg r.
Proof.
  intros Hup. split; [by apply exchange_delivers|]. intros s HI.
  destruct (reaches_exec N _ _ w s HN (exchange_reaches cfg w s Hup HI)) as (tr & r & s' & w' & Hx & [Hr HI'] & _).
  by exists tr, r, s'.
Qed.
End Failover.

(** ** From the handler to the client *)
Section Clients.
Context {S C : Type} `{HL : DnsLib} {HC : DnsCodec} {HB : Base64} {HW : WebLib} {HK : CryptoLib}.
Context {HT : TlsLib} {HLru : Lru CacheKey CacheEntry C} {HLaws : LruLaws key_eqb} {HD : DnsLaws}.
Context (debug_errs : list DohError -> string) (boot_cells alloc : nat -> Cells S).
Context (cursor_of : option string -> cell S Z).
Context (N : Servers) (HN : servers_ok N) (J : S -> Prop).
Notation store := (Store (S := S) (C := C)).

(** Without the cache the answer is an upstream's; with it, it may be a
    cached one. *)
Definition answer_of (args : Args) (cfg : UpstreamConfig S) (req m : Message) : Prop :=
  arg_cache args = false -> fresh_answer N J req cfg (Ok m).
Lemma handler_delivers args (cfg : UpstreamConfig S) h req w :
  handler_made args cfg h -> group_up N J req cfg ->
  delivers N (fun s : store => J s.2) (h req)
    (fun r _ => match r with
                | Ok m => answer_of args cfg req m | Err _ => False | Panic => mode cfg = LoadBalance
                end) w.
Proof.
  intros Hb Hup.
  assert (forall w', delivers N (fun s : store => J s.2)
            (zoom snd (fun t s => (s.1, t)) (UpstreamConfig.into_handler cfg req))
            (fun r _ => answer_or_unwinds N J req cfg r) w') as Hin.
  { intros w'. apply (delivers_zoom N J); [done|done|]. by apply exchange_delivers. }
  assert (forall r, answer_or_unwinds N J req cfg r -> match r with
      | Ok m => answer_of args cfg req m | Err _ => False | Panic => mode cfg = LoadBalance end) as Hout.
  { intros r [(us & m & Hus & Hm & ->)|[-> Hm]]; [|done]. intros _. by exists us, m. }
  unfold handler_made in Hb. destruct (arg_cache args) eqn:Ha.
  - destruct Hb as (_ & ->). unfold cached, Cache.into_handler, answer_of. rewrite Ha.
    destruct (cache_key req) as [key|]; cbn [negb].
    + apply delivers_bind_call. intros now w1 _ s1 HJ. destruct (get _ _ _ _) as [hit c]. split; [done|].
      cbn [delivers io_bind fst]. destruct hit as [resp|]; [done|].
      apply delivers_try. eapply delivers_mono; [|apply Hin].
      intros r w2 [(us & m & _ & _ & ->)|[-> Hm]]; [|done]. by intros now2 w3 _ s2 HJ2.
    + eapply delivers_mono; [|apply Hin]. by intros r w1 [(us & m & _ & _ & ->)|[-> Hm]].
  - rewrite Hb. eapply delivers_mono; [|apply Hin]. intros r w1. by apply Hout.
Qed.
Lemma handler_reaches args (cfg : UpstreamConfig S) h req w (s : store) :
  handler_made args cfg h -> group_up N J req cfg -> J s.2 ->
  reaches N (h req) (fun r _ s' => (exists m, r = Ok m /\ answer_of args cfg req m) /\ J s'.2) w s.
Proof.
  intros Hb Hup HJ.
  assert (forall w' (s' : store), J s'.2 -> reaches N
            (zoom snd (fun t s => (s.1, t)) (UpstreamConfig.into_handler cfg req))
            (fun r _ s'' => (exists m, r = Ok m /\ fresh_answer N J req cfg (Ok m)) /\ J s''.2) w' s') as Hin.
  { intros w' s' HJ'. apply reaches_zoom; [done|done|by intros []|].
    eapply reaches_mono; [|by apply exchange_reaches].
    intros r w1 s1 [(us & m & Hus & Hm & ->) HJ1]. split; [|done]. exists m. split; [done|]. by exists us, m. }
  unfold handler_made in Hb. unfold answer_of. destruct (arg_cache args) eqn:Ha.
  - destruct Hb as (_ & ->). unfold cached, Cache.into_handler.
    destruct (cache_key req) as [key|]; cbn [negb].
    + pose proof (clock_window _ HN). exists (clock_lo N), w. split; [split; [lia|done]|].
      cbn [reaches io_bind atomically]. destruct (get s.1 key (msg_id req) (clock_lo N)) as [hit c]. cbn [fst snd].
      destruct hit as [resp|]; [by split; [exists resp|]|]. apply reaches_try.
      eapply reaches_mono; [|by apply Hin]. intros r w2 s2 [(m & -> & _) HJ2]. exists m. split; [done|].
      exists (clock_lo N), w2. split; [split; [lia|done]|]. split; [by exists m|done].
    + eapply reaches_mono; [|by apply Hin]. intros r w1 s1 [(m & -> & _) ?]. split; [by exists m|done].
  - rewrite Hb. eapply reaches_mono; [|by apply Hin]. intros r w1 s1 [(m & -> & ?) ?]. split; [by exists m|done].
Qed.

(** What leaves for a message: its datagram, if it packs (truncated past 512
    bytes), or nothing. *)
Definition sent (socket : handle) (peer : SocketAddr) (m : Message)
    (out : list (handle * bytes * SocketAddr)) : Prop :=
  (exists b, datagram m b /\ out = [(socket, b, peer)]) \/ ((forall b, ~ datagram m b) /\ out = []).
Definition send_answer (socket : handle) (peer : SocketAddr) (m : Message) : io store (res unit DohError) :=
  try* bytes := IoRet (from_sum Pack (to_bytes m)) in
  try* bytes :=
    if (UDP_MAX_MSG_SIZE <? length bytes)%nat
    then IoRet (from_sum Pack (to_bytes (truncate m)))
    else IoRet (Ok bytes) in
  try* _ := io_map_err IoError (call (UdpSendTo socket bytes peer)) in
  IoRet (Ok tt).
Lemma send_answer_delivers (I : store -> Prop) socket peer m w :
  delivers N I (send_answer socket peer m)
    (fun r w' => r <> Panic /\ exists out, sent socket peer m out /\ replies w' = replies w ++ out) w.
Proof.
  unfold send_answer, sent, datagram. destruct (to_bytes m) as [e|b]; cbn [io_try io_bind from_sum].
  { split; [done|]. exists []. rewrite app_nil_r. split; [|done]. right. split; [|done]. by intros b (full & ? & _). }
  destruct (UDP_MAX_MSG_SIZE <? length b)%nat eqn:El.
  - destruct (to_bytes (truncate m)) as [e|bt] eqn:Et; cbn [io_try io_bind from_sum].
    + split; [done|]. exists []. rewrite app_nil_r. split; [|done]. right. split; [|done].
      intros b' (full & [= <-] & H). by rewrite El in H.
    + intros r w2 [-> ->]. split; [done|]. exists [(socket, bt, peer)]. split; [|done]. left. exists bt.
      split; [|done]. exists b. split; [done|]. by rewrite El.
  - intros r w2 [-> ->]. split; [done|]. exists [(socket, b, peer)]. split; [|done]. left. exists b.
    split; [|done]. exists b. split; [done|]. by rewrite El.
Qed.

(** What answers a query on [socket] from [peer]: a message, which leaves as a
    datagram to the peer. *)
Definition answered_with (args : Args) (cfg : UpstreamConfig S) (socket : handle) (peer : SocketAddr) (req : Message)
    (out : list (handle * bytes * SocketAddr)) : Prop :=
  exists m, right_question req m /\ answer_of args cfg req m /\ sent socket peer m out.
(** How the task of the query ends. *)
Definition query_ends (args : Args) (cfg : UpstreamConfig S) (socket : handle) (peer : SocketAddr) (req : Message)
    {Q} (n : next Q) (out : list (handle * bytes * SocketAddr)) : Prop :=
  match n with
  | Break => answered_with args cfg socket peer req out
  | Unwound => mode cfg = LoadBalance /\ out = []
  | _ => False
  end.

Section Query.
Context (args : Args) (K : S -> Prop) (cfg : UpstreamConfig S) (h : Handler store) (creds : Credentials).
Context (Hmade : handler_made args cfg h).
Context (Hsafe : forall req, safe no_reply (store_inv args K) (h req) (proxy_done req)).
Context (socket : handle) (packet : bytes) (peer : SocketAddr) (req : Message).
Context (Hreq : from_bytes packet = inr req) (Hup : group_up N J req cfg).
Notation task := (turn h creds (UdpQuery socket packet peer)).

Lemma udp_query_delivers w :
  delivers N (fun s : store => J s.2 /\ store_inv args K s) task
    (fun nx w' => exists out, query_ends args cfg socket peer req nx out /\ replies w' = replies w ++ out) w.
Proof using HN Hmade Hsafe Hreq Hup.
  unfold turn, run_task, ListenerIo.handle_udp_packet. apply delivers_bind.
  eapply delivers_try_sum; [exact Hreq|]. apply delivers_try.
  eapply delivers_mono; [|eapply (delivers_safe N no_reply); [done| |apply Hsafe|by apply handler_delivers]].
  - intros r w1 (Hdone & Hr & <-). destruct r as [m|e|]; [|done|].
    + eapply delivers_mono; [|apply (send_answer_delivers _ socket peer m)].
      intros r w2 (Hnp & out & Hs & Hw). exists out. split; [|done].
      destruct r; [|..|done]; by exists m.
    + exists []. by rewrite app_nil_r.
  - by intros h0 b a [].
Qed.
Lemma udp_query_reaches w (s : store) :
  J s.2 -> store_inv args K s ->
  reaches N task
    (fun nx w' _ => nx = Break /\ exists out, answered_with args cfg socket peer req out
                    /\ replies w' = replies w ++ out) w s.
Proof using HN Hmade Hsafe Hreq Hup.
  intros HJ Hinv. unfold turn, run_task, ListenerIo.handle_udp_packet. apply reaches_bind. rewrite Hreq.
  cbn [from_sum]. change (io_try (IoRet (Ok req)) ?k) with (k req). cbv beta. apply reaches_try.
  eapply reaches_mono; [|eapply (reaches_safe N no_reply); [done| |apply Hsafe|exact Hinv|by apply handler_reaches]].
  - intros r w1 s1 (Hdone & _ & ((m & -> & Hm) & _) & <-). exists m. split; [done|].
    eapply reaches_mono; [|by eapply (delivers_reaches N (fun _ => True)); [|apply (send_answer_delivers _ socket peer m)|]].
    intros r w2 s2 [(Hnp & out & Hs & Hw) _]. split; [by destruct r|]. exists out. split; [|done]. by exists m.
  - by intros h0 b a [].
Qed.
End Query.

(** C2: liveness of the program, from its first step: on a network whose clock
    does not outrun the time-outs, every query received on a plain UDP socket,
    at whatever moment, and routed to a group of which some upstream is up and
    the others are up or down, of whatever transports, is answered: its task,
    whatever others do meanwhile with a store they keep in order, ends
    normally, having sent the peer exactly one datagram, which carries
    (truncated past 512 bytes) a message with the query's question, and without
    the cache the reply of the first upstream that is up; only a message that
    cannot be packed leaves nothing. In the load-balancing mode alone the task
    may also unwind, sending nothing, when averages change under its sort.
    From the state the program is in, when the connections, clients and
    certificates cached at that moment belong to their servers, a run that
    answers exists in every mode. *)
Theorem program_answers args (K : S -> Prop) s tr c i ctx socket packet peer req :
  store_ok boot_cells alloc cursor_of K -> initial args K s ->
  program_runs (C := C) debug_errs boot_cells alloc cursor_of args s tr c ->
  let t := Build_task ctx (UdpQuery socket packet peer) in
  c.2 !! i = Some (start program_turn (inr t)) -> from_bytes packet = inr req ->
  exists cfg, configured debug_errs boot_cells alloc cursor_of args tr cfg /\
  (group_up N J req cfg ->
     (forall w, delivers N (fun s : store => J s.2 /\ store_inv args K s) (task_turn t)
        (fun nx w' => exists out, query_ends args cfg socket peer req nx out /\ replies w' = replies w ++ out) w)
     /\ (J c.1.2 -> exists tr' s', answered_with args cfg socket peer req (datagrams_sent tr')
        /\ program_runs (C := C) debug_errs boot_cells alloc cursor_of args s (tr ++ tr')
             (s', <[i := (inr t, IoRet Break)]> c.2))).
Proof.
  intros Hstore Hinit Hrun t Hi Hreq.
  destruct (program_known _ _ _ _ _ _ _ _ _ Hstore Hinit Hrun) as [Hinv Hknown].
  destruct (Hknown _ _ _ Hi) as [Hctx _]. pose proof Hctx as (cfg & Hcfg & Hh & _).
  exists cfg. split; [done|]. intros Hup.
  assert (forall req, safe no_reply (store_inv args K) (shared_handler ctx req) (proxy_done req)) as Hsafe
    by (eapply shared_handler_safe; [done|exact (proj2 Hinit)|exact Hctx]).
  split.
  - intros w. apply delivers_bind. eapply delivers_mono; [|exact (udp_query_delivers args K cfg _ _ Hh Hsafe _ _ _ _ Hreq Hup w)].
    intros nx w' (out & Hn & Hw). exists out. split; [|done]. by destruct nx.
  - intros HJ. destruct c as [s1 ps].
    destruct (reaches_exec N (task_turn t) (fun nx w' _ => nx = Break /\ exists out,
        answered_with args cfg socket peer req out /\ replies w' = out)
      {| udp_peer := ∅; inbox := ∅; outbox := ∅; replies := [] |} s1 HN)
      as (tr' & nx & s' & w' & Hx & (-> & out & Ha & Hw) & Hw').
    { apply reaches_bind. eapply reaches_mono; [|exact (udp_query_reaches args K cfg _ (shared_credentials ctx) Hh Hsafe socket _ peer _ Hreq Hup _ _ HJ Hinv)].
      intros nx w' s' (-> & out & Ha & Hw). split; [done|]. by exists out. }
    exists tr', s'. split; [rewrite <- Hw, Hw' in Ha; exact Ha|].
    exact (exec_proc program_turn i _ _ _ _ _ _ _ ps _ _ Hx Hi Hrun).
Qed.
End Clients.

Section Witnesses.
#[local] Existing Instances Toy.lib Toy.codec Toy.laws ToyBase64.base64 ToyWeb.web ToyCrypto.lib ToyTls.lib.
#[local] Instance s_lru : Lru CacheKey CacheEntry (ListLru.t CacheKey CacheEntry) := ListLru.lru key_eqb.
#[local] Instance s_lru_laws : LruLaws key_eqb := ListLru.laws key_eqb.

(** A plain UDP upstream whose server is up, and one whose server is down. *)
Lemma w_good {S} a reply m (t : TrackedUpstream S) u I req b :
  upstream t = UPlainUdp u -> PlainUdp.addr u = a -> patient (w_servers a reply []) (PlainUdp.timeout u) ->
  to_bytes req = inr b -> check_response reply req = Ok m -> good (w_servers a reply []) I req t.
Proof.
  intros Ht Ha Hp Hb Hm. exists a, (plain_exchange (reply_udp (w_servers a reply [])) req b). split.
  - rewrite Ht. pose proof (serves_udp (w_servers a reply []) I req u b Hp Hb) as H.
    unfold up in H. rewrite Ha in H. simpl in H. by rewrite bool_decide_true in H.
  - intros r ->. by exists m.
Qed.
Lemma w_dead {S} a reply (t : TrackedUpstream S) u I req b :
  upstream t = UPlainUdp u -> PlainUdp.addr u <> a -> patient (w_servers a reply []) (PlainUdp.timeout u) ->
  to_bytes req = inr b -> dead (w_servers a reply []) I req t.
Proof.
  intros Ht Ha Hp Hb. exists (plain_exchange (reply_udp (w_servers a reply [])) req b).
  rewrite Ht. pose proof (serves_udp (w_servers a reply []) I req u b Hp Hb) as H.
  unfold up in H. simpl in H. by rewrite bool_decide_false in H.
Qed.

(** The first upstream tried may be down; the second one of three is up. *)
Definition w_reply : bytes := Toy.encode (Toy.reply UpstreamConfig.w_req 60).
Definition w_here : SocketAddr := SockV4 (Ipv4 x7f x00 x00 x01) 54.
Definition w_balanced : UpstreamConfig Z :=
  {| domain_upstreams := ∅; default_upstreams := w_group; mode := LoadBalance |}.
Lemma config_answers_witness :
  delivers (w_servers w_here w_reply []) (fun _ => True) (UpstreamConfig.into_handler w_balanced UpstreamConfig.w_req)
    (fun r _ => fresh_answer (w_servers w_here w_reply []) (fun _ => True) UpstreamConfig.w_req w_balanced r
                \/ (r = Panic /\ mode w_balanced = LoadBalance)) w_net
  /\ exists tr r s', exec (UpstreamConfig.into_handler w_balanced UpstreamConfig.w_req) 0 tr r s'
       /\ fresh_answer (w_servers w_here w_reply []) (fun _ => True) UpstreamConfig.w_req w_balanced r.
Proof.
  destruct (config_answers (w_servers w_here w_reply [])
    (w_servers_ok w_here w_reply [] ltac:(done) ltac:(vm_compute; discriminate) ltac:(done))
    (fun _ => True) UpstreamConfig.w_req w_balanced w_net) as [Hd Hr].
  - assert (good (w_servers w_here w_reply []) (fun _ => True) UpstreamConfig.w_req UpstreamConfig.w_fast) as Hg
      by (eapply (w_good _ _ (Toy.reply UpstreamConfig.w_req 60)); [reflexivity|reflexivity|done|reflexivity|vm_refl]).
    split; [done|]. change (upstreams _) with [UpstreamConfig.w_slow; UpstreamConfig.w_new; UpstreamConfig.w_fast]. split.
    + apply list.Forall_cons; split; [|apply list.Forall_cons; split; [|apply Forall_singleton; by split; [left|]]].
      * split; [right|done]. by eapply (w_dead _ _ _ _ _ _ (Toy.encode UpstreamConfig.w_req)); [reflexivity|..].
      * split; [right|done]. by eapply (w_dead _ _ _ _ _ _ (Toy.encode UpstreamConfig.w_req)); [reflexivity|..].
    + by apply Exists_cons_tl, Exists_cons_tl, Exists_cons_hd.
  - split; [exact Hd|]. destruct (Hr 0 Logic.I) as (tr & r & s' & Hx & _ & Hf). exists tr, r, s'. split; [exact Hx|exact Hf].
Defined.

(** A proxy with one DoQ upstream, whose server is up; its cell is the store of
    the upstreams, and holds only connections to the server. *)
Notation lru := (ListLru.t CacheKey CacheEntry).
Definition q_args : Args := w_args_for "quic://192.0.2.1".
Definition q_none {T} : cell (option handle) (option T) := Cell (fun _ => None) (fun _ s => s).
Definition q_cells : Cells (option handle) :=
  {| doh_cells := {| Doh.new_client := q_none; Doh.new_h3 := q_none; Doh.new_prefer_h3 := q_none;
                     Doh.new_transports := Cell (fun _ => []) (fun _ s => s) |};
     doq_conn := whole; dnscrypt_cert := q_none;
     tracker := Cell (fun _ => latency_new) (fun _ s => s) |}.
Definition q_alloc (n : nat) : Cells (option handle) := q_cells.
Definition q_cursor (key : option string) : cell (option handle) Z := Cell (fun _ => 0) (fun _ s => s).
Definition q_up : SocketAddr := SockV4 (Ipv4 xc0 x00 x02 x01) 853.
Definition q_query : @Message Toy.lib := Toy.query 7 "example.com." 1.
Definition q_world : Servers := w_servers q_up [] (Toy.encode (Toy.reply (set_id q_query 0) 60)).
Definition q_inv (s : option handle) : Prop := leads_to q_world (Some q_up) s.
Definition q_first : Store (S := option handle) (C := lru) := (cache_new (cache_options q_args), None).
Definition q_main : io (Store (S := option handle) (C := lru)) (res (option Running) MainError) :=
  main (fun _ => "") q_alloc q_alloc q_cursor q_args.
Definition q_trace : list event := (run_trace benign q_main q_first).2.
Lemma q_world_ok : servers_ok q_world.
Proof. apply w_servers_ok; [done|done|vm_compute; discriminate]. Qed.
Lemma q_store_ok : store_ok q_alloc q_alloc q_cursor (fun _ : option handle => True).
Proof.
  assert (forall n, cells_ok (fun _ : option handle => True) (q_alloc n)) as H by (intros n; split_and!; try done;
    [intros u _ H3 _ _; split_and!; [done..|]; intros s _ x; by rewrite H3
    |intros u Hu; split; [|done]; intros s _; unfold DnsCrypt.cert_inv; by rewrite Hu]).
  by split_and!.
Qed.
Lemma q_boots : exists r s', exec q_main q_first q_trace (Ok (Some r)) s'
  /\ boot r = [UdpLoop 1%nat; TcpLoop 1%nat] /\ s'.2 = None.
Proof.
  pose proof (run_trace_exec benign q_main q_first benign_ok) as H.
  assert (match (run_trace benign q_main q_first).1.1 with
          | Ok (Some r) => bool_decide (plain r = [(1%nat, 1%nat)] /\ doq (secure r) = []
              /\ dot (secure r) = [] /\ doh (secure r) = [] /\ doh3 (secure r) = [])
              && match (dnscrypt r).1 with None => true | _ => false end
              && negb (is_some (run_trace benign q_main q_first).1.2.2)
          | _ => false end = true) as Hok by vm_refl.
  unfold q_trace. destruct (run_trace benign q_main q_first) as [[[[r|]| |] s'] tr]; try discriminate Hok.
  exists r, s'. split; [exact H|]. cbn in Hok. apply andb_true_iff in Hok as [[Hp Hd]%andb_true_iff Hs].
  split; [|by destruct (s'.2)].
  apply bool_decide_eq_true in Hp as (H1 & H2 & H3 & H4 & H5). unfold boot. rewrite H1, H2, H3, H4, H5.
  destruct (dnscrypt r) as [[c|] [u t]]; [discriminate Hd|reflexivity].
Qed.

(** The configuration [main] makes of the arguments. *)
Definition says_file (ev : event) : bool :=
  match ev with
  | Event e x =>
      match e in eff X return X -> bool with FsIsFile _ => fun b => b | _ => fun _ => false end x
  end.
Lemma w_no_files tr arg : existsb says_file tr = false -> Event (FsIsFile arg) true ∉ tr.
Proof.
  intros H' Hin%list_elem_of_In.
  pose proof (proj2 (existsb_exists says_file tr) (ex_intro _ _ (conj Hin eq_refl))) as H.
  exact (eq_true_false_abs _ H H').
Qed.
Definition q_upstream : Doq.DoqUpstream (option handle) :=
  {| Doq.host := "192.0.2.1"; Doq.port := 853; Doq.addr_redacted := "quic://192.0.2.1:853";
     Doq.resolver := Bootstrap.SystemResolver; Doq.prefer_ipv6 := false; Doq.timeout := Some 10000000000;
     Doq.insecure_skip_verify := false; Doq.conn := whole |}.
Definition q_tracked : TrackedUpstream (option handle) :=
  {| upstream := UDoq q_upstream; latency := tracker q_cells |}.
Definition q_group : UpstreamGroup (option handle) :=
  {| upstreams := [q_tracked]; round_robin_cursor := q_cursor None |}.
Lemma q_configured tr cfg :
  existsb says_file tr = false ->
  configured (fun _ => "") q_alloc q_alloc q_cursor q_args tr cfg ->
  group_for cfg (request_name q_query) = q_group.
Proof.
  intros Htr (boot & ls & [= <-] & (f & ts & Hf & Ht & ->) & Hp). destruct f as [f|]; [done|].
  inversion Ht as [|arg text args texts [[_ ->]|[Hfile _]] Hn]; simplify_eq/=; [|by destruct (w_no_files _ _ Htr Hfile)].
  inversion Hn; subst. revert Hp.
  assert (forall r, r = parse_with_mode q_alloc q_cursor (base_options q_args None) ["quic://192.0.2.1"] Ordered ->
            match r with Ok c => group_for c (request_name q_query) = q_group | _ => False end) as H
    by (intros r ->; vm_compute; reflexivity).
  intros Hp. specialize (H _ (eq_sym Hp)). exact H.
Qed.
Lemma q_group_up cfg :
  group_for cfg (request_name q_query) = q_group -> group_up q_world q_inv q_query cfg.
Proof.
  intros Hg0. unfold group_up. rewrite Hg0. split; [intros v s Hs; exact Hs|].
  assert (good q_world q_inv q_query q_tracked) as Hg.
  { exists q_up, (unzeroed_reply q_world q_query (Toy.encode (set_id q_query 0))). split.
    - apply (serves_doq q_world q_inv q_query q_upstream (Toy.encode (set_id q_query 0)) [q_up]).
      + by intros d [= <-].
      + split; [reflexivity|]. split; [vm_refl|discriminate].
      + split; [done|]. apply (resolves_literal q_world q_inv "192.0.2.1" 853 _ _ false
          (V4 (Ipv4 xc0 x00 x02 x01))). vm_refl.
      + by split; [intros s|intros v s].
    - intros r Hr. exists (Toy.reply q_query 60). cbv [unzeroed_reply] in Hr. rewrite Hr. vm_refl. }
  split; [apply list.Forall_singleton; split; [by left|intros v s Hs; exact Hs]|by apply Exists_cons_hd].
Qed.

(** The program receives a query just after it has started; it is answered
    over a new QUIC connection. *)
Lemma program_answers_witness :
  exists tr s' ps b,
    program_runs (fun _ => "") q_alloc q_alloc q_cursor q_args q_first
      ((q_trace ++ [Event (RecvFrom 1%nat (Z.to_nat 65535)) (Ok (Toy.encode q_query, p_peer))]) ++ tr) (s', ps)
    /\ datagrams_sent tr = [(1%nat, b, p_peer)].
Proof.
  destruct q_boots as (r & s0 & Hx & Hb & Hs0).
  destruct (packet_arrives q_alloc q_cursor q_args q_first _ r s0 (Toy.encode q_query) p_peer Hx Hb)
    as (ctx & c & Hrun & Hc & _ & Hi).
  { apply Nat2Z.inj_le. rewrite Z2Nat.id by lia. vm_compute. discriminate. }
  destruct (program_answers (fun _ => "") q_alloc q_alloc q_cursor q_world q_world_ok q_inv q_args
    (fun _ => True) q_first _ c 3%nat ctx 1%nat (Toy.encode q_query) p_peer q_query
    q_store_ok ltac:(by split) Hrun Hi ltac:(vm_refl)) as (cfg & Hcfg & Hans).
  destruct Hans as (_ & Hans).
  { apply q_group_up. eapply q_configured; [|exact Hcfg]. vm_refl. }
  destruct Hans as (tr & s' & (m & _ & _ & Hs) & Hr); [rewrite Hc, Hs0; by intros h [=]|].
  destruct Hs as [(b & _ & Hs)|[Hno _]].
  - eexists tr, s', _, b. split; [exact Hr|exact Hs].
  - destruct (UDP_MAX_MSG_SIZE <? length (Toy.encode m))%nat eqn:El;
      [destruct (Hno (Toy.encode (truncate m)))|destruct (Hno (Toy.encode m))];
      exists (Toy.encode m); (split; [reflexivity|]); rewrite El; reflexivity.
Defined.
End Witnesses.
