(* ===== verification/Loopback.v ===== *)
(** * The loopback interface

    An executable environment for the tests of the repository: what the calls
    of several tasks of one machine answer when they talk to each other over
    127.0.0.1. A call may have to wait ([None]) until another task has moved.
    [sched] runs a system of tasks on it, always the first task that can move;
    [sched_exec] says that what it computes is a run of the system ([sys_exec]
    of [Procs.v]), so that whatever is proved of every run holds of it. *)
From S2P Require Import Prelude RustStr RustNet Io Procs.

(** ** The machine *)

(** One end of a connection or stream: the handle of the other end, what has
    arrived and not been read, whether this end will write no more, the streams
    of a connection not accepted yet, and the request or response on its way
    here. *)
Record End := {
  other : handle;
  unread : bytes;
  finished : bool;
  waiting : list handle;
  asked : list (HttpServerRequest * handle);
  replied : option (Z * bytes);
}.
Definition new_end (h : handle) : End :=
  {| other := h; unread := []; finished := false; waiting := []; asked := []; replied := None |}.
Definition set_unread (b : bytes) (e : End) : End :=
  {| other := other e; unread := b; finished := finished e; waiting := waiting e; asked := asked e;
     replied := replied e |}.
Definition set_finished (e : End) : End :=
  {| other := other e; unread := unread e; finished := true; waiting := waiting e; asked := asked e;
     replied := replied e |}.
Definition set_waiting (hs : list handle) (e : End) : End :=
  {| other := other e; unread := unread e; finished := finished e; waiting := hs; asked := asked e;
     replied := replied e |}.
Definition set_asked (rs : list (HttpServerRequest * handle)) (e : End) : End :=
  {| other := other e; unread := unread e; finished := finished e; waiting := waiting e; asked := rs;
     replied := replied e |}.
Definition set_replied (r : option (Z * bytes)) (e : End) : End :=
  {| other := other e; unread := unread e; finished := finished e; waiting := waiting e; asked := asked e;
     replied := r |}.

Inductive object :=
| OFresh (stream : bool)
| OUdp (local : SocketAddr) (remote : option SocketAddr) (arrived : list (bytes * SocketAddr))
| OTcp (local : SocketAddr)
| OListener (local : SocketAddr) (backlog : list handle)
| OEndpoint (local : string) (backlog : list handle)
| OEnd (e : End)
| OClient (c : HttpsConnector) (conn : option handle) (busy : bool).

(** [hung_up] is set when all tasks wait: those who read from a stream then
    learn that nothing more will come. *)
Record Machine := {
  objects : gmap handle object;
  fresh : handle;
  hung_up : bool;
  files : gmap string string;
  printed : list string;
}.
Definition switched_on : Machine :=
  {| objects := ∅; fresh := 1%nat; hung_up := false; files := ∅; printed := [] |}.
Definition put (h : handle) (o : object) (w : Machine) : Machine :=
  {| objects := <[h := o]> (objects w); fresh := fresh w; hung_up := hung_up w; files := files w;
     printed := printed w |}.
Definition alloc (o : object) (w : Machine) : Machine :=
  {| objects := <[fresh w := o]> (objects w); fresh := Datatypes.S (fresh w); hung_up := hung_up w;
     files := files w; printed := printed w |}.
Definition write_file (path text : string) (w : Machine) : Machine :=
  {| objects := objects w; fresh := fresh w; hung_up := hung_up w; files := <[path := text]> (files w);
     printed := printed w |}.
Definition print (line : string) (w : Machine) : Machine :=
  {| objects := objects w; fresh := fresh w; hung_up := hung_up w; files := files w;
     printed := printed w ++ [line] |}.
Definition hang_up (w : Machine) : Machine :=
  {| objects := objects w; fresh := fresh w; hung_up := true; files := files w; printed := printed w |}.

(** An address asked for with port 0 gets one of its own. *)
Definition localhost : Ipv4Addr := Ipv4 x7f x00 x00 x01.
Definition local_port (h : handle) : SocketAddr := SockV4 localhost (49152 + Z.of_nat h).

Definition end_of (h : handle) (w : Machine) : option End :=
  match objects w !! h with Some (OEnd e) => Some e | _ => None end.
Definition on_end (h : handle) (f : End -> End) (w : Machine) : Machine :=
  match end_of h w with Some e => put h (OEnd (f e)) w | None => w end.
(** A new pair of ends: this side's handle and the other's. *)
Definition pair_up (w : Machine) : handle * handle * Machine :=
  let a := fresh w in let b := Datatypes.S a in
  (a, b, alloc (OEnd (new_end a)) (alloc (OEnd (new_end b)) w)).
Definition find_object (p : object -> bool) (w : Machine) : option (handle * object) :=
  List.find (fun ho => p ho.2) (map_to_list (objects w)).

(** ** Datagrams *)
Definition bound_at (a : SocketAddr) (o : object) : bool :=
  match o with OUdp l _ _ => bool_decide (l = a) | _ => false end.
Definition deliver (src : SocketAddr) (b : bytes) (dst : SocketAddr) (w : Machine) : Machine :=
  match find_object (bound_at dst) w with
  | Some (h, OUdp l r q) => put h (OUdp l r (q ++ [(b, src)])) w
  | _ => w
  end.
Definition receive {A} (cap : nat) (h : handle) (f : bytes -> SocketAddr -> A) (w : Machine)
  : option (res A io_err) * Machine :=
  match objects w !! h with
  | Some (OUdp l r ((b, src) :: q)) => (Some (Ok (f (take cap b) src)), put h (OUdp l r q) w)
  | Some (OUdp _ _ []) => (None, w)
  | _ => (Some (Err "not a datagram socket"), w)
  end.
Definition send_datagram (h : handle) (b : bytes) (dst : option SocketAddr) (w : Machine)
  : option (res unit io_err) * Machine :=
  match objects w !! h with
  | Some (OUdp l r _) =>
      match dst, r with
      | Some a, _ | None, Some a => (Some (Ok tt), deliver l b a w)
      | None, None => (Some (Err "destination address required"), w)
      end
  | _ => (Some (Err "not a datagram socket"), w)
  end.

(** ** Connections *)
Definition listens_at (a : SocketAddr) (o : object) : bool :=
  match o with OListener l _ => bool_decide (l = a) | _ => false end.
Definition connect_tcp {E} (refused : E) (a : SocketAddr) (w : Machine) : res handle E * Machine :=
  match find_object (listens_at a) w with
  | Some (l, OListener local q) =>
      let '(c, s, w) := pair_up w in (Ok c, put l (OListener local (q ++ [s])) w)
  | _ => (Err refused, w)
  end.
Definition serves_at (local : string) (o : object) : bool :=
  match o with OEndpoint l _ => String.eqb l local | _ => false end.
Definition connect_quic (local : string) (w : Machine) : res handle string * Machine :=
  match find_object (serves_at local) w with
  | Some (l, OEndpoint local q) =>
      let '(c, s, w) := pair_up w in (Ok c, put l (OEndpoint local (q ++ [s])) w)
  | _ => (Err "timed out", w)
  end.
(** A new stream of the connection [c], which the other side has yet to accept. *)
Definition open_stream (c : handle) (w : Machine) : res (handle * handle) string * Machine :=
  match end_of c w with
  | Some e =>
      let '(a, b, w) := pair_up w in
      (Ok (a, b), on_end (other e) (fun e => set_waiting (waiting e ++ [b]) e) w)
  | None => (Err "connection lost", w)
  end.
Definition accept_stream (c : handle) (w : Machine) : option (handle * Machine) :=
  match end_of c w with
  | Some e => match waiting e with
              | b :: hs => Some (b, on_end c (set_waiting hs) w)
              | [] => None
              end
  | None => None
  end.
Definition write_end {E} (closed : E) (h : handle) (b : bytes) (w : Machine) : res unit E * Machine :=
  match end_of h w with
  | Some e => (Ok tt, on_end (other e) (fun e => set_unread (unread e ++ b) e) w)
  | None => (Err closed, w)
  end.
(** Whether nothing more will arrive at an end. *)
Definition dried_up (e : End) (w : Machine) : bool :=
  hung_up w || match end_of (other e) w with Some e => finished e | None => true end.
Definition read_end (h : handle) (n : nat) (w : Machine) : option (res bytes io_err) * Machine :=
  match end_of h w with
  | Some e =>
      if (n <=? length (unread e))%nat
      then (Some (Ok (take n (unread e))), on_end h (set_unread (drop n (unread e))) w)
      else if dried_up e w then (Some (Err "early eof"), w) else (None, w)
  | None => (Some (Err "not connected"), w)
  end.

(** ** HTTP *)

(** A request as the server's library shows it; its body is that of the stream
    or connection end [h]. *)
Definition server_request (req : HttpRequest) (h : handle) : HttpServerRequest :=
  {| rq_method := GET;
     rq_authorization := snd <$> List.find (fun kv => String.eqb kv.1 "authorization") (hr_headers req);
     rq_query := snd <$> split_once_char "?" (hr_uri req);
     rq_body := h |}.
Fixpoint connect_first (addrs : list SocketAddr) (w : Machine) : option handle * Machine :=
  match addrs with
  | [] => (None, w)
  | a :: addrs =>
      match connect_tcp tt a w with
      | (Ok c, w) => (Some c, w)
      | (_, w) => connect_first addrs w
      end
  end.
(** The certificates of this machine are self-signed. *)
Definition trusts (cfg : TlsConfig) : bool := skip_verify cfg.
(** [hyper]'s client: a connection of the pool or a new one, one request at a
    time. *)
Definition http_send (c : handle) (req : HttpRequest) (w : Machine)
  : option (res (Z * handle) (list string)) * Machine :=
  match objects w !! c with
  | Some (OClient conn (Some h) true) =>
      match end_of h w ≫= replied with
      | Some (status, body) =>
          let w := put c (OClient conn (Some h) false) (on_end h (set_replied None) w) in
          let '(a, _, w) := pair_up w in
          (Some (Ok (status, a)), on_end a (set_unread body) w)
      | None => (None, w)
      end
  | Some (OClient conn pool false) =>
      let '(h, w) := match pool with
                     | Some h => (Some h, w)
                     | None => if trusts (hc_tls_config conn) then connect_first (hc_addrs conn) w
                               else (None, w)
                     end in
      match h with
      | Some h =>
          let peer := default h (other <$> end_of h w) in
          let w := on_end peer (fun e => set_asked (asked e ++ [(server_request req peer, peer)]) e) w in
          (None, put c (OClient conn (Some h) true) w)
      | None => (Some (Err ["client error (Connect)"]), w)
      end
  | _ => (Some (Err ["no such client"]), w)
  end.

(** ** What a call answers *)
Definition now_secs : Z := 1700000000.
Definition noise (seed n : nat) : bytes := (fun i => as_u8 (Z.of_nat (seed * 7 + i * 5 + 3))) <$> seq 0 n.

Definition answer {X} (e : eff X) : Machine -> option X * Machine :=
  match e in eff X return Machine -> option X * Machine with
  | UdpBind _ => fun w => (Some (Ok (fresh w)), alloc (OUdp (local_port (fresh w)) None []) w)
  | UdpConnect h a => fun w =>
      match objects w !! h with
      | Some (OUdp l _ q) => (Some (Ok tt), put h (OUdp l (Some a) q) w)
      | _ => (Some (Err "not a datagram socket"), w)
      end
  | UdpSend h b => send_datagram h b None
  | UdpRecv h cap => receive cap h (fun b _ => b)
  | UdpSendTo h b peer => send_datagram h b (Some peer)
  | RecvFrom h cap => receive cap h pair
  | TcpConnect a => fun w => let '(r, w) := connect_tcp "connection refused" a w in (Some r, w)
  | TlsConnect cfg _ tcp => fun w =>
      (Some (if trusts cfg then Ok tcp else Err "invalid peer certificate"), w)
  | TlsAccept tcp => fun w => (Some (Ok tcp), w)
  | WriteAll h b => fun w => let '(r, w) := write_end "broken pipe" h b w in (Some r, w)
  | ReadExact h n => read_end h n
  | QuicEndpoint local => fun w => (Some (Ok (fresh w)), alloc (OEndpoint local []) w)
  | QuicConnect _ cfg _ a => fun w =>
      if trusts cfg then let '(r, w) := connect_quic (show_socket_addr a) w in (Some r, w)
      else (Some (Err "invalid peer certificate"), w)
  | QuicAccept h => fun w =>
      match objects w !! h with
      | Some (OEndpoint l (s :: q)) => (Some (Some s), put h (OEndpoint l q) w)
      | _ => (None, w)
      end
  | QuicHandshake incoming => fun w => (Some (Ok incoming), w)
  | QuicOpenBi c => fun w => let '(r, w) := open_stream c w in (Some (res_map fst r), w)
  | QuicAcceptBi c => fun w =>
      match accept_stream c w with
      | Some (b, w) => (Some (Ok (b, b)), w)
      | None => (None, w)
      end
  | QuicFinish h | H3Finish h => fun w => (Some (Ok tt), on_end h set_finished w)
  | QuicStopped _ => fun w => (Some tt, w)
  | HttpClientBuild c => fun w => (Some (fresh w), alloc (OClient c None false) w)
  | HttpSend c req => http_send c req
  | HttpBody h => fun w => (Some (Ok (default [] (unread <$> end_of h w))), w)
  | HttpNextRequest h => fun w =>
      match asked <$> end_of h w with
      | Some ((req, _) :: rs) => (Some (Ok (Some req)), on_end h (set_asked rs) w)
      | _ => (None, w)
      end
  | HttpReply h status _ body => fun w =>
      (Some tt, match end_of h w with
                | Some e => on_end (other e) (set_replied (Some (status, body))) w
                | None => w
                end)
  | H3Client c | H3ServerNew c => fun w => (Some (Ok c), w)
  | H3Send c req => fun w =>
      match open_stream c w with
      | (Ok (a, b), w) => (Some (Ok a), on_end b (set_asked [(server_request req b, b)]) w)
      | (Err e, w) => (Some (Err e), w)
      | (Panic, w) => (None, w)
      end
  | H3Accept c => fun w =>
      match accept_stream c w with Some (b, w) => (Some (Ok (Some b)), w) | None => (None, w) end
  | H3ResolveRequest b => fun w =>
      match asked <$> end_of b w with
      | Some (r :: _) => (Some (Ok r), w)
      | _ => (Some (Err "no request"), w)
      end
  | H3SendResponse b status _ => fun w =>
      match end_of b w with
      | Some e => (Some (Ok tt), on_end (other e) (set_replied (Some (status, []))) w)
      | None => (Some (Err "stream closed"), w)
      end
  | H3SendData b body => fun w => let '(r, w) := write_end "stream closed" b body w in (Some r, w)
  | H3RecvResponse a => fun w =>
      match end_of a w ≫= replied with
      | Some (status, _) => (Some (Ok status), w)
      | None => (None, w)
      end
  | H3RecvData a => fun w =>
      match end_of a w with
      | Some e =>
          match unread e with
          | [] => if dried_up e w then (Some (Ok None), w) else (None, w)
          | b => (Some (Ok (Some b)), on_end a (set_unread []) w)
          end
      | None => (Some (Err "stream closed"), w)
      end
  | SocketNew _ stream => fun w => (Some (Ok (fresh w)), alloc (OFresh stream) w)
  | SetOnlyV6 _ _ | SetReuseAddress _ _ | SetNonblocking _ _ | FromStd _ => fun w => (Some (Ok tt), w)
  | SocketBind h a => fun w =>
      match objects w !! h with
      | Some (OFresh true) => (Some (Ok tt), put h (OTcp a) w)
      | Some (OFresh false) =>
          match find_object (bound_at a) w with
          | None => (Some (Ok tt), put h (OUdp a None []) w)
          | Some _ => (Some (Err "address in use"), w)
          end
      | _ => (Some (Err "invalid argument"), w)
      end
  | Listen h _ => fun w =>
      match objects w !! h with
      | Some (OTcp a) =>
          match find_object (listens_at a) w with
          | None => (Some (Ok tt), put h (OListener a []) w)
          | Some _ => (Some (Err "address in use"), w)
          end
      | _ => (Some (Err "invalid argument"), w)
      end
  | Accept h => fun w =>
      match objects w !! h with
      | Some (OListener l (s :: q)) => (Some (Ok (s, local_port s)), put h (OListener l q) w)
      | _ => (None, w)
      end
  | LocalAddr h => fun w =>
      (match objects w !! h with
       | Some (OUdp l _ _) | Some (OTcp l) | Some (OListener l _) => Some (Ok l)
       | _ => Some (Err "bad file descriptor")
       end, w)
  | QuicLocalAddr h => fun w =>
      (match objects w !! h with
       | Some (OEndpoint l _) =>
           match parse_socket_addr l with Some a => Some (Ok a) | None => Some (Err "invalid argument") end
       | _ => Some (Err "bad file descriptor")
       end, w)
  | Getaddrinfo host => fun w =>
      (Some (if String.eqb host "localhost" then Ok [V4 localhost]
             else Err "name or service not known"), w)
  | FsRead path => fun w =>
      (Some (match files w !! path with Some t => Ok t | None => Err "no such file or directory" end), w)
  | FsReadBytes path => fun w =>
      (Some (match files w !! path with
             | Some t => Ok (as_bytes t) | None => Err "no such file or directory" end), w)
  | FsWrite path text => fun w => (Some (Ok tt), write_file path text w)
  | FsIsFile path => fun w => (Some (bool_decide (is_Some (files w !! path))), w)
  | Println line => fun w => (Some (Ok tt), print line w)
  | InstallProvider => fun w => (Some (Ok tt), w)
  | InstantNow => fun w => (Some 0, w)
  | UnixNow => fun w => (Some now_secs, w)
  | RandomU16 => fun w => (Some (Z.of_nat (fresh w) mod 65536), w)
  | FillBytes n => fun w => (Some (noise (fresh w) n), alloc (OFresh false) w)
  | ShuffleOrder n => fun w => (Some (seq 0 n), w)
  | SortPlan n => fun w => (Some (sort_plan (seq 0 n) Sorted), w)
  | SelectReady _ => fun w => (Some 0%nat, w)
  end.

Lemma connect_tcp_not_Panic {E} (refused : E) a w : (connect_tcp refused a w).1 <> Panic.
Proof. unfold connect_tcp. by destruct (find_object _ w) as [[l []]|]. Qed.
Lemma connect_quic_not_Panic a w : (connect_quic a w).1 <> Panic.
Proof. unfold connect_quic. by destruct (find_object _ w) as [[l []]|]. Qed.
Lemma open_stream_not_Panic c w : (open_stream c w).1 <> Panic.
Proof. unfold open_stream. by destruct (end_of c w). Qed.
Lemma answered_not_Panic {A E} (r : res A E) : r <> Panic -> answered r (fun _ => True).
Proof. by destruct r. Qed.

(** Every answer is one its call may get. *)
Lemma answer_ok X (e : eff X) w : match (answer e w).1 with Some x => eff_ok e x | None => True end.
Proof.
  destruct e; try apply sort_plan_ok; cbn [answer]; unfold receive, send_datagram, write_end, read_end, http_send, accept_stream.
  all: try match goal with |- context [connect_tcp ?r ?a ?w] =>
         pose proof (answered_not_Panic _ (connect_tcp_not_Panic r a w)); destruct (connect_tcp r a w) end.
  all: try match goal with |- context [connect_quic ?a ?w] =>
         pose proof (answered_not_Panic _ (connect_quic_not_Panic a w)) end.
  all: try match goal with |- context [open_stream ?a ?w] =>
         pose proof (open_stream_not_Panic a w); destruct (open_stream a w) as [[[]| |] ?] end.
  all: repeat (simplify_eq/=; try done; case_match).
  all: try match goal with H : (_, _).1 = Some _ |- _ => injection H as <- end.
  all: cbn; unfold noise, u16_max; rewrite ?length_firstn, ?length_fmap, ?length_seq; try lia; try done.
  pose proof (Z.mod_pos_bound (Z.of_nat (fresh w)) 65536 eq_refl). lia.
Qed.

(** ** The scheduler *)
Section Sched.
Context {S Q : Type} (turn : Q -> io S (next Q)).
Abbreviation config := (S * list (Q * io S (next Q)))%type.

Definition ended (n : next Q) : bool := match n with Break | Unwound => true | _ => false end.
(** The first process from number [i] on that can move, and its step. A call
    that has to wait may still leave something behind in the machine. *)
Fixpoint move (i : nat) (todo : list (Q * io S (next Q))) (c : config) (w : Machine)
  : option (list event * config) * Machine :=
  match todo with
  | [] => (None, w)
  | (q, p) :: todo =>
      match p with
      | IoDo e k =>
          match answer e w with
          | (Some x, w) => (Some ([Event e x], (c.1, <[i := (q, k x)]> c.2)), w)
          | (None, w) => move (Datatypes.S i) todo c w
          end
      | IoState f k => let '(x, s) := f c.1 in (Some ([], (s, <[i := (q, k x)]> c.2)), w)
      | IoRet n =>
          if ended n then move (Datatypes.S i) todo c w
          else (Some ([], (c.1, after turn i q n c.2)), w)
      end
  end.

(** [idle] turns without a move: at the first the call that waits may have woken
    another, at the second everything hangs up, at the third all is over. *)
Fixpoint sched (fuel idle : nat) (tr : list event) (c : config) (w : Machine)
  : list event * config * Machine :=
  match fuel with
  | O => (tr, c, w)
  | Datatypes.S fuel =>
      match move 0 c.2 c w with
      | (Some (ev, c), w) => sched fuel 0 (tr ++ ev) c w
      | (None, w) =>
          match idle with
          | O => sched fuel 1 tr c w
          | 1%nat => sched fuel 2 tr c (hang_up w)
          | _ => (tr, c, w)
          end
      end
  end.

Lemma move_step i todo c w ev c' w' :
  move i todo c w = (Some (ev, c'), w') -> todo = drop i c.2 -> sys_step turn c ev c'.
Proof.
  revert i w. induction todo as [|[q p] todo IH]; intros i w; [done|].
  cbn [move]. intros Hm Hd.
  assert (c.2 !! i = Some (q, p)) as Hi by (by rewrite <- (Nat.add_0_r i), <- lookup_drop, <- Hd).
  assert (todo = drop (Datatypes.S i) c.2) as Hd' by (apply drop_S in Hi; congruence).
  destruct c as [s ps]. cbn [fst snd] in *. destruct p as [n|X e k|X f k].
  - destruct (ended n); [by eapply IH|]. injection Hm as <- <- <-. by apply sys_turn.
  - pose proof (answer_ok _ e w) as Hok. destruct (answer e w) as [[x|] w1]; [|by eapply IH].
    injection Hm as <- <- <-. by apply sys_call.
  - pose proof (sys_state turn s ps i q X f k Hi) as Hs. destruct (f s) as [x s1].
    injection Hm as <- <- <-. exact Hs.
Qed.

(** What the scheduler computes is a run of the system. *)
Theorem sched_exec fuel idle c0 tr c w :
  sys_exec turn c0 tr c ->
  sys_exec turn c0 (sched fuel idle tr c w).1.1 (sched fuel idle tr c w).1.2.
Proof.
  revert idle tr c w. induction fuel as [|fuel IH]; intros idle tr c w H; [done|]. cbn [sched].
  destruct (move 0 c.2 c w) as [[[ev c']|] w'] eqn:Hm.
  - apply IH. econstructor; [exact H|]. by eapply move_step.
  - destruct idle as [|[|]]; [by apply IH|by apply IH|exact H].
Qed.
End Sched.
