(* ===== verification/TestLib.v ===== *)
(** * What the tests share

    The repository's tests as executable definitions: a test is a program that
    returns [Ok] or the assertion that failed, and [passes] runs it, next to the
    server tasks it spawns and the listeners it starts, on the machine of
    [Loopback]. The crates are at their executable instances ([Toy], [ToyWeb],
    [ToyCrypto], [ToyTls]), base64 at RFC 4648. [passed_run] says that a passing
    test is a run of the system of tasks in the sense of [Procs]. *)
From S2P Require Import Prelude RustStr RustNet Io Procs Dns Errors WebLib Wire Base64 Cache Bootstrap.
From S2P Require Import Doh3 Doh CryptoLib Crypto Latency UpstreamUrl.
From S2P Require Import ListenerIo ListenerDnsCrypt ListenerDoh ListenerTls Server Loopback.

#[export] Existing Instances Toy.lib Toy.codec Toy.laws rfc4648 ToyWeb.web ToyCrypto.lib ToyTls.lib.
#[export] Instance test_lru : Lru CacheKey CacheEntry (ListLru.t CacheKey CacheEntry) := ListLru.lru key_eqb.

(** ** The store

    Each upstream has a slot for its locks; a transport in one is kept without
    the cell it lives in. *)
Record Transport := {
  tr_id : nat;
  tr_addr : SocketAddr;
  tr_name : string;
  tr_tls : TlsConfig;
  tr_timeout : option Z;
  tr_path : string;
  tr_auth : option string;
}.
Record Slot := {
  sl_client : option handle;
  sl_h3 : option Transport;
  sl_prefer_h3 : option bool;
  sl_transports : list (option handle);
  sl_doq : option handle;
  sl_cert : option Certificate;
  sl_latency : LatencyTracker;
}.
Definition empty_slot : Slot :=
  {| sl_client := None; sl_h3 := None; sl_prefer_h3 := None; sl_transports := []; sl_doq := None;
     sl_cert := None; sl_latency := latency_new |}.
Record Heap := { slots : gmap nat Slot; cursors : gmap (option string) Z }.
Definition empty_heap : Heap := {| slots := ∅; cursors := ∅ |}.
Definition slot (n : nat) (s : Heap) : Slot := default empty_slot (slots s !! n).
Definition field {T} (n : nat) (get : Slot -> T) (set : T -> Slot -> Slot) : cell Heap T :=
  Cell (fun s => get (slot n s))
       (fun v s => {| slots := <[n := set v (slot n s)]> (slots s); cursors := cursors s |}).

Definition transports_cell (n : nat) : cell Heap (list (option handle)) :=
  field n sl_transports (fun v s =>
    {| sl_client := sl_client s; sl_h3 := sl_h3 s; sl_prefer_h3 := sl_prefer_h3 s; sl_transports := v;
       sl_doq := sl_doq s; sl_cert := sl_cert s; sl_latency := sl_latency s |}).
Definition of_transport (t : Http3Transport Heap) : Transport :=
  {| tr_id := t_id t; tr_addr := server_addr t; tr_name := t_server_name t; tr_tls := tls_config t;
     tr_timeout := t_timeout t; tr_path := t_path t; tr_auth := t_basic_auth_header t |}.
Definition to_transport (n : nat) (t : Transport) : Http3Transport Heap :=
  {| t_id := tr_id t; server_addr := tr_addr t; t_server_name := tr_name t; tls_config := tr_tls t;
     t_timeout := tr_timeout t; t_path := tr_path t; t_basic_auth_header := tr_auth t;
     senders := transports_cell n |}.
Definition cells (n : nat) : Cells Heap :=
  {| doh_cells :=
       {| new_client := field n sl_client (fun v s =>
            {| sl_client := v; sl_h3 := sl_h3 s; sl_prefer_h3 := sl_prefer_h3 s;
               sl_transports := sl_transports s; sl_doq := sl_doq s; sl_cert := sl_cert s;
               sl_latency := sl_latency s |});
          new_h3 := field n (fun s => to_transport n <$> sl_h3 s) (fun v s =>
            {| sl_client := sl_client s; sl_h3 := of_transport <$> v; sl_prefer_h3 := sl_prefer_h3 s;
               sl_transports := sl_transports s; sl_doq := sl_doq s; sl_cert := sl_cert s;
               sl_latency := sl_latency s |});
          new_prefer_h3 := field n sl_prefer_h3 (fun v s =>
            {| sl_client := sl_client s; sl_h3 := sl_h3 s; sl_prefer_h3 := v;
               sl_transports := sl_transports s; sl_doq := sl_doq s; sl_cert := sl_cert s;
               sl_latency := sl_latency s |});
          new_transports := transports_cell n |};
     doq_conn := field n sl_doq (fun v s =>
       {| sl_client := sl_client s; sl_h3 := sl_h3 s; sl_prefer_h3 := sl_prefer_h3 s;
          sl_transports := sl_transports s; sl_doq := v; sl_cert := sl_cert s; sl_latency := sl_latency s |});
     dnscrypt_cert := field n sl_cert (fun v s =>
       {| sl_client := sl_client s; sl_h3 := sl_h3 s; sl_prefer_h3 := sl_prefer_h3 s;
          sl_transports := sl_transports s; sl_doq := sl_doq s; sl_cert := v; sl_latency := sl_latency s |});
     tracker := field n sl_latency (fun v s =>
       {| sl_client := sl_client s; sl_h3 := sl_h3 s; sl_prefer_h3 := sl_prefer_h3 s;
          sl_transports := sl_transports s; sl_doq := sl_doq s; sl_cert := sl_cert s; sl_latency := v |}) |}.
Definition cursor (key : option string) : cell Heap Z :=
  Cell (fun s => default 0 (cursors s !! key))
       (fun v s => {| slots := slots s; cursors := <[key := v]> (cursors s) |}).

(** ** Tests *)
Definition test (S : Type) : Type := io S (res unit string).
Definition assert {S} (b : bool) : test S := IoRet (if b then Ok tt else Err "assertion failed").
(** [unwrap], which fails the test. *)
Definition unwrap {S A E} (r : res A E) : io S (res A string) :=
  IoRet (map_err (fun _ => "called unwrap on an error") r).
Definition unwrap_io {S A E} (p : io S (res A E)) : io S (res A string) :=
  io_map_err (fun _ => "called unwrap on an error") p.
Definition unwrap_some {S A} (o : option A) : io S (res A string) :=
  IoRet (ok_or "called unwrap on None" o).

Section Run.
Context {S : Type} (handler : Handler S) (credentials : Credentials).

(** The tasks of a test: its own, those of a listener of the program, and those
    of an HTTP server of its own, whose [service] gives the body of a response.
    The accept loop of such a server is written like that of the DoH listener. *)
Inductive task :=
| Test (t : test S)
| Listener (q : proc)
| Serving (service : HttpServerRequest -> io S (res bytes string)) (q : proc).
Definition serve_request (service : HttpServerRequest -> io S (res bytes string)) (conn : handle)
    (req : HttpServerRequest) : io S (next task) :=
  let* r := service req in
  match r with
  | Ok body => let* _ := call (HttpReply conn 200 dns_content body) in IoRet Break
  | _ => IoRet Unwound
  end.
Definition task_turn (t : task) : io S (next task) :=
  match t with
  | Listener q => io_map (next_map Listener) (turn handler credentials q)
  | Serving service (DohRequest conn req) => serve_request service conn req
  | Serving service q => io_map (next_map (Serving service)) (turn handler credentials q)
  | Test p =>
      let* r := p in
      let* _ := call (Println (match r with Ok _ => "ok" | Err e => e | Panic => "panicked" end)) in
      IoRet Break
  end.

Definition FUEL : nat := Z.to_nat 5000.
Definition run_tasks (s : S) (ts : list task) (w : Machine)
  : list event * (S * list (task * io S (next task))) * Machine :=
  sched task_turn FUEL 0 [] (s, start task_turn <$> ts) w.
(** Every task of the test itself ends, and with success. *)
Definition is_test (t : task) : bool := match t with Test _ => true | _ => false end.
Definition succeeds (ts : list task) (w : Machine) : bool :=
  bool_decide (printed w = replicate (length (List.filter is_test ts)) "ok").
Definition passes_with (s : S) (w : Machine) (ts : list task) : bool := succeeds ts (run_tasks s ts w).2.

(** A passing test is a run of its tasks. *)
Lemma passed_run s w ts :
  sys_exec task_turn (s, start task_turn <$> ts) (run_tasks s ts w).1.1 (run_tasks s ts w).1.2.
Proof. apply sched_exec, sys_refl. Qed.
End Run.
Arguments Test {S} t.
Arguments Listener {S} q.
Arguments Serving {S} service q.

Definition no_handler {S} : Handler S := fun _ => IoRet (Err (Bootstrap "no listener")).
Definition nobody : Credentials := credentials_new [].

(** What a test does before it spawns anything: bind sockets and start the
    listeners. It runs alone, and nothing of it has to wait. *)
Fixpoint run_alone {S A} (p : io S A) (s : S) (w : Machine) : option (A * S * Machine) :=
  match p with
  | IoRet a => Some (a, s, w)
  | IoDo e k => match answer e w with (Some x, w) => run_alone (k x) s w | (None, _) => None end
  | IoState f k => let '(x, s) := f s in run_alone (k x) s w
  end.
Lemma run_alone_exec {S A} (p : io S A) s w a s' w' :
  run_alone p s w = Some (a, s', w') -> exists tr, exec p s tr a s'.
Proof.
  revert s w. induction p as [b|X e k IH|X f k IH]; intros s w; simpl.
  - intros [= -> -> _]. by exists [].
  - pose proof (answer_ok _ e w) as Hok. destruct (answer e w) as [[x|] w1]; [|done].
    intros [tr H]%IH. by exists (Event e x :: tr), x, tr.
  - destruct (f s) as [x s1]. intros [tr H]%IH. by exists tr.
Qed.

(** A test that sets things up, then runs the given tasks. *)
Definition passes_after {S H} (handler : Handler S) (credentials : Credentials) (s : S)
    (setup : io S (res H string)) (tasks : H -> list (task (S := S))) : bool :=
  match run_alone setup s switched_on with
  | Some (Ok h, s, w) => passes_with handler credentials s w (tasks h)
  | _ => false
  end.
(** A test on its own, or with server tasks of its own. *)
Definition passes (t : test Heap) : bool :=
  passes_with no_handler nobody empty_heap switched_on [Test t].
Definition passes_with_server {H} (setup : io Heap (res H string)) (server : H -> test Heap)
    (t : test Heap) : bool :=
  passes_after no_handler nobody empty_heap setup (fun h => [Test (server h); Test t]).
(** A test against listeners of the program. *)
Definition passes_against (handler : Handler Heap) (credentials : Credentials)
    (serve : io Heap (res (list proc) string)) (t : test Heap) : bool :=
  passes_after handler credentials empty_heap serve (fun qs => (Listener <$> qs) ++ [Test t]).

(** ** Messages *)
Definition make_query (id : Z) (name : string) : Message :=
  add_query (Message_new id Query_ OpCode_Query) (Query_query (name : Name) RT_A).
Definition as_response (m : Message) : Message :=
  set_metadata m
    {| md_id := msg_id m; message_type := Response_; truncation := truncation (metadata m);
       recursion_desired := recursion_desired (metadata m);
       checking_disabled := checking_disabled (metadata m); md_rest := md_rest (metadata m) |}.
Definition set_truncation (m : Message) (b : bool) : Message :=
  set_metadata m
    {| md_id := msg_id m; message_type := message_type (metadata m); truncation := b;
       recursion_desired := recursion_desired (metadata m);
       checking_disabled := checking_disabled (metadata m); md_rest := md_rest (metadata m) |}.
Definition set_checking_disabled (m : Message) (b : bool) : Message :=
  set_metadata m
    {| md_id := msg_id m; message_type := message_type (metadata m); truncation := truncation (metadata m);
       recursion_desired := recursion_desired (metadata m); checking_disabled := b;
       md_rest := md_rest (metadata m) |}.
Definition set_edns (m : Message) (e : Edns) : Message :=
  {| metadata := metadata m; queries := queries m; answers := answers m; authorities := authorities m;
     additionals := additionals m; edns := Some e; msg_rest := msg_rest m |}.
Definition parse_addr (s : string) : SocketAddr := default (SockV4 localhost 0) (parse_socket_addr s).
