(* ===== verification/LoopbackTests.v ===== *)
(** * Tests over the loopback interface

    The tests of the repository in which a client and a server talk to each
    other, one module per source file. Server tasks and listeners run beside
    the test on the machine of [Loopback]. A port the system chooses in the
    original is a fixed one here. *)
From S2P Require Import PlainUdp PlainTcp Dot Doq Doh3 Doh DnsCrypt.
From S2P Require Import Prelude RustStr RustNet Io Procs Dns Errors WebLib Wire Base64 Cache Bootstrap Framing.
From S2P Require Import CryptoLib Crypto Stamp Keygen Latency UpstreamUrl.
From S2P Require Import ListenerIo ListenerDnsCrypt ListenerDoh ListenerTls Server Loopback TestLib UnitTests.

Definition server_addr : SocketAddr := parse_addr "127.0.0.1:5300".
Definition from_millis (n : Z) : Z := n * 1000000.
(** [Options { timeout: Some(5 s), ..Default::default() }]. *)
Definition with_timeout (o : Options (Resolver Heap)) (t : option Z) : Options (Resolver Heap) :=
  {| bootstrap := bootstrap o; http_versions := http_versions o; opt_timeout := t;
     insecure_skip_verify := insecure_skip_verify o; prefer_ipv6 := Errors.prefer_ipv6 o;
     basic_auth := basic_auth o |}.
Definition patient_opts : Options (Resolver Heap) := with_timeout default_options (Some (from_secs 5)).
(** ... with the server's address for a resolver, and no verification. *)
Definition insecure_opts (versions : list HttpVersion) : Options (Resolver Heap) :=
  {| bootstrap := Some (StaticResolver [sock_ip server_addr]); http_versions := versions;
     opt_timeout := Some (from_secs 5); insecure_skip_verify := true; prefer_ipv6 := false;
     basic_auth := None |}.

Definition parse_message (b : bytes) : io Heap (res Message string) := unwrap (from_sum id (from_bytes b)).
Definition pack (m : Message) : io Heap (res bytes string) := unwrap (from_sum id (to_bytes m)).
Definition is_invalid_response {A} (r : res A DohError) : bool :=
  match r with Err (InvalidResponse _) => true | _ => false end.
(** An answer to another question. *)
Definition other_name (req : Message) : Message :=
  add_query (Message_new (msg_id req) Response_ OpCode_Query) (Query_query ("other.com." : Name) RT_A).

(** [exchange(&req).await.unwrap()] with the identifier [id]. *)
Definition gets_answer (exchange : Message -> io Heap (res Message DohError)) (id : Z) : test Heap :=
  try* resp := unwrap_io (exchange (make_query id "example.com.")) in
  assert (msg_id resp =? id).

(** ** [src/client/plain_udp.rs] *)
Module PlainUdpTests.
(** The server task: one query, one answer. *)
Definition server_task (answer : Message -> Message) (server : handle) : test Heap :=
  try* (packet, peer) := unwrap_io (call (RecvFrom server 4096)) in
  try* req := parse_message packet in
  try* b := pack (answer req) in
  unwrap_io (call (UdpSendTo server b peer)).
Definition bind : io Heap (res handle string) := unwrap_io (bind_udp server_addr).
Definition upstream : PlainUdpUpstream := PlainUdp.new server_addr (Some (from_secs 5)).

Definition exchange_roundtrips_over_udp : bool :=
  passes_with_server bind (server_task as_response) (gets_answer (PlainUdp.exchange upstream) 42).
Definition exchange_rejects_mismatched_name : bool :=
  passes_with_server bind (server_task other_name)
    (let* r := PlainUdp.exchange upstream (make_query 1 "example.com.") in
     assert (is_invalid_response r)).
Example plain_udp_tests_pass :
  exchange_roundtrips_over_udp && exchange_rejects_mismatched_name = true.
Proof. vm_refl. Qed.
End PlainUdpTests.

(** ** [src/client/plain_tcp.rs] *)
Module PlainTcpTests.
Definition write_framed (stream : handle) (b : bytes) : test Heap :=
  try* _ := unwrap_io (call (WriteAll stream (to_be 2 (Z.of_nat (length b))))) in
  unwrap_io (call (WriteAll stream b)).
Definition read_framed (stream : handle) : io Heap (res bytes string) :=
  try* len_buf := unwrap_io (call (ReadExact stream 2)) in
  unwrap_io (call (ReadExact stream (Z.to_nat (from_be len_buf)))).
Definition answer_framed (answer : Message -> Message) (stream : handle) : test Heap :=
  try* req_bytes := read_framed stream in
  try* req := parse_message req_bytes in
  try* b := pack (answer req) in
  write_framed stream b.
Definition server_task (answer : Message -> Message) (listener : handle) : test Heap :=
  try* (stream, _) := unwrap_io (call (Accept listener)) in
  answer_framed answer stream.
Definition bind : io Heap (res handle string) := unwrap_io (bind_tcp server_addr).
Definition upstream : PlainTcpUpstream Heap :=
  PlainTcp.new (show_ip (sock_ip server_addr)) (Some (sock_port server_addr)) patient_opts.

Definition exchange_roundtrips_over_tcp : bool :=
  passes_with_server bind (server_task as_response) (gets_answer (PlainTcp.exchange upstream) 42).
Definition exchange_rejects_mismatched_name : bool :=
  passes_with_server bind (server_task other_name)
    (let* r := PlainTcp.exchange upstream (make_query 1 "example.com.") in
     assert (is_invalid_response r)).
Example plain_tcp_tests_pass :
  exchange_roundtrips_over_tcp && exchange_rejects_mismatched_name = true.
Proof. vm_refl. Qed.
End PlainTcpTests.

(** ** [src/client/dot.rs] *)
Module DotTests.
Definition server_task (listener : handle) : test Heap :=
  try* (tcp, _) := unwrap_io (call (Accept listener)) in
  try* tls := unwrap_io (call (TlsAccept tcp)) in
  PlainTcpTests.answer_framed as_response tls.
Definition upstream : DotUpstream Heap :=
  Dot.new "localhost" (Some (sock_port server_addr)) (insecure_opts []).
Definition exchange_roundtrips_over_tls : bool :=
  passes_with_server PlainTcpTests.bind server_task (gets_answer (Dot.exchange upstream) 42).
Example dot_tests_pass : exchange_roundtrips_over_tls = true.
Proof. vm_refl. Qed.
End DotTests.

(** ** [src/client/doq.rs] *)
Module DoqTests.
Definition bind : io Heap (res handle string) :=
  unwrap_io (call (QuicEndpoint (show_socket_addr server_addr))).
Definition server_task (endpoint : handle) : test Heap :=
  let* incoming := call (QuicAccept endpoint) in
  try* incoming := unwrap_some incoming in
  try* conn := unwrap_io (call (QuicHandshake incoming)) in
  try* (send, recv) := unwrap_io (call (QuicAcceptBi conn)) in
  try* req_buf := PlainTcpTests.read_framed recv in
  try* req := parse_message req_buf in
  try* _ := assert (msg_id req =? 0) in
  try* b := pack (as_response req) in
  try* _ := PlainTcpTests.write_framed send b in
  try* _ := unwrap_io (call (QuicFinish send)) in
  let* _ := call (QuicStopped send) in
  IoRet (Ok tt).
Definition upstream : DoqUpstream Heap :=
  Doq.new "localhost" (Some (sock_port server_addr)) (insecure_opts []) (doq_conn (cells 0)).
Definition exchange_roundtrips_over_quic : bool :=
  passes_with_server bind server_task (gets_answer (Doq.exchange upstream) 42).
Example doq_tests_pass : exchange_roundtrips_over_quic = true.
Proof. vm_refl. Qed.
End DoqTests.

(** ** [src/client/bootstrap.rs] *)
Module BootstrapTests.
Definition Failing : Resolver Heap := fun _ => IoRet (Err (Bootstrap "nope")).
Definition Unreachable : Resolver Heap := fun _ => IoRet Panic.
Definition parallel (rs : list (Resolver Heap)) : Resolver Heap := ParallelResolver (fun _ => "errors") rs.
Definition accept_once (listener : handle) : test Heap :=
  let* _ := call (Accept listener) in IoRet (Ok tt).
Definition ip_of (s : string) : IpAddr := default (V4 localhost) (parse_ip_addr s).
Definition same_ips (r : list IpAddr) (expected : list IpAddr) : bool := bool_decide (r = expected).

Definition static_resolver_returns_fixed_addrs : bool :=
  let ip := ip_of "192.0.2.1" in
  passes
    (try* addrs := unwrap_io (StaticResolver [ip] "ignored.example.") in
     assert (same_ips addrs [ip])).
Definition resolve_dial_context_skips_resolver_for_literal_ip : bool :=
  passes_with_server PlainTcpTests.bind accept_once
    (try* dial := unwrap_io (resolve_dial_context "127.0.0.1" (sock_port server_addr) None Unreachable false) in
     let* conn := dial Tcp in
     assert (is_ok conn)).

Definition want_ip : Ipv4Addr := Ipv4 xc0 x00 x02 x2a.
(** The server's loop, for [n] queries: the address for an A query, nothing for
    the others. *)
Fixpoint serve_queries (n : nat) (server : handle) : test Heap :=
  match n with
  | O => IoRet (Ok tt)
  | Datatypes.S n =>
      try* (packet, peer) := unwrap_io (call (RecvFrom server 4096)) in
      try* req := parse_message packet in
      try* q := unwrap_some (head (queries req)) in
      let resp := add_query (Message_new (msg_id req) Response_ OpCode_Query) q in
      let resp :=
        if bool_decide (query_type q = RT_A)
        then add_answer resp (Record_from_rdata (query_name q) 60 (Toy.ToyIp (V4 want_ip) : RData))
        else resp in
      try* b := pack resp in
      let* _ := call (UdpSendTo server b peer) in
      serve_queries n server
  end.
Definition plain_resolver_queries_udp_server : bool :=
  passes_with_server PlainUdpTests.bind (serve_queries 2)
    (let resolver := {| pr_addr := server_addr; pr_timeout := Some (from_secs 2) |} in
     try* addrs := unwrap_io (plain_resolver_lookup resolver "example.com.") in
     assert (same_ips addrs [V4 want_ip])).

Definition parallel_resolver_returns_first_success : bool :=
  let ip := ip_of "192.0.2.2" in
  passes
    (try* addrs := unwrap_io (parallel [Failing; StaticResolver [ip]] "example.") in
     assert (same_ips addrs [ip])).
Definition parallel_resolver_fails_when_all_fail : bool :=
  passes
    (let* r := parallel [Failing; Failing] "example." in
     assert (match r with Err _ => true | _ => false end)).
Definition dial_context_tries_addrs_in_order_until_success : bool :=
  let bad_addr := parse_addr "127.0.0.1:1" in
  passes_with_server PlainTcpTests.bind accept_once
    (let* conn := new_dial_context (Some (from_millis 500)) [bad_addr; server_addr] Tcp in
     assert (is_ok conn)).
Definition dial_context_fails_with_no_addrs : bool :=
  passes
    (let* conn := new_dial_context None [] Tcp in
     assert (match conn with Err _ => true | _ => false end)).

Example bootstrap_tests_pass :
  forallb id
    [static_resolver_returns_fixed_addrs; resolve_dial_context_skips_resolver_for_literal_ip;
     plain_resolver_queries_udp_server; parallel_resolver_returns_first_success;
     parallel_resolver_fails_when_all_fail; dial_context_tries_addrs_in_order_until_success;
     dial_context_fails_with_no_addrs] = true.
Proof. vm_refl. Qed.
End BootstrapTests.

(** ** [src/client/dnscrypt.rs] *)
Module DnsCryptTests.
Definition CERT_MAGIC : bytes := as_bytes "DNSC".
Definition RESOLVER_MAGIC : bytes := as_bytes "r6fnvWj8".
Definition client_magic : bytes := as_bytes "TESTMAGC".
(** A signed certificate for a fresh resolver key pair. *)
Definition make_cert (provider_signing_key : SigningKey) (client_magic : bytes)
  : io Heap (bytes * ClientKeyPair) :=
  let* resolver_kp := Crypto.generate in
  let signed := public_key resolver_kp ++ client_magic ++ to_be 4 1 ++ to_be 4 0 ++ to_be 4 u32_max in
  let signature := sign provider_signing_key signed in
  IoRet (CERT_MAGIC ++ to_be 2 1 ++ [x00; x00] ++ signature ++ signed, resolver_kp).
Definition cert_response (req : Message) (cert_bytes : bytes) : io Heap (res Message string) :=
  try* q := unwrap_some (head (queries req)) in
  let resp := add_query (Message_new (msg_id req) Response_ OpCode_Query) q in
  IoRet (Ok (add_answer resp (Record_from_rdata (query_name q) 60 (txt_from_bytes [cert_bytes])))).
Definition decrypt_client_query (resolver_kp : ClientKeyPair) (client_magic framed : bytes)
  : io Heap (res (bytes * bytes * bytes) string) :=
  try* _ := assert (bool_decide (slice 0 8 framed = client_magic)) in
  let client_pk := slice 8 40 framed in
  let client_nonce := slice 40 52 framed in
  let full_nonce := client_nonce ++ replicate 12 x00 in
  try* padded := unwrap (from_sum id (box_decrypt (secret_key resolver_kp) client_pk full_nonce (drop 52 framed))) in
  try* idx := unwrap_some (rposition (fun b => negb (u8 b =? 0)) padded) in
  try* _ := assert (bool_decide (padded !! idx = Some x80)) in
  IoRet (Ok (take idx padded, client_pk, client_nonce)).
(** [padded.push(0x80)], then zeros up to the next multiple of 64. *)
Definition padded (msg : bytes) : bytes :=
  let padded := msg ++ [x80] in
  let rem := (length padded mod 64)%nat in
  if (rem =? 0)%nat then padded else padded ++ replicate (64 - rem) x00.
Definition encrypt_server_response (resolver_kp : ClientKeyPair) (client_pk client_nonce msg : bytes)
  : io Heap (res bytes string) :=
  let* resolver_nonce := call (FillBytes 12) in
  let full_nonce := client_nonce ++ resolver_nonce in
  try* ciphertext := unwrap (from_sum id (box_encrypt (secret_key resolver_kp) client_pk full_nonce (padded msg))) in
  IoRet (Ok (RESOLVER_MAGIC ++ client_nonce ++ resolver_nonce ++ ciphertext)).
Definition build_stamp_url (addr : SocketAddr) (provider_pk : bytes) (provider_name : string) : string :=
  let addr_str := show_socket_addr addr in
  let lp (b : bytes) := as_u8 (Z.of_nat (length b)) :: b in
  "sdns://" +:+ b64_encode URL_SAFE_NO_PAD
    ([x01] ++ replicate 8 x00 ++ lp (as_bytes addr_str) ++ lp provider_pk ++ lp (as_bytes provider_name)).

(** What both tests set up: the keys, the certificate and the sockets. *)
Record Setup := {
  provider_pk : bytes;
  cert : bytes;
  resolver_kp : ClientKeyPair;
  udp_server : handle;
  tcp_listener : option handle;
}.
Definition set_up (tcp : bool) : io Heap (res Setup string) :=
  let* provider_signing_key := CryptoTests.generate_signing_key in
  let* (cert, resolver_kp) := make_cert provider_signing_key client_magic in
  try* udp := unwrap_io (bind_udp server_addr) in
  try* tcp := if tcp then io_map (res_map Some) (unwrap_io (bind_tcp server_addr)) else IoRet (Ok None) in
  IoRet (Ok {| provider_pk := VerifyingKey_to_bytes (verifying_key provider_signing_key); cert := cert;
               resolver_kp := resolver_kp; udp_server := udp; tcp_listener := tcp |}).
(** The certificate fetch, the same in both server tasks. *)
Definition serve_cert (s : Setup) : test Heap :=
  try* (packet, peer) := unwrap_io (call (RecvFrom (udp_server s) (Z.to_nat 65535))) in
  try* req := parse_message packet in
  try* resp := cert_response req (cert s) in
  try* b := pack resp in
  unwrap_io (call (UdpSendTo (udp_server s) b peer)).
(** The encrypted answer to a framed query. *)
Definition answer_framed (s : Setup) (answer : Message -> Message) (framed : bytes)
  : io Heap (res bytes string) :=
  try* (inner_bytes, client_pk, client_nonce) := decrypt_client_query (resolver_kp s) client_magic framed in
  try* inner_req := parse_message inner_bytes in
  try* inner_resp_bytes := pack (answer inner_req) in
  encrypt_server_response (resolver_kp s) client_pk client_nonce inner_resp_bytes.
Definition serve_query (s : Setup) (answer : Message -> Message) : test Heap :=
  try* (framed, peer) := unwrap_io (call (RecvFrom (udp_server s) (Z.to_nat 65535))) in
  try* framed_resp := answer_framed s answer framed in
  unwrap_io (call (UdpSendTo (udp_server s) framed_resp peer)).
Definition udp_task (s : Setup) : test Heap :=
  try* _ := serve_cert s in serve_query s as_response.
Definition tcp_task (s : Setup) : test Heap :=
  try* _ := serve_cert s in
  try* _ := serve_query s (fun m => set_truncation (as_response m) true) in
  try* listener := unwrap_some (tcp_listener s) in
  try* (tcp, _) := unwrap_io (call (Accept listener)) in
  try* framed := PlainTcpTests.read_framed tcp in
  try* framed_final := answer_framed s as_response framed in
  PlainTcpTests.write_framed tcp framed_final.
Definition upstream (provider_pk : bytes) : io Heap (res (DnsCryptUpstream Heap) string) :=
  let stamp := build_stamp_url server_addr provider_pk "test-provider" in
  unwrap (DnsCrypt.new stamp patient_opts (dnscrypt_cert (cells 0))).

Definition exchange_roundtrips_over_udp : bool :=
  passes_after no_handler nobody empty_heap (set_up false) (fun s =>
    [Test (udp_task s);
     Test (try* u := upstream (provider_pk s) in gets_answer (DnsCrypt.exchange u) 42)]).
Definition exchange_falls_back_to_tcp_on_truncation : bool :=
  passes_after no_handler nobody empty_heap (set_up true) (fun s =>
    [Test (tcp_task s);
     Test (try* u := upstream (provider_pk s) in
           try* resp := unwrap_io (DnsCrypt.exchange u (make_query 7 "example.com.")) in
           try* _ := assert (msg_id resp =? 7) in
           assert (negb (truncation (metadata resp))))]).
Example dnscrypt_tests_pass :
  exchange_roundtrips_over_udp && exchange_falls_back_to_tcp_on_truncation = true.
Proof. vm_refl. Qed.
End DnsCryptTests.

(** ** The listeners *)
Definition echo_handler : Handler Heap := fun req => IoRet (Ok (as_response req)).
Definition answers_response (exchange : Message -> io Heap (res Message DohError)) (id : Z) : test Heap :=
  try* resp := unwrap_io (exchange (make_query id "example.com.")) in
  try* _ := assert (msg_id resp =? id) in
  assert (bool_decide (message_type (metadata resp) = Response_)).
(** The self-signed configuration of the tests. *)
Definition server_tls_config (alpn : list bytes) : @ServerConfig ToyTls.lib :=
  set_alpn_protocols ([as_bytes "cert"], []) alpn.

(** *** [src/listener/dot.rs] *)
Module DotListenerTests.
Definition serve : io Heap (res (list proc) string) :=
  unwrap_io (io_map (res_map (fun l => [DotLoop l])) (bind_tcp server_addr)).
Definition roundtrips_through_dot_upstream_client : bool :=
  passes_against echo_handler nobody serve (answers_response (Dot.exchange DotTests.upstream) 42).
Example dot_listener_tests_pass : roundtrips_through_dot_upstream_client = true.
Proof. vm_refl. Qed.
End DotListenerTests.

(** *** [src/listener/doq.rs] *)
Module DoqListenerTests.
Definition serve : io Heap (res (list proc) string) :=
  unwrap_io (io_map (res_map (fun e => [DoqLoop e]))
    (serve_quic (server_tls_config DOQ_SERVER_ALPN) server_addr)).
Definition roundtrips_through_doq_upstream_client : bool :=
  passes_against echo_handler nobody serve (answers_response (Doq.exchange DoqTests.upstream) 42).
Definition rejects_non_zero_id_request_without_crashing : bool :=
  passes_against echo_handler nobody serve
    (let client_tls := build_tls_config "localhost" true [DOQ_ALPN] in
     try* endpoint := unwrap_io (call (QuicEndpoint "127.0.0.1:0")) in
     try* conn := unwrap_io (call (QuicConnect endpoint client_tls "localhost" server_addr)) in
     try* stream := unwrap_io (call (QuicOpenBi conn)) in
     try* b := pack (make_query 7 "example.com.") in
     try* _ := PlainTcpTests.write_framed stream b in
     try* _ := unwrap_io (call (QuicFinish stream)) in
     let* result := timeout (from_millis 500) (call (ReadExact stream 2)) in
     assert (match result with Some (Ok _) => false | _ => true end)).
Example doq_listener_tests_pass :
  roundtrips_through_doq_upstream_client && rejects_non_zero_id_request_without_crashing = true.
Proof. vm_refl. Qed.
End DoqListenerTests.

(** *** [src/listener/doh.rs] *)
Module DohListenerTests.
Definition serve : io Heap (res (list proc) string) :=
  unwrap_io (io_map (res_map (fun l => [DohLoop l])) (bind_tcp server_addr)).
Definition upstream (versions : list HttpVersion) : DohUpstream Heap :=
  Doh.new "localhost" (Some (sock_port server_addr)) "/dns-query" (insecure_opts versions)
    (doh_cells (cells 0)).
Definition alice : Credentials := credentials_new [("alice", "secret")].
Definition is_refused {A} (r : res A DohError) : bool :=
  match r with Err (UnexpectedStatus 401 _) => true | _ => false end.

Definition roundtrips_through_doh_upstream_client : bool :=
  passes_against echo_handler nobody serve
    (answers_response (Doh.exchange (upstream [])) 42).
Definition rejects_request_missing_credentials : bool :=
  passes_against echo_handler alice serve
    (let* result := Doh.exchange (upstream []) (make_query 42 "example.com.") in
     assert (is_refused result)).
Example doh_listener_tests_pass :
  roundtrips_through_doh_upstream_client && rejects_request_missing_credentials = true.
Proof. vm_refl. Qed.
End DohListenerTests.

(** *** [src/listener/doh3.rs] *)
Module Doh3ListenerTests.
Definition serve : io Heap (res (list proc) string) :=
  unwrap_io (io_map (res_map (fun e => [Doh3Loop e]))
    (serve_quic (server_tls_config DOH3_ALPN) server_addr)).
Definition roundtrips_through_doh_upstream_client_over_http3 : bool :=
  passes_against echo_handler nobody serve
    (answers_response (Doh.exchange (DohListenerTests.upstream [Http3])) 42).
Definition rejects_request_missing_credentials : bool :=
  passes_against echo_handler DohListenerTests.alice serve
    (let* result := Doh.exchange (DohListenerTests.upstream [Http3]) (make_query 42 "example.com.") in
     assert (DohListenerTests.is_refused result)).
Example doh3_listener_tests_pass :
  roundtrips_through_doh_upstream_client_over_http3 && rejects_request_missing_credentials = true.
Proof. vm_refl. Qed.
End Doh3ListenerTests.

(** *** [src/listener/dnscrypt.rs] *)
Module DnsCryptListenerTests.
Definition provider : string := "2.dnscrypt.test.example.".
Definition server_config (resolver_config : ResolverConfig) (client_magic : bytes) : DnsCryptServerConfig :=
  config_new (Keygen.resolver_secret_key resolver_config) (provider_signing_key resolver_config)
    (config_name resolver_config) client_magic 1 0 u32_max.
(** [serve_udp], and then [serve_tcp] on the same address. *)
Definition serve (tcp : bool) : io Heap (res (list proc * string) string) :=
  let* resolver_config := Keygen.generate provider in
  let config := server_config resolver_config (as_bytes "TESTMAGC") in
  let stamp := Keygen.stamp resolver_config server_addr in
  try* udp := unwrap_io (bind_udp server_addr) in
  if tcp then
    try* listener := unwrap_io (bind_tcp server_addr) in
    IoRet (Ok ([DnsCryptUdpLoop config udp; DnsCryptTcpLoop config listener], stamp))
  else IoRet (Ok ([DnsCryptUdpLoop config udp], stamp)).
Definition upstream (stamp : string) : io Heap (res (DnsCryptUpstream Heap) string) :=
  unwrap (DnsCrypt.new stamp patient_opts (dnscrypt_cert (cells 0))).
Definition against (handler : Handler Heap) (tcp : bool) (t : DnsCryptUpstream Heap -> test Heap) : bool :=
  passes_after handler nobody empty_heap (serve tcp) (fun '(qs, stamp) =>
    (Listener <$> qs) ++ [Test (try* u := upstream stamp in t u)]).
(** Ten records of 200 bytes: more than a datagram takes. *)
Definition big_handler : Handler Heap := fun req =>
  match queries req with
  | [] => IoRet Panic
  | q :: _ =>
      let resp := add_query (Message_new (msg_id req) Response_ OpCode_Query) q in
      let long_string := replicate 200 x78 in
      let record := Record_from_rdata (query_name q) 60 (txt_from_bytes [long_string]) in
      IoRet (Ok (Nat.iter 10 (fun m => add_answer m record) resp))
  end.

Definition client_and_server_roundtrip_over_udp : bool :=
  against echo_handler false (fun u => answers_response (DnsCrypt.exchange u) 42).
Definition client_and_server_roundtrip_over_tcp_on_truncation : bool :=
  against big_handler true (fun u =>
    try* resp := unwrap_io (DnsCrypt.exchange u (make_query 7 "example.com.")) in
    try* _ := assert (msg_id resp =? 7) in
    assert (10 <=? length (answers resp))%nat).
Definition provider_txt_query_is_auto_answered : bool :=
  passes
    (let* resolver_config := Keygen.generate provider in
     let config := server_config resolver_config (as_bytes "TESTMAGC") in
     let txt_query := add_query (Message_new 1 Query_ OpCode_Query)
                        (Query_query (provider : Name) RT_TXT) in
     try* packet := pack txt_query in
     try* resp := unwrap (try_answer_provider_txt packet config) in
     try* resp := unwrap_some resp in
     assert (length (answers resp) =? 1)%nat).
Example dnscrypt_listener_tests_pass :
  forallb id
    [client_and_server_roundtrip_over_udp; client_and_server_roundtrip_over_tcp_on_truncation;
     provider_txt_query_is_auto_answered] = true.
Proof. vm_refl. Qed.
End DnsCryptListenerTests.

(** ** [tests/live_exchange.rs] and [tests/plain_dns_proxy.rs] *)
Module ProxyTests.
Definition doh_addr : SocketAddr := parse_addr "127.0.0.1:8443".
Definition proxy_addr : SocketAddr := parse_addr "127.0.0.1:5301".
Definition address : Ipv4Addr := Ipv4 x5d xb8 xd8 x22.
(** The body of the response of the tests' own DoH servers: one asserts that
    the query has no identifier. *)
Definition received (req : HttpServerRequest) : io Heap (res Message string) :=
  let query := default "" (rq_query req) in
  let dns_param := default "" (find_map (strip_prefix "dns=") (split_char "&" query)) in
  try* raw := unwrap (from_sum id (b64_decode URL_SAFE_NO_PAD dns_param)) in
  parse_message raw.
Definition response_body (query_msg : Message) : io Heap (res bytes string) :=
  try* q := unwrap_some (head (queries query_msg)) in
  let resp := add_query (Message_new 0 Response_ OpCode_Query) q in
  pack (add_answer resp (Record_from_rdata (query_name q) 60 (Toy.ToyIp (V4 address) : RData))).
Definition handle (req : HttpServerRequest) : io Heap (res bytes string) :=
  try* query_msg := received req in
  try* _ := assert (msg_id query_msg =? 0) in
  response_body query_msg.
Definition handle_doh (req : HttpServerRequest) : io Heap (res bytes string) :=
  try* query_msg := received req in
  response_body query_msg.
Definition live_server (listener : Io.handle) : task (S := Heap) := Serving handle (DohLoop listener).
Definition doh_server (listener : Io.handle) : task (S := Heap) := Serving handle_doh (DohLoop listener).
Definition opts : Options (Resolver Heap) :=
  {| bootstrap := None; http_versions := [Http11; Http2]; opt_timeout := Some (from_secs 10);
     insecure_skip_verify := true; prefer_ipv6 := false; basic_auth := None |}.
Definition upstream : DohUpstream Heap :=
  Doh.new "localhost" (Some (sock_port doh_addr)) "/dns-query" opts (doh_cells (cells 0)).

Definition exchange_roundtrips_over_local_https_server : bool :=
  passes_after no_handler nobody empty_heap (unwrap_io (bind_tcp doh_addr)) (fun doh =>
    [live_server doh;
     Test (try* resp := unwrap_io (Doh.exchange upstream (make_query 48879 "example.com.")) in
           try* _ := assert (msg_id resp =? 48879) in
           assert (length (answers resp) =? 1)%nat)]).

(** [start_doh_server] and [start_plain_proxy]: the DoH server's socket and the
    proxy's loops. *)
Definition start : io Heap (res (Io.handle * list proc) string) :=
  try* doh := unwrap_io (bind_tcp doh_addr) in
  try* (udp, tcp) := unwrap_io (ListenerIo.serve proxy_addr) in
  IoRet (Ok (doh, [UdpLoop udp; TcpLoop tcp])).
Definition through_proxy (client : test Heap) : bool :=
  passes_after (Doh.into_handler upstream) nobody empty_heap start (fun '(doh, qs) =>
    (Listener <$> qs) ++ [doh_server doh; Test client]).
Definition recursive_query (id : Z) : Message := set_recursion_desired (make_query id "example.com.") true.
Definition check_answer (b : bytes) (id : Z) : test Heap :=
  try* resp := parse_message b in
  try* _ := assert (msg_id resp =? id) in
  assert (length (answers resp) =? 1)%nat.
Definition udp_query_is_forwarded_and_answered : bool :=
  through_proxy
    (try* client := unwrap_io (call (UdpBind "127.0.0.1:0")) in
     try* req_bytes := pack (recursive_query 4660) in
     try* _ := unwrap_io (call (UdpSendTo client req_bytes proxy_addr)) in
     let* r := timeout (from_secs 5) (call (RecvFrom client 4096)) in
     try* r := unwrap_some r in
     try* (b, _) := unwrap r in
     check_answer b 4660).
Definition tcp_query_is_forwarded_and_answered : bool :=
  through_proxy
    (try* stream := unwrap_io (call (TcpConnect proxy_addr)) in
     try* req_bytes := pack (recursive_query 22136) in
     try* _ := PlainTcpTests.write_framed stream req_bytes in
     try* b := PlainTcpTests.read_framed stream in
     check_answer b 22136).
Example proxy_tests_pass :
  forallb id
    [exchange_roundtrips_over_local_https_server; udp_query_is_forwarded_and_answered;
     tcp_query_is_forwarded_and_answered] = true.
Proof. vm_refl. Qed.
End ProxyTests.

(** ** The harness can fail

    A false assertion, a panic, a server that never answers and a client that
    gets the wrong answer are all seen. *)
Example failures_are_seen :
  [passes (assert false); passes (IoRet Panic);
   passes_with_server PlainUdpTests.bind (fun _ => IoRet (Ok tt))
     (gets_answer (PlainUdp.exchange PlainUdpTests.upstream) 42);
   passes_with_server PlainUdpTests.bind (PlainUdpTests.server_task other_name)
     (gets_answer (PlainUdp.exchange PlainUdpTests.upstream) 42);
   passes_with_server PlainUdpTests.bind (PlainUdpTests.server_task as_response) (assert true)]
  = [false; false; false; false; false].
Proof. vm_refl. Qed.
